(** * django-safedelete: soft deletion, visibility filtering and ordered siblings

    A shallow embedding of [safedelete/queryset.py] and [safedelete/models.py].
    Python objects that are mutated in place are threaded through a small
    state-and-exception monad: query sets are passed as the monad's state,
    model instances live in a heap of the world next to the stored rows and
    the log of calls made to the notification and storage collaborators. *)

From stdpp Require Import base option list gmap strings.
From Stdlib Require Import ZArith Lia.
Local Open Scope Z_scope.

(** ** Python outcomes: a value, a raised exception, or recursion cut short *)

Module Py.

Inductive Exn :=
  | AssertionError
  | TypeError
  | ValueError
  | NameError
  | DoesNotExist
  | MultipleObjectsReturned
  | IntegrityError
  | ReferenceError.

Inductive Outcome (A : Type) :=
  | Ok (a : A)
  | Raise (e : Exn)
  | OutOfFuel.
Global Arguments Ok {A} a.
Global Arguments Raise {A} e.
Global Arguments OutOfFuel {A}.

(** The values a caller may pass where the code expects an integer. *)
Inductive PyVal :=
  | PyInt (z : Z)
  | PyNone
  | PyStr (s : string).

(** A computation reads and writes a state [S]; an exception keeps the state
    reached when it was raised. *)
Definition M (S A : Type) : Type := S → Outcome A * S.

Global Instance M_ret {S} : MRet (M S) := λ A a s, (Ok a, s).
Global Instance M_bind {S} : MBind (M S) := λ A B f m s,
  match m s with
  | (Ok a, s') => f a s'
  | (Raise e, s') => (Raise e, s')
  | (OutOfFuel, s') => (OutOfFuel, s')
  end.

Definition raise {S A} (e : Exn) : M S A := λ s, (Raise e, s).
Definition out_of_fuel {S A} : M S A := λ s, (OutOfFuel, s).
Definition get_state {S} : M S S := λ s, (Ok s, s).
Definition put_state {S} (s : S) : M S unit := λ _, (Ok tt, s).
Definition gets {S A} (f : S → A) : M S A := λ s, (Ok (f s), s).
Definition modify {S} (f : S → S) : M S unit := λ s, (Ok tt, f s).

(** [assert cond] *)
Definition assert_ {S} (cond : bool) : M S unit :=
  if cond then mret tt else raise AssertionError.

(** [for x in xs: body x] *)
Fixpoint for_each {S A} (xs : list A) (body : A → M S unit) : M S unit :=
  match xs with
  | [] => mret tt
  | x :: rest => body x;; for_each rest body
  end.

(** Running a computation on a private state and discarding that state:
    used when a method builds a temporary object and only keeps the value. *)
Definition outcome_of {S A} (m : M S A) (s : S) : Outcome A := fst (m s).

End Py.
Import Py.

(** ** [safedelete/config.py]: policies and visibility modes

    The module is not among the sources; only the names of its constants are
    used, so they are taken as the constructors of two enumerations. *)

Module Config.

Inductive Policy :=
  | HARD_DELETE
  | SOFT_DELETE
  | SOFT_DELETE_CASCADE
  | HARD_DELETE_NOCASCADE
  | NO_DELETE.

Inductive Visibility :=
  | DELETED_INVISIBLE
  | DELETED_VISIBLE_BY_FIELD
  | DELETED_ONLY_VISIBLE
  | DELETED_VISIBLE.

Global Instance Policy_eq_dec : EqDecision Policy.
Proof. solve_decision. Defined.
Global Instance Visibility_eq_dec : EqDecision Visibility.
Proof. solve_decision. Defined.

End Config.
Import Config.

(** ** Classes, managers and rows *)

(** A Python class as [is_safedelete_cls] sees it: its module and its bases. *)
#[warnings="-register-all"]
Inductive PyClass := PyCls (name : string) (module_ : string) (bases : list PyClass).

Definition cls_name (c : PyClass) : string := let 'PyCls n _ _ := c in n.
Definition cls_module (c : PyClass) : string := let 'PyCls _ m _ := c in m.
Definition cls_bases (c : PyClass) : list PyClass := let 'PyCls _ _ b := c in b.

(** [order_with_respect_to]: [None], a single field name, or a tuple. *)
Inductive RespectTo :=
  | WrtNone
  | WrtStr (field : string)
  | WrtTuple (fields : list string).

(** A manager is either Django's plain one or one of the library's, which
    stamps its visibility mode and visibility field on every query set. *)
Inductive Manager :=
  | DjangoManager
  | SafeDeleteManager_ (visibility : Visibility) (visibility_field : string).

(** The class-level attributes of a model that the code reads. *)
Record Model := {
  pycls : PyClass;
  _safedelete_policy : Policy;
  _default_manager : Manager;
  all_objects : option Manager;
  pk_name : string;
  ordered : bool;
  order_field_name : string;
  order_with_respect_to : RespectTo;
  order_class_path : option string;
}.

Definition model_name (m : Model) : string := cls_name (pycls m).

(** A stored row. [r_fields] holds the declared columns other than the
    primary key, [deleted] and the order column; a missing key is NULL. *)
Record Row := {
  r_model : Model;
  r_pk : Z;
  r_deleted : option Z;
  r_order : option Z;
  r_fields : gmap string Z;
}.

Definition row_get (r : Row) (f : string) : option Z :=
  if bool_decide (f = "pk" ∨ f = pk_name (r_model r)) then Some (r_pk r)
  else if ordered (r_model r) && bool_decide (f = order_field_name (r_model r))
       then r_order r
       else r_fields r !! f.

(** A model instance in memory: the same attributes, a primary key that is
    [None] until the first save, and Django's [_state.adding]. *)
Record Instance := {
  i_model : Model;
  i_pk : option Z;
  i_deleted : option Z;
  i_order : option Z;
  i_fields : gmap string Z;
  i_adding : bool;
}.

(** [getattr(obj, field)] for a declared field. *)
Definition inst_get (i : Instance) (f : string) : option Z :=
  if bool_decide (f = "pk" ∨ f = pk_name (i_model i)) then i_pk i
  else if ordered (i_model i) && bool_decide (f = order_field_name (i_model i))
       then i_order i
       else i_fields i !! f.

Definition to_row (k : Z) (i : Instance) : Row :=
  {| r_model := i_model i; r_pk := k; r_deleted := i_deleted i;
     r_order := i_order i; r_fields := i_fields i |}.

Definition of_row (r : Row) : Instance :=
  {| i_model := r_model r; i_pk := Some (r_pk r); i_deleted := r_deleted r;
     i_order := r_order r; i_fields := r_fields r; i_adding := false |}.

(** ** [safedelete/queryset.py] *)

Module Queryset.

(** Django's [sql.Query], as far as this code uses it: the conjunction of
    conditions added so far, and whether a slice has been taken. *)
Inductive CmpOp := Gt | Gte | Lt | Lte.

Inductive Cond :=
  | Exact (field : string) (value : option Z)
  | OrderCmp (op : CmpOp) (order : Z)
  | DeletedIsNull (isnull : bool)
  | ExcludePk (pk : Z).

Record Query := {
  where_ : list Cond;
  is_sliced : bool;
}.

Definition can_filter (q : Query) : bool := negb (is_sliced q).
Definition add_q (c : Cond) (q : Query) : Query :=
  {| where_ := where_ q ++ [c]; is_sliced := is_sliced q |}.

Record QuerySet := {
  model : Model;
  query : Query;
  _safedelete_visibility : Visibility;
  _safedelete_visibility_field : string;
  _safedelete_filter_applied : bool;
  _safedelete_force_visibility : option Visibility;
}.

Definition set_query (q : Query) (qs : QuerySet) : QuerySet :=
  {| model := model qs; query := q;
     _safedelete_visibility := _safedelete_visibility qs;
     _safedelete_visibility_field := _safedelete_visibility_field qs;
     _safedelete_filter_applied := _safedelete_filter_applied qs;
     _safedelete_force_visibility := _safedelete_force_visibility qs |}.

Definition set_filter_applied (b : bool) (qs : QuerySet) : QuerySet :=
  {| model := model qs; query := query qs;
     _safedelete_visibility := _safedelete_visibility qs;
     _safedelete_visibility_field := _safedelete_visibility_field qs;
     _safedelete_filter_applied := b;
     _safedelete_force_visibility := _safedelete_force_visibility qs |}.

Definition set_force_visibility (v : option Visibility) (qs : QuerySet) : QuerySet :=
  {| model := model qs; query := query qs;
     _safedelete_visibility := _safedelete_visibility qs;
     _safedelete_visibility_field := _safedelete_visibility_field qs;
     _safedelete_filter_applied := _safedelete_filter_applied qs;
     _safedelete_force_visibility := v |}.

Definition set_visibility (v : Visibility) (f : string) (qs : QuerySet) : QuerySet :=
  {| model := model qs; query := query qs;
     _safedelete_visibility := v;
     _safedelete_visibility_field := f;
     _safedelete_filter_applied := _safedelete_filter_applied qs;
     _safedelete_force_visibility := _safedelete_force_visibility qs |}.

(** Django's [QuerySet._clone]: a new object of the same class over a copy of
    the query. The new object starts from the class attributes
    ([_safedelete_filter_applied = False], no forced visibility); the
    visibility attributes are instance attributes that the override copies. *)
Definition QuerySet_clone (self : QuerySet) : QuerySet :=
  {| model := model self; query := query self;
     _safedelete_visibility := DELETED_VISIBLE;
     _safedelete_visibility_field := "";
     _safedelete_filter_applied := false;
     _safedelete_force_visibility := None |}.

(** [SafeDeleteQueryset._clone] *)
Definition _clone (self : QuerySet) : QuerySet :=
  let clone := QuerySet_clone self in
  let clone := set_visibility (_safedelete_visibility self)
                 (_safedelete_visibility_field self) clone in
  let clone := set_filter_applied (_safedelete_filter_applied self) clone in
  match _safedelete_force_visibility self with
  | Some v => set_force_visibility (Some v) clone
  | None => clone
  end.

(** [SafeDeleteQueryset.all]: the assignment is made on [self], then Django's
    [all] returns [self._clone()]. *)
Definition all (force_visibility : option Visibility) : M QuerySet QuerySet :=
  match force_visibility with
  | Some v => modify (set_force_visibility (Some v))
  | None => mret tt
  end;;
  gets _clone.

(** The keyword under which a condition is passed to [filter]. *)
Definition op_name (op : CmpOp) : string :=
  match op with Gt => "gt" | Gte => "gte" | Lt => "lt" | Lte => "lte" end.

Definition kwarg_name (m : Model) (c : Cond) : string :=
  match c with
  | Exact f _ => f
  | OrderCmp op _ => order_field_name m +:+ "__" +:+ op_name op
  | DeletedIsNull _ => "deleted__isnull"
  | ExcludePk _ => "pk"
  end.

(** [SafeDeleteQueryset._check_field_filter] *)
Definition _check_field_filter (kwargs : list Cond) : M QuerySet unit :=
  self ← get_state;
  if bool_decide (_safedelete_visibility self = DELETED_VISIBLE_BY_FIELD)
     && bool_decide (_safedelete_visibility_field self ∈ kwarg_name (model self) <$> kwargs)
  then modify (set_force_visibility (Some DELETED_VISIBLE))
  else mret tt.

(** Django's [QuerySet.filter]: refuses a sliced query, otherwise clones and
    adds the conditions to the clone. *)
Definition QuerySet_filter (kwargs : list Cond) : M QuerySet QuerySet :=
  self ← get_state;
  assert_ (can_filter (query self));;
  let clone := _clone self in
  mret (set_query (foldl (λ q c, add_q c q) (query clone) kwargs) clone).

(** [SafeDeleteQueryset.filter]: everything happens on the copy
    [queryset]; [self] is only read. *)
Definition filter (kwargs : list Cond) : M QuerySet QuerySet :=
  self ← get_state;
  let queryset := _clone self in
  match (_check_field_filter kwargs;; QuerySet_filter kwargs) queryset with
  | (Ok r, _) => mret r
  | (Raise e, _) => raise e
  | (OutOfFuel, _) => out_of_fuel
  end.

(** [SafeDeleteQueryset._filter_visibility] *)
Definition _filter_visibility : M QuerySet unit :=
  self ← get_state;
  let force_visibility := _safedelete_force_visibility self in
  let visibility :=
    match force_visibility with
    | Some v => v
    | None => _safedelete_visibility self
    end in
  if negb (_safedelete_filter_applied self)
     && bool_decide (visibility ∈ [DELETED_INVISIBLE; DELETED_VISIBLE_BY_FIELD; DELETED_ONLY_VISIBLE])
  then
    assert_ (can_filter (query self));;
    modify (λ self, set_query
      (add_q (DeletedIsNull
                (bool_decide (visibility ∈ [DELETED_INVISIBLE; DELETED_VISIBLE_BY_FIELD])))
             (query self)) self);;
    modify (set_filter_applied true)
  else mret tt.

(** *** Evaluation against the stored rows *)

Definition cmp_holds (op : CmpOp) (x o : Z) : bool :=
  match op with
  | Gt => o <? x
  | Gte => o <=? x
  | Lt => x <? o
  | Lte => x <=? o
  end.

Definition cond_holds (c : Cond) (r : Row) : bool :=
  match c with
  | Exact f v => bool_decide (row_get r f = v)
  | OrderCmp op o =>
      match r_order r with
      | Some x => cmp_holds op x o
      | None => false
      end
  | DeletedIsNull b => Bool.eqb (bool_decide (r_deleted r = None)) b
  | ExcludePk k => negb (r_pk r =? k)
  end.

(** The rows a query set selects: those of its model's table that satisfy
    every condition of its query. *)
Definition selects (qs : QuerySet) (r : Row) : bool :=
  bool_decide (model_name (r_model r) = model_name (model qs))
  && forallb (λ c, cond_holds c r) (where_ (query qs)).

Definition rows_of (qs : QuerySet) (db : list Row) : list Row :=
  List.filter (selects qs) db.

(** Calling a method on another query set object [obj] from a computation
    whose own state is [S]: the object is a temporary, only the value is kept. *)
Definition with_qs {S A} (obj : QuerySet) (m : M QuerySet A) : M S A :=
  λ s, (outcome_of m obj, s).

(** Calling a method on [obj] and keeping the object as the call left it. *)
Definition run_qs {S A} (obj : QuerySet) (m : M QuerySet A) : M S (A * QuerySet) :=
  λ s, match m obj with
       | (Ok a, obj') => (Ok (a, obj'), s)
       | (Raise e, _) => (Raise e, s)
       | (OutOfFuel, _) => (OutOfFuel, s)
       end.

(** [__getattribute__] runs [_filter_visibility] on [self] before any of the
    evaluating methods ([_fetch_all], [count], [exists], [aggregate],
    [update], ...); [fetch] is that step followed by reading the rows. *)
Definition fetch (db : list Row) : M QuerySet (list Row) :=
  _filter_visibility;;
  gets (λ self, rows_of self db).

(** Django's [QuerySet.exclude(pk=k)] *)
Definition exclude_pk (k : Z) : M QuerySet QuerySet :=
  self ← get_state;
  assert_ (can_filter (query self));;
  let clone := _clone self in
  mret (set_query (add_q (ExcludePk k) (query clone)) clone).

(** [SafeDeleteQueryset.get]: Django's [get] filters once more through the
    overridden [filter] and expects exactly one row. *)
Definition QuerySet_get (kwargs : list Cond) (db : list Row) : M QuerySet Row :=
  clone ← filter kwargs;
  rows ← with_qs clone (fetch db);
  match rows with
  | [r] => mret r
  | [] => raise DoesNotExist
  | _ => raise MultipleObjectsReturned
  end.

Definition get (kwargs : list Cond) (db : list Row) : M QuerySet Row :=
  self ← get_state;
  let queryset := _clone self in
  with_qs queryset
    (_check_field_filter kwargs;;
     _filter_visibility;;
     QuerySet_get kwargs db).

(** *** [OrderedSafeDeleteQueryset] *)

Definition truthy_respect_to (o : RespectTo) : bool :=
  match o with
  | WrtNone => false
  | WrtStr s => negb (bool_decide (s = ""))
  | WrtTuple l => negb (bool_decide (l = []))
  end.

Definition _get_order_with_respect_to {S} (m : Model) : M S (list string) :=
  match order_with_respect_to m with
  | WrtStr s => mret [s]
  | WrtNone => raise AssertionError
  | WrtTuple l => mret l
  end.

Definition max_of (l : list Z) : option Z :=
  foldr (λ x acc, Some (match acc with Some y => Z.max x y | None => x end)) None l.
Definition min_of (l : list Z) : option Z :=
  foldr (λ x acc, Some (match acc with Some y => Z.min x y | None => x end)) None l.

(** The aggregate ignores NULL orders and is [None] over no rows. *)
Definition get_max_order (db : list Row) : M QuerySet (option Z) :=
  rows ← fetch db;
  mret (max_of (omap r_order rows)).

Definition get_min_order (db : list Row) : M QuerySet (option Z) :=
  rows ← fetch db;
  mret (min_of (omap r_order rows)).

Definition get_next_order (db : list Row) : M QuerySet Z :=
  order ← get_max_order db;
  mret (match order with Some order => order + 1 | None => 0 end).

(** Django refuses [None] as the value of a comparison lookup. *)
Definition above (order : option Z) (inclusive : bool) : M QuerySet QuerySet :=
  let lookup := if inclusive then Gte else Gt in
  match order with
  | Some order => filter [OrderCmp lookup order]
  | None => raise ValueError
  end.

Definition below (order : option Z) (inclusive : bool) : M QuerySet QuerySet :=
  let lookup := if inclusive then Lte else Lt in
  match order with
  | Some order => filter [OrderCmp lookup order]
  | None => raise ValueError
  end.

(** [update(order = F(order) + delta, **extra_kwargs)] on one row: the extra
    keywords are applied last, so one named like the order column replaces
    the arithmetic. *)
Definition update_row (delta : Z) (extra_kwargs : gmap string Z) (r : Row) : Row :=
  {| r_model := r_model r; r_pk := r_pk r; r_deleted := r_deleted r;
     r_order := match extra_kwargs !! order_field_name (r_model r) with
                | Some v => Some v
                | None => (λ o, o + delta) <$> r_order r
                end;
     r_fields := base.delete (order_field_name (r_model r)) extra_kwargs ∪ r_fields r |}.

(** Django's [QuerySet.update]: one statement over the selected rows; the
    value is the table after it. *)
Definition update (delta : Z) (extra_kwargs : gmap string Z) (db : list Row)
  : M QuerySet (list Row) :=
  _filter_visibility;;
  self ← get_state;
  assert_ (can_filter (query self));;
  mret ((λ r, if selects self r then update_row delta extra_kwargs r else r) <$> db).

Definition decrease_order (extra_kwargs : gmap string Z) (db : list Row)
  : M QuerySet (list Row) :=
  update (-1) extra_kwargs db.

Definition increase_order (extra_kwargs : gmap string Z) (db : list Row)
  : M QuerySet (list Row) :=
  update 1 extra_kwargs db.

(** [get_lookup_value]: the separator-joined path is taken as one field. *)
Definition get_lookup_value (obj : Instance) (field : string) : option Z :=
  inst_get obj field.

Definition above_instance (ref : Instance) (inclusive : bool) : M QuerySet QuerySet :=
  let order := i_order ref in
  above order inclusive.

Definition below_instance (ref : Instance) (inclusive : bool) : M QuerySet QuerySet :=
  let order := i_order ref in
  below order inclusive.

(** The dictionary [{field: value}] over the respect-to fields. *)
Definition _get_order_with_respect_to_filter_kwargs {S} (m : Model) (ref : Instance)
  : M S (gmap string (option Z)) :=
  order_with_respect_to ← _get_order_with_respect_to m;
  mret (list_to_map ((λ field, (field, get_lookup_value ref field)) <$> order_with_respect_to)).

Definition kwargs_conds (kwargs : gmap string (option Z)) : list Cond :=
  (λ kv, Exact kv.1 kv.2) <$> map_to_list kwargs.

Definition filter_by_order_with_respect_to (ref : Instance) : M QuerySet QuerySet :=
  self ← get_state;
  let order_with_respect_to := order_with_respect_to (model self) in
  if truthy_respect_to order_with_respect_to then
    filter_kwargs ← _get_order_with_respect_to_filter_kwargs (model self) ref;
    filter (kwargs_conds filter_kwargs)
  else mret self.

(** *** Django's [first] and [last]

    [BaseOrderedSafeDeleteModel.Meta] sets [ordering] to the order column, so
    the query set is ordered and [first] is its row of least order, [last]
    (which reverses the ordering) its row of greatest order; [__getattribute__]
    runs [_filter_visibility] before either. SQLite puts NULL before every
    value. Among rows of equal order the database chooses: here the one
    stored first. *)
Definition order_before (a b : option Z) : bool :=
  match a, b with
  | None, _ => true
  | Some _, None => false
  | Some x, Some y => x <=? y
  end.

Fixpoint least (rows : list Row) : option Row :=
  match rows with
  | [] => None
  | r :: rest =>
      match least rest with
      | Some r' => if order_before (r_order r) (r_order r') then Some r else Some r'
      | None => Some r
      end
  end.

Fixpoint greatest (rows : list Row) : option Row :=
  match rows with
  | [] => None
  | r :: rest =>
      match greatest rest with
      | Some r' => if order_before (r_order r') (r_order r) then Some r else Some r'
      | None => Some r
      end
  end.

Definition QuerySet_first (db : list Row) : M QuerySet (option Row) :=
  rows ← fetch db;
  mret (least rows).

Definition QuerySet_last (db : list Row) : M QuerySet (option Row) :=
  rows ← fetch db;
  mret (greatest rows).

End Queryset.

(** ** [safedelete/managers.py] *)

Module Managers.
Import Queryset.

(** Modelled from the spec: [safedelete/managers.py] is not among the
    sources. The class docstring of [SafeDeleteModel] and the data model of
    the specification fix what the three managers return: [objects] the
    non-deleted rows, [all_objects] every row, [deleted_objects] the
    soft-deleted ones; a query entry point takes its visibility mode from
    its manager. *)
Definition get_queryset (m : Model) (mgr : Manager) : QuerySet :=
  match mgr with
  | DjangoManager =>
      {| model := m; query := {| where_ := []; is_sliced := false |};
         _safedelete_visibility := DELETED_VISIBLE;
         _safedelete_visibility_field := "pk";
         _safedelete_filter_applied := false;
         _safedelete_force_visibility := None |}
  | SafeDeleteManager_ v f =>
      {| model := m; query := {| where_ := []; is_sliced := false |};
         _safedelete_visibility := v;
         _safedelete_visibility_field := f;
         _safedelete_filter_applied := false;
         _safedelete_force_visibility := None |}
  end.

Definition SafeDeleteManager : Manager := SafeDeleteManager_ DELETED_INVISIBLE "pk".
Definition SafeDeleteAllManager : Manager := SafeDeleteManager_ DELETED_VISIBLE "pk".
Definition SafeDeleteDeletedManager : Manager := SafeDeleteManager_ DELETED_ONLY_VISIBLE "pk".

(** The managers of [BaseOrderedSafeDeleteModel] return the same rows, as
    ordered query sets. *)
Definition OrderedSafeDeleteManager : Manager := SafeDeleteManager.
Definition OrderedSafeDeleteAllManager : Manager := SafeDeleteAllManager.
Definition OrderedSafeDeleteDeletedManager : Manager := SafeDeleteDeletedManager.

End Managers.

(** ** [safedelete/models.py] *)

Module Models.
Import Queryset Managers.

(** [is_safedelete_cls]: some base, at any depth, lives in a module whose
    name starts with [safedelete.models]. *)
Fixpoint is_safedelete_cls (cls : PyClass) : bool :=
  match cls with
  | PyCls _ _ bases =>
      existsb (λ base, String.prefix "safedelete.models" (cls_module base)
                       || is_safedelete_cls base) bases
  end.

(** *** The world: stored rows, instances in memory, collaborator calls *)

Inductive Signal := pre_softdelete | post_softdelete | post_undelete.

(** What the collaborators see, in the order the calls are made: a signal
    carries the instance as it is when the signal is sent, the storage layer
    the row it writes or the rows it removes. *)
Inductive Event :=
  | Sent (signal : Signal) (instance : Instance)
  | Saved (row : Row)
  | Removed (rows : list Row).

Record World := {
  db : list Row;
  heap : list Instance;
  log : list Event;
  clock : Z;
}.

Definition set_db (d : list Row) (w : World) : World :=
  {| db := d; heap := heap w; log := log w; clock := clock w |}.
Definition set_heap (h : list Instance) (w : World) : World :=
  {| db := db w; heap := h; log := log w; clock := clock w |}.
Definition add_log (e : Event) (w : World) : World :=
  {| db := db w; heap := heap w; log := log w ++ [e]; clock := clock w |}.
Definition tick (w : World) : World :=
  {| db := db w; heap := heap w; log := log w; clock := clock w + 1 |}.

(** Reading and writing the object behind a reference. *)
Definition getobj (ref : nat) : M World Instance :=
  λ w, match heap w !! ref with
       | Some i => (Ok i, w)
       | None => (Raise ReferenceError, w)
       end.

Definition setobj (ref : nat) (i : Instance) : M World unit :=
  modify (λ w, set_heap (<[ref := i]> (heap w)) w).

Definition new_objs (objs : list Instance) : M World (list nat) :=
  λ w, (Ok (seq (length (heap w)) (length objs)), set_heap (heap w ++ objs) w).

Definition put_db (d : list Row) : M World unit := modify (set_db d).

(** [timezone.now()] *)
Definition now : M World Z := λ w, (Ok (clock w), tick w).

(** [signal.send(sender=self.__class__, instance=self, using=using)] *)
Definition send (signal : Signal) (self : nat) : M World unit :=
  i ← getobj self;
  modify (add_log (Sent signal i)).

Definition set_deleted (v : option Z) (i : Instance) : Instance :=
  {| i_model := i_model i; i_pk := i_pk i; i_deleted := v;
     i_order := i_order i; i_fields := i_fields i; i_adding := i_adding i |}.
Definition set_order (v : option Z) (i : Instance) : Instance :=
  {| i_model := i_model i; i_pk := i_pk i; i_deleted := i_deleted i;
     i_order := v; i_fields := i_fields i; i_adding := i_adding i |}.
Definition set_saved (k : option Z) (i : Instance) : Instance :=
  {| i_model := i_model i; i_pk := k; i_deleted := i_deleted i;
     i_order := i_order i; i_fields := i_fields i; i_adding := false |}.

(** Python truth of [self.deleted] (a datetime or [None]) and of [self.pk]
    (an integer or [None]). *)
Definition truthy_deleted (d : option Z) : bool :=
  match d with Some _ => true | None => false end.
Definition truthy_pk (k : option Z) : bool :=
  match k with Some k => negb (k =? 0) | None => false end.

(** *** Django's [Model.save] and [Model.delete] *)

Definition same_row (m : Model) (k : Z) (r : Row) : bool :=
  bool_decide (model_name (r_model r) = model_name m) && (r_pk r =? k).

Definition next_pk (m : Model) (d : list Row) : Z :=
  1 + foldr Z.max 0
        (r_pk <$> List.filter (λ r, bool_decide (model_name (r_model r) = model_name m)) d).

(** The primary key under which an instance is written: its own, or the
    next one of its table. *)
Definition key_of (i : Instance) (d : list Row) : Z :=
  match i_pk i with
  | Some k => k
  | None => next_pk (i_model i) d
  end.

(** Update the row of that primary key, or insert one. *)
Definition write_row (row : Row) (d : list Row) : list Row :=
  if existsb (same_row (r_model row) (r_pk row)) d
  then (λ r, if same_row (r_model row) (r_pk row) r then row else r) <$> d
  else d ++ [row].

(** Django's [Model.save]: the row under the key of the instance is updated,
    or a row is added under the next key of the table. The columns are
    declared by the classes that use the package, which are not among the
    sources: storage takes any integer here. A theorem on [to] or [delete]
    that promises a result for an order chosen by the caller is stated for
    the orders the column holds, [Readings.storable_order]. *)
Definition Model_save (self : nat) : M World unit :=
  i ← getobj self;
  d ← gets db;
  let k := key_of i d in
  let row := to_row k i in
  put_db (write_row row d);;
  setobj self (set_saved (Some k) i);;
  modify (add_log (Saved row)).

(** The message of [unique_error_message(model_class, unique_check)]. *)
Record UniqueError := {
  ue_model : string;
  ue_fields : list string;
}.

Definition NON_FIELD_ERRORS : string := "__all__".

Section Engine.

(** [safedelete/utils.py] and the values behind the policy constants are not
    among the sources. They are parameters of the development:
    - [policy_truthy p]: whether the constant [p] is true in a Python [or];
    - [references r o]: whether the row identified by [r] (model name and
      primary key) is among the objects that deleting [o] would collect, an
      arbitrary directed graph over row identities;
    - [can_hard_delete]: the answer of the helper of that name. *)
Variable policy_truthy : Policy → bool.
Variable references : string * Z → string * Z → bool.
Variable can_hard_delete : list Row → Instance → bool.

Definition row_id (r : Row) : string * Z := (model_name (r_model r), r_pk r).

Definition related_rows (i : Instance) (d : list Row) : list Row :=
  match i_pk i with
  | Some k => List.filter (λ r, references (row_id r) (model_name (i_model i), k)) d
  | None => []
  end.

(** Modelled from the spec: [related_objects] of [safedelete/utils.py] is
    missing. The relationship graph is a read-only view: the related records
    of [self] are read from storage when the call is made, as fresh
    instances. *)
Definition related_objects (self : nat) : M World (list nat) :=
  i ← getobj self;
  d ← gets db;
  new_objs (of_row <$> related_rows i d).

(** Django's [Model.delete]: the row and everything collected with it go. *)
Definition Model_delete (self : nat) : M World unit :=
  i ← getobj self;
  match i_pk i with
  | None => raise AssertionError
  | Some k =>
      d ← gets db;
      let gone r := same_row (i_model i) k r
                    || references (row_id r) (model_name (i_model i), k) in
      put_db (List.filter (λ r, negb (gone r)) d);;
      setobj self (set_saved None i);;
      modify (add_log (Removed (List.filter gone d)))
  end.

(** *** [SafeDeleteModel] *)

Definition SafeDeleteModel_save (self : nat) (keep_deleted : bool) : M World unit :=
  i ← getobj self;
  let was_undeleted :=
    if negb keep_deleted
    then truthy_deleted (i_deleted i) && truthy_pk (i_pk i)
    else false in
  (if negb keep_deleted then setobj self (set_deleted None i) else mret tt);;
  Model_save self;;
  if was_undeleted then send post_undelete self else mret tt.

(** [get_ordering_queryset(self)], with [qs=None]. [models.py] never imports
    [import_string], so the branch for [order_class_path] stops at the name. *)
Definition get_ordering_queryset {S} (self : Instance) : M S QuerySet :=
  qs ← match order_class_path (i_model self) with
       | Some _ => raise NameError
       | None => mret (get_queryset (i_model self) (_default_manager (i_model self)))
       end;
  with_qs qs (filter_by_order_with_respect_to self).

(** [BaseOrderedSafeDeleteModel.save] *)
Definition BaseOrderedSafeDeleteModel_save (self : nat) (keep_deleted : bool)
  : M World unit :=
  i ← getobj self;
  match i_order i with
  | None =>
      qs ← get_ordering_queryset i;
      d ← gets db;
      order ← with_qs qs (get_next_order d);
      setobj self (set_order (Some order) i)
  | Some _ => mret tt
  end;;
  SafeDeleteModel_save self keep_deleted.

(** [self.save(...)]: the method of the instance's class. *)
Definition save (self : nat) (keep_deleted : bool) : M World unit :=
  i ← getobj self;
  if ordered (i_model i)
  then BaseOrderedSafeDeleteModel_save self keep_deleted
  else SafeDeleteModel_save self keep_deleted.

(** [SafeDeleteModel.undelete]; [related.undelete()] is the recursive call. *)
Fixpoint undelete (fuel : nat) (self : nat) (force_policy : option Policy)
  : M World unit :=
  match fuel with
  | O => out_of_fuel
  | S fuel =>
      i ← getobj self;
      let current_policy :=
        match force_policy with
        | Some p => if policy_truthy p then p else _safedelete_policy (i_model i)
        | None => _safedelete_policy (i_model i)
        end in
      assert_ (truthy_deleted (i_deleted i));;
      save self false;;
      if bool_decide (current_policy = SOFT_DELETE_CASCADE) then
        rel ← related_objects self;
        for_each rel (λ related,
          r ← getobj related;
          if is_safedelete_cls (pycls (i_model r)) && truthy_deleted (i_deleted r)
          then undelete fuel related None
          else mret tt)
      else mret tt
  end.

(** The body of the loop of [undelete], by name. *)
Definition undelete_related (fuel : nat) (related : nat) : M World unit :=
  r ← getobj related;
  if is_safedelete_cls (pycls (i_model r)) && truthy_deleted (i_deleted r)
  then undelete fuel related None
  else mret tt.

(** The body of the loop of [delete] under SOFT_DELETE_CASCADE;
    [self_delete] is the [delete] method, see below. *)
Definition delete_related (self_delete : nat → option Policy → M World unit)
    (related : nat) : M World unit :=
  r ← getobj related;
  if is_safedelete_cls (pycls (i_model r)) && negb (truthy_deleted (i_deleted r))
  then self_delete related (Some SOFT_DELETE)
  else mret tt.

(** [SafeDeleteModel.delete]. The calls [self.delete(force_policy=...)] and
    [related.delete(force_policy=...)] are method calls on the object, so
    they reach the override of the object's class: [self_delete] stands for
    that method. *)
Definition SafeDeleteModel_delete (self_delete : nat → option Policy → M World unit)
    (self : nat) (force_policy : option Policy) : M World unit :=
  i ← getobj self;
  let current_policy :=
    match force_policy with
    | None => _safedelete_policy (i_model i)
    | Some p => p
    end in
  match current_policy with
  | NO_DELETE => mret tt
  | SOFT_DELETE =>
      t ← now;
      setobj self (set_deleted (Some t) i);;
      send pre_softdelete self;;
      save self true;;
      send post_softdelete self
  | HARD_DELETE => Model_delete self
  | HARD_DELETE_NOCASCADE =>
      d ← gets db;
      if negb (can_hard_delete d i)
      then self_delete self (Some SOFT_DELETE)
      else self_delete self (Some HARD_DELETE)
  | SOFT_DELETE_CASCADE =>
      rel ← related_objects self;
      for_each rel (delete_related self_delete);;
      self_delete self (Some SOFT_DELETE)
  end.

(** [BaseOrderedSafeDeleteModel.delete]: the siblings above are shifted,
    then the [delete] of the parent class runs. *)
Definition BaseOrderedSafeDeleteModel_delete (super_delete : M World unit)
    (self : nat) (extra_update : option (gmap string Z)) : M World unit :=
  i ← getobj self;
  qs ← get_ordering_queryset i;
  let extra_update := default ∅ extra_update in
  q ← with_qs qs (above_instance i false);
  d ← gets db;
  d' ← with_qs q (decrease_order extra_update d);
  put_db d';;
  super_delete.

(** [obj.delete(force_policy, extra_update)]: the method of the object's
    class. The fuel bounds the depth of the nested [delete] calls. *)
Fixpoint delete (fuel : nat) (self : nat) (force_policy : option Policy)
    (extra_update : option (gmap string Z)) : M World unit :=
  match fuel with
  | O => out_of_fuel
  | S fuel =>
      i ← getobj self;
      let base := SafeDeleteModel_delete (λ obj p, delete fuel obj p None) self force_policy in
      if ordered (i_model i)
      then BaseOrderedSafeDeleteModel_delete base self extra_update
      else base
  end.

(** *** [SafeDeleteModel._perform_unique_checks] *)

(** The inner loop: the lookup dictionary of one unique check. *)
Definition lookup_kwargs_of (i : Instance) (unique_check : list string) : gmap string Z :=
  foldl (λ lookup_kwargs field_name,
           match inst_get i field_name with
           | None => lookup_kwargs
           | Some lookup_value =>
               if bool_decide (field_name = pk_name (i_model i)) && negb (i_adding i)
               then lookup_kwargs
               else <[field_name := lookup_value]> lookup_kwargs
           end) ∅ unique_check.

Definition unique_check_step (i : Instance) (d : list Row)
    (errors : gmap string (list UniqueError)) (check : Model * list string)
  : M World (gmap string (list UniqueError)) :=
  let '(model_class, unique_check) := check in
  let lookup_kwargs := lookup_kwargs_of i unique_check in
  if bool_decide (length unique_check ≠ size lookup_kwargs) then mret errors
  else
    let kwargs := kwargs_conds (Some <$> lookup_kwargs) in
    qs ← match all_objects model_class with
         | Some mgr => with_qs (get_queryset model_class mgr) (filter kwargs)
         | None => with_qs (get_queryset model_class (_default_manager model_class))
                     (filter kwargs)
         end;
    let model_class_pk := i_pk i in
    qs ← match model_class_pk with
         | Some k => if negb (i_adding i) then with_qs qs (exclude_pk k) else mret qs
         | None => mret qs
         end;
    rows ← with_qs qs (fetch d);
    if bool_decide (rows ≠ []) then
      let key := match unique_check with
                 | [field] => field
                 | _ => NON_FIELD_ERRORS
                 end in
      mret (<[key := default [] (errors !! key)
                     ++ [{| ue_model := model_name model_class; ue_fields := unique_check |}]]>
              errors)
    else mret errors.

Fixpoint unique_checks_loop (i : Instance) (d : list Row)
    (unique_checks : list (Model * list string))
    (errors : gmap string (list UniqueError))
  : M World (gmap string (list UniqueError)) :=
  match unique_checks with
  | [] => mret errors
  | check :: rest =>
      errors ← unique_check_step i d errors check;
      unique_checks_loop i d rest errors
  end.

Definition _perform_unique_checks (self : nat) (unique_checks : list (Model * list string))
  : M World (gmap string (list UniqueError)) :=
  i ← getobj self;
  d ← gets db;
  unique_checks_loop i d unique_checks ∅.

(** *** [BaseOrderedSafeDeleteModel] *)

Definition is_none_respect_to (o : RespectTo) : bool :=
  match o with WrtNone => true | _ => false end.

Definition _validate_ordering_reference (self ref : nat) : M World unit :=
  s ← getobj self;
  r ← getobj ref;
  if negb (is_none_respect_to (order_with_respect_to (i_model s))) then
    self_kwargs ← _get_order_with_respect_to_filter_kwargs (i_model s) s;
    ref_kwargs ← _get_order_with_respect_to_filter_kwargs (i_model r) r;
    if bool_decide (self_kwargs ≠ ref_kwargs) then raise ValueError else mret tt
  else mret tt.

(** [swap(self, replacement)] *)
Definition swap (self replacement : nat) : M World unit :=
  _validate_ordering_reference self replacement;;
  s ← getobj self;
  r ← getobj replacement;
  let '(order, replacement_order) := (i_order s, i_order r) in
  setobj self (set_order replacement_order s);;
  r ← getobj replacement;
  setobj replacement (set_order order r);;
  save self false;;
  save replacement false.

(** [a > b] on an attribute that may be [None]. *)
Definition py_gt {S} (a : option Z) (b : option Z) : M S bool :=
  match a, b with
  | Some a, Some b => mret (b <? a)
  | _, _ => raise TypeError
  end.

(** [to(self, order, extra_update=None)] *)
Definition to (self : nat) (order : PyVal) (extra_update : option (gmap string Z))
  : M World unit :=
  match order with
  | PyInt order =>
      i ← getobj self;
      if bool_decide (i_order i = Some order) then mret tt
      else
        qs ← get_ordering_queryset i;
        let extra_update := default ∅ extra_update in
        up ← py_gt (i_order i) (Some order);
        d ← gets db;
        (if up : bool then
           q ← with_qs qs (below_instance i false);
           q ← with_qs q (Queryset.above (Some order) true);
           d' ← with_qs q (increase_order extra_update d);
           put_db d'
         else
           q ← with_qs qs (above_instance i false);
           q ← with_qs q (Queryset.below (Some order) true);
           d' ← with_qs q (decrease_order extra_update d);
           put_db d');;
        i ← getobj self;
        setobj self (set_order (Some order) i);;
        save self false
  | _ => raise TypeError
  end.

Definition py_of_order (o : option Z) : PyVal :=
  match o with Some z => PyInt z | None => PyNone end.

(** [x or 0] *)
Definition or_zero (o : option Z) : Z := default 0 o.

(** [above(self, ref, extra_update=None)] *)
Definition above (self ref : nat) (extra_update : option (gmap string Z)) : M World unit :=
  _validate_ordering_reference self ref;;
  s ← getobj self;
  r ← getobj ref;
  if bool_decide (i_order s = i_order r) then mret tt
  else
    up ← py_gt (i_order s) (i_order r);
    o ← (if up : bool then mret (py_of_order (i_order r))
         else
           qs ← get_ordering_queryset s;
           q ← with_qs qs (below_instance r false);
           d ← gets db;
           m ← with_qs q (get_max_order d);
           mret (PyInt (or_zero m)));
    to self o extra_update.

(** [below(self, ref, extra_update=None)] *)
Definition below (self ref : nat) (extra_update : option (gmap string Z)) : M World unit :=
  _validate_ordering_reference self ref;;
  s ← getobj self;
  r ← getobj ref;
  if bool_decide (i_order s = i_order r) then mret tt
  else
    up ← py_gt (i_order s) (i_order r);
    o ← (if up : bool then
           qs ← get_ordering_queryset s;
           q ← with_qs qs (above_instance r false);
           d ← gets db;
           m ← with_qs q (get_min_order d);
           mret (PyInt (or_zero m))
         else mret (py_of_order (i_order r)));
    to self o extra_update.

(** [top(self, extra_update=None)] *)
Definition top (self : nat) (extra_update : option (gmap string Z)) : M World unit :=
  s ← getobj self;
  qs ← get_ordering_queryset s;
  d ← gets db;
  o ← with_qs qs (get_min_order d);
  to self (py_of_order o) extra_update.

(** [bottom(self, extra_update=None)] *)
Definition bottom (self : nat) (extra_update : option (gmap string Z)) : M World unit :=
  s ← getobj self;
  qs ← get_ordering_queryset s;
  d ← gets db;
  o ← with_qs qs (get_max_order d);
  to self (py_of_order o) extra_update.

(** *** [OrderedSafeDeleteQueryset.bulk_create] *)

(** Django's [bulk_create]: one row per object, no [save] and no signal; a
    primary key already taken is refused by the storage engine. *)
Definition QuerySet_bulk_create (objs : list nat) : M World unit :=
  for_each objs (λ obj,
    i ← getobj obj;
    d ← gets db;
    let k := key_of i d in
    if existsb (same_row (i_model i) k) d then raise IntegrityError
    else
      put_db (d ++ [to_row k i]);;
      setobj obj (set_saved (Some k) i);;
      modify (add_log (Saved (to_row k i)))).

(** The loop of the branch with [order_with_respect_to]: the dictionary maps
    a scope key to the last order handed out for it. *)
Fixpoint assign_scoped_orders (self : QuerySet) (order_with_respect_to : list string)
    (objs : list nat) (order_with_respect_to_mapping : gmap (list (option Z)) Z)
  : M World unit :=
  match objs with
  | [] => mret tt
  | obj :: rest =>
      o ← getobj obj;
      let key := get_lookup_value o <$> order_with_respect_to in
      order ← match order_with_respect_to_mapping !! key with
              | Some n => mret (n + 1)
              | None =>
                  d ← gets db;
                  q ← with_qs self (filter_by_order_with_respect_to o);
                  with_qs q (get_next_order d)
              end;
      setobj obj (set_order (Some order) o);;
      assign_scoped_orders self order_with_respect_to rest
        (<[key := order]> order_with_respect_to_mapping)
  end.

(** [for order, obj in enumerate(objs, start)] *)
Fixpoint assign_orders (objs : list nat) (order : Z) : M World unit :=
  match objs with
  | [] => mret tt
  | obj :: rest =>
      o ← getobj obj;
      setobj obj (set_order (Some order) o);;
      assign_orders rest (order + 1)
  end.

(** The value is the query set [self] as the call leaves it. *)
Definition bulk_create (self : QuerySet) (objs : list nat) : M World QuerySet :=
  let order_with_respect_to := order_with_respect_to (model self) in
  self ← (if truthy_respect_to order_with_respect_to then
            order_with_respect_to ← _get_order_with_respect_to (model self);
            assign_scoped_orders self order_with_respect_to objs ∅;;
            mret self
          else
            d ← gets db;
            '(start, self) ← run_qs self (get_next_order d);
            assign_orders objs start;;
            mret self);
  QuerySet_bulk_create objs;;
  mret self.

(** *** [SafeDeleteQueryset.delete] and [SafeDeleteQueryset.undelete]

    The attribute lookup of either method goes through [__getattribute__],
    which runs [_filter_visibility] on [self] first. The loop iterates over
    the query set that [self.all()] returns: Django evaluates it once, before
    the first turn, into one new object for each row found, in the order of
    the stored rows. The value is [self] as the call leaves it; the result
    cache that the last statement clears is not part of a query set here. *)
Definition SafeDeleteQueryset_delete (fuel : nat) (self : QuerySet)
    (force_policy : option Policy) : M World QuerySet :=
  '(_, self) ← run_qs self _filter_visibility;
  assert_ (can_filter (query self));;
  '(objs, self) ← run_qs self (all None);
  d ← gets db;
  rows ← with_qs objs (fetch d);
  objs ← new_objs (of_row <$> rows);
  for_each objs (λ obj, delete fuel obj force_policy None);;
  mret self.

Definition SafeDeleteQueryset_undelete (fuel : nat) (self : QuerySet)
    (force_policy : option Policy) : M World QuerySet :=
  '(_, self) ← run_qs self _filter_visibility;
  assert_ (can_filter (query self));;
  '(objs, self) ← run_qs self (all None);
  d ← gets db;
  rows ← with_qs objs (fetch d);
  objs ← new_objs (of_row <$> rows);
  for_each objs (λ obj, undelete fuel obj force_policy);;
  mret self.

End Engine.

(** *** [previous], [next], [up] and [down] *)

(** The object Django builds for the row that [first] or [last] returns. *)
Definition load (r : option Row) : M World (option nat) :=
  match r with
  | Some r => objs ← new_objs [of_row r]; mret (head objs)
  | None => mret None
  end.

Definition previous (self : nat) : M World (option nat) :=
  i ← getobj self;
  qs ← get_ordering_queryset i;
  q ← with_qs qs (below_instance i false);
  d ← gets db;
  r ← with_qs q (QuerySet_last d);
  load r.

Definition next (self : nat) : M World (option nat) :=
  i ← getobj self;
  qs ← get_ordering_queryset i;
  q ← with_qs qs (above_instance i false);
  d ← gets db;
  r ← with_qs q (QuerySet_first d);
  load r.

(** [if previous:] is true of every model instance, false of [None]. *)
Definition up (self : nat) : M World unit :=
  previous ← previous self;
  match previous with
  | Some previous => swap self previous
  | None => mret tt
  end.

Definition down (self : nat) : M World unit :=
  _next ← next self;
  match _next with
  | Some _next => swap self _next
  | None => mret tt
  end.

End Models.

(** * Sample data and the readings of the specification *)

(** ** Sample classes, query sets and worlds *)

Module Samples.
Import Queryset Managers Models.

Definition django_Model : PyClass := PyCls "Model" "django.db.models.base" [].
Definition SafeDeleteModel : PyClass :=
  PyCls "SafeDeleteModel" "safedelete.models" [django_Model].
Definition BaseOrderedSafeDeleteModel : PyClass :=
  PyCls "BaseOrderedSafeDeleteModel" "safedelete.models" [SafeDeleteModel].

(** An article: soft-deletable, with a unique [slug]. *)
Definition Article : Model :=
  {| pycls := PyCls "Article" "blog.models" [SafeDeleteModel];
     _safedelete_policy := SOFT_DELETE;
     _default_manager := SafeDeleteManager;
     all_objects := Some SafeDeleteAllManager;
     pk_name := "id"; ordered := false; order_field_name := "";
     order_with_respect_to := WrtNone; order_class_path := None |}.

(** A task of a board: ordered among the tasks of the same [board]. *)
Definition Task (policy : Policy) : Model :=
  {| pycls := PyCls "Task" "board.models" [BaseOrderedSafeDeleteModel];
     _safedelete_policy := policy;
     _default_manager := OrderedSafeDeleteManager;
     all_objects := Some OrderedSafeDeleteAllManager;
     pk_name := "id"; ordered := true; order_field_name := "order";
     order_with_respect_to := WrtStr "board"; order_class_path := None |}.

(** A plain Django model. *)
Definition Tag : Model :=
  {| pycls := PyCls "Tag" "blog.models" [django_Model];
     _safedelete_policy := HARD_DELETE;
     _default_manager := DjangoManager;
     all_objects := None;
     pk_name := "id"; ordered := false; order_field_name := "";
     order_with_respect_to := WrtNone; order_class_path := None |}.

Definition article (k : Z) (slug : Z) (deleted : option Z) : Row :=
  {| r_model := Article; r_pk := k; r_deleted := deleted; r_order := None;
     r_fields := {[ "slug" := slug ]} |}.

Definition task (policy : Policy) (k board order : Z) (deleted : option Z) : Row :=
  {| r_model := Task policy; r_pk := k; r_deleted := deleted; r_order := Some order;
     r_fields := {[ "board" := board ]} |}.

Definition objects_of (m : Model) : QuerySet := get_queryset m (_default_manager m).

Definition sliced (qs : QuerySet) : QuerySet :=
  set_query {| where_ := where_ (query qs); is_sliced := true |} qs.

(** No edge in the relationship graph, every policy constant true. *)
Definition no_references : string * Z → string * Z → bool := λ _ _, false.
Definition all_truthy : Policy → bool := λ _, true.
Definition always_can : list Row → Instance → bool := λ _ _, true.

(** An article built in memory with [deleted] set and never saved. *)
Definition draft : Instance :=
  {| i_model := Article; i_pk := None; i_deleted := Some 5; i_order := None;
     i_fields := {[ "slug" := 7 ]}; i_adding := true |}.

Definition draft_world : World :=
  {| db := []; heap := [draft]; log := []; clock := 100 |}.

(** A stored article, loaded, in a world where the clock shows 100. *)
Definition blog_world : World :=
  {| db := [article 1 7 None]; heap := [of_row (article 1 7 None)];
     log := []; clock := 100 |}.

(** The same article, soft-deleted at 50. *)
Definition trash_world : World :=
  {| db := [article 1 7 (Some 50)]; heap := [of_row (article 1 7 (Some 50))];
     log := []; clock := 100 |}.

(** Two boards: tasks 10..13 of board 1 at orders 0..3, task 20 of board 2. *)
Definition board_rows (policy : Policy) : list Row :=
  [task policy 10 1 0 None; task policy 11 1 1 None;
   task policy 12 1 2 None; task policy 13 1 3 None;
   task policy 20 2 0 None].

(** The heap holds, in this order, the tasks 13, 11 and 20 as loaded. *)
Definition board_world (policy : Policy) : World :=
  {| db := board_rows policy;
     heap := [of_row (task policy 13 1 3 None); of_row (task policy 11 1 1 None);
              of_row (task policy 20 2 0 None)];
     log := []; clock := 100 |}.

(** Tasks not saved yet, and the board with three of them in memory after
    the loaded ones: two for board 1 and, between them, one for board 2. *)
Definition new_task (policy : Policy) (board : Z) : Instance :=
  {| i_model := Task policy; i_pk := None; i_deleted := None; i_order := None;
     i_fields := {[ "board" := board ]}; i_adding := true |}.

Definition intake_world (policy : Policy) : World :=
  set_heap (heap (board_world policy)
            ++ [new_task policy 1; new_task policy 2; new_task policy 1])
    (board_world policy).

(** A new article whose slug is the one of a soft-deleted stored article. *)
Definition new_article : Instance :=
  {| i_model := Article; i_pk := None; i_deleted := None; i_order := None;
     i_fields := {[ "slug" := 7 ]}; i_adding := true |}.

Definition slug_taken_world : World :=
  {| db := [article 1 7 (Some 50)]; heap := [new_article]; log := []; clock := 100 |}.

(** A comment thread: comments that cascade, each related to the other. *)
Definition Comment : Model :=
  {| pycls := PyCls "Comment" "blog.models" [SafeDeleteModel];
     _safedelete_policy := SOFT_DELETE_CASCADE;
     _default_manager := SafeDeleteManager;
     all_objects := Some SafeDeleteAllManager;
     pk_name := "id"; ordered := false; order_field_name := "";
     order_with_respect_to := WrtNone; order_class_path := None |}.

Definition comment (k : Z) (deleted : option Z) : Row :=
  {| r_model := Comment; r_pk := k; r_deleted := deleted; r_order := None;
     r_fields := ∅ |}.

(** The complete graph, loops included: every row is related to every row. *)
Definition all_related : string * Z → string * Z → bool := λ _ _, true.

(** Both comments soft-deleted; the first is loaded. *)
Definition deleted_thread : World :=
  {| db := [comment 1 (Some 40); comment 2 (Some 41)];
     heap := [of_row (comment 1 (Some 40))]; log := []; clock := 100 |}.

(** Both comments live; the first is loaded. *)
Definition live_thread : World :=
  {| db := [comment 1 None; comment 2 None];
     heap := [of_row (comment 1 None)]; log := []; clock := 100 |}.

(** Every comment refers to every article, and nothing else refers to
    anything. *)
Definition comments_of_articles : string * Z → string * Z → bool :=
  λ r o, bool_decide (r.1 = "Comment") && bool_decide (o.1 = "Article").

(** An article, loaded, with a live comment and one soft-deleted at 40. *)
Definition commented_world : World :=
  {| db := [comment 2 None; article 1 7 None; comment 3 (Some 40)];
     heap := [of_row (article 1 7 None)]; log := []; clock := 100 |}.

(** The article 2 refers to the article 1, and nothing else refers to
    anything. *)
Definition sequel_of_first : string * Z → string * Z → bool :=
  λ r o, bool_decide (r = ("Article", 2)) && bool_decide (o = ("Article", 1)).

(** Three articles soft-deleted at different times; the first is loaded. *)
Definition series_world : World :=
  {| db := [article 1 7 (Some 50); article 2 8 (Some 40); article 3 9 (Some 40)];
     heap := [of_row (article 1 7 (Some 50))]; log := []; clock := 100 |}.

(** The board with the task 12 soft-deleted at 50; the heap holds the tasks
    13, 11 and 20 as loaded. *)
Definition archived_rows (policy : Policy) : list Row :=
  [task policy 10 1 0 None; task policy 11 1 1 None;
   task policy 12 1 2 (Some 50); task policy 13 1 3 None;
   task policy 20 2 0 None].

Definition archived_world (policy : Policy) : World :=
  {| db := archived_rows policy; heap := heap (board_world policy);
     log := []; clock := 100 |}.

(** A task class that names a class path for its ordering query set, and a
    board of one such task, loaded. *)
Definition PathTask : Model :=
  {| pycls := PyCls "Task" "board.models" [BaseOrderedSafeDeleteModel];
     _safedelete_policy := SOFT_DELETE;
     _default_manager := OrderedSafeDeleteManager;
     all_objects := Some OrderedSafeDeleteAllManager;
     pk_name := "id"; ordered := true; order_field_name := "order";
     order_with_respect_to := WrtStr "board";
     order_class_path := Some "board.models.Task" |}.

Definition path_task : Row :=
  {| r_model := PathTask; r_pk := 10; r_deleted := None; r_order := Some 0;
     r_fields := {[ "board" := 1 ]} |}.

Definition path_world : World :=
  {| db := [path_task]; heap := [of_row path_task]; log := []; clock := 100 |}.

End Samples.

(** ** Readings of the specification *)

Module Readings.
Import Queryset Managers Models.

(** The mode that decides: the forced one when there is one. *)
Definition effective_visibility (qs : QuerySet) : Visibility :=
  match _safedelete_force_visibility qs with
  | Some v => v
  | None => _safedelete_visibility qs
  end.

(** The specification's [apply_visibility] on a query set whose latch is not
    set: an assertion failure once a slice was taken, the latch set
    otherwise, whatever the mode. *)
Definition apply_visibility_as_specified (qs : QuerySet) : Prop :=
  _safedelete_filter_applied qs = false →
  (is_sliced (query qs) = true → fst (_filter_visibility qs) = Raise AssertionError)
  ∧ (is_sliced (query qs) = false →
     _safedelete_filter_applied (snd (_filter_visibility qs)) = true).

(** The specification's order of a soft delete, read off the first call it
    makes: the pre-soft-delete notification goes out before [deleted] is
    set, so the instance it carries still has the value it had. *)
Definition notified_before_marked (w w' : World) (self : nat) : Prop :=
  ∀ i, heap w !! self = Some i →
    ∃ j rest, log w' = log w ++ Sent pre_softdelete j :: rest
              ∧ i_deleted j = i_deleted i.

(** The specification's save of a record marked deleted, without
    [keep_deleted]: [deleted] is cleared and the post-undelete notification
    is sent. *)
Definition undeleted_and_notified (w w' : World) (self : nat) : Prop :=
  ∀ i, heap w !! self = Some i → i_deleted i ≠ None →
    (∃ j, heap w' !! self = Some j ∧ i_deleted j = None)
    ∧ (∃ j, Sent post_undelete j ∈ log w').

(** The values of the respect-to fields of an instance, by field name. *)
Definition respect_to_fields (m : Model) : list string :=
  match order_with_respect_to m with
  | WrtNone => []
  | WrtStr field => [field]
  | WrtTuple fields => fields
  end.

Definition respect_to_values (i : Instance) : gmap string (option Z) :=
  list_to_map ((λ field, (field, inst_get i field)) <$> respect_to_fields (i_model i)).

(** An order-participating record type as [BaseOrderedSafeDeleteModel]
    declares it: [objects] is the default manager, and no
    [order_class_path] redirects the ordering query set. *)
Definition ordered_model (m : Model) : Prop :=
  ordered m = true
  ∧ _default_manager m = OrderedSafeDeleteManager
  ∧ order_class_path m = None.

(** The fields that delimit the ordering scope: none when
    [order_with_respect_to] is false in Python. *)
Definition scope_fields (m : Model) : list string :=
  if truthy_respect_to (order_with_respect_to m) then respect_to_fields m else [].

(** A row is a sibling of the instance: same table, same values on the
    scope fields. *)
Definition same_scope (i : Instance) (r : Row) : bool :=
  bool_decide (model_name (r_model r) = model_name (i_model i))
  && forallb (λ field, bool_decide (row_get r field = inst_get i field))
       (scope_fields (i_model i)).

(** A row that is not soft-deleted. *)
Definition live (r : Row) : bool := bool_decide (r_deleted r = None).

Definition with_order (o : option Z) (r : Row) : Row :=
  {| r_model := r_model r; r_pk := r_pk r; r_deleted := r_deleted r;
     r_order := o; r_fields := r_fields r |}.

(** A query set as the default manager hands it out and [filter] extends
    it: soft-deleted rows hidden, no forced visibility, not yet evaluated,
    not sliced. *)
Definition lazy_invisible (qs : QuerySet) : Prop :=
  _safedelete_visibility qs = DELETED_INVISIBLE
  ∧ _safedelete_force_visibility qs = None
  ∧ _safedelete_filter_applied qs = false
  ∧ is_sliced (query qs) = false.

Definition add_conds (cs : list Cond) (qs : QuerySet) : QuerySet :=
  set_query {| where_ := where_ (query qs) ++ cs; is_sliced := is_sliced (query qs) |} qs.

(** The conditions and the query set that [get_ordering_queryset] builds. *)
Definition scope_conds (i : Instance) : list Cond :=
  if truthy_respect_to (order_with_respect_to (i_model i))
  then kwargs_conds (respect_to_values i) else [].

Definition ordering_qs (i : Instance) : QuerySet :=
  add_conds (scope_conds i) (get_queryset (i_model i) OrderedSafeDeleteManager).

(** The siblings the ordering query set of [i] selects, moved by [delta]
    when their order satisfies [range]. *)
Definition shift_row (i : Instance) (range : Z → bool) (delta : Z) (r : Row) : Row :=
  match r_order r with
  | Some x => if same_scope i r && live r && range x
              then with_order (Some (x + delta)) r else r
  | None => r
  end.

Definition shift_rows (i : Instance) (range : Z → bool) (delta : Z) (d : list Row)
  : list Row :=
  shift_row i range delta <$> d.

(** The siblings that [to] moves and the direction: those from the target up
    to the record go up by one when the record moves to a smaller order,
    those after the record up to the target go down by one otherwise. *)
Definition to_range (s t : Z) (x : Z) : bool :=
  if t <? s then (t <=? x) && (x <? s) else (s <? x) && (x <=? t).
Definition to_delta (s t : Z) : Z := if t <? s then 1 else -1.

(** A row of the table of [mc] that holds the value [v] in the field [f]:
    the row a unique check on [f] collides with, soft-deleted or not. *)
Definition takes (mc : Model) (f : string) (v : Z) (r : Row) : bool :=
  bool_decide (model_name (r_model r) = model_name mc)
  && bool_decide (row_get r f = Some v).

(** The rows a manager shows to a [filter] on the given keywords. *)
Definition shown_by (mgr : Manager) (names : list string) (r : Row) : bool :=
  match mgr with
  | DjangoManager => true
  | SafeDeleteManager_ DELETED_INVISIBLE _ => live r
  | SafeDeleteManager_ DELETED_VISIBLE_BY_FIELD field =>
      bool_decide (field ∈ names) || live r
  | SafeDeleteManager_ DELETED_ONLY_VISIBLE _ => negb (live r)
  | SafeDeleteManager_ DELETED_VISIBLE _ => true
  end.

(** The error dictionary of one failed check of the single field [f]. *)
Definition unique_error (mc : Model) (f : string) : gmap string (list UniqueError) :=
  {[ f := [ {| ue_model := model_name mc; ue_fields := [f] |} ] ]}.

(** A computation that leaves the state as it is, whatever its outcome. *)
Definition stateless {S A} (m : M S A) : Prop :=
  ∀ s, (m s).2 = s.

(** A computation that never runs out of fuel, whatever the state. *)
Definition never_diverges {S A} (m : M S A) : Prop :=
  ∀ s, (m s).1 ≠ OutOfFuel.

(** The policies under which [SafeDeleteModel.delete] calls no [delete]. *)
Definition direct (p : Policy) : Prop :=
  p = SOFT_DELETE ∨ p = HARD_DELETE ∨ p = NO_DELETE.

(** The number of stored rows that are marked deleted, and the number of
    those whose identity is not [x]. *)
Definition count_deleted (d : list Row) : nat :=
  length (List.filter (λ r, negb (live r)) d).

Definition count_deleted_except (x : string * Z) (d : list Row) : nat :=
  length (List.filter (λ r, negb (live r) && negb (bool_decide (row_id r = x))) d).

(** [fades d d']: the table [d'] is [d] with some rows undeleted, row by
    row under the same identity, followed by new rows that are live. *)
Inductive fades : list Row → list Row → Prop :=
  | fades_nil new : Forall (λ r, live r = true) new → fades [] new
  | fades_cons r r' d d' :
      row_id r' = row_id r →
      (live r = true → live r' = true) →
      fades d d' →
      fades (r :: d) (r' :: d').

(** Between [w] and [w'] the heap only grew, and below the bound [n] no
    object other than [self] changed. *)
Definition frame (self : nat) (n : nat) (w w' : World) : Prop :=
  (length (heap w) ≤ length (heap w'))%nat
  ∧ ∀ ref, ref ≠ self → (ref < n)%nat → heap w' !! ref = heap w !! ref.

(** The values of a row, and of an instance, on the scope fields. *)
Definition scope_key (m : Model) (r : Row) : list (option Z) :=
  (λ field, row_get r field) <$> scope_fields m.

Definition instance_key (i : Instance) : list (option Z) :=
  (λ field, inst_get i field) <$> scope_fields (i_model i).

(** Two rows of the table of [m] hold the same order in the same scope. *)
Definition clash (m : Model) (r1 r2 : Row) : Prop :=
  model_name (r_model r1) = model_name m
  ∧ model_name (r_model r2) = model_name m
  ∧ scope_key m r1 = scope_key m r2
  ∧ r_order r1 = r_order r2.

(** The invariant as the specification words it, over every stored row,
    soft-deleted ones included; and over the rows that are not
    soft-deleted. *)
Definition orders_unique_stored (m : Model) (d : list Row) : Prop :=
  ForallOrdPairs (λ r1 r2, ¬ clash m r1 r2) d.

Definition orders_unique_live (m : Model) (d : list Row) : Prop :=
  ForallOrdPairs (λ r1 r2, ¬ (clash m r1 r2 ∧ live r1 = true ∧ live r2 = true)) d.

(** Every row stored under the name of [m] is a row of the class [m]. *)
Definition table_typed (m : Model) (d : list Row) : Prop :=
  ∀ r, r ∈ d → model_name (r_model r) = model_name m → r_model r = m.

(** An ordered model whose order field is not one of its scope fields. *)
Definition ordered_table (m : Model) : Prop :=
  ordered_model m ∧ order_field_name m ∉ scope_fields m.

(** The instance behind [self] is a live record of [m] as loaded from
    storage: its row is stored as the instance is. *)
Definition synced (m : Model) (w : World) (self : nat) (i : Instance) : Prop :=
  heap w !! self = Some i
  ∧ i_model i = m
  ∧ i_deleted i = None
  ∧ ∃ k, i_pk i = Some k ∧ to_row k i ∈ db w.

(** [top], [bottom], [above] and [below] either change nothing or make one
    call of [to] on the world as they found it. *)
Definition ends_in_to (op : M World unit) (self : nat) : Prop :=
  ∀ w w', op w = (Ok tt, w') →
    w' = w ∨ ∃ t, to self (PyInt t) None w = (Ok tt, w').

(** The order that [get_next_order] hands out in the scope of [i]: one more
    than the greatest order of a live sibling, 0 when there is none. *)
Definition next_order (i : Instance) (d : list Row) : Z :=
  match max_of (omap r_order (List.filter (λ r, same_scope i r && live r) d)) with
  | Some order => order + 1
  | None => 0
  end.

(** A key no stored row of the table holds. *)
Definition fresh_key (m : Model) (k : Z) (d : list Row) : Prop :=
  ∀ r, r ∈ d → model_name (r_model r) = model_name m → r_pk r ≠ k.

(** The objects behind a list of references, in order. *)
Definition at_refs (h : list Instance) (objs : list nat) (insts : list Instance) : Prop :=
  Forall2 (λ obj i, h !! obj = Some i) objs insts.

(** What the loops of [bulk_create] make of the instances of the table of
    [m]: each gets an order that is at least the next order of its scope,
    and no two of one scope get the same. *)
Definition assigned (m : Model) (d : list Row) (insts js : list Instance) : Prop :=
  Forall2 (λ i j, i_model i = m ∧ ∃ o, j = set_order (Some o) i ∧ next_order i d ≤ o) insts js
  ∧ ForallOrdPairs
      (λ j1 j2, instance_key j1 = instance_key j2 → i_order j1 ≠ i_order j2) js.

(** The operations the ordering invariant is stated for, on the records
    behind references. *)
Inductive Op :=
  | OpSave (self : nat) (keep_deleted : bool)
  | OpTo (self : nat) (order : Z)
  | OpSwap (self replacement : nat)
  | OpAbove (self ref : nat)
  | OpBelow (self ref : nat)
  | OpTop (self : nat)
  | OpBottom (self : nat)
  | OpDelete (self : nat)
  | OpBulkCreate (objs : list nat).

(** One call of the operation on the table of [m]: [delete] with its
    default arguments and fuel for one nested call, [bulk_create] on the
    query set of the default manager, its value dropped. *)
Definition run_op (references : string * Z → string * Z → bool)
    (can_hard_delete : list Row → Instance → bool) (m : Model) (op : Op)
  : M World unit :=
  match op with
  | OpSave self keep_deleted => save self keep_deleted
  | OpTo self order => to self (PyInt order) None
  | OpSwap self replacement => swap self replacement
  | OpAbove self ref => above self ref None
  | OpBelow self ref => below self ref None
  | OpTop self => top self None
  | OpBottom self => bottom self None
  | OpDelete self => delete references can_hard_delete 2 self None None
  | OpBulkCreate objs =>
      bulk_create (get_queryset m OrderedSafeDeleteManager) objs;; mret tt
  end.

(** The calls the invariant is proved for: [save] creates a record of the
    table that has neither key nor order yet; the reordering methods and
    [delete] are called on a record as loaded from storage and not
    soft-deleted, [swap] with two such records that hold an order, [delete]
    under a policy that deletes the record itself; [bulk_create] receives
    distinct objects of the table. *)
Definition admissible (m : Model) (w : World) (op : Op) : Prop :=
  match op with
  | OpSave self _ =>
      ∃ i, heap w !! self = Some i ∧ i_model i = m ∧ i_pk i = None ∧ i_order i = None
  | OpTo self _ | OpAbove self _ | OpBelow self _ | OpTop self | OpBottom self =>
      ∃ i, synced m w self i
  | OpSwap self replacement =>
      ∃ s r, synced m w self s ∧ synced m w replacement r
             ∧ is_Some (i_order s) ∧ is_Some (i_order r)
  | OpDelete self =>
      (∃ i, synced m w self i)
      ∧ (_safedelete_policy m = SOFT_DELETE ∨ _safedelete_policy m = HARD_DELETE)
  | OpBulkCreate objs =>
      NoDup objs
      ∧ ∃ insts, at_refs (heap w) objs insts ∧ Forall (λ i, i_model i = m) insts
  end.

(** A chain of [filter] calls, each made on the result of the one before;
    no call at all is the query set itself. *)
Fixpoint filters (chain : list (list Cond)) : M QuerySet QuerySet :=
  match chain with
  | [] => get_state
  | kwargs :: rest =>
      q ← filter kwargs;
      with_qs q (filters rest)
  end.

(** The rows of the table of [m] that satisfy the conditions and that the
    manager shows to filters on these keywords. *)
Definition found (m : Model) (mgr : Manager) (cs : list Cond) (r : Row) : bool :=
  bool_decide (model_name (r_model r) = model_name m)
  && forallb (λ c, cond_holds c r) cs
  && shown_by mgr (kwarg_name m <$> cs) r.

(** A query set that was never evaluated nor sliced. *)
Definition unevaluated (m : Model) (vis : Visibility) (field : string)
    (force : option Visibility) (cs : list Cond) : QuerySet :=
  {| model := m; query := {| where_ := cs; is_sliced := false |};
     _safedelete_visibility := vis; _safedelete_visibility_field := field;
     _safedelete_filter_applied := false; _safedelete_force_visibility := force |}.

(** The forced visibility after filters on the keywords [names]. *)
Definition forced_by (vis : Visibility) (field : string) (names : list string)
    (force : option Visibility) : option Visibility :=
  if bool_decide (vis = DELETED_VISIBLE_BY_FIELD) && bool_decide (field ∈ names)
  then Some DELETED_VISIBLE else force.

(** The visibility mode and field a manager gives its query sets. *)
Definition manager_visibility (mgr : Manager) : Visibility * string :=
  match mgr with
  | DjangoManager => (DELETED_VISIBLE, "pk")
  | SafeDeleteManager_ v f => (v, f)
  end.

(** The policies under which no row is to leave storage. *)
Definition soft (p : Policy) : Prop :=
  p = SOFT_DELETE ∨ p = SOFT_DELETE_CASCADE ∨ p = NO_DELETE.

(** Between [w] and [w'] no row left storage and the storage layer was not
    asked to remove any: the identities stored in [w] are the first ones
    stored in [w'], and the calls logged since are no removals. *)
Definition kept (w w' : World) : Prop :=
  (row_id <$> db w) `prefix_of` (row_id <$> db w')
  ∧ ∃ calls, log w' = log w ++ calls
             ∧ Forall (λ e, match e with Removed _ => False | _ => True end) calls.

(** A computation that keeps the rows, whatever its outcome. *)
Definition keeps_rows {A} (m : M World A) : Prop :=
  ∀ w, kept w (m w).2.

(** The row [r] soft-deleted at [t]. *)
Definition marked_at (t : Z) (r : Row) : Row :=
  {| r_model := r_model r; r_pk := r_pk r; r_deleted := Some t;
     r_order := r_order r; r_fields := r_fields r |}.

(** [r'] is [r] soft-deleted at [t0] or later when [hit r], and [r] itself
    otherwise. *)
Definition soft_deleted_since (t0 : Z) (hit : Row → bool) (r r' : Row) : Prop :=
  if hit r then ∃ t, t0 ≤ t ∧ r' = marked_at t r else r' = r.

(** The row [r] with its deletion time cleared. *)
Definition restored (r : Row) : Row :=
  {| r_model := r_model r; r_pk := r_pk r; r_deleted := None;
     r_order := r_order r; r_fields := r_fields r |}.

(** [r'] is [r] restored when [hit r], and [r] itself otherwise. *)
Definition restored_where (hit : Row → bool) (r r' : Row) : Prop :=
  if hit r then r' = restored r else r' = r.

(** The table after the rows [rs] were written back one after the other,
    each as [g] makes it at the time of its turn, the first at [t]. *)
Fixpoint rewrite_rows (g : Z → Row → Row) (t : Z) (rs : list Row) (d : list Row)
  : list Row :=
  match rs with
  | [] => d
  | r :: rs => rewrite_rows g (t + 1) rs (write_row (g t r) d)
  end.

(** A query set as the manager [deleted_objects] hands it out and [filter]
    extends it: only the soft-deleted rows shown, no forced visibility, not
    yet evaluated, not sliced. *)
Definition lazy_only_deleted (qs : QuerySet) : Prop :=
  _safedelete_visibility qs = DELETED_ONLY_VISIBLE
  ∧ _safedelete_force_visibility qs = None
  ∧ _safedelete_filter_applied qs = false
  ∧ is_sliced (query qs) = false.

(** Either kind: the live rows shown ([b] true) or the soft-deleted ones. *)
Definition lazy_showing (b : bool) (qs : QuerySet) : Prop :=
  if b then lazy_invisible qs else lazy_only_deleted qs.

Definition shows (b : bool) (r : Row) : bool := if b then live r else negb (live r).

(** Such a query set after its first evaluation. *)
Definition evaluated (b : bool) (qs : QuerySet) : QuerySet :=
  set_filter_applied true (add_conds [DeletedIsNull b] qs).

(** A unique check that the instance gives no complete lookup for: one of
    its fields is [None] on the instance, or is the primary key while the
    instance is not being added. *)
Definition incomplete_check (i : Instance) (unique_check : list string) : Prop :=
  ∃ f, f ∈ unique_check
       ∧ (inst_get i f = None ∨ (f = pk_name (i_model i) ∧ i_adding i = false)).

(** The orders held by the live siblings of [i], its own row included when
    it is stored and live. *)
Definition live_orders (i : Instance) (d : list Row) : list Z :=
  omap r_order (List.filter (λ r, same_scope i r && live r) d).

(** The live siblings of [i] whose order satisfies [range]. *)
Definition siblings_in (i : Instance) (range : Z → bool) (d : list Row) : list Row :=
  List.filter (λ r, match r_order r with
                    | Some x => same_scope i r && live r && range x
                    | None => false
                    end) d.

(** The row that [previous] (towards the top) or [next] loads for a record
    of order [s]. *)
Definition neighbour (towards_top : bool) (i : Instance) (s : Z) (d : list Row)
  : option Row :=
  if towards_top then greatest (siblings_in i (λ x, x <? s) d)
  else least (siblings_in i (λ x, s <? x) d).

(** The table with the orders [o1] and [o2] given to the rows of the
    identities [id1] and [id2]. *)
Definition exchange (id1 : string * Z) (o1 : Z) (id2 : string * Z) (o2 : Z)
    (d : list Row) : list Row :=
  (λ r, if bool_decide (row_id r = id1) then with_order (Some o1) r
        else if bool_decide (row_id r = id2) then with_order (Some o2) r
        else r) <$> d.

(** The respect-to declaration is [None] or names at least one field. *)
Definition plain_respect_to (m : Model) : Prop :=
  respect_to_fields m = scope_fields m.

(** The orders of the live siblings of [i] that satisfy [range]. *)
Definition orders_in (i : Instance) (range : Z → bool) (d : list Row) : list Z :=
  omap r_order (siblings_in i range d).

(** The two records of a call [self.above(ref)] or [self.below(ref)]: live,
    stored under different keys, of one class and with the same values on
    the respect-to fields, each with an order. *)
Definition placeable (w : World) (self ref : nat) (s r : Instance) (ks kr a b : Z)
  : Prop :=
  heap w !! self = Some s ∧ heap w !! ref = Some r
  ∧ i_model r = i_model s
  ∧ (∀ f, f ∈ respect_to_fields (i_model s) → inst_get r f = inst_get s f)
  ∧ i_deleted s = None ∧ i_deleted r = None
  ∧ i_pk s = Some ks ∧ i_pk r = Some kr ∧ ks ≠ kr
  ∧ i_order s = Some a ∧ i_order r = Some b
  ∧ to_row ks s ∈ db w ∧ to_row kr r ∈ db w.

(** How many of the instances [seen] are in the ordering scope of [i]. *)
Definition count_scope (seen : list Instance) (i : Instance) : Z :=
  Z.of_nat (length (List.filter (λ j, bool_decide (instance_key j = instance_key i)) seen)).

(** The instances as [bulk_create] numbers them: each gets the next order of
    its scope in the table [d], plus the number of instances of that scope
    that came before it, [seen] being those that came before the first. *)
Fixpoint scoped_orders (d : list Row) (seen insts : list Instance) : list Instance :=
  match insts with
  | [] => []
  | i :: rest =>
      set_order (Some (next_order i d + count_scope seen i)) i
      :: scoped_orders d (seen ++ [i]) rest
  end.

(** The instances numbered from [n], whatever their scope. *)
Fixpoint numbered (n : Z) (insts : list Instance) : list Instance :=
  match insts with
  | [] => []
  | i :: rest => set_order (Some n) i :: numbered (n + 1) rest
  end.

(** The rows of new instances, under consecutive keys from [k]. *)
Fixpoint new_rows (k : Z) (js : list Instance) : list Row :=
  match js with
  | [] => []
  | j :: rest => to_row k j :: new_rows (k + 1) rest
  end.

(** [a] is a base of [c], or a base of a base, at any depth. *)
Inductive ancestor : PyClass → PyClass → Prop :=
  | ancestor_base (b c : PyClass) : b ∈ cls_bases c → ancestor b c
  | ancestor_step (a b c : PyClass) : ancestor a b → b ∈ cls_bases c → ancestor a c.

(** The class is declared in the library's module of models. *)
Definition library_class (c : PyClass) : bool :=
  String.prefix "safedelete.models" (cls_module c).

(** The rows that a cascading soft delete of the record [(m, k)] marks: the
    related rows of a safedelete class that are live, and the row of the
    record. *)
Definition cascaded (references : string * Z → string * Z → bool) (m : Model) (k : Z)
    (r : Row) : bool :=
  references (row_id r) (model_name m, k) && is_safedelete_cls (pycls (r_model r)) && live r
  || bool_decide (row_id r = (model_name m, k)).

(** The rows that a cascading [undelete] of the record [(m, k)] restores:
    the related rows of a safedelete class that are soft-deleted, and the row
    of the record. *)
Definition uncascaded (references : string * Z → string * Z → bool) (m : Model) (k : Z)
    (r : Row) : bool :=
  references (row_id r) (model_name m, k) && is_safedelete_cls (pycls (r_model r))
  && negb (live r)
  || bool_decide (row_id r = (model_name m, k)).

(** The orders that the order column holds. The column is declared by the
    class that uses [BaseOrderedSafeDeleteModel], whose docstring asks for a
    [PositiveIntegerField]: the values from 0 to 2147483647 are stored by
    every database backend. *)
Definition storable_order (x : Z) : Prop := 0 ≤ x ≤ 2147483647.

(** The shift over every row of the scope, soft-deleted or not, whose order
    satisfies [range]: what [shift_rows] would be if the ordering query set
    showed the soft-deleted rows. *)
Definition shift_every_row (i : Instance) (range : Z → bool) (delta : Z) (r : Row) : Row :=
  match r_order r with
  | Some x => if same_scope i r && range x then with_order (Some (x + delta)) r else r
  | None => r
  end.

Definition shift_every (i : Instance) (range : Z → bool) (delta : Z) (d : list Row)
  : list Row :=
  shift_every_row i range delta <$> d.

End Readings.

(** * Properties *)

(** ** Reasoning about computations *)

Section MonadFacts.
Context {S : Type}.

Lemma bind_ok {A B} (m : M S A) (k : A → M S B) s a s' :
  m s = (Ok a, s') → (m ≫= k) s = k a s'.
Proof. intros H. unfold mbind, M_bind. by rewrite H. Qed.

Lemma bind_raise {A B} (m : M S A) (k : A → M S B) s e s' :
  m s = (Raise e, s') → (m ≫= k) s = (Raise e, s').
Proof. intros H. unfold mbind, M_bind. by rewrite H. Qed.

Lemma bind_out_of_fuel {A B} (m : M S A) (k : A → M S B) s s' :
  m s = (OutOfFuel, s') → (m ≫= k) s = (OutOfFuel, s').
Proof. intros H. unfold mbind, M_bind. by rewrite H. Qed.

End MonadFacts.

(** ** The visibility filter *)

Module VisibilityFacts.
Import Queryset Managers Readings.

Lemma filter_visibility_latched (qs : QuerySet) :
  _safedelete_filter_applied qs = true → _filter_visibility qs = (Ok tt, qs).
Proof.
  intros H. unfold _filter_visibility.
  erewrite bind_ok by reflexivity. by rewrite H.
Qed.

Lemma filter_visibility_visible (qs : QuerySet) :
  effective_visibility qs = DELETED_VISIBLE → _filter_visibility qs = (Ok tt, qs).
Proof.
  unfold effective_visibility, _filter_visibility. intros H.
  erewrite bind_ok by reflexivity. rewrite H.
  by rewrite andb_false_r.
Qed.

Lemma filter_visibility_injects (qs : QuerySet) :
  _safedelete_filter_applied qs = false →
  effective_visibility qs ≠ DELETED_VISIBLE →
  is_sliced (query qs) = false →
  _filter_visibility qs =
    (Ok tt,
     set_filter_applied true
       (set_query
          (add_q (DeletedIsNull
                    (negb (bool_decide (effective_visibility qs = DELETED_ONLY_VISIBLE))))
                 (query qs)) qs)).
Proof.
  unfold effective_visibility, _filter_visibility, can_filter.
  intros Ha Hv Hs. erewrite bind_ok by reflexivity. rewrite Ha, Hs.
  destruct (_safedelete_force_visibility qs) as [v|];
    [destruct v | destruct (_safedelete_visibility qs)]; done.
Qed.

Lemma filter_visibility_sliced (qs : QuerySet) :
  _safedelete_filter_applied qs = false →
  effective_visibility qs ≠ DELETED_VISIBLE →
  is_sliced (query qs) = true →
  _filter_visibility qs = (Raise AssertionError, qs).
Proof.
  unfold effective_visibility, _filter_visibility, can_filter.
  intros Ha Hv Hs. erewrite bind_ok by reflexivity. rewrite Ha, Hs.
  destruct (_safedelete_force_visibility qs) as [v|];
    [destruct v | destruct (_safedelete_visibility qs)]; done.
Qed.

Lemma filter_visibility_cases (qs : QuerySet) :
  _filter_visibility qs = (Ok tt, qs)
  ∨ _filter_visibility qs = (Raise AssertionError, qs)
  ∨ ∃ qs', _filter_visibility qs = (Ok tt, qs') ∧ _safedelete_filter_applied qs' = true.
Proof.
  destruct (_safedelete_filter_applied qs) eqn:Ha.
  { left. by apply filter_visibility_latched. }
  destruct (decide (effective_visibility qs = DELETED_VISIBLE)) as [Hv|Hv].
  { left. by apply filter_visibility_visible. }
  destruct (is_sliced (query qs)) eqn:Hs.
  { right; left. by apply filter_visibility_sliced. }
  right; right. eexists. split; [by apply filter_visibility_injects|done].
Qed.

Lemma filter_visibility_idempotent (qs qs' : QuerySet) :
  _filter_visibility qs = (Ok tt, qs') → _filter_visibility qs' = (Ok tt, qs').
Proof.
  intros H.
  destruct (filter_visibility_cases qs) as [E|[E|(q & E & Hq)]];
    rewrite E in H; simplify_eq; [done|].
  by apply filter_visibility_latched.
Qed.

(** C6, as the code has it. Applying the visibility filter does nothing when
    the latch is set, and nothing either when the effective mode is
    [DELETED_VISIBLE]: then the latch stays as it was and a sliced query
    raises no assertion. In the three other modes it adds
    [deleted IS NULL] (modes INVISIBLE and VISIBLE_BY_FIELD) or
    [deleted IS NOT NULL] (mode ONLY_VISIBLE) and sets the latch, and on a
    sliced query it fails with an assertion and changes nothing. Applying it
    again after a success changes nothing. *)
Theorem filter_visibility_spec (qs : QuerySet) :
  (_safedelete_filter_applied qs = true ∨ effective_visibility qs = DELETED_VISIBLE →
     _filter_visibility qs = (Ok tt, qs))
  ∧ (_safedelete_filter_applied qs = false →
     effective_visibility qs ≠ DELETED_VISIBLE →
     is_sliced (query qs) = false →
     _filter_visibility qs =
       (Ok tt,
        set_filter_applied true
          (set_query
             (add_q (DeletedIsNull
                       (negb (bool_decide (effective_visibility qs = DELETED_ONLY_VISIBLE))))
                    (query qs)) qs)))
  ∧ (_safedelete_filter_applied qs = false →
     effective_visibility qs ≠ DELETED_VISIBLE →
     is_sliced (query qs) = true →
     _filter_visibility qs = (Raise AssertionError, qs))
  ∧ (∀ qs', _filter_visibility qs = (Ok tt, qs') →
            _filter_visibility qs' = (Ok tt, qs')).
Proof.
  split_and!.
  - intros [H|H]; [by apply filter_visibility_latched|by apply filter_visibility_visible].
  - apply filter_visibility_injects.
  - apply filter_visibility_sliced.
  - apply filter_visibility_idempotent.
Qed.

Lemma filter_visibility_spec_witness :
  let latched := set_filter_applied true (Samples.objects_of Samples.Article) in
  let fresh := Samples.objects_of Samples.Article in
  _filter_visibility latched = (Ok tt, latched)
  ∧ _filter_visibility fresh =
      (Ok tt, set_filter_applied true
                (set_query (add_q (DeletedIsNull true) (query fresh)) fresh))
  ∧ _filter_visibility (Samples.sliced fresh) = (Raise AssertionError, Samples.sliced fresh)
  ∧ _filter_visibility
      (set_filter_applied true (set_query (add_q (DeletedIsNull true) (query fresh)) fresh))
    = (Ok tt, set_filter_applied true
                (set_query (add_q (DeletedIsNull true) (query fresh)) fresh)).
Proof.
  intros latched fresh. split_and!.
  - apply (proj1 (filter_visibility_spec latched)). left. reflexivity.
  - apply (proj1 (proj2 (filter_visibility_spec fresh))); [reflexivity|discriminate|reflexivity].
  - apply (proj1 (proj2 (proj2 (filter_visibility_spec (Samples.sliced fresh)))));
      [reflexivity|discriminate|reflexivity].
  - apply (proj2 (proj2 (proj2 (filter_visibility_spec fresh)))).
    apply (proj1 (proj2 (filter_visibility_spec fresh))); [reflexivity|discriminate|reflexivity].
Defined.

(** C6 as the specification words it fails in mode [DELETED_VISIBLE]: on the
    query set of [all_objects] the latch is not set, and on a sliced one no
    assertion fails. *)
Lemma filter_visibility_visible_counterexample :
  let qs := get_queryset Samples.Article SafeDeleteAllManager in
  ¬ apply_visibility_as_specified qs
  ∧ ¬ apply_visibility_as_specified (Samples.sliced qs).
Proof.
  split; intros H.
  - destruct (H eq_refl) as [_ H2]. specialize (H2 eq_refl). discriminate.
  - destruct (H eq_refl) as [H1 _]. specialize (H1 eq_refl). discriminate.
Qed.

End VisibilityFacts.

(** ** Running the primitives of the world *)

Module WorldFacts.
Import Queryset Managers Models.

Lemma getobj_ok w ref i : heap w !! ref = Some i → getobj ref w = (Ok i, w).
Proof. intros H. unfold getobj. by rewrite H. Qed.

Lemma getobj_set w ref i j h :
  heap w !! ref = Some i →
  getobj ref (set_heap (<[ref := j]> (heap w)) h) = (Ok j, set_heap (<[ref := j]> (heap w)) h).
Proof.
  intros H. apply getobj_ok. simpl.
  apply list_lookup_insert_eq. by eapply lookup_lt_Some.
Qed.

Lemma Model_save_run w self i :
  heap w !! self = Some i →
  Model_save self w =
    (Ok tt,
     {| db := write_row (to_row (key_of i (db w)) i) (db w);
        heap := <[self := set_saved (Some (key_of i (db w))) i]> (heap w);
        log := log w ++ [Saved (to_row (key_of i (db w)) i)];
        clock := clock w |}).
Proof.
  intros H. unfold Model_save.
  erewrite bind_ok by (by apply getobj_ok).
  reflexivity.
Qed.

Lemma send_run w signal self i :
  heap w !! self = Some i →
  send signal self w = (Ok tt, add_log (Sent signal i) w).
Proof.
  intros H. unfold send. by erewrite bind_ok by (by apply getobj_ok).
Qed.

(** Saving with [keep_deleted]: the row is written as the instance is. *)
Lemma save_keep_deleted_run w self i :
  heap w !! self = Some i →
  SafeDeleteModel_save self true w =
    (Ok tt,
     {| db := write_row (to_row (key_of i (db w)) i) (db w);
        heap := <[self := set_saved (Some (key_of i (db w))) i]> (heap w);
        log := log w ++ [Saved (to_row (key_of i (db w)) i)];
        clock := clock w |}).
Proof.
  intros H. unfold SafeDeleteModel_save.
  erewrite bind_ok by (by apply getobj_ok). simpl.
  erewrite bind_ok by reflexivity.
  erewrite bind_ok by (by apply Model_save_run).
  reflexivity.
Qed.

(** Saving without it: [deleted] is cleared first, and the signal follows
    the write when the instance was marked and has a true primary key. *)
Lemma save_undeleting_run w self i :
  heap w !! self = Some i →
  let j := set_deleted None i in
  let k := key_of i (db w) in
  SafeDeleteModel_save self false w =
    (Ok tt,
     {| db := write_row (to_row k j) (db w);
        heap := <[self := set_saved (Some k) j]> (heap w);
        log := log w ++ Saved (to_row k j)
                 :: (if truthy_deleted (i_deleted i) && truthy_pk (i_pk i)
                     then [Sent post_undelete (set_saved (Some k) j)] else []);
        clock := clock w |}).
Proof.
  intros H j k. unfold SafeDeleteModel_save.
  erewrite bind_ok by (by apply getobj_ok). simpl.
  erewrite bind_ok by reflexivity.
  assert (Hj : heap (set_heap (<[self := j]> (heap w)) w) !! self = Some j).
  { simpl. apply list_lookup_insert_eq. by eapply lookup_lt_Some. }
  erewrite bind_ok by (by apply Model_save_run).
  simpl. rewrite list_insert_insert_eq.
  destruct (truthy_deleted (i_deleted i) && truthy_pk (i_pk i)).
  - erewrite send_run.
    2:{ simpl. apply list_lookup_insert_eq. by eapply lookup_lt_Some. }
    unfold add_log. simpl. by rewrite <- app_assoc.
  - reflexivity.
Qed.

(** [self.save(...)] on an instance whose order is set, or whose class is
    not ordered, is [SafeDeleteModel.save]. *)
Lemma save_dispatch w self i keep_deleted :
  heap w !! self = Some i →
  (ordered (i_model i) = true → is_Some (i_order i)) →
  save self keep_deleted w = SafeDeleteModel_save self keep_deleted w.
Proof.
  intros H Ho. unfold save.
  erewrite bind_ok by (by apply getobj_ok).
  destruct (ordered (i_model i)); [|done].
  destruct Ho as [o Ho]; [done|].
  unfold BaseOrderedSafeDeleteModel_save.
  erewrite bind_ok by (by apply getobj_ok).
  rewrite Ho. by erewrite bind_ok by reflexivity.
Qed.

End WorldFacts.

(** ** Deleting and saving one record *)

Module DeletionFacts.
Import Queryset Managers Models Readings WorldFacts.

(** The soft delete of [SafeDeleteModel.delete], step by step. *)
Lemma soft_delete_run references can_hard_delete self_delete
    (w : World) (self : nat) (force_policy : option Policy) (i : Instance) :
  heap w !! self = Some i →
  default (_safedelete_policy (i_model i)) force_policy = SOFT_DELETE →
  (ordered (i_model i) = true → is_Some (i_order i)) →
  let marked := set_deleted (Some (clock w)) i in
  let k := key_of i (db w) in
  SafeDeleteModel_delete references can_hard_delete self_delete self force_policy w =
    (Ok tt,
     {| db := write_row (to_row k marked) (db w);
        heap := <[self := set_saved (Some k) marked]> (heap w);
        log := log w ++ [Sent pre_softdelete marked;
                         Saved (to_row k marked);
                         Sent post_softdelete (set_saved (Some k) marked)];
        clock := clock w + 1 |}).
Proof.
  intros H Hp Ho marked k. unfold SafeDeleteModel_delete.
  erewrite bind_ok by (by apply getobj_ok).
  assert (Hpol : match force_policy with
                 | Some p => p
                 | None => _safedelete_policy (i_model i)
                 end = SOFT_DELETE) by (by destruct force_policy).
  rewrite Hpol.
  erewrite bind_ok by reflexivity.
  erewrite bind_ok by reflexivity.
  assert (Hm : ∀ lg c, heap {| db := db w; heap := <[self := marked]> (heap w);
                               log := lg; clock := c |} !! self = Some marked).
  { intros. simpl. apply list_lookup_insert_eq. by eapply lookup_lt_Some. }
  erewrite bind_ok by (apply send_run, Hm).
  erewrite bind_ok.
  2:{ erewrite save_dispatch by (first [apply Hm | exact Ho]).
      apply save_keep_deleted_run, Hm. }
  erewrite send_run.
  2:{ simpl. apply list_lookup_insert_eq. rewrite length_insert. by eapply lookup_lt_Some. }
  unfold add_log. simpl. rewrite list_insert_insert_eq.
  by rewrite <- !app_assoc.
Qed.

(** C1, as the code has it. Under the policy SOFT_DELETE,
    [SafeDeleteModel.delete] first sets [deleted] to the current time on the
    instance, then sends the pre-soft-delete notification (which so carries
    the marked instance), then persists the row with [deleted] kept as set
    and no post-undelete notification, then sends the post-soft-delete
    notification. *)
Theorem soft_delete_sequence references can_hard_delete self_delete
    (w : World) (self : nat) (force_policy : option Policy) (i : Instance) :
  heap w !! self = Some i →
  default (_safedelete_policy (i_model i)) force_policy = SOFT_DELETE →
  (ordered (i_model i) = true → is_Some (i_order i)) →
  let marked := set_deleted (Some (clock w)) i in
  let k := key_of i (db w) in
  SafeDeleteModel_delete references can_hard_delete self_delete self force_policy w =
    (Ok tt,
     {| db := write_row (to_row k marked) (db w);
        heap := <[self := set_saved (Some k) marked]> (heap w);
        log := log w ++ [Sent pre_softdelete marked;
                         Saved (to_row k marked);
                         Sent post_softdelete (set_saved (Some k) marked)];
        clock := clock w + 1 |}).
Proof. apply soft_delete_run. Qed.

Lemma soft_delete_sequence_witness :
  SafeDeleteModel_delete Samples.no_references Samples.always_can (λ _ _, mret tt)
    0%nat None Samples.blog_world =
  (Ok tt,
   {| db := [Samples.article 1 7 (Some 100)];
      heap := [of_row (Samples.article 1 7 (Some 100))];
      log := [Sent pre_softdelete (of_row (Samples.article 1 7 (Some 100)));
              Saved (Samples.article 1 7 (Some 100));
              Sent post_softdelete (of_row (Samples.article 1 7 (Some 100)))];
      clock := 101 |}).
Proof.
  apply (soft_delete_sequence Samples.no_references Samples.always_can (λ _ _, mret tt)
           Samples.blog_world 0%nat None (of_row (Samples.article 1 7 None)));
    [reflexivity | reflexivity | discriminate].
Defined.

(** C1 as the specification words it fails: the notification that opens the
    sequence already carries the instance marked as deleted. *)
Lemma soft_delete_marks_first_counterexample :
  log (SafeDeleteModel_delete Samples.no_references Samples.always_can (λ _ _, mret tt)
         0%nat None Samples.blog_world).2
  = [Sent pre_softdelete (of_row (Samples.article 1 7 (Some 100)));
     Saved (Samples.article 1 7 (Some 100));
     Sent post_softdelete (of_row (Samples.article 1 7 (Some 100)))]
  ∧ ¬ notified_before_marked Samples.blog_world
        (SafeDeleteModel_delete Samples.no_references Samples.always_can (λ _ _, mret tt)
           0%nat None Samples.blog_world).2 0%nat.
Proof.
  split; [reflexivity|].
  intros H. destruct (H _ eq_refl) as (j & rest & Hlog & Hj).
  vm_compute in Hlog. injection Hlog as <- _. discriminate.
Qed.

(** C5, as the code has it. Saving a record marked deleted without
    [keep_deleted] clears [deleted] on the instance and in the row written;
    the post-undelete notification is sent, after the write, exactly when
    the record has a primary key that is true in Python (set and not 0).
    Saving with [keep_deleted] writes the row with [deleted] as it is and
    sends no notification. *)
Theorem save_of_deleted_record (w : World) (self : nat) (i : Instance) :
  heap w !! self = Some i →
  i_deleted i ≠ None →
  let k := key_of i (db w) in
  let cleared := set_deleted None i in
  (∃ w', SafeDeleteModel_save self false w = (Ok tt, w')
         ∧ heap w' !! self = Some (set_saved (Some k) cleared)
         ∧ db w' = write_row (to_row k cleared) (db w)
         ∧ log w' = log w ++ Saved (to_row k cleared)
                      :: (if truthy_pk (i_pk i)
                          then [Sent post_undelete (set_saved (Some k) cleared)]
                          else []))
  ∧ (∃ w', SafeDeleteModel_save self true w = (Ok tt, w')
           ∧ heap w' !! self = Some (set_saved (Some k) i)
           ∧ db w' = write_row (to_row k i) (db w)
           ∧ log w' = log w ++ [Saved (to_row k i)]).
Proof.
  intros H Hd k cleared. split.
  - eexists. split; [by apply save_undeleting_run|]. simpl.
    split_and!; [|done|].
    + apply list_lookup_insert_eq. by eapply lookup_lt_Some.
    + destruct (i_deleted i); done.
  - eexists. split; [by apply save_keep_deleted_run|]. simpl.
    split_and!; [|done..].
    apply list_lookup_insert_eq. by eapply lookup_lt_Some.
Qed.

Lemma save_of_deleted_record_witness :
  (∃ w', SafeDeleteModel_save 0%nat false Samples.trash_world = (Ok tt, w')
         ∧ heap w' !! 0%nat = Some (of_row (Samples.article 1 7 None))
         ∧ db w' = [Samples.article 1 7 None]
         ∧ log w' = [Saved (Samples.article 1 7 None);
                     Sent post_undelete (of_row (Samples.article 1 7 None))])
  ∧ (∃ w', SafeDeleteModel_save 0%nat true Samples.trash_world = (Ok tt, w')
           ∧ heap w' !! 0%nat = Some (of_row (Samples.article 1 7 (Some 50)))
           ∧ db w' = [Samples.article 1 7 (Some 50)]
           ∧ log w' = [Saved (Samples.article 1 7 (Some 50))]).
Proof.
  apply (save_of_deleted_record Samples.trash_world 0%nat
           (of_row (Samples.article 1 7 (Some 50)))); [reflexivity | discriminate].
Defined.

(** C5 as the specification words it fails on an instance marked deleted
    that has no primary key yet: the save clears [deleted] and writes the
    row, and no post-undelete notification is sent. *)
Lemma save_without_pk_counterexample :
  log (SafeDeleteModel_save 0%nat false Samples.draft_world).2
  = [Saved (to_row 1 (set_deleted None Samples.draft))]
  ∧ ¬ undeleted_and_notified Samples.draft_world
        (SafeDeleteModel_save 0%nat false Samples.draft_world).2 0%nat.
Proof.
  split; [reflexivity|].
  intros H. destruct (H _ eq_refl) as [_ [j Hj]]; [discriminate|].
  vm_compute in Hj. apply list_elem_of_singleton in Hj. discriminate.
Qed.

End DeletionFacts.

(** ** Query sets are copied, except by [all] with a forced visibility *)

Module CloneFacts.
Import Queryset Managers Readings VisibilityFacts.

(** The copy carries the visibility mode, the visibility field, the latch
    and the forced visibility of its source, over a copy of its query. *)
Lemma clone_carries_state (qs : QuerySet) : _clone qs = qs.
Proof. destruct qs as [m q v f a [fv|]]; reflexivity. Qed.

Lemma with_qs_state {S A} (obj : QuerySet) (m : M QuerySet A) (s : S) :
  (with_qs obj m s).2 = s.
Proof. reflexivity. Qed.

Lemma filter_leaves_caller (kwargs : list Cond) (self : QuerySet) :
  (filter kwargs self).2 = self.
Proof.
  unfold filter. erewrite bind_ok by reflexivity.
  destruct ((_check_field_filter kwargs;; QuerySet_filter kwargs) (_clone self))
    as [[r|e|] q]; reflexivity.
Qed.

Lemma get_leaves_caller (kwargs : list Cond) (d : list Row) (self : QuerySet) :
  (get kwargs d self).2 = self.
Proof. unfold get. by erewrite bind_ok by reflexivity. Qed.

Lemma all_plain_leaves_caller (self : QuerySet) : all None self = (Ok self, self).
Proof.
  unfold all. erewrite bind_ok by reflexivity.
  unfold gets. by rewrite clone_carries_state.
Qed.

Lemma all_forced_run (v : Visibility) (self : QuerySet) :
  all (Some v) self
  = (Ok (set_force_visibility (Some v) self), set_force_visibility (Some v) self).
Proof.
  unfold all. erewrite bind_ok by reflexivity.
  unfold gets. by rewrite clone_carries_state.
Qed.

(** C7 fails on [all(force_visibility=...)]: the override is assigned to the
    caller's query set before it is copied. The query set of [objects],
    which hid the soft-deleted article, shows it after the call. *)
Theorem all_forced_visibility_mutates_caller :
  let caller := Samples.objects_of Samples.Article in
  let d := [Samples.article 1 7 (Some 50)] in
  _safedelete_force_visibility caller = None
  ∧ outcome_of (fetch d) caller = Ok []
  ∧ (all (Some DELETED_VISIBLE) caller).2
    = set_force_visibility (Some DELETED_VISIBLE) caller
  ∧ outcome_of (fetch d) (all (Some DELETED_VISIBLE) caller).2
    = Ok [Samples.article 1 7 (Some 50)].
Proof. split_and!; reflexivity. Qed.

End CloneFacts.

(** ** Operations that are refused *)

Module RefusalFacts.
Import Queryset Managers Models Readings WorldFacts.

Lemma respect_to_kwargs_run {S} (i : Instance) (s : S) :
  order_with_respect_to (i_model i) ≠ WrtNone →
  _get_order_with_respect_to_filter_kwargs (i_model i) i s = (Ok (respect_to_values i), s).
Proof.
  intros Hn. unfold _get_order_with_respect_to_filter_kwargs, _get_order_with_respect_to,
    respect_to_values, respect_to_fields, get_lookup_value.
  destruct (order_with_respect_to (i_model i)); [done|..];
    by erewrite bind_ok by reflexivity.
Qed.

Lemma validate_ordering_reference_refuses (w : World) (self ref : nat) (s r : Instance) :
  heap w !! self = Some s →
  heap w !! ref = Some r →
  order_with_respect_to (i_model s) ≠ WrtNone →
  order_with_respect_to (i_model r) ≠ WrtNone →
  respect_to_values s ≠ respect_to_values r →
  _validate_ordering_reference self ref w = (Raise ValueError, w).
Proof.
  intros Hs Hr Hns Hnr Hne. unfold _validate_ordering_reference.
  erewrite bind_ok by (by apply getobj_ok).
  erewrite bind_ok by (by apply getobj_ok).
  replace (is_none_respect_to (order_with_respect_to (i_model s))) with false
    by (by destruct (order_with_respect_to (i_model s))).
  simpl.
  erewrite bind_ok by (by apply respect_to_kwargs_run).
  erewrite bind_ok by (by apply respect_to_kwargs_run).
  by rewrite bool_decide_eq_true_2.
Qed.

(** C3. The three refusals leave the world (stored rows, instances in
    memory, collaborator calls, clock) as it was: [undelete] on an instance
    that is not marked deleted fails its assertion; [to] with a value that
    is not an integer raises a type error; [swap], [above] and [below] with
    a reference whose respect-to values differ raise a value error. *)
Theorem refusals_change_nothing policy_truthy references (w : World) :
  (∀ fuel self force_policy i,
     heap w !! self = Some i → i_deleted i = None →
     undelete policy_truthy references (S fuel) self force_policy w
     = (Raise AssertionError, w))
  ∧ (∀ self order extra_update,
       (∀ z, order ≠ PyInt z) →
       to self order extra_update w = (Raise TypeError, w))
  ∧ (∀ self ref s r extra_update,
       heap w !! self = Some s → heap w !! ref = Some r →
       order_with_respect_to (i_model s) ≠ WrtNone →
       order_with_respect_to (i_model r) ≠ WrtNone →
       respect_to_values s ≠ respect_to_values r →
       swap self ref w = (Raise ValueError, w)
       ∧ above self ref extra_update w = (Raise ValueError, w)
       ∧ below self ref extra_update w = (Raise ValueError, w)).
Proof.
  split_and!.
  - intros fuel self force_policy i Hi Hd. simpl.
    erewrite bind_ok by (by apply getobj_ok).
    rewrite Hd. reflexivity.
  - intros self [z| |s] extra_update Hz; [by destruct (Hz z)|done..].
  - intros self ref s r extra_update Hs Hr Hns Hnr Hne.
    pose proof (validate_ordering_reference_refuses w self ref s r Hs Hr Hns Hnr Hne) as Hv.
    unfold swap, above, below. by erewrite !bind_raise by exact Hv.
Qed.

Lemma refusals_change_nothing_witness :
  undelete Samples.all_truthy Samples.no_references 1 0%nat None Samples.blog_world
  = (Raise AssertionError, Samples.blog_world)
  ∧ to 0%nat PyNone None (Samples.board_world SOFT_DELETE)
    = (Raise TypeError, Samples.board_world SOFT_DELETE)
  ∧ swap 0%nat 2%nat (Samples.board_world SOFT_DELETE)
    = (Raise ValueError, Samples.board_world SOFT_DELETE)
  ∧ above 0%nat 2%nat None (Samples.board_world SOFT_DELETE)
    = (Raise ValueError, Samples.board_world SOFT_DELETE)
  ∧ below 0%nat 2%nat None (Samples.board_world SOFT_DELETE)
    = (Raise ValueError, Samples.board_world SOFT_DELETE).
Proof.
  pose proof (refusals_change_nothing Samples.all_truthy Samples.no_references
                Samples.blog_world) as (Hu & _ & _).
  pose proof (refusals_change_nothing Samples.all_truthy Samples.no_references
                (Samples.board_world SOFT_DELETE)) as (_ & Ht & Hs).
  split; [by apply (Hu 0%nat 0%nat None (of_row (Samples.article 1 7 None)))|].
  split; [by apply Ht|].
  apply (Hs 0%nat 2%nat (of_row (Samples.task SOFT_DELETE 13 1 3 None))
            (of_row (Samples.task SOFT_DELETE 20 2 0 None)) None);
    [reflexivity | reflexivity | discriminate | discriminate | ].
  intros E. apply (f_equal (λ m, m !! "board")) in E. vm_compute in E. discriminate.
Defined.

End RefusalFacts.

(** ** The ordering query set *)

Module OrderingFacts.
Import Queryset Managers Models Readings WorldFacts.

Lemma foldl_add_q (cs : list Cond) (q : Query) :
  foldl (λ q c, add_q c q) q cs
  = {| where_ := where_ q ++ cs; is_sliced := is_sliced q |}.
Proof.
  revert q. induction cs as [|c cs IH]; intros q; simpl.
  - destruct q. simpl. by rewrite app_nil_r.
  - rewrite IH. simpl. by rewrite <- app_assoc.
Qed.

Lemma lazy_invisible_add_conds cs qs : lazy_invisible qs → lazy_invisible (add_conds cs qs).
Proof. intros (?&?&?&?). by repeat split. Qed.

Lemma filter_run (cs : list Cond) (qs : QuerySet) :
  lazy_invisible qs → filter cs qs = (Ok (add_conds cs qs), qs).
Proof.
  intros (Hv & Hf & Ha & Hs). unfold filter.
  erewrite bind_ok by reflexivity.
  rewrite CloneFacts.clone_carries_state.
  assert ((_check_field_filter cs;; QuerySet_filter cs) qs = (Ok (add_conds cs qs), qs)) as ->.
  { unfold _check_field_filter, QuerySet_filter.
    erewrite bind_ok.
    2:{ erewrite bind_ok by reflexivity. rewrite Hv. reflexivity. }
    erewrite bind_ok by reflexivity.
    unfold can_filter. rewrite Hs. simpl.
    erewrite bind_ok by reflexivity.
    rewrite CloneFacts.clone_carries_state, foldl_add_q. reflexivity. }
  reflexivity.
Qed.

Lemma filter_visibility_lazy (qs : QuerySet) :
  lazy_invisible qs →
  _filter_visibility qs
  = (Ok tt, set_filter_applied true (add_conds [DeletedIsNull true] qs)).
Proof.
  intros (Hv & Hf & Ha & Hs).
  rewrite VisibilityFacts.filter_visibility_injects; try done.
  - unfold effective_visibility. rewrite Hf, Hv. reflexivity.
  - unfold effective_visibility. rewrite Hf, Hv. discriminate.
Qed.

Lemma selects_add_conds cs qs r :
  selects (add_conds cs qs) r = selects qs r && forallb (λ c, cond_holds c r) cs.
Proof. unfold selects, add_conds. simpl. by rewrite forallb_app, andb_assoc. Qed.

Lemma selects_latched b qs r : selects (set_filter_applied b qs) r = selects qs r.
Proof. reflexivity. Qed.

Lemma selects_live qs r :
  selects (set_filter_applied true (add_conds [DeletedIsNull true] qs)) r
  = selects qs r && live r.
Proof.
  rewrite selects_latched, selects_add_conds. simpl. unfold live.
  by destruct (bool_decide (r_deleted r = None)).
Qed.

Lemma fetch_run (d : list Row) (qs : QuerySet) :
  lazy_invisible qs →
  fetch d qs = (Ok (List.filter (λ r, selects qs r && live r) d),
                set_filter_applied true (add_conds [DeletedIsNull true] qs)).
Proof.
  intros H. unfold fetch.
  erewrite bind_ok by (by apply filter_visibility_lazy).
  unfold gets, rows_of. do 2 f_equal.
  apply List.filter_ext. intros r. apply selects_live.
Qed.

Lemma update_run (delta : Z) (extra : gmap string Z) (d : list Row) (qs : QuerySet) :
  lazy_invisible qs →
  update delta extra d qs
  = (Ok ((λ r, if selects qs r && live r then update_row delta extra r else r) <$> d),
     set_filter_applied true (add_conds [DeletedIsNull true] qs)).
Proof.
  intros H. unfold update.
  erewrite bind_ok by (by apply filter_visibility_lazy).
  erewrite bind_ok by reflexivity.
  destruct H as (_ & _ & _ & Hs). unfold can_filter. simpl. rewrite Hs. simpl.
  erewrite bind_ok by reflexivity.
  unfold mret, M_ret. do 2 f_equal.
  apply list_fmap_ext. intros _ r _. by rewrite selects_live.
Qed.

Lemma lookup_field_values (g : string → option Z) (fields : list string) (k : string) :
  (list_to_map ((λ field, (field, g field)) <$> fields) : gmap string (option Z)) !! k
  = if decide (k ∈ fields) then Some (g k) else None.
Proof.
  induction fields as [|f fields IH].
  - rewrite fmap_nil, list_to_map_nil, lookup_empty.
    by rewrite decide_False by apply not_elem_of_nil.
  - rewrite fmap_cons, list_to_map_cons, lookup_insert. destruct (decide (f = k)) as [->|Hne].
    + by rewrite decide_True by left.
    + rewrite IH. destruct (decide (k ∈ fields)) as [Hin|Hnin].
      * by rewrite decide_True by (by right).
      * rewrite decide_False; [done|]. intros Hin. apply elem_of_cons in Hin as [->|?]; done.
Qed.

(** The conditions built from the dictionary hold exactly when the row
    agrees with the instance on every respect-to field. *)
Lemma kwargs_conds_hold (g : string → option Z) (fields : list string) (r : Row) :
  forallb (λ c, cond_holds c r)
    (kwargs_conds (list_to_map ((λ field, (field, g field)) <$> fields)))
  = forallb (λ field, bool_decide (row_get r field = g field)) fields.
Proof.
  apply eq_true_iff_eq. rewrite !forallb_forall. split.
  - intros H f Hf. apply list_elem_of_In in Hf.
    apply (H (Exact f (g f))). unfold kwargs_conds.
    apply list_elem_of_In, list_elem_of_fmap. exists (f, g f). split; [done|].
    apply elem_of_map_to_list. rewrite lookup_field_values. by rewrite decide_True.
  - intros H c Hc. unfold kwargs_conds in Hc.
    apply list_elem_of_In, list_elem_of_fmap in Hc as ([f v] & -> & Hfv).
    apply elem_of_map_to_list in Hfv. rewrite lookup_field_values in Hfv.
    destruct (decide (f ∈ fields)) as [Hin|]; [|done]. simplify_eq. simpl.
    apply H. by apply list_elem_of_In.
Qed.

Lemma selects_ordering_qs (i : Instance) (r : Row) :
  selects (ordering_qs i) r = same_scope i r.
Proof.
  unfold ordering_qs. rewrite selects_add_conds. unfold same_scope, scope_conds, scope_fields.
  unfold selects at 1. simpl. rewrite andb_true_r. f_equal.
  destruct (truthy_respect_to (order_with_respect_to (i_model i))); [|done].
  unfold respect_to_values. apply kwargs_conds_hold.
Qed.

Lemma lazy_invisible_ordering_qs (i : Instance) : lazy_invisible (ordering_qs i).
Proof. by apply lazy_invisible_add_conds. Qed.

Lemma get_ordering_queryset_run {S} (i : Instance) (s : S) :
  ordered_model (i_model i) →
  get_ordering_queryset i s = (Ok (ordering_qs i), s).
Proof.
  intros (_ & Hm & Hp). unfold get_ordering_queryset. rewrite Hp, Hm.
  erewrite bind_ok by reflexivity.
  unfold with_qs, outcome_of. do 2 f_equal.
  unfold filter_by_order_with_respect_to.
  erewrite bind_ok by reflexivity. simpl.
  unfold ordering_qs, scope_conds.
  destruct (truthy_respect_to (order_with_respect_to (i_model i))) eqn:Ht.
  - erewrite bind_ok.
    2:{ apply (RefusalFacts.respect_to_kwargs_run i). intros E. by rewrite E in Ht. }
    by rewrite filter_run.
  - unfold add_conds. simpl. reflexivity.
Qed.

Lemma update_row_plain (delta : Z) (r : Row) :
  update_row delta ∅ r = with_order ((λ o, o + delta) <$> r_order r) r.
Proof.
  unfold update_row, with_order. rewrite lookup_empty, delete_empty.
  f_equal. apply (left_id_L ∅ (∪)).
Qed.

Lemma order_conds_hold (cs : list (CmpOp * Z)) (r : Row) (x : Z) :
  r_order r = Some x →
  forallb (λ c, cond_holds c r) ((λ c, OrderCmp c.1 c.2) <$> cs)
  = forallb (λ c, cmp_holds c.1 x c.2) cs.
Proof.
  intros Hx. induction cs as [|c cs IH]; [done|].
  rewrite fmap_cons. cbn [forallb cond_holds]. by rewrite Hx, IH.
Qed.

(** One or two comparisons on the order column, added to the ordering query
    set, select the live siblings whose order is in the range. *)
Lemma selects_order_range (i : Instance) (c : CmpOp * Z) (cs : list (CmpOp * Z)) (r : Row) :
  selects (add_conds ((λ c, OrderCmp c.1 c.2) <$> c :: cs) (ordering_qs i)) r && live r
  = match r_order r with
    | Some x => same_scope i r && live r && forallb (λ c, cmp_holds c.1 x c.2) (c :: cs)
    | None => false
    end.
Proof.
  rewrite selects_add_conds, selects_ordering_qs.
  destruct (r_order r) as [x|] eqn:Hx.
  - rewrite (order_conds_hold _ r x Hx).
    by rewrite <- andb_assoc, (andb_comm _ (live r)), andb_assoc.
  - rewrite fmap_cons. cbn [forallb cond_holds]. rewrite Hx. simpl.
    by rewrite andb_false_r.
Qed.

Lemma shift_run (i : Instance) (c : CmpOp * Z) (cs : list (CmpOp * Z)) (delta : Z)
    (d : list Row) :
  (λ r, if selects (add_conds ((λ c, OrderCmp c.1 c.2) <$> c :: cs) (ordering_qs i)) r
           && live r
        then update_row delta ∅ r else r) <$> d
  = shift_rows i (λ x, forallb (λ c, cmp_holds c.1 x c.2) (c :: cs)) delta d.
Proof.
  unfold shift_rows, shift_row. apply list_fmap_ext. intros _ r _.
  rewrite selects_order_range, update_row_plain.
  destruct (r_order r); done.
Qed.

Lemma above_run (o : Z) (inclusive : bool) (qs : QuerySet) :
  lazy_invisible qs →
  Queryset.above (Some o) inclusive qs
  = (Ok (add_conds [OrderCmp (if inclusive then Gte else Gt) o] qs), qs).
Proof. intros H. unfold Queryset.above. by rewrite filter_run. Qed.

Lemma below_run (o : Z) (inclusive : bool) (qs : QuerySet) :
  lazy_invisible qs →
  Queryset.below (Some o) inclusive qs
  = (Ok (add_conds [OrderCmp (if inclusive then Lte else Lt) o] qs), qs).
Proof. intros H. unfold Queryset.below. by rewrite filter_run. Qed.

Lemma add_conds_app cs cs' qs : add_conds cs' (add_conds cs qs) = add_conds (cs ++ cs') qs.
Proof. unfold add_conds. simpl. by rewrite app_assoc. Qed.

(** The first step of [BaseOrderedSafeDeleteModel.delete]. *)
Lemma ordered_delete_run (super_delete : M World unit) (w : World) (self : nat)
    (i : Instance) (o : Z) :
  heap w !! self = Some i →
  ordered_model (i_model i) →
  i_order i = Some o →
  BaseOrderedSafeDeleteModel_delete super_delete self None w
  = super_delete (set_db (shift_rows i (λ x, o <? x) (-1) (db w)) w).
Proof.
  intros Hi Hm Ho. unfold BaseOrderedSafeDeleteModel_delete.
  erewrite bind_ok by (by apply getobj_ok).
  erewrite bind_ok by (by apply get_ordering_queryset_run).
  erewrite bind_ok.
  2:{ unfold with_qs, outcome_of, above_instance. rewrite Ho.
      rewrite above_run by apply lazy_invisible_ordering_qs. reflexivity. }
  erewrite bind_ok by reflexivity.
  erewrite bind_ok.
  2:{ unfold with_qs, outcome_of, decrease_order.
      rewrite update_run by apply lazy_invisible_add_conds, lazy_invisible_ordering_qs.
      simpl. rewrite (shift_run i (Gt, o) [] (-1)). reflexivity. }
  erewrite bind_ok by reflexivity.
  simpl. do 2 f_equal. unfold shift_rows, shift_row. apply list_fmap_ext. intros _ r _.
  destruct (r_order r); [|done]. by rewrite andb_true_r.
Qed.

(** [delete] on an ordered record is [SafeDeleteModel.delete] on the table
    with the siblings above already moved down. *)
Lemma ordered_delete_dispatch references can_hard_delete
    (w : World) (self : nat) (force_policy : option Policy) (fuel : nat)
    (i : Instance) (o : Z) :
  heap w !! self = Some i →
  ordered_model (i_model i) →
  i_order i = Some o →
  delete references can_hard_delete (S fuel) self force_policy None w
  = SafeDeleteModel_delete references can_hard_delete
      (λ obj p, delete references can_hard_delete fuel obj p None)
      self force_policy (set_db (shift_rows i (λ x, o <? x) (-1) (db w)) w).
Proof.
  intros Hi Hm Ho. simpl. erewrite bind_ok by (by apply getobj_ok).
  destruct Hm as (Hord & Hm). rewrite Hord.
  by apply ordered_delete_run.
Qed.

(** Shifting orders keeps every row's table and primary key. *)
Lemma shift_rows_ids (i : Instance) (range : Z → bool) (delta : Z) (d : list Row) :
  Forall2 (λ r r', r_model r' = r_model r ∧ r_pk r' = r_pk r
                   ∧ r_deleted r' = r_deleted r ∧ r_fields r' = r_fields r)
    d (shift_rows i range delta d).
Proof.
  unfold shift_rows, shift_row. apply Forall2_fmap_r, Forall_Forall2_diag, Forall_forall.
  intros r _. unfold compose. destruct (r_order r) as [x|]; [|done].
  by destruct (same_scope i r && live r && range x).
Qed.

Lemma next_pk_same_ids (m : Model) (d d' : list Row) :
  Forall2 (λ r r', r_model r' = r_model r ∧ r_pk r' = r_pk r
                   ∧ r_deleted r' = r_deleted r ∧ r_fields r' = r_fields r) d d' →
  next_pk m d' = next_pk m d.
Proof.
  intros H. unfold next_pk. f_equal. f_equal.
  induction H as [|r r' d d' (Hm & Hk & _) _ IH]; [done|].
  cbn [List.filter]. rewrite Hm.
  destruct (bool_decide _); [rewrite !fmap_cons, Hk, IH|]; done.
Qed.

Lemma next_pk_shift (m : Model) (i : Instance) (range : Z → bool) (delta : Z)
    (d : list Row) :
  next_pk m (shift_rows i range delta d) = next_pk m d.
Proof. apply next_pk_same_ids, shift_rows_ids. Qed.

Lemma key_of_shift (j i : Instance) (range : Z → bool) (delta : Z) (d : list Row) :
  key_of j (shift_rows i range delta d) = key_of j d.
Proof. unfold key_of. destruct (i_pk j); [done|]. apply next_pk_shift. Qed.

Lemma to_run (w : World) (self : nat) (i : Instance) (s t : Z) :
  heap w !! self = Some i →
  ordered_model (i_model i) →
  i_order i = Some s →
  t ≠ s →
  to self (PyInt t) None w
  = save self false
      (set_heap (<[self := set_order (Some t) i]> (heap w))
         (set_db (shift_rows i (to_range s t) (to_delta s t) (db w)) w)).
Proof.
  intros Hi Hm Ho Hne. unfold to.
  erewrite bind_ok by (by apply getobj_ok).
  rewrite Ho. rewrite bool_decide_eq_false_2 by congruence.
  erewrite bind_ok by (by apply get_ordering_queryset_run).
  simpl. erewrite bind_ok by reflexivity.
  erewrite bind_ok by reflexivity.
  unfold to_range, to_delta.
  destruct (t <? s) eqn:Hts.
  - erewrite bind_ok.
    2:{ erewrite bind_ok.
        2:{ unfold with_qs, outcome_of, below_instance. rewrite Ho.
            rewrite below_run by apply lazy_invisible_ordering_qs. reflexivity. }
        erewrite bind_ok.
        2:{ unfold with_qs, outcome_of.
            rewrite filter_run by apply lazy_invisible_add_conds, lazy_invisible_ordering_qs.
            reflexivity. }
        erewrite bind_ok.
        2:{ unfold with_qs, outcome_of, increase_order.
            rewrite update_run
              by (do 2 apply lazy_invisible_add_conds; apply lazy_invisible_ordering_qs).
            simpl. rewrite add_conds_app. simpl.
            rewrite (shift_run i (Lt, s) [(Gte, t)] 1). reflexivity. }
        reflexivity. }
    erewrite bind_ok by (by apply getobj_ok).
    erewrite bind_ok by reflexivity.
    simpl. f_equal. unfold set_heap, set_db. simpl. f_equal.
    unfold shift_rows, shift_row. apply list_fmap_ext. intros _ r _.
    destruct (r_order r) as [x|]; [|done]. simpl.
    by rewrite andb_true_r, (andb_comm (x <? s)).
  - erewrite bind_ok.
    2:{ erewrite bind_ok.
        2:{ unfold with_qs, outcome_of, above_instance. rewrite Ho.
            rewrite above_run by apply lazy_invisible_ordering_qs. reflexivity. }
        erewrite bind_ok.
        2:{ unfold with_qs, outcome_of.
            rewrite filter_run by apply lazy_invisible_add_conds, lazy_invisible_ordering_qs.
            reflexivity. }
        erewrite bind_ok.
        2:{ unfold with_qs, outcome_of, decrease_order.
            rewrite update_run
              by (do 2 apply lazy_invisible_add_conds; apply lazy_invisible_ordering_qs).
            simpl. rewrite add_conds_app. simpl.
            rewrite (shift_run i (Gt, s) [(Lte, t)] (-1)). reflexivity. }
        reflexivity. }
    erewrite bind_ok by (by apply getobj_ok).
    erewrite bind_ok by reflexivity.
    simpl. f_equal. unfold set_heap, set_db. simpl. f_equal.
    unfold shift_rows, shift_row. apply list_fmap_ext. intros _ r _.
    destruct (r_order r) as [x|]; [|done]. simpl.
    by rewrite andb_true_r.
Qed.

(** [to] on a record in memory, for a target it is at and for another. *)
Lemma to_record_run (w : World) (self : nat) (i : Instance) (s : Z) :
  heap w !! self = Some i →
  ordered_model (i_model i) →
  i_order i = Some s →
  to self (PyInt s) None w = (Ok tt, w)
  ∧ (∀ t, t ≠ s →
       let moved := set_deleted None (set_order (Some t) i) in
       let k := key_of i (db w) in
       ∃ w', to self (PyInt t) None w = (Ok tt, w')
             ∧ db w' = write_row (to_row k moved)
                         (shift_rows i (to_range s t) (to_delta s t) (db w))
             ∧ heap w' !! self = Some (set_saved (Some k) moved)).
Proof.
  intros Hi Hm Ho. split.
  - unfold to. erewrite bind_ok by (by apply getobj_ok).
    by rewrite Ho, bool_decide_eq_true_2.
  - intros t Hne moved k. rewrite (to_run w self i s t) by done.
    set (w1 := set_heap _ _).
    assert (H1 : heap w1 !! self = Some (set_order (Some t) i)).
    { simpl. apply list_lookup_insert_eq. by eapply lookup_lt_Some. }
    erewrite save_dispatch by (first [exact H1 | by eexists]).
    rewrite (save_undeleting_run w1 self _ H1).
    eexists. split; [reflexivity|]. simpl. split.
    + by rewrite key_of_shift.
    + rewrite key_of_shift. rewrite list_insert_insert_eq.
      apply list_lookup_insert_eq. by eapply lookup_lt_Some.
Qed.

End OrderingFacts.

(** ** The uniqueness check *)

Module UniquenessFacts.
Import Queryset Managers Models Readings WorldFacts.

Lemma single_lookup_kwargs (i : Instance) (f : string) (v : Z) :
  i_adding i = true →
  inst_get i f = Some v →
  lookup_kwargs_of i [f] = {[ f := v ]}.
Proof.
  intros Ha Hv. unfold lookup_kwargs_of. simpl. rewrite Hv, Ha.
  rewrite andb_false_r. apply insert_empty.
Qed.

Lemma single_kwargs_conds (f : string) (v : Z) :
  kwargs_conds (Some <$> ({[ f := v ]} : gmap string Z)) = [Exact f (Some v)].
Proof.
  unfold kwargs_conds. by rewrite map_fmap_singleton, map_to_list_singleton.
Qed.

(** What a query set of a manager, filtered on one field, fetches. *)
Lemma fetch_filtered_by_field (mc : Model) (mgr : Manager) (f : string) (v : Z)
    (d : list Row) :
  ∃ qs, outcome_of (filter [Exact f (Some v)]) (get_queryset mc mgr) = Ok qs
        ∧ outcome_of (fetch d) qs
          = Ok (List.filter (λ r, takes mc f v r && shown_by mgr [f] r) d).
Proof.
  assert (Hsel : ∀ (q : QuerySet) (b : option bool),
            model q = mc →
            where_ (query q)
            = Exact f (Some v) :: match b with Some b => [DeletedIsNull b] | None => [] end →
            rows_of q d
            = List.filter (λ r, takes mc f v r
                                && match b with
                                   | Some true => live r
                                   | Some false => negb (live r)
                                   | None => true
                                   end) d).
  { intros q b Hq Hw. unfold rows_of. apply List.filter_ext. intros r.
    unfold selects, takes. rewrite Hq, Hw. rewrite <- andb_assoc. f_equal.
    simpl. f_equal. unfold live.
    destruct b as [[|]|]; simpl; rewrite ?andb_true_r; try done;
      by destruct (bool_decide (r_deleted r = None)). }
  destruct mgr as [|vis field].
  - eexists. split; [reflexivity|]. unfold outcome_of, fetch. simpl.
    by rewrite (Hsel _ None).
  - destruct vis.
    + eexists. split; [reflexivity|]. unfold outcome_of, fetch. simpl.
      by rewrite (Hsel _ (Some true)).
    + destruct (decide (field ∈ [f])) as [Hin|Hnin].
      * eexists. split.
        { unfold outcome_of, filter, _check_field_filter, mbind, M_bind, get_state. simpl.
          rewrite (bool_decide_eq_true_2 _ Hin). reflexivity. }
        unfold outcome_of, fetch. simpl.
        rewrite (Hsel _ None); [|done..]. f_equal. apply List.filter_ext. intros r.
        by rewrite (bool_decide_eq_true_2 _ Hin).
      * eexists. split.
        { unfold outcome_of, filter, _check_field_filter, mbind, M_bind, get_state. simpl.
          rewrite (bool_decide_eq_false_2 _ Hnin). reflexivity. }
        unfold outcome_of, fetch. simpl.
        rewrite (Hsel _ (Some true)); [|done..]. f_equal. apply List.filter_ext. intros r.
        by rewrite (bool_decide_eq_false_2 _ Hnin).
    + eexists. split; [reflexivity|]. unfold outcome_of, fetch. simpl.
      by rewrite (Hsel _ (Some false)).
    + eexists. split; [reflexivity|]. unfold outcome_of, fetch. simpl.
      by rewrite (Hsel _ None).
Qed.

Lemma filter_nonempty {A} (p : A → bool) (l : list A) :
  bool_decide (List.filter p l ≠ []) = existsb p l.
Proof.
  induction l as [|x l IH]; [done|]. simpl.
  destruct (p x); simpl; done.
Qed.

Lemma existsb_pointwise {A} (p q : A → bool) (l : list A) :
  (∀ x, p x = q x) → existsb p l = existsb q l.
Proof. intros H. induction l as [|x l IH]; [done|]. simpl. by rewrite H, IH. Qed.

(** One check of one field on an instance that is being added, through the
    manager the code picks: [all_objects] when the class has one, the
    default manager otherwise. *)
Lemma single_unique_check_run (w : World) (self : nat) (i : Instance) (mc : Model)
    (f : string) (v : Z) :
  heap w !! self = Some i →
  i_adding i = true →
  inst_get i f = Some v →
  _perform_unique_checks self [(mc, [f])] w
  = (Ok (if existsb (λ r, takes mc f v r
                          && shown_by (default (_default_manager mc) (all_objects mc)) [f] r)
              (db w)
         then unique_error mc f else ∅), w).
Proof.
  intros Hi Ha Hv. unfold _perform_unique_checks.
  erewrite bind_ok by (by apply getobj_ok).
  erewrite bind_ok by reflexivity.
  cbn [unique_checks_loop].
  destruct (fetch_filtered_by_field mc (default (_default_manager mc) (all_objects mc))
              f v (db w)) as (qs & Hqs & Hrows).
  erewrite bind_ok; [reflexivity|].
  unfold unique_check_step.
  rewrite (single_lookup_kwargs i f v Ha Hv), single_kwargs_conds.
  rewrite map_size_singleton. rewrite bool_decide_eq_false_2 by (simpl; lia).
  erewrite bind_ok.
  2:{ instantiate (1 := w). instantiate (1 := qs).
      destruct (all_objects mc); unfold with_qs; simpl in Hqs; by rewrite Hqs. }
  erewrite bind_ok.
  2:{ instantiate (1 := w). instantiate (1 := qs).
      rewrite Ha. by destruct (i_pk i). }
  erewrite bind_ok.
  2:{ unfold with_qs. rewrite Hrows. reflexivity. }
  rewrite filter_nonempty.
  destruct (existsb _ (db w)); [|done].
  unfold mret, M_ret. do 2 f_equal.
Qed.



End UniquenessFacts.

(** ** Cascades come to an end *)

Module TerminationFacts.
Import Queryset Managers Models Readings WorldFacts.

(** *** Computations without recursion never run out of fuel *)

Section NeverDiverges.
Context {S : Type}.

Lemma nd_ret {A} (a : A) : never_diverges (mret a : M S A).
Proof. by intros s. Qed.

Lemma nd_raise {A} (e : Exn) : never_diverges (raise e : M S A).
Proof. by intros s. Qed.

Lemma nd_bind {A B} (m : M S A) (k : A → M S B) :
  never_diverges m → (∀ a, never_diverges (k a)) → never_diverges (m ≫= k).
Proof.
  intros Hm Hk s. unfold mbind, M_bind. specialize (Hm s).
  destruct (m s) as [[a|e|] s']; [apply Hk|done|done].
Qed.

Lemma nd_get_state : never_diverges (get_state : M S S).
Proof. by intros s. Qed.

Lemma nd_gets {A} (f : S → A) : never_diverges (gets f).
Proof. by intros s. Qed.

Lemma nd_modify (f : S → S) : never_diverges (modify f).
Proof. by intros s. Qed.

Lemma nd_assert (b : bool) : never_diverges (assert_ b : M S unit).
Proof. by destruct b. Qed.

Lemma nd_for_each {A} (xs : list A) (body : A → M S unit) :
  (∀ x, never_diverges (body x)) → never_diverges (for_each xs body).
Proof.
  intros H. induction xs as [|x xs IH]; [apply nd_ret|].
  simpl. apply nd_bind; [apply H|done].
Qed.

Lemma nd_with_qs {A} (obj : QuerySet) (m : M QuerySet A) :
  never_diverges m → never_diverges (with_qs obj m : M S A).
Proof. intros H s. apply H. Qed.

Lemma nd_run_qs {A} (obj : QuerySet) (m : M QuerySet A) :
  never_diverges m → never_diverges (run_qs obj m : M S (A * QuerySet)).
Proof.
  intros H s. unfold run_qs. specialize (H obj).
  by destruct (m obj) as [[a|e|] q].
Qed.

End NeverDiverges.

Create HintDb nd discriminated.
Global Hint Resolve nd_ret nd_raise nd_get_state nd_gets nd_modify nd_assert
  nd_with_qs nd_run_qs : nd.

(** Goes through a computation bind by bind and branch by branch. *)
Ltac nd_step :=
  lazymatch goal with
  | |- never_diverges (_ ≫= _) => apply nd_bind; [|intros ?]
  | |- never_diverges (for_each _ _) => apply nd_for_each; intros ?
  | |- never_diverges (if ?b then _ else _) => destruct b
  | |- never_diverges (match ?x with _ => _ end) => destruct x
  | |- never_diverges (let '(_, _) := ?x in _) => destruct x
  | |- never_diverges _ => solve [auto with nd]
  end.
Ltac nd := repeat nd_step.

Lemma nd_filter_visibility : never_diverges _filter_visibility.
Proof. unfold _filter_visibility. nd. Qed.
Global Hint Resolve nd_filter_visibility : nd.

Lemma nd_filter (kwargs : list Cond) : never_diverges (filter kwargs).
Proof.
  unfold filter. nd_step; [auto with nd|].
  intros s.
  assert (H : never_diverges (_check_field_filter kwargs;; QuerySet_filter kwargs)).
  { unfold _check_field_filter, QuerySet_filter. nd. }
  specialize (H (_clone a)).
  by destruct ((_check_field_filter kwargs;; QuerySet_filter kwargs) (_clone a))
    as [[r|e|] q].
Qed.
Global Hint Resolve nd_filter : nd.

Lemma nd_fetch (d : list Row) : never_diverges (fetch d).
Proof. unfold fetch. nd. Qed.
Global Hint Resolve nd_fetch : nd.

Lemma nd_get_next_order (d : list Row) : never_diverges (get_next_order d).
Proof. unfold get_next_order, get_max_order. nd. Qed.

Lemma nd_update (delta : Z) (extra : gmap string Z) (d : list Row) :
  never_diverges (update delta extra d).
Proof. unfold update. nd. Qed.

Lemma nd_above (o : option Z) (inclusive : bool) : never_diverges (Queryset.above o inclusive).
Proof. unfold Queryset.above. nd. Qed.

Lemma nd_filter_by_order_with_respect_to (ref : Instance) :
  never_diverges (filter_by_order_with_respect_to ref).
Proof.
  unfold filter_by_order_with_respect_to, _get_order_with_respect_to_filter_kwargs,
    _get_order_with_respect_to.
  nd.
Qed.
Global Hint Resolve nd_get_next_order nd_update nd_above
  nd_filter_by_order_with_respect_to : nd.

Lemma nd_get_ordering_queryset {S} (i : Instance) :
  never_diverges (get_ordering_queryset i : M S QuerySet).
Proof. unfold get_ordering_queryset. nd. Qed.

Lemma nd_getobj (ref : nat) : never_diverges (getobj ref).
Proof. intros w. unfold getobj. by destruct (heap w !! ref). Qed.

Lemma nd_setobj (ref : nat) (i : Instance) : never_diverges (setobj ref i).
Proof. by intros w. Qed.

Lemma nd_new_objs (objs : list Instance) : never_diverges (new_objs objs).
Proof. by intros w. Qed.

Lemma nd_now : never_diverges now.
Proof. by intros w. Qed.
Global Hint Resolve nd_get_ordering_queryset nd_getobj nd_setobj nd_new_objs nd_now : nd.

Lemma nd_send (signal : Signal) (self : nat) : never_diverges (send signal self).
Proof. unfold send. nd. Qed.

Lemma nd_Model_save (self : nat) : never_diverges (Model_save self).
Proof. unfold Model_save, put_db. nd. Qed.
Global Hint Resolve nd_send nd_Model_save : nd.

Lemma nd_save (self : nat) (keep_deleted : bool) : never_diverges (save self keep_deleted).
Proof.
  unfold save, BaseOrderedSafeDeleteModel_save, SafeDeleteModel_save. nd.
Qed.
Global Hint Resolve nd_save : nd.

Lemma nd_related_objects references (self : nat) :
  never_diverges (related_objects references self).
Proof. unfold related_objects. nd. Qed.

Lemma nd_Model_delete references (self : nat) :
  never_diverges (Model_delete references self).
Proof. unfold Model_delete, put_db. nd. Qed.
Global Hint Resolve nd_related_objects nd_Model_delete : nd.

(** *** [delete] nests at most twice *)

Section DeleteDepth.
Variable references : string * Z → string * Z → bool.
Variable can_hard_delete : list Row → Instance → bool.

Lemma nd_SafeDeleteModel_delete_direct self_delete (self : nat) (p : Policy) :
  direct p →
  never_diverges
    (SafeDeleteModel_delete references can_hard_delete self_delete self (Some p)).
Proof.
  intros [->|[->| ->]]; unfold SafeDeleteModel_delete; nd.
Qed.

Lemma nd_SafeDeleteModel_delete self_delete (self : nat) (force_policy : option Policy) :
  (∀ obj p, direct p → never_diverges (self_delete obj (Some p))) →
  never_diverges
    (SafeDeleteModel_delete references can_hard_delete self_delete self force_policy).
Proof.
  intros H. unfold SafeDeleteModel_delete.
  apply nd_bind; [auto with nd|]. intros i.
  destruct (match force_policy with
            | Some p => p
            | None => _safedelete_policy (i_model i)
            end); nd; unfold delete_related; nd;
    apply H; unfold direct; auto.
Qed.

Lemma nd_BaseOrderedSafeDeleteModel_delete super_delete (self : nat)
    (extra_update : option (gmap string Z)) :
  never_diverges super_delete →
  never_diverges (BaseOrderedSafeDeleteModel_delete super_delete self extra_update).
Proof.
  intros H. unfold BaseOrderedSafeDeleteModel_delete, above_instance, decrease_order, put_db.
  nd.
Qed.

Lemma nd_delete_direct (fuel : nat) (self : nat) (p : Policy)
    (extra_update : option (gmap string Z)) :
  direct p →
  never_diverges (delete references can_hard_delete (S fuel) self (Some p) extra_update).
Proof.
  intros Hp. cbn [delete]. apply nd_bind; [auto with nd|]. intros i.
  destruct (ordered (i_model i)).
  - apply nd_BaseOrderedSafeDeleteModel_delete.
    by apply nd_SafeDeleteModel_delete_direct.
  - by apply nd_SafeDeleteModel_delete_direct.
Qed.

Lemma nd_delete (fuel : nat) (self : nat) (force_policy : option Policy)
    (extra_update : option (gmap string Z)) :
  never_diverges
    (delete references can_hard_delete (S (S fuel)) self force_policy extra_update).
Proof.
  cbn [delete]. apply nd_bind; [auto with nd|]. intros i.
  assert (H : never_diverges
                (SafeDeleteModel_delete references can_hard_delete
                   (λ obj p, delete references can_hard_delete (S fuel) obj p None)
                   self force_policy)).
  { apply nd_SafeDeleteModel_delete. intros obj p Hp. by apply nd_delete_direct. }
  destruct (ordered (i_model i)); [|done].
  by apply nd_BaseOrderedSafeDeleteModel_delete.
Qed.

End DeleteDepth.

(** *** Undeleting only ever clears marks *)

Lemma bind_ok_inv {S A B} (m : M S A) (k : A → M S B) s b s' :
  (m ≫= k) s = (Ok b, s') → ∃ a s1, m s = (Ok a, s1) ∧ k a s1 = (Ok b, s').
Proof.
  unfold mbind, M_bind. destruct (m s) as [[a|e|] s1]; [eauto|done|done].
Qed.

Lemma fades_refl (d : list Row) : fades d d.
Proof.
  induction d as [|r d IH]; [by constructor|]. by constructor.
Qed.

Lemma fades_app_live (d d' new : list Row) :
  fades d d' → Forall (λ r, live r = true) new → fades d (d' ++ new).
Proof.
  intros H Hn. induction H as [l Hl|r r' d d' Hid Hl H IH].
  - constructor. simpl. by apply Forall_app.
  - simpl. by constructor.
Qed.

Lemma fades_trans (d1 d2 d3 : list Row) : fades d1 d2 → fades d2 d3 → fades d1 d3.
Proof.
  intros H12. revert d3. induction H12 as [l Hl|r r' d d' Hid Hl H IH]; intros d3 H23.
  - constructor. revert d3 H23. induction l as [|x l IHl]; intros d3 H23.
    + by inversion H23.
    + inversion H23 as [|? r3 ? d3' Hid3 Hl3 H3]; subst.
      apply Forall_cons in Hl as [Hx Hl]. constructor; [auto|]. by apply IHl.
  - inversion H23 as [|? r3 ? d3' Hid3 Hl3 H3]; subst.
    constructor; [congruence|auto|auto].
Qed.

(** Marked rows can only become fewer, under any condition on identities. *)
Lemma fades_count (P : string * Z → bool) (d d' : list Row) :
  fades d d' →
  (length (List.filter (λ r, negb (live r) && P (row_id r)) d')
   ≤ length (List.filter (λ r, negb (live r) && P (row_id r)) d))%nat.
Proof.
  induction 1 as [l Hl|r r' d d' Hid Hl H IH].
  - induction Hl as [|x l Hx Hl IH]; [done|]. simpl. by rewrite Hx.
  - cbn [List.filter]. rewrite Hid.
    destruct (live r) eqn:Hr.
    + rewrite Hl by done. exact IH.
    + destruct (P (row_id r)), (live r'); cbn [negb andb length]; lia.
Qed.

Lemma count_deleted_as_count (d : list Row) :
  count_deleted d = length (List.filter (λ r, negb (live r) && true) d).
Proof.
  unfold count_deleted. f_equal. apply List.filter_ext. intros r. by rewrite andb_true_r.
Qed.

Lemma fades_count_deleted (d d' : list Row) :
  fades d d' → (count_deleted d' ≤ count_deleted d)%nat.
Proof. intros H. rewrite !count_deleted_as_count. by apply (fades_count (λ _, true)). Qed.

Lemma count_deleted_except_le (x : string * Z) (d : list Row) :
  (count_deleted_except x d ≤ count_deleted d)%nat.
Proof.
  unfold count_deleted_except, count_deleted.
  induction d as [|r d IH]; [done|]. simpl.
  destruct (live r); simpl; [done|].
  destruct (bool_decide (row_id r = x)); simpl; lia.
Qed.

(** A marked row of identity [x] is counted by the first and not by the second. *)
Lemma count_deleted_except_lt (x : string * Z) (d : list Row) (r : Row) :
  r ∈ d → live r = false → row_id r = x →
  (count_deleted_except x d < count_deleted d)%nat.
Proof.
  intros Hr Hl Hx. induction d as [|r' d IH]; [by apply not_elem_of_nil in Hr|].
  apply elem_of_cons in Hr as [<-|Hr].
  - unfold count_deleted_except, count_deleted. simpl.
    rewrite Hl, Hx, bool_decide_eq_true_2 by done. simpl.
    pose proof (count_deleted_except_le x d) as H.
    unfold count_deleted_except, count_deleted in H. lia.
  - specialize (IH Hr). unfold count_deleted_except, count_deleted in *. simpl.
    destruct (live r'); simpl; [done|].
    destruct (bool_decide (row_id r' = x)); simpl; lia.
Qed.

Lemma same_row_id (m : Model) (k : Z) (r : Row) :
  same_row m k r = bool_decide (row_id r = (model_name m, k)).
Proof.
  unfold same_row, row_id.
  destruct (decide (model_name (r_model r) = model_name m)) as [Hm|Hm];
    destruct (decide (r_pk r = k)) as [Hk|Hk].
  - rewrite !bool_decide_eq_true_2 by congruence. simpl. by apply Z.eqb_eq.
  - rewrite bool_decide_eq_true_2 by done. rewrite bool_decide_eq_false_2 by congruence.
    simpl. by apply Z.eqb_neq.
  - rewrite !bool_decide_eq_false_2 by congruence. done.
  - rewrite !bool_decide_eq_false_2 by congruence. done.
Qed.

(** Writing a live row is a fading of the table, after which no row of that
    identity is marked. *)
Lemma write_row_fades (row : Row) (d : list Row) :
  live row = true → fades d (write_row row d).
Proof.
  intros Hl. unfold write_row.
  destruct (existsb (same_row (r_model row) (r_pk row)) d).
  - induction d as [|r d IH]; [by repeat constructor|].
    rewrite fmap_cons. constructor; [|by destruct (same_row _ _ r)|done].
    destruct (same_row _ _ r) eqn:E; [|done].
    rewrite same_row_id in E. by apply bool_decide_eq_true_1 in E.
  - apply fades_app_live; [apply fades_refl|]. by repeat constructor.
Qed.

Lemma write_row_count (row : Row) (d : list Row) :
  live row = true →
  count_deleted (write_row row d) = count_deleted_except (row_id row) (write_row row d).
Proof.
  intros Hl. unfold count_deleted, count_deleted_except. f_equal.
  apply filter_ext_in. intros r Hr.
  destruct (live r) eqn:Hlr; [done|]. simpl.
  rewrite bool_decide_eq_false_2; [done|]. intros Hid.
  unfold write_row in Hr.
  destruct (existsb (same_row (r_model row) (r_pk row)) d) eqn:Hex.
  - apply list_elem_of_In, list_elem_of_fmap in Hr as (r0 & -> & _).
    destruct (same_row _ _ r0) eqn:E; [congruence|].
    rewrite same_row_id in E. apply bool_decide_eq_false_1 in E. by apply E.
  - apply in_app_or in Hr as [Hr|[<-|[]]]; [|congruence].
    assert (existsb (same_row (r_model row) (r_pk row)) d = true); [|congruence].
    apply existsb_exists. exists r. split; [done|].
    rewrite same_row_id. by apply bool_decide_eq_true_2.
Qed.

Lemma getobj_inv (ref : nat) (w w' : World) (i : Instance) :
  getobj ref w = (Ok i, w') → w' = w ∧ heap w !! ref = Some i.
Proof. unfold getobj. destruct (heap w !! ref); intros; by simplify_eq. Qed.

Lemma assert_inv {S} (b : bool) (s s' : S) :
  assert_ b s = (Ok tt, s') → b = true ∧ s' = s.
Proof. destruct b; cbv; intros; by simplify_eq. Qed.

Lemma get_ordering_queryset_state {S} (i : Instance) (s : S) :
  (get_ordering_queryset i s).2 = s.
Proof.
  unfold get_ordering_queryset, mbind, M_bind.
  by destruct (order_class_path (i_model i)).
Qed.

(** What a successful [save] without [keep_deleted] does to the world: one
    live row is written under the identity of the instance, and only the
    instance itself changes in memory. *)
Lemma save_false_ok (w w1 : World) (self : nat) :
  save self false w = (Ok tt, w1) →
  ∃ i row j, heap w !! self = Some i
             ∧ row_id row = (model_name (i_model i), key_of i (db w))
             ∧ live row = true
             ∧ db w1 = write_row row (db w)
             ∧ heap w1 = <[self := j]> (heap w).
Proof.
  unfold save. intros H.
  apply bind_ok_inv in H as (i & w0 & Hg & H).
  apply getobj_inv in Hg as [-> Hi].
  assert (Hbase : ∀ (i2 : Instance) (w2 : World),
            i_model i2 = i_model i → i_pk i2 = i_pk i →
            db w2 = db w → heap w2 = <[self := i2]> (heap w) →
            SafeDeleteModel_save self false w2 = (Ok tt, w1) →
            ∃ row j, heap w !! self = Some i
                     ∧ row_id row = (model_name (i_model i), key_of i (db w))
                     ∧ live row = true
                     ∧ db w1 = write_row row (db w)
                     ∧ heap w1 = <[self := j]> (heap w)).
  { intros i2 w2 Hm Hk Hd Hh Hs.
    assert (H2 : heap w2 !! self = Some i2).
    { rewrite Hh. apply list_lookup_insert_eq. by eapply lookup_lt_Some. }
    rewrite (save_undeleting_run w2 self i2 H2) in Hs. simplify_eq.
    exists (to_row (key_of i2 (db w2)) (set_deleted None i2)),
      (set_saved (Some (key_of i2 (db w2))) (set_deleted None i2)).
    simpl. split_and!; [done| |done| |].
    - unfold row_id, key_of. simpl. by rewrite Hm, Hk, Hd.
    - by rewrite Hd.
    - by rewrite Hh, list_insert_insert_eq. }
  assert (Hsame : heap w = <[self := i]> (heap w)) by (by rewrite list_insert_id).
  destruct (ordered (i_model i)).
  - unfold BaseOrderedSafeDeleteModel_save in H.
    apply bind_ok_inv in H as (i' & w0 & Hg & H).
    apply getobj_inv in Hg as [-> Hi']. simplify_eq.
    apply bind_ok_inv in H as ([] & w2 & Hpre & H).
    destruct (i_order i) as [o|] eqn:Ho.
    + unfold mret, M_ret in Hpre. simplify_eq. exists i. by apply (Hbase i w2).
    + apply bind_ok_inv in Hpre as (qs & w3 & Hqs & Hpre).
      pose proof (get_ordering_queryset_state i w) as Hst. rewrite Hqs in Hst.
      simpl in Hst. subst w3.
      apply bind_ok_inv in Hpre as (d & w4 & Hd & Hpre).
      unfold gets in Hd. simplify_eq.
      apply bind_ok_inv in Hpre as (n & w5 & Hn & Hpre).
      unfold with_qs in Hn. unfold setobj, modify in Hpre. simplify_eq.
      exists i.
      exact (Hbase (set_order (Some n) i)
               (set_heap (<[self := set_order (Some n) i]> (heap w5)) w5)
               eq_refl eq_refl eq_refl eq_refl H).
  - exists i. by apply (Hbase i w).
Qed.

Section UndeleteFacts.
Variable policy_truthy : Policy → bool.
Variable references : string * Z → string * Z → bool.

Lemma related_objects_ok (w w2 : World) (self : nat) (refs : list nat) :
  related_objects references self w = (Ok refs, w2) →
  ∃ i, heap w !! self = Some i
       ∧ refs = seq (length (heap w)) (length (related_rows references i (db w)))
       ∧ db w2 = db w
       ∧ heap w2 = heap w ++ (of_row <$> related_rows references i (db w)).
Proof.
  unfold related_objects. intros H.
  apply bind_ok_inv in H as (i & w0 & Hg & H).
  apply getobj_inv in Hg as [-> Hi].
  apply bind_ok_inv in H as (d & w0 & Hd & H).
  unfold gets in Hd. unfold new_objs in H. simplify_eq.
  exists i. by rewrite length_fmap.
Qed.

(** An [undelete] that returns has only cleared marks in storage, and in
    memory has only changed its own instance and allocated new ones. *)
Lemma undelete_effect (fuel : nat) :
  ∀ (w w' : World) (self : nat) (force_policy : option Policy),
    undelete policy_truthy references fuel self force_policy w = (Ok tt, w') →
    fades (db w) (db w') ∧ frame self (length (heap w)) w w'.
Proof.
  induction fuel as [|fuel IH]; intros w w' self force_policy H; [done|].
  cbn [undelete] in H.
  apply bind_ok_inv in H as (i & w0 & Hg & H).
  apply getobj_inv in Hg as [-> Hi].
  apply bind_ok_inv in H as ([] & w0 & Ha & H).
  apply assert_inv in Ha as [Hdel ->].
  apply bind_ok_inv in H as ([] & w1 & Hs & H).
  apply save_false_ok in Hs as (i' & row & j & Hi' & Hid & Hlive & Hdb & Hheap).
  assert (Hf1 : fades (db w) (db w1)) by (rewrite Hdb; by apply write_row_fades).
  assert (Hfr1 : frame self (length (heap w)) w w1).
  { split; [by rewrite Hheap, length_insert|].
    intros ref Hne _. rewrite Hheap. by apply list_lookup_insert_ne. }
  destruct (bool_decide _) in H; [|unfold mret, M_ret in H; by simplify_eq].
  apply bind_ok_inv in H as (refs & w2 & Hr & H).
  apply related_objects_ok in Hr as (i2 & Hi2 & Hrefs & Hdb2 & Hheap2).
  assert (Hloop : ∀ (refs : list nat) (wa wb : World),
            (∀ ref, ref ∈ refs → (length (heap w1) ≤ ref)%nat) →
            (length (heap w1) ≤ length (heap wa))%nat →
            for_each refs (undelete_related policy_truthy references fuel) wa = (Ok tt, wb) →
            fades (db wa) (db wb)
            ∧ (length (heap wa) ≤ length (heap wb))%nat
            ∧ ∀ ref, (ref < length (heap w1))%nat → heap wb !! ref = heap wa !! ref).
  { clear -IH. intros refs. induction refs as [|ref refs IHr]; intros wa wb Hge Hlen Hrun.
    - unfold for_each, mret, M_ret in Hrun. simplify_eq.
      split; [apply fades_refl|done].
    - cbn [for_each] in Hrun.
      apply bind_ok_inv in Hrun as ([] & wc & Hbody & Hrun).
      assert (Hc : fades (db wa) (db wc) ∧ frame ref (length (heap wa)) wa wc).
      { unfold undelete_related in Hbody.
        apply bind_ok_inv in Hbody as (r & w0 & Hg & Hbody).
        apply getobj_inv in Hg as [-> Hr].
        destruct (_ && _) in Hbody.
        - by apply IH in Hbody.
        - unfold mret, M_ret in Hbody. simplify_eq.
          split; [apply fades_refl|]. by split. }
      destruct Hc as (Hfc & Hlc & Hframe).
      apply IHr in Hrun as (Hf & Hl & Hsame).
      + split; [by eapply fades_trans|]. split; [lia|].
        intros r' Hr'. rewrite Hsame by done. apply Hframe; [|lia].
        assert (length (heap w1) ≤ ref)%nat by (apply Hge; by left). lia.
      + intros r' Hr'. apply Hge. by right.
      + lia. }
  apply Hloop in H as (Hf2 & Hl2 & Hsame2).
  - split; [eapply fades_trans; [exact Hf1|by rewrite <- Hdb2]|].
    destruct Hfr1 as [Hl1 Hsame1]. split.
    + rewrite Hheap2, length_app in Hl2. lia.
    + intros ref Hne Hlt. rewrite Hsame2 by (rewrite Hheap, length_insert; lia).
      rewrite Hheap2, lookup_app_l by (rewrite Hheap, length_insert; lia).
      by apply Hsame1.
  - intros ref Hin. rewrite Hrefs in Hin. apply elem_of_seq in Hin. lia.
  - rewrite Hheap2, length_app. lia.
Qed.

Lemma safe_bind {S A B} (m : M S A) (k : A → M S B) (s : S) :
  (m s).1 ≠ OutOfFuel →
  (∀ a s1, m s = (Ok a, s1) → (k a s1).1 ≠ OutOfFuel) →
  ((m ≫= k) s).1 ≠ OutOfFuel.
Proof.
  intros Hm Hk. unfold mbind, M_bind.
  destruct (m s) as [[a|e|] s1]; [by apply Hk|done|done].
Qed.

Lemma related_rows_stored (i : Instance) (d : list Row) (r : Row) :
  r ∈ related_rows references i d → r ∈ d.
Proof.
  unfold related_rows. destruct (i_pk i); [|by intros ?%not_elem_of_nil].
  intros H%list_elem_of_In%filter_In. apply list_elem_of_In. by destruct H.
Qed.

(** The loop over the snapshot taken from the table [d2] never runs out of
    fuel when each call on a marked row of the snapshot does not. *)
Lemma undelete_loop_safe (fuel : nat) (d2 : list Row) :
  (∀ wa ref r,
     fades d2 (db wa) → heap wa !! ref = Some (of_row r) → r ∈ d2 → live r = false →
     (undelete policy_truthy references fuel ref None wa).1 ≠ OutOfFuel) →
  ∀ (refs : list nat) (wa : World),
    fades d2 (db wa) →
    NoDup refs →
    (∀ ref, ref ∈ refs → ∃ r, heap wa !! ref = Some (of_row r) ∧ r ∈ d2) →
    (for_each refs (undelete_related policy_truthy references fuel) wa).1 ≠ OutOfFuel.
Proof.
  intros Hchild refs. induction refs as [|ref refs IHr]; intros wa Hf Hnd Hsnap; [done|].
  cbn [for_each].
  destruct (Hsnap ref) as (r & Hr & Hin); [by left|].
  apply NoDup_cons in Hnd as [Hnotin Hnd].
  assert (Hbody : (undelete_related policy_truthy references fuel ref wa).1 ≠ OutOfFuel
                  ∧ ∀ wc, undelete_related policy_truthy references fuel ref wa = (Ok tt, wc) →
                          fades (db wa) (db wc) ∧ frame ref (length (heap wa)) wa wc).
  { unfold undelete_related. rewrite (bind_ok _ _ _ _ _ (getobj_ok _ _ _ Hr)).
    destruct (is_safedelete_cls (pycls (i_model (of_row r)))); simpl.
    - destruct (r_deleted r) as [t|] eqn:Hd; simpl.
      + split; [|intros wc Hc; by apply (undelete_effect _ _ _ _ _ Hc)].
        apply (Hchild wa ref r); [done..|]. unfold live. by rewrite Hd.
      + split; [done|]. intros wc [= <-]. split; [apply fades_refl|by split].
    - split; [done|]. intros wc [= <-]. split; [apply fades_refl|by split]. }
  destruct Hbody as [Hsafe Heff].
  apply safe_bind; [done|]. intros [] wc Hrun.
  destruct (Heff wc Hrun) as (Hfc & Hlc & Hframe).
  apply IHr; [by eapply fades_trans|done|].
  intros ref' Hin'. destruct (Hsnap ref') as (r' & Hr' & Hin2); [by right|].
  exists r'. split; [|done]. rewrite Hframe; [done| |by eapply lookup_lt_Some].
  intros ->. done.
Qed.

(** [undelete] returns or raises when given more fuel than there are marked
    rows left once its own record is saved. *)
Lemma undelete_safe (n : nat) :
  ∀ (fuel : nat) (w : World) (self : nat) (force_policy : option Policy),
    (n < fuel)%nat →
    (∀ w1, save self false w = (Ok tt, w1) → (count_deleted (db w1) ≤ n)%nat) →
    (undelete policy_truthy references fuel self force_policy w).1 ≠ OutOfFuel.
Proof.
  induction n as [|n IHn]; intros fuel w self force_policy Hfuel Hcount;
    (destruct fuel as [|fuel]; [lia|]); cbn [undelete].
  all: apply safe_bind; [apply nd_getobj|]; intros i w0 [-> Hi]%getobj_inv.
  all: apply safe_bind; [apply nd_assert|]; intros [] w0 [Hdel ->]%assert_inv.
  all: apply safe_bind; [apply nd_save|]; intros [] w1 Hs.
  all: specialize (Hcount w1 Hs).
  all: destruct (bool_decide _); [|done].
  all: apply safe_bind; [apply nd_related_objects|]; intros refs w2 Hr.
  all: apply related_objects_ok in Hr as (i2 & Hi2 & Hrefs & Hdb2 & Hheap2).
  all: apply (undelete_loop_safe fuel (db w2));
         [|apply fades_refl|rewrite Hrefs; apply NoDup_seq|].
  all: try (intros ref Hin; rewrite Hrefs in Hin; apply elem_of_seq in Hin;
            destruct (lookup_lt_is_Some_2 (related_rows references i2 (db w1))
                        (ref - length (heap w1))) as [r Hr]; [lia|];
            exists r; split;
            [rewrite Hheap2, lookup_app_r by lia; by rewrite list_lookup_fmap, Hr
            |rewrite Hdb2; eapply related_rows_stored, list_elem_of_lookup_2, Hr]).
  - intros wa ref r Hf Href Hin Hlive.
    pose proof (count_deleted_except_lt (row_id r) (db w2) r Hin Hlive eq_refl).
    rewrite Hdb2 in *. lia.
  - intros wa ref r Hf Href Hin Hlive. apply IHn; [lia|].
    intros w1' Hs'.
    apply save_false_ok in Hs' as (i' & row & j & Hi' & Hid & Hrl & Hdb' & _).
    rewrite Href in Hi'. simplify_eq.
    assert (Hx : row_id row = row_id r) by (by rewrite Hid).
    rewrite Hdb', (write_row_count row (db wa) Hrl), Hx.
    pose proof (fades_count (λ y, negb (bool_decide (y = row_id r))) _ _
                  (write_row_fades row (db wa) Hrl)) as H1.
    pose proof (fades_count (λ y, negb (bool_decide (y = row_id r))) _ _ Hf) as H2.
    pose proof (count_deleted_except_lt (row_id r) (db w2) r Hin Hlive eq_refl) as H3.
    unfold count_deleted_except in *. rewrite Hdb2 in *. lia.
Qed.

End UndeleteFacts.

(** C4. Whatever the relationship graph, cycles and loops included, a
    cascade comes to an end: [undelete] returns or raises as soon as its
    fuel exceeds the number of stored rows marked deleted, and [delete]
    as soon as its fuel is 2. In the loops, a related record that is
    already marked deleted is skipped by [delete], and one that is not
    marked deleted is skipped by [undelete]: the world stays as it is. *)
Theorem cascade_terminates policy_truthy references can_hard_delete
    (w : World) (self : nat) (force_policy : option Policy)
    (extra_update : option (gmap string Z)) :
  (∀ fuel, (count_deleted (db w) < fuel)%nat →
     (undelete policy_truthy references fuel self force_policy w).1 ≠ OutOfFuel)
  ∧ (∀ fuel, (2 ≤ fuel)%nat →
       (delete references can_hard_delete fuel self force_policy extra_update w).1
       ≠ OutOfFuel)
  ∧ (∀ self_delete related r,
       heap w !! related = Some r → i_deleted r ≠ None →
       delete_related self_delete related w = (Ok tt, w))
  ∧ (∀ fuel related r,
       heap w !! related = Some r → i_deleted r = None →
       undelete_related policy_truthy references fuel related w = (Ok tt, w)).
Proof.
  split_and!.
  - intros fuel Hfuel.
    apply (undelete_safe policy_truthy references (count_deleted (db w))); [done|].
    intros w1 Hs.
    apply save_false_ok in Hs as (i & row & j & _ & _ & Hl & Hdb & _).
    rewrite Hdb. by apply fades_count_deleted, write_row_fades.
  - intros [|[|fuel]] Hfuel; [lia..|]. apply nd_delete.
  - intros self_delete related r Hr Hd. unfold delete_related.
    erewrite bind_ok by (by apply getobj_ok).
    destruct (i_deleted r); [|done]. by rewrite andb_false_r.
  - intros fuel related r Hr Hd. unfold undelete_related.
    erewrite bind_ok by (by apply getobj_ok).
    rewrite Hd. by rewrite andb_false_r.
Qed.

Lemma cascade_terminates_witness :
  (undelete Samples.all_truthy Samples.all_related 3 0%nat None Samples.deleted_thread).1
  ≠ OutOfFuel
  ∧ (delete Samples.all_related Samples.always_can 2 0%nat None None Samples.live_thread).1
    ≠ OutOfFuel
  ∧ delete_related (λ _ _, out_of_fuel) 0%nat Samples.deleted_thread
    = (Ok tt, Samples.deleted_thread)
  ∧ undelete_related Samples.all_truthy Samples.all_related 0 0%nat Samples.live_thread
    = (Ok tt, Samples.live_thread).
Proof.
  pose proof (cascade_terminates Samples.all_truthy Samples.all_related Samples.always_can
                Samples.deleted_thread 0%nat None None) as (Hu & _ & Hd & _).
  pose proof (cascade_terminates Samples.all_truthy Samples.all_related Samples.always_can
                Samples.live_thread 0%nat None None) as (_ & Hdel & _ & Hun).
  split; [apply Hu; vm_compute; lia|].
  split; [apply Hdel; lia|].
  split; [by apply (Hd _ 0%nat (of_row (Samples.comment 1 (Some 40))))|].
  by apply (Hun 0%nat 0%nat (of_row (Samples.comment 1 None))).
Defined.

(** On the complete graph over two soft-deleted comments the cascade of
    [undelete] clears both marks and stops. *)
Lemma undelete_cycle_example :
  (undelete Samples.all_truthy Samples.all_related 3 0%nat None Samples.deleted_thread).1
  = Ok tt
  ∧ db (undelete Samples.all_truthy Samples.all_related 3 0%nat None
          Samples.deleted_thread).2
    = [Samples.comment 1 None; Samples.comment 2 None].
Proof. split; reflexivity. Qed.

End TerminationFacts.

(** ** Orders stay unique among the live rows of a scope *)

Module InvariantFacts.
Import Queryset Managers Models Readings WorldFacts DeletionFacts OrderingFacts
  TerminationFacts.

(** *** Relations over all pairs of a table *)

Section Pairs.
Context {A : Type}.

Lemma pairs_fmap (P : A → Prop) (R R' : A → A → Prop) (g : A → A) (l : list A) :
  Forall P l →
  ForallOrdPairs R l →
  (∀ a b, P a → P b → R a b → R' (g a) (g b)) →
  ForallOrdPairs R' (g <$> l).
Proof.
  intros HP HR Hg. induction HR as [|a l Ha HR IH]; [constructor|].
  apply Forall_cons in HP as [Pa HP]. rewrite fmap_cons. constructor; [|by apply IH].
  apply List.Forall_forall. intros b' Hb'.
  apply list_elem_of_In, list_elem_of_fmap in Hb' as (b & -> & Hb).
  apply Hg; [done| |].
  - by eapply (proj1 (Forall_forall _ _) HP).
  - apply (proj1 (List.Forall_forall _ _) Ha). by apply list_elem_of_In.
Qed.

Lemma pairs_snoc (R : A → A → Prop) (l : list A) (x : A) :
  ForallOrdPairs R l → (∀ a, a ∈ l → R a x) → ForallOrdPairs R (l ++ [x]).
Proof.
  intros HR Hx. induction HR as [|a l Ha HR IH]; [by repeat constructor|].
  simpl. constructor.
  - apply List.Forall_app. split; [done|]. constructor; [|done]. apply Hx. by left.
  - apply IH. intros b Hb. apply Hx. by right.
Qed.

Lemma pairs_filter (R : A → A → Prop) (p : A → bool) (l : list A) :
  ForallOrdPairs R l → ForallOrdPairs R (List.filter p l).
Proof.
  induction 1 as [|a l Ha HR IH]; [constructor|].
  simpl. destruct (p a); [|done]. constructor; [|done].
  apply List.Forall_forall. intros b [Hb _]%filter_In.
  by apply (proj1 (List.Forall_forall _ _) Ha).
Qed.

(** Two different elements of the table are related, one way or the other. *)
Lemma pairs_distinct (R : A → A → Prop) (l : list A) (a b : A) :
  ForallOrdPairs R l → a ∈ l → b ∈ l → a ≠ b → R a b ∨ R b a.
Proof.
  intros HR Ha%list_elem_of_In Hb%list_elem_of_In Hne.
  destruct (ForallOrdPairs_In HR _ _ Ha Hb) as [?|[?|?]]; [done|by left|by right].
Qed.

Lemma pairs_cons_inv (R : A → A → Prop) (a : A) (l : list A) :
  ForallOrdPairs R (a :: l) → Forall (R a) l ∧ ForallOrdPairs R l.
Proof. by inversion 1. Qed.

Lemma pairs_app (R : A → A → Prop) (l1 l2 : list A) :
  ForallOrdPairs R l1 → ForallOrdPairs R l2 →
  (∀ a b, a ∈ l1 → b ∈ l2 → R a b) →
  ForallOrdPairs R (l1 ++ l2).
Proof.
  intros H1 H2 H. induction H1 as [|a l1 Ha H1 IH]; [done|].
  simpl. constructor.
  - apply List.Forall_app. split; [done|].
    apply List.Forall_forall. intros b Hb%list_elem_of_In. apply H; [by left|done].
  - apply IH. intros x y Hx Hy. apply H; [by right|done].
Qed.

End Pairs.

(** *** Scope keys *)

Lemma same_scope_key (i : Instance) (r : Row) :
  same_scope i r = true
  ↔ model_name (r_model r) = model_name (i_model i)
    ∧ scope_key (i_model i) r = instance_key i.
Proof.
  unfold same_scope, scope_key, instance_key. rewrite andb_true_iff, bool_decide_eq_true.
  apply and_iff_compat_l.
  induction (scope_fields (i_model i)) as [|f fs IH]; [done|].
  cbn [forallb]. rewrite !fmap_cons, andb_true_iff, bool_decide_eq_true, IH.
  split; [by intros [-> ->]|by intros [= -> ->]].
Qed.

Lemma row_get_with_order (o : option Z) (r : Row) (f : string) :
  f ≠ order_field_name (r_model r) → row_get (with_order o r) f = row_get r f.
Proof.
  intros Hf. unfold row_get. simpl.
  destruct (bool_decide (f = "pk" ∨ f = pk_name (r_model r))); [done|].
  rewrite (bool_decide_eq_false_2 _ Hf). by rewrite !andb_false_r.
Qed.

Lemma scope_key_with_order (m : Model) (o : option Z) (r : Row) :
  r_model r = m → order_field_name m ∉ scope_fields m →
  scope_key m (with_order o r) = scope_key m r.
Proof.
  intros Hm Hf. unfold scope_key. apply list_fmap_ext. intros n f Hin.
  apply row_get_with_order. rewrite Hm. intros Heq.
  apply Hf. rewrite <- Heq. by eapply list_elem_of_lookup_2.
Qed.

Lemma row_get_to_row (k : Z) (i : Instance) (f : string) :
  i_pk i = Some k → row_get (to_row k i) f = inst_get i f.
Proof. intros Hk. unfold row_get, inst_get. simpl. by rewrite Hk. Qed.

Lemma scope_key_to_row (k : Z) (i : Instance) :
  i_pk i = Some k → scope_key (i_model i) (to_row k i) = instance_key i.
Proof.
  intros Hk. unfold scope_key, instance_key. apply list_fmap_ext. intros _ f _.
  by apply row_get_to_row.
Qed.

Lemma unique_ids (d : list Row) (r1 r2 : Row) :
  NoDup (row_id <$> d) → r1 ∈ d → r2 ∈ d → row_id r1 = row_id r2 → r1 = r2.
Proof.
  induction d as [|r d IH]; [by intros _ ?%not_elem_of_nil|].
  rewrite fmap_cons, NoDup_cons. intros [Hr Hd] H1 H2 Heq.
  apply elem_of_cons in H1 as [->|H1]; apply elem_of_cons in H2 as [->|H2]; [done| | |by apply IH].
  - destruct Hr. rewrite Heq. apply list_elem_of_fmap. by exists r2.
  - destruct Hr. rewrite <- Heq. apply list_elem_of_fmap. by exists r1.
Qed.

Lemma inst_get_set_order (o : option Z) (i : Instance) (f : string) :
  f ≠ order_field_name (i_model i) → inst_get (set_order o i) f = inst_get i f.
Proof.
  intros Hf. unfold inst_get. simpl.
  destruct (bool_decide (f = "pk" ∨ f = pk_name (i_model i))); [done|].
  rewrite (bool_decide_eq_false_2 _ Hf). by rewrite !andb_false_r.
Qed.

Lemma instance_key_set_order (o : option Z) (i : Instance) :
  order_field_name (i_model i) ∉ scope_fields (i_model i) →
  instance_key (set_order o i) = instance_key i.
Proof.
  intros Hf. unfold instance_key. simpl. apply list_fmap_ext. intros n f Hin.
  apply inst_get_set_order. intros Heq. apply Hf. rewrite <- Heq.
  by eapply list_elem_of_lookup_2.
Qed.

Lemma instance_key_set_deleted (v : option Z) (i : Instance) :
  instance_key (set_deleted v i) = instance_key i.
Proof. reflexivity. Qed.

(** *** Moving siblings and rewriting the record's row *)

Section Reorder.
Variables (m : Model) (i : Instance) (k s : Z) (d : list Row).
Variables (h : Row → Row) (shift : Z → Z) (row' : Row).

Hypothesis Hfield : order_field_name m ∉ scope_fields m.
Hypothesis Htyped : table_typed m d.
Hypothesis Hids : NoDup (row_id <$> d).
Hypothesis Hinv : orders_unique_live m d.
Hypothesis Hmodel : i_model i = m.
Hypothesis Hpk : i_pk i = Some k.
Hypothesis Hlive : i_deleted i = None.
Hypothesis Horder : i_order i = Some s.
Hypothesis Hstored : to_row k i ∈ d.

(** The row written stands for the same record, in the same scope. *)
Hypothesis Hrow_model : r_model row' = m.
Hypothesis Hrow_pk : r_pk row' = k.
Hypothesis Hrow_key : scope_key m row' = instance_key i.

(** [h] is what happens to the other rows: identities stay, and a row that
    is not the record's keeps its marks and its scope, its order going
    through [shift] when it is a live sibling of the record. *)
Hypothesis Hh_id : ∀ r, r ∈ d → row_id (h r) = row_id r.
Hypothesis Hh : ∀ r, r ∈ d → same_row m k r = false →
  live (h r) = live r
  ∧ (r_model r = m → scope_key m (h r) = scope_key m r)
  ∧ r_order (h r) = (λ x, if same_scope i r && live r then shift x else x) <$> r_order r.

(** [shift] never maps two orders other than the record's to one order,
    nor any of them to the order of the row written when that row is live. *)
Hypothesis Hinj : ∀ x y, x ≠ s → y ≠ s → shift x = shift y → x = y.
Hypothesis Hfresh :
  live row' = true → ∃ t, r_order row' = Some t ∧ ∀ x, x ≠ s → shift x ≠ t.

Let g (r : Row) : Row := if same_row m k r then row' else h r.

Lemma same_row_moved (r : Row) : r ∈ d → same_row m k (h r) = same_row m k r.
Proof. intros Hr. by rewrite !same_row_id, Hh_id. Qed.

Lemma write_after_move : write_row row' (h <$> d) = g <$> d.
Proof.
  unfold write_row. rewrite Hrow_model, Hrow_pk.
  assert (existsb (same_row m k) (h <$> d) = true) as ->.
  { apply existsb_exists. exists (h (to_row k i)). split.
    - apply list_elem_of_In, list_elem_of_fmap. by exists (to_row k i).
    - rewrite same_row_moved by done. rewrite same_row_id. apply bool_decide_eq_true_2.
      unfold row_id. simpl. by rewrite Hmodel. }
  rewrite <- list_fmap_compose. apply list_fmap_ext.
  intros n r Hr%list_elem_of_lookup_2. unfold g. simpl. by rewrite same_row_moved.
Qed.

(** What the invariant and the uniqueness of identities say of each row. *)
Let known (r : Row) : Prop :=
  r ∈ d
  ∧ (same_row m k r = true → r = to_row k i)
  ∧ (same_row m k r = false → same_scope i r = true → live r = true →
     r_order r ≠ Some s).

Lemma self_row_facts :
  model_name (r_model (to_row k i)) = model_name m
  ∧ scope_key m (to_row k i) = instance_key i
  ∧ live (to_row k i) = true
  ∧ r_order (to_row k i) = Some s
  ∧ same_row m k (to_row k i) = true.
Proof.
  split_and!.
  - simpl. by rewrite Hmodel.
  - rewrite <- Hmodel. by apply scope_key_to_row.
  - unfold live. simpl. by rewrite Hlive.
  - done.
  - rewrite same_row_id. apply bool_decide_eq_true_2. unfold row_id. simpl.
    by rewrite Hmodel.
Qed.

Lemma all_known : Forall known d.
Proof.
  destruct self_row_facts as (Sm & Sk & Sl & So & Ss).
  apply Forall_forall. intros r Hr. split; [done|]. split.
  - intros Hsame. apply (unique_ids d); [done..|].
    rewrite same_row_id in Hsame. apply bool_decide_eq_true_1 in Hsame.
    rewrite Hsame. unfold row_id. simpl. by rewrite Hmodel.
  - intros Hsame Hscope Hl Ho.
    apply same_scope_key in Hscope as [Hname Hkey]. rewrite Hmodel in Hname, Hkey.
    assert (Hne : r ≠ to_row k i) by (intros ->; congruence).
    destruct (pairs_distinct _ d r (to_row k i) Hinv Hr Hstored Hne) as [H|H];
      apply H; (split; [|done]); unfold clash; split_and!; congruence.
Qed.

Lemma moved_model (r : Row) : r ∈ d → model_name (r_model (h r)) = model_name (r_model r).
Proof. intros Hr. pose proof (Hh_id r Hr) as H. unfold row_id in H. congruence. Qed.

Lemma reorder_preserves : orders_unique_live m (write_row row' (h <$> d)).
Proof.
  rewrite write_after_move.
  destruct self_row_facts as (Sm & Sk & Sl & So & Ss).
  apply (pairs_fmap known _ _ g d all_known Hinv).
  intros a b (Ha & Ha1 & Ha2) (Hb & Hb1 & Hb2) HR (Hclash & Hla & Hlb).
  destruct Hclash as (Hna & Hnb & Hkey & Hord).
  unfold g in *.
  destruct (same_row m k a) eqn:Sa, (same_row m k b) eqn:Sb.
  - rewrite (Ha1 eq_refl), (Hb1 eq_refl) in HR. apply HR.
    unfold clash. by split_and!.
  - destruct (Hh b Hb Sb) as (Fl & Fk & Fo).
    rewrite moved_model in Hnb by done. rewrite Fl in Hlb.
    pose proof (Htyped b Hb Hnb) as Hmb. rewrite (Fk Hmb) in Hkey.
    assert (Hscope : same_scope i b = true).
    { apply same_scope_key. rewrite Hmodel. split; [done|]. congruence. }
    destruct (Hfresh Hla) as (t & Ht & Hfr).
    rewrite Ht, Fo, Hscope, Hlb in Hord. simpl in Hord.
    destruct (r_order b) as [x|] eqn:Hx; [|done]. simpl in Hord.
    apply (Hfr x); [|congruence]. intros ->. by apply Hb2.
  - destruct (Hh a Ha Sa) as (Fl & Fk & Fo).
    rewrite moved_model in Hna by done. rewrite Fl in Hla.
    pose proof (Htyped a Ha Hna) as Hma. rewrite (Fk Hma) in Hkey.
    assert (Hscope : same_scope i a = true).
    { apply same_scope_key. rewrite Hmodel. split; [done|]. congruence. }
    destruct (Hfresh Hlb) as (t & Ht & Hfr).
    rewrite Ht, Fo, Hscope, Hla in Hord. simpl in Hord.
    destruct (r_order a) as [x|] eqn:Hx; [|done]. simpl in Hord.
    apply (Hfr x); [|congruence]. intros ->. by apply Ha2.
  - destruct (Hh a Ha Sa) as (Fla & Fka & Foa).
    destruct (Hh b Hb Sb) as (Flb & Fkb & Fob).
    rewrite moved_model in Hna by done. rewrite moved_model in Hnb by done.
    rewrite Fla in Hla. rewrite Flb in Hlb.
    pose proof (Htyped a Ha Hna) as Hma. pose proof (Htyped b Hb Hnb) as Hmb.
    rewrite (Fka Hma), (Fkb Hmb) in Hkey.
    assert (Hab : r_order a ≠ r_order b).
    { intros Heq. apply HR. unfold clash. by split_and!. }
    rewrite Foa, Fob, Hla, Hlb, !andb_true_r in Hord.
    destruct (same_scope i a) eqn:Hsa.
    + assert (Hsb : same_scope i b = true).
      { apply same_scope_key in Hsa as [_ Hk].
        apply same_scope_key. rewrite Hmodel in *. split; [done|]. congruence. }
      rewrite Hsb in Hord.
      destruct (r_order a) as [x|] eqn:Hx, (r_order b) as [y|] eqn:Hy; simpl in Hord;
        try done.
      apply Hab. f_equal. apply Hinj; [| |congruence].
      * intros ->. by apply Ha2.
      * intros ->. by apply Hb2.
    + assert (Hsb : same_scope i b = false).
      { destruct (same_scope i b) eqn:Hsb; [|done].
        apply same_scope_key in Hsb as [_ Hk].
        assert (same_scope i a = true); [|congruence].
        apply same_scope_key. rewrite Hmodel in *. split; [done|]. congruence. }
      rewrite Hsb in Hord.
      apply Hab. by destruct (r_order a), (r_order b).
Qed.

End Reorder.

(** The rows moved by [shift_rows] fit the pattern. *)
Lemma shift_row_moves (m : Model) (i : Instance) (range : Z → bool) (delta : Z) (r : Row) :
  order_field_name m ∉ scope_fields m →
  row_id (shift_row i range delta r) = row_id r
  ∧ live (shift_row i range delta r) = live r
  ∧ (r_model r = m → scope_key m (shift_row i range delta r) = scope_key m r)
  ∧ r_order (shift_row i range delta r)
    = (λ x, if same_scope i r && live r
            then (if range x then x + delta else x) else x) <$> r_order r.
Proof.
  intros Hfield. unfold shift_row.
  destruct (r_order r) as [x|] eqn:Hx; [|by rewrite Hx].
  destruct (same_scope i r && live r); simpl; [|by rewrite Hx].
  destruct (range x); simpl; [|by rewrite Hx].
  split_and!; [done..| |done]. intros Hm. by apply scope_key_with_order.
Qed.

(** *** [to] and the operations that end in it *)

Lemma to_shift_inj (s t x y : Z) :
  x ≠ s → y ≠ s →
  (if to_range s t x then x + to_delta s t else x)
  = (if to_range s t y then y + to_delta s t else y) →
  x = y.
Proof.
  unfold to_range, to_delta. intros Hx Hy.
  destruct (Z.ltb_spec t s);
    repeat match goal with
           | |- context [?a <? ?b] => destruct (Z.ltb_spec a b)
           | |- context [?a <=? ?b] => destruct (Z.leb_spec a b)
           end; simpl; lia.
Qed.

Lemma to_shift_fresh (s t x : Z) :
  t ≠ s → x ≠ s → (if to_range s t x then x + to_delta s t else x) ≠ t.
Proof.
  unfold to_range, to_delta. intros Ht Hx.
  destruct (Z.ltb_spec t s);
    repeat match goal with
           | |- context [?a <? ?b] => destruct (Z.ltb_spec a b)
           | |- context [?a <=? ?b] => destruct (Z.leb_spec a b)
           end; simpl; lia.
Qed.

Lemma to_without_order (w : World) (self : nat) (i : Instance) (t : Z) :
  heap w !! self = Some i →
  ordered_model (i_model i) →
  i_order i = None →
  to self (PyInt t) None w = (Raise TypeError, w).
Proof.
  intros Hi Hm Ho. unfold to.
  erewrite bind_ok by (by apply getobj_ok).
  rewrite Ho. rewrite bool_decide_eq_false_2 by done.
  erewrite bind_ok by (by apply get_ordering_queryset_run).
  reflexivity.
Qed.

Lemma to_preserves (m : Model) (w w' : World) (self : nat) (i : Instance) (t : Z) :
  ordered_table m →
  table_typed m (db w) →
  NoDup (row_id <$> db w) →
  orders_unique_live m (db w) →
  synced m w self i →
  to self (PyInt t) None w = (Ok tt, w') →
  orders_unique_live m (db w').
Proof.
  intros [Hom Hfield] Hty Hids Hinv (Hi & Hm & Hd & k & Hk & Hrow) Hrun.
  rewrite <- Hm in Hom.
  destruct (i_order i) as [s|] eqn:Ho.
  2:{ rewrite (to_without_order w self i t) in Hrun; done. }
  destruct (to_record_run w self i s Hi Hom Ho) as [Hsame Hmove].
  destruct (decide (t = s)) as [->|Hne].
  { rewrite Hsame in Hrun. by simplify_eq. }
  destruct (Hmove t Hne) as (w'' & Hrun' & Hdb & _).
  rewrite Hrun' in Hrun. simplify_eq. rewrite Hdb.
  unfold key_of. rewrite Hk.
  apply (reorder_preserves (i_model i) i k s (db w)
           (shift_row i (to_range s t) (to_delta s t))
           (λ x, if to_range s t x then x + to_delta s t else x)); try done.
  - unfold scope_key. simpl. apply list_fmap_ext. intros n f Hf.
    rewrite row_get_to_row by done. apply inst_get_set_order. intros Heq.
    apply Hfield. rewrite <- Heq. by eapply list_elem_of_lookup_2.
  - intros r _. by apply (shift_row_moves (i_model i)).
  - intros r _ _. destruct (shift_row_moves (i_model i) i (to_range s t) (to_delta s t) r)
      as (_ & ? & ? & ?); done.
  - apply to_shift_inj.
  - intros _. exists t. split; [done|]. intros x. by apply to_shift_fresh.
Qed.

Section Stateless.
Context {S : Type}.

Lemma stateless_ret {A} (a : A) : stateless (mret a : M S A).
Proof. by intros s. Qed.

Lemma stateless_raise {A} (e : Exn) : stateless (raise e : M S A).
Proof. by intros s. Qed.

Lemma stateless_bind {A B} (m : M S A) (k : A → M S B) :
  stateless m → (∀ a, stateless (k a)) → stateless (m ≫= k).
Proof.
  intros Hm Hk s. unfold mbind, M_bind. specialize (Hm s).
  destruct (m s) as [[a|e|] s']; simpl in Hm; subst; [apply Hk|done|done].
Qed.

Lemma stateless_gets {A} (f : S → A) : stateless (gets f).
Proof. by intros s. Qed.

Lemma stateless_with_qs {A} (obj : QuerySet) (m : M QuerySet A) :
  stateless (with_qs obj m : M S A).
Proof. by intros s. Qed.

Lemma stateless_bind_inv {A B} (m : M S A) (k : A → M S B) (s s' : S) (b : B) :
  stateless m → (m ≫= k) s = (Ok b, s') → ∃ a, k a s = (Ok b, s').
Proof.
  intros Hm H. apply bind_ok_inv in H as (a & s1 & Ha & H).
  specialize (Hm s). rewrite Ha in Hm. simpl in Hm. subst. by exists a.
Qed.

End Stateless.

Create HintDb stateless discriminated.
Global Hint Resolve stateless_ret stateless_raise stateless_gets stateless_with_qs
  : stateless.

Ltac stateless_step :=
  lazymatch goal with
  | |- stateless (_ ≫= _) => apply stateless_bind; [|intros ?]
  | |- stateless (if ?b then _ else _) => destruct b
  | |- stateless (match ?x with _ => _ end) => destruct x
  | |- stateless _ => solve [auto with stateless]
  end.
Ltac stateless := repeat stateless_step.

Lemma stateless_getobj (ref : nat) : stateless (getobj ref).
Proof. intros w. unfold getobj. by destruct (heap w !! ref). Qed.

Lemma stateless_get_ordering_queryset {S} (i : Instance) :
  stateless (get_ordering_queryset i : M S QuerySet).
Proof. intros s. apply get_ordering_queryset_state. Qed.

Lemma stateless_py_gt {S} (a b : option Z) : stateless (py_gt a b : M S bool).
Proof. unfold py_gt. stateless. Qed.
Global Hint Resolve stateless_getobj stateless_get_ordering_queryset stateless_py_gt
  : stateless.

Lemma stateless_validate (self ref : nat) :
  stateless (_validate_ordering_reference self ref).
Proof.
  unfold _validate_ordering_reference, _get_order_with_respect_to_filter_kwargs,
    _get_order_with_respect_to.
  stateless.
Qed.
Global Hint Resolve stateless_validate : stateless.

Lemma to_of_value (self : nat) (o : PyVal) (w w' : World) :
  to self o None w = (Ok tt, w') → ∃ t, to self (PyInt t) None w = (Ok tt, w').
Proof. destruct o as [t| |?]; [by exists t|done..]. Qed.

(** [top], [bottom], [above] and [below] change nothing or end in one [to]. *)
Lemma top_ends_in_to (self : nat) : ends_in_to (top self None) self.
Proof.
  intros w w' H. right. unfold top in H.
  apply stateless_bind_inv in H as [i H]; [|stateless].
  apply stateless_bind_inv in H as [qs H]; [|stateless].
  apply stateless_bind_inv in H as [d H]; [|stateless].
  apply stateless_bind_inv in H as [o H]; [|stateless].
  by eapply to_of_value.
Qed.

Lemma bottom_ends_in_to (self : nat) : ends_in_to (bottom self None) self.
Proof.
  intros w w' H. right. unfold bottom in H.
  apply stateless_bind_inv in H as [i H]; [|stateless].
  apply stateless_bind_inv in H as [qs H]; [|stateless].
  apply stateless_bind_inv in H as [d H]; [|stateless].
  apply stateless_bind_inv in H as [o H]; [|stateless].
  by eapply to_of_value.
Qed.

Lemma above_ends_in_to (self ref : nat) : ends_in_to (above self ref None) self.
Proof.
  intros w w' H. unfold above in H.
  apply stateless_bind_inv in H as [[] H]; [|stateless].
  apply stateless_bind_inv in H as [s H]; [|stateless].
  apply stateless_bind_inv in H as [r H]; [|stateless].
  destruct (bool_decide _) in H; [left; unfold mret, M_ret in H; by simplify_eq|].
  right.
  apply stateless_bind_inv in H as [up H]; [|stateless].
  apply stateless_bind_inv in H as [o H]; [|stateless].
  by eapply to_of_value.
Qed.

Lemma below_ends_in_to (self ref : nat) : ends_in_to (below self ref None) self.
Proof.
  intros w w' H. unfold below in H.
  apply stateless_bind_inv in H as [[] H]; [|stateless].
  apply stateless_bind_inv in H as [s H]; [|stateless].
  apply stateless_bind_inv in H as [r H]; [|stateless].
  destruct (bool_decide _) in H; [left; unfold mret, M_ret in H; by simplify_eq|].
  right.
  apply stateless_bind_inv in H as [up H]; [|stateless].
  apply stateless_bind_inv in H as [o H]; [|stateless].
  by eapply to_of_value.
Qed.

(** *** [delete] under the policies that delete the record itself *)

Lemma ordered_delete_without_order (super_delete : M World unit) (w : World)
    (self : nat) (i : Instance) :
  heap w !! self = Some i →
  ordered_model (i_model i) →
  i_order i = None →
  BaseOrderedSafeDeleteModel_delete super_delete self None w = (Raise ValueError, w).
Proof.
  intros Hi Hm Ho. unfold BaseOrderedSafeDeleteModel_delete.
  erewrite bind_ok by (by apply getobj_ok).
  erewrite bind_ok by (by apply get_ordering_queryset_run).
  unfold above_instance. rewrite Ho. reflexivity.
Qed.

Lemma filter_write_row (p : Row → bool) (row : Row) (d : list Row) :
  p row = false →
  (∀ r, same_row (r_model row) (r_pk row) r = true → p r = false) →
  List.filter p (write_row row d) = List.filter p d.
Proof.
  intros Hrow Hp. unfold write_row.
  destruct (existsb _ d).
  - induction d as [|r d IH]; [done|]. rewrite fmap_cons. cbn [List.filter].
    destruct (same_row _ _ r) eqn:Hr.
    + by rewrite Hrow, (Hp r Hr).
    + by rewrite IH.
  - rewrite List.filter_app. simpl. rewrite Hrow. by rewrite app_nil_r.
Qed.

Lemma delete_preserves references can_hard_delete (m : Model) (w w' : World)
    (self : nat) (i : Instance) (fuel : nat) :
  ordered_table m →
  table_typed m (db w) →
  NoDup (row_id <$> db w) →
  orders_unique_live m (db w) →
  synced m w self i →
  _safedelete_policy m = SOFT_DELETE ∨ _safedelete_policy m = HARD_DELETE →
  delete references can_hard_delete (S fuel) self None None w = (Ok tt, w') →
  orders_unique_live m (db w').
Proof.
  intros [Hom Hfield] Hty Hids Hinv (Hi & Hm & Hd & k & Hk & Hrow) Hpol Hrun.
  subst m.
  destruct (i_order i) as [s|] eqn:Ho.
  2:{ cbn [delete] in Hrun. erewrite bind_ok in Hrun by (by apply getobj_ok).
      destruct Hom as (Hord & Hom). rewrite Hord in Hrun.
      rewrite (ordered_delete_without_order _ w self i) in Hrun; done. }
  rewrite (ordered_delete_dispatch references can_hard_delete w self None fuel i s
             Hi Hom Ho) in Hrun.
  assert (Hre : ∀ row', r_model row' = i_model i → r_pk row' = k →
                  scope_key (i_model i) row' = instance_key i → live row' = false →
                  orders_unique_live (i_model i)
                    (write_row row' (shift_rows i (λ x, s <? x) (-1) (db w)))).
  { intros row' Hrm Hrk Hkey Hdead.
    apply (reorder_preserves (i_model i) i k s (db w)
             (shift_row i (λ x, s <? x) (-1))
             (λ x, if s <? x then x + -1 else x)); try done.
    - intros r _. by apply (shift_row_moves (i_model i)).
    - intros r _ _. destruct (shift_row_moves (i_model i) i (λ x, s <? x) (-1) r)
        as (_ & ? & ? & ?); done.
    - intros x y Hx Hy. destruct (Z.ltb_spec s x), (Z.ltb_spec s y); lia.
    - intros Hl. congruence. }
  destruct Hpol as [Hpol|Hpol].
  - rewrite (soft_delete_run references can_hard_delete _ (set_db (shift_rows i (λ x, s <? x) (-1) (db w)) w) self None i)
      in Hrun; [|done|done|by eexists].
    simplify_eq. simpl. unfold key_of. rewrite Hk.
    apply Hre; try done. simpl.
    rewrite <- (scope_key_to_row k i Hk). done.
  - unfold SafeDeleteModel_delete in Hrun.
    erewrite bind_ok in Hrun by (by apply getobj_ok).
    simpl in Hrun. rewrite Hpol in Hrun.
    unfold Model_delete in Hrun.
    erewrite bind_ok in Hrun by (by apply getobj_ok).
    rewrite Hk in Hrun.
    apply bind_ok_inv in Hrun as (d0 & w0 & Hd0 & Hrun). unfold gets in Hd0. simplify_eq.
    apply bind_ok_inv in Hrun as ([] & w1 & Hput & Hrun).
    unfold put_db, modify in Hput. simplify_eq.
    apply bind_ok_inv in Hrun as ([] & w2 & Hset & Hrun).
    unfold setobj, modify in Hset, Hrun. simplify_eq. simpl.
    set (p := λ r : Row, negb (same_row (i_model i) k r
                               || references (row_id r) (model_name (i_model i), k))).
    rewrite <- (filter_write_row p (to_row k (set_deleted (Some 0) i))
                 (shift_rows i (λ x, s <? x) (-1) (db w))).
    + apply pairs_filter. apply Hre; try done. simpl.
      rewrite <- (scope_key_to_row k i Hk). done.
    + unfold p. simpl. rewrite same_row_id. unfold row_id at 1. simpl.
      by rewrite bool_decide_eq_true_2.
    + intros r Hr. unfold p. simpl in Hr. by rewrite Hr.
Qed.

(** *** [swap] *)

(** A reference that passes the validation is in the scope of the record. *)
Lemma validate_ordering_reference_keys (w w' : World) (self ref : nat) (s r : Instance) :
  heap w !! self = Some s →
  heap w !! ref = Some r →
  i_model r = i_model s →
  _validate_ordering_reference self ref w = (Ok tt, w') →
  w' = w ∧ instance_key r = instance_key s.
Proof.
  intros Hs Hr Hm H. unfold _validate_ordering_reference in H.
  erewrite bind_ok in H by (by apply getobj_ok).
  erewrite bind_ok in H by (by apply getobj_ok).
  unfold instance_key, scope_fields. rewrite Hm.
  destruct (order_with_respect_to (i_model s)) eqn:Ho; simpl in H;
    [unfold mret, M_ret in H; by simplify_eq|..].
  all: erewrite bind_ok in H by (apply RefusalFacts.respect_to_kwargs_run; by rewrite Ho).
  all: erewrite bind_ok in H by (apply RefusalFacts.respect_to_kwargs_run; by rewrite Hm, Ho).
  all: destruct (bool_decide _) eqn:Hb in H; [done|].
  all: apply bool_decide_eq_false_1 in Hb; apply dec_stable in Hb.
  all: unfold mret, M_ret in H; simplify_eq; split; [done|].
  all: destruct (truthy_respect_to _); [|done].
  all: apply list_fmap_ext; intros n f Hf%list_elem_of_lookup_2.
  all: assert (Hl : respect_to_values r !! f = respect_to_values s !! f) by by rewrite Hb.
  all: unfold respect_to_values in Hl; rewrite !lookup_field_values, Hm in Hl.
  all: rewrite !decide_True in Hl by done; by simplify_eq.
Qed.

(** Saving a record whose order and primary key are set writes its row. *)
Lemma save_stored_run (w : World) (self : nat) (i : Instance) (k o : Z) :
  heap w !! self = Some i →
  i_pk i = Some k →
  i_order i = Some o →
  ∃ w', save self false w = (Ok tt, w')
        ∧ db w' = write_row (to_row k (set_deleted None i)) (db w)
        ∧ heap w' = <[self := set_saved (Some k) (set_deleted None i)]> (heap w).
Proof.
  intros Hi Hk Ho.
  rewrite (save_dispatch w self i false Hi) by (by eexists).
  rewrite (save_undeleting_run w self i Hi).
  eexists. split; [reflexivity|]. simpl. unfold key_of. by rewrite Hk.
Qed.

(** The rows [swap] writes: the record's with the order of the replacement,
    then the replacement's with the order the record had. *)
Lemma swap_rows (w w' : World) (self replacement : nat) (s r : Instance)
    (ks kr a b : Z) :
  heap w !! self = Some s →
  heap w !! replacement = Some r →
  i_model r = i_model s →
  i_pk s = Some ks → i_pk r = Some kr →
  i_order s = Some a → i_order r = Some b →
  swap self replacement w = (Ok tt, w') →
  instance_key r = instance_key s
  ∧ db w' = write_row (to_row kr (set_deleted None (set_order (Some a) r)))
              (write_row (to_row ks (set_deleted None (set_order (Some b) s))) (db w)).
Proof.
  intros Hs Hr Hm Hks Hkr Ha Hb H. unfold swap in H.
  apply bind_ok_inv in H as ([] & w0 & Hv & H).
  apply (validate_ordering_reference_keys w w0 self replacement s r) in Hv as [-> Hkey];
    [|done..].
  split; [done|].
  erewrite bind_ok in H by (by apply getobj_ok).
  erewrite bind_ok in H by (by apply getobj_ok).
  rewrite Ha, Hb in H.
  erewrite bind_ok in H by reflexivity.
  set (w1 := set_heap _ w) in H.
  assert (Hlen : (self < length (heap w))%nat) by (by eapply lookup_lt_Some).
  assert (Hlen' : (replacement < length (heap w))%nat) by (by eapply lookup_lt_Some).
  destruct (decide (self = replacement)) as [<-|Hne].
  - assert (r = s) as -> by congruence.
    assert (b = a) as -> by congruence.
    erewrite bind_ok in H.
    2:{ apply getobj_ok. simpl. by apply list_lookup_insert_eq. }
    erewrite bind_ok in H by reflexivity.
    set (w2 := set_heap _ w1) in H.
    destruct (save_stored_run w2 self (set_order (Some a) (set_order (Some a) s)) ks a)
      as (w3 & Hrun & Hdb & Hheap); [|done..|].
    { simpl. rewrite list_insert_insert_eq. by apply list_lookup_insert_eq. }
    erewrite bind_ok in H by exact Hrun.
    destruct (save_stored_run w3 self
                (set_saved (Some ks) (set_deleted None
                   (set_order (Some a) (set_order (Some a) s)))) ks a)
      as (w4 & Hrun' & Hdb' & _); [|done..|].
    { rewrite Hheap. apply list_lookup_insert_eq. simpl. by rewrite !length_insert. }
    rewrite Hrun' in H. simplify_eq. by rewrite Hdb', Hdb.
  - erewrite bind_ok in H.
    2:{ apply getobj_ok. simpl. by rewrite list_lookup_insert_ne. }
    erewrite bind_ok in H by reflexivity.
    set (w2 := set_heap _ w1) in H.
    destruct (save_stored_run w2 self (set_order (Some b) s) ks b)
      as (w3 & Hrun & Hdb & Hheap); [|done..|].
    { simpl. rewrite list_lookup_insert_ne by done. by apply list_lookup_insert_eq. }
    erewrite bind_ok in H by exact Hrun.
    destruct (save_stored_run w3 replacement (set_order (Some a) r) kr a)
      as (w4 & Hrun' & Hdb' & _); [|done..|].
    { rewrite Hheap. rewrite list_lookup_insert_ne by done. simpl.
      apply list_lookup_insert_eq. by rewrite length_insert. }
    rewrite Hrun' in H. simplify_eq. by rewrite Hdb', Hdb.
Qed.

(** Writing over a stored row replaces it in place. *)
Lemma write_row_stored (row : Row) (d : list Row) (r : Row) :
  r ∈ d → row_id r = row_id row →
  write_row row d = (λ x, if same_row (r_model row) (r_pk row) x then row else x) <$> d.
Proof.
  intros Hr Hid. unfold write_row.
  assert (existsb (same_row (r_model row) (r_pk row)) d = true) as ->; [|done].
  apply existsb_exists. exists r. split; [by apply list_elem_of_In|].
  rewrite same_row_id. by apply bool_decide_eq_true_2.
Qed.

Lemma swap_preserves (m : Model) (w w' : World) (self replacement : nat)
    (s r : Instance) :
  ordered_table m →
  table_typed m (db w) →
  NoDup (row_id <$> db w) →
  orders_unique_live m (db w) →
  synced m w self s →
  synced m w replacement r →
  is_Some (i_order s) → is_Some (i_order r) →
  swap self replacement w = (Ok tt, w') →
  orders_unique_live m (db w').
Proof.
  intros [Hom Hfield] Hty Hids Hinv (Hs & Hms & Hds & ks & Hks & Hrow_s)
    (Hr & Hmr & Hdr & kr & Hkr & Hrow_r) [a Ha] [b Hb] Hrun.
  destruct (swap_rows w w' self replacement s r ks kr a b) as [Hkey ->]; try done.
  { congruence. }
  set (row_s := to_row ks (set_deleted None (set_order (Some b) s))).
  set (row_r := to_row kr (set_deleted None (set_order (Some a) r))).
  rewrite (write_row_stored row_s (db w) (to_row ks s)) by done.
  assert (Hself : ∀ x, x ∈ db w → same_row m ks x = true → x = to_row ks s).
  { intros x Hx Hsame. apply (unique_ids (db w)); [done..|].
    rewrite same_row_id in Hsame. apply bool_decide_eq_true_1 in Hsame.
    rewrite Hsame. unfold row_id. simpl. by rewrite Hms. }
  assert (Hkey_s : scope_key m (to_row ks s) = instance_key s).
  { rewrite <- Hms. by apply scope_key_to_row. }
  apply (reorder_preserves m r kr b (db w)
           (λ x, if same_row (r_model row_s) (r_pk row_s) x then row_s else x)
           (λ x, if bool_decide (x = a) then b else x)); try done.
  - unfold row_r, scope_key. simpl. rewrite <- Hmr.
    apply list_fmap_ext. intros n f Hf.
    rewrite row_get_to_row by done. apply inst_get_set_order. intros Heq.
    apply Hfield. rewrite Hmr in Heq, Hf. rewrite <- Heq. by eapply list_elem_of_lookup_2.
  - intros x Hx. simpl. destruct (same_row _ _ x) eqn:Hsame; [|done].
    rewrite same_row_id in Hsame. apply bool_decide_eq_true_1 in Hsame.
    by rewrite Hsame.
  - intros x Hx Hother. simpl. rewrite Hms.
    destruct (same_row m ks x) eqn:Hsame.
    + rewrite (Hself x Hx Hsame).
      assert (Hsc : same_scope r (to_row ks s) = true).
      { apply same_scope_key. simpl. split; [congruence|].
        rewrite Hmr, Hkey_s. done. }
      rewrite Hsc. unfold live. simpl. rewrite Hds. split_and!; [done| |].
      * intros _. unfold row_s, scope_key. apply list_fmap_ext. intros n f Hf.
        rewrite !row_get_to_row by done. apply inst_get_set_order. intros Heq.
        apply Hfield. rewrite Hms in Heq. rewrite <- Heq. by eapply list_elem_of_lookup_2.
      * rewrite Ha. simpl. by rewrite bool_decide_eq_true_2.
    + split_and!; [done..|].
      destruct (r_order x) as [o|] eqn:Ho; [|done]. simpl. f_equal.
      destruct (same_scope r x) eqn:Hsc; [|done].
      destruct (live x) eqn:Hl; [|done]. simpl.
      destruct (decide (o = a)) as [->|Hne]; [|by rewrite bool_decide_eq_false_2].
      exfalso.
      assert (Hne : x ≠ to_row ks s).
      { intros ->. rewrite same_row_id in Hsame. apply bool_decide_eq_false_1 in Hsame.
        apply Hsame. unfold row_id. simpl. by rewrite Hms. }
      apply same_scope_key in Hsc as [Hname Hk]. rewrite Hmr in Hname, Hk.
      destruct (pairs_distinct _ (db w) x (to_row ks s) Hinv Hx Hrow_s Hne) as [H|H];
        apply H; (split; [|split; first [done|by unfold live; simpl; rewrite Hds]]);
        unfold clash; simpl; rewrite Hms; split_and!; congruence.
  - intros x y Hx Hy. simpl.
    repeat case_bool_decide; congruence.
  - intros _. exists a. split; [done|]. intros x Hx. simpl.
    case_bool_decide; congruence.
Qed.

(** *** Creating records: [save] with an order assigned *)

Lemma max_of_bound (l : list Z) (x : Z) :
  x ∈ l → ∃ mx, max_of l = Some mx ∧ x ≤ mx.
Proof.
  induction l as [|y l IH]; [by intros ?%not_elem_of_nil|].
  intros Hx. simpl. destruct (max_of l) as [mx|] eqn:Hmx.
  - eexists. split; [done|].
    apply elem_of_cons in Hx as [->|Hx]; [lia|].
    destruct (IH Hx) as (mx' & ? & ?). simplify_eq. lia.
  - eexists. split; [done|].
    apply elem_of_cons in Hx as [->|Hx]; [lia|].
    by destruct (IH Hx) as (? & ? & _).
Qed.

Lemma next_order_above (i : Instance) (d : list Row) (a : Row) (x : Z) :
  a ∈ d → same_scope i a = true → live a = true → r_order a = Some x →
  x < next_order i d.
Proof.
  intros Ha Hs Hl Ho. unfold next_order.
  destruct (max_of_bound (omap r_order (List.filter (λ r, same_scope i r && live r) d)) x)
    as (mx & -> & Hle); [|lia].
  apply list_elem_of_omap. exists a. split; [|done].
  apply list_elem_of_In, filter_In. split; [by apply list_elem_of_In|].
  by rewrite Hs, Hl.
Qed.

Lemma get_next_order_run (i : Instance) (d : list Row) :
  outcome_of (get_next_order d) (ordering_qs i) = Ok (next_order i d).
Proof.
  unfold outcome_of, get_next_order, get_max_order.
  erewrite bind_ok.
  2:{ erewrite bind_ok by apply fetch_run, lazy_invisible_ordering_qs. reflexivity. }
  simpl. unfold next_order.
  erewrite List.filter_ext; [reflexivity|].
  intros r. simpl. by rewrite selects_ordering_qs.
Qed.

Lemma next_pk_above (m : Model) (d : list Row) (r : Row) :
  r ∈ d → model_name (r_model r) = model_name m → r_pk r < next_pk m d.
Proof.
  intros Hr Hm. unfold next_pk.
  induction d as [|a d IH]; [by apply not_elem_of_nil in Hr|].
  cbn [List.filter]. apply elem_of_cons in Hr as [<-|Hr].
  - rewrite bool_decide_eq_true_2 by done. rewrite fmap_cons. simpl. lia.
  - specialize (IH Hr). destruct (bool_decide _); [|done].
    rewrite fmap_cons. simpl. lia.
Qed.

Lemma fresh_key_exists (m : Model) (k : Z) (d : list Row) :
  fresh_key m k d ↔ existsb (same_row m k) d = false.
Proof.
  rewrite <- not_true_iff_false, existsb_exists. unfold same_row. split.
  - intros H (r & Hr%list_elem_of_In & Hs). apply andb_true_iff in Hs as [Hm Hk].
    apply bool_decide_eq_true_1 in Hm. apply Z.eqb_eq in Hk. by apply (H r).
  - intros H r Hr Hm Hk. apply H. exists r. split; [by apply list_elem_of_In|].
    rewrite bool_decide_eq_true_2 by done. by apply Z.eqb_eq.
Qed.

Lemma next_pk_fresh (m : Model) (d : list Row) : fresh_key m (next_pk m d) d.
Proof. intros r Hr Hm. pose proof (next_pk_above m d r Hr Hm). lia. Qed.

(** A stored row in the scope of a row written under a fresh key is in the
    scope of the instance written, whether or not the key is a scope field. *)
Lemma scope_key_new_row (m : Model) (k : Z) (i : Instance) (a : Row) :
  i_model i = m → r_model a = m → r_pk a ≠ k →
  scope_key m a = scope_key m (to_row k i) →
  scope_key m a = instance_key i.
Proof.
  intros Hi Ha Hk. unfold scope_key, instance_key. rewrite Hi.
  induction (scope_fields m) as [|f fs IH]; [done|].
  rewrite !fmap_cons. intros [= Hf Hfs]. f_equal; [|by apply IH].
  rewrite Hf. unfold row_get, inst_get in *. simpl in *. rewrite Ha, Hi in *.
  destruct (bool_decide (f = "pk" ∨ f = pk_name m)); [congruence|done].
Qed.

(** Appending a row that clashes with no live stored row. *)
Lemma append_preserves (m : Model) (d : list Row) (row : Row) :
  orders_unique_live m d →
  (∀ a, a ∈ d → clash m a row → live a = true → live row = true → False) →
  orders_unique_live m (d ++ [row]).
Proof.
  intros Hinv Hrow. apply pairs_snoc; [done|].
  intros a Ha (Hc & Hla & Hlr). by apply (Hrow a).
Qed.

(** A new row of the table of [m], written under a fresh key in the scope of
    [i] with an order above those of the live siblings, clashes with none. *)
Lemma new_row_no_clash (m : Model) (d : list Row) (i j : Instance) (k o : Z) (a : Row) :
  table_typed m d →
  i_model i = m → i_model j = m →
  instance_key j = instance_key i →
  i_order j = Some o →
  (∀ x, r_order a = Some x → same_scope i a = true → live a = true → x < o) →
  fresh_key m k d →
  a ∈ d → clash m a (to_row k j) → live a = true → False.
Proof.
  intros Hty Hi Hj Hkey Ho Habove Hk Ha (Hna & _ & Hsc & Hord) Hl.
  pose proof (Hty a Ha Hna) as Hma.
  apply (scope_key_new_row m k j a) in Hsc; [|done|done|by apply Hk].
  simpl in Hord. rewrite Ho in Hord.
  assert (o < o); [|lia]. apply Habove; [done| |done].
  apply same_scope_key. rewrite Hi. split; [done|]. congruence.
Qed.

Lemma save_new_run (w : World) (self : nat) (i : Instance) (keep_deleted : bool) :
  heap w !! self = Some i →
  ordered_model (i_model i) →
  i_pk i = None →
  i_order i = None →
  ∃ j w', save self keep_deleted w = (Ok tt, w')
          ∧ db w' = db w ++ [to_row (next_pk (i_model i) (db w)) j]
          ∧ i_model j = i_model i
          ∧ instance_key j = instance_key (set_order (Some (next_order i (db w))) i)
          ∧ i_order j = Some (next_order i (db w)).
Proof.
  intros Hi Hm Hk Ho. unfold save.
  erewrite bind_ok by (by apply getobj_ok).
  destruct Hm as (Hord & Hmgr & Hpath). rewrite Hord.
  unfold BaseOrderedSafeDeleteModel_save.
  erewrite bind_ok by (by apply getobj_ok).
  rewrite Ho.
  erewrite bind_ok.
  2:{ erewrite bind_ok by (by apply get_ordering_queryset_run).
      erewrite bind_ok by reflexivity.
      erewrite bind_ok.
      2:{ unfold with_qs. rewrite get_next_order_run. reflexivity. }
      reflexivity. }
  set (j := set_order (Some (next_order i (db w))) i).
  assert (Hj : heap (set_heap (<[self := j]> (heap w)) w) !! self = Some j).
  { simpl. apply list_lookup_insert_eq. by eapply lookup_lt_Some. }
  assert (Hwrite : ∀ j', i_model j' = i_model i → i_pk j' = None →
            write_row (to_row (key_of j' (db w)) j') (db w)
            = db w ++ [to_row (next_pk (i_model i) (db w)) j']).
  { intros j' Hm' Hk'. unfold key_of, write_row. rewrite Hk', Hm'. simpl. rewrite Hm'.
    by rewrite (proj1 (fresh_key_exists _ _ _) (next_pk_fresh (i_model i) (db w))). }
  destruct keep_deleted.
  - rewrite (save_keep_deleted_run _ self j Hj). simpl.
    exists j. eexists. split; [reflexivity|]. simpl.
    rewrite (Hwrite j) by done. done.
  - rewrite (save_undeleting_run _ self j Hj). simpl.
    exists (set_deleted None j). eexists. split; [reflexivity|]. simpl.
    rewrite <- (Hwrite (set_deleted None j)) by done. done.
Qed.

Lemma save_new_preserves (m : Model) (w w' : World) (self : nat) (i : Instance)
    (keep_deleted : bool) :
  ordered_table m →
  table_typed m (db w) →
  orders_unique_live m (db w) →
  heap w !! self = Some i →
  i_model i = m → i_pk i = None → i_order i = None →
  save self keep_deleted w = (Ok tt, w') →
  orders_unique_live m (db w').
Proof.
  intros [Hom Hfield] Hty Hinv Hi Hm Hk Ho Hrun. subst m.
  destruct (save_new_run w self i keep_deleted) as (j & w1 & Hrun' & Hdb & Hmj & Hkey & Hoj);
    [done..|].
  rewrite Hrun' in Hrun. simplify_eq. rewrite Hdb.
  apply append_preserves; [done|].
  intros a Ha Hclash Hla _.
  apply (new_row_no_clash (i_model i) (db w) i j (next_pk (i_model i) (db w))
           (next_order i (db w)) a); try done.
  - rewrite Hkey. by apply instance_key_set_order.
  - intros x Hx Hs Hl. by apply (next_order_above i (db w) a).
  - apply next_pk_fresh.
Qed.

(** *** Creating records: [bulk_create] *)

Lemma at_refs_insert (h : list Instance) (objs : list nat) (insts : list Instance)
    (obj : nat) (x : Instance) :
  obj ∉ objs → at_refs h objs insts → at_refs (<[obj := x]> h) objs insts.
Proof.
  unfold at_refs. intros Hn H.
  induction H as [|o i objs insts Ho H IH]; [constructor|].
  apply not_elem_of_cons in Hn as [Hne Hn]. constructor; [|by apply IH].
  by rewrite list_lookup_insert_ne.
Qed.

Lemma next_order_scope (i i' : Instance) (d : list Row) :
  i_model i' = i_model i → instance_key i' = instance_key i →
  next_order i' d = next_order i d.
Proof.
  intros Hm Hk. unfold next_order.
  erewrite List.filter_ext; [reflexivity|].
  intros r. simpl. f_equal. apply eq_true_iff_eq.
  rewrite !same_scope_key. by rewrite Hm, Hk.
Qed.

Lemma filter_by_scope_run {S} (o : Instance) (s : S) :
  ordered_model (i_model o) →
  with_qs (get_queryset (i_model o) OrderedSafeDeleteManager)
    (filter_by_order_with_respect_to o) s
  = (Ok (ordering_qs o), s).
Proof.
  intros Hm. pose proof (get_ordering_queryset_run o s Hm) as H.
  destruct Hm as (_ & Hmgr & Hpath).
  unfold get_ordering_queryset in H. rewrite Hpath, Hmgr in H.
  by erewrite bind_ok in H by reflexivity.
Qed.

(** The loop of the branch with [order_with_respect_to]. *)
Lemma assign_scoped_orders_run (m : Model) (d : list Row) (objs : list nat) :
  ordered_table m →
  ∀ (insts : list Instance) (mp : gmap (list (option Z)) Z) (w w' : World),
  NoDup objs →
  at_refs (heap w) objs insts →
  Forall (λ i, i_model i = m) insts →
  db w = d →
  (∀ i n, i_model i = m → mp !! instance_key i = Some n → next_order i d ≤ n + 1) →
  assign_scoped_orders (get_queryset m OrderedSafeDeleteManager) (scope_fields m) objs mp w
  = (Ok tt, w') →
  ∃ js, db w' = d
        ∧ at_refs (heap w') objs js
        ∧ (∀ ref, ref ∉ objs → heap w' !! ref = heap w !! ref)
        ∧ Forall2 (λ i j, i_model i = m
                          ∧ ∃ o, j = set_order (Some o) i
                                 ∧ match mp !! instance_key i with
                                   | Some n => n < o
                                   | None => next_order i d ≤ o
                                   end) insts js
        ∧ ForallOrdPairs
            (λ j1 j2, instance_key j1 = instance_key j2 → i_order j1 ≠ i_order j2) js.
Proof.
  intros [Hom Hfield].
  induction objs as [|obj objs IH]; intros insts mp w w' Hnd Hat Hms Hd Hmp H.
  - apply Forall2_nil_inv_l in Hat as ->. cbn in H. unfold mret, M_ret in H. simplify_eq.
    exists []. split_and!; [done|constructor|done|constructor|constructor].
  - apply Forall2_cons_inv_l in Hat as (i & insts' & Hi & Hat & ->).
    apply NoDup_cons in Hnd as [Hobj Hnd].
    apply Forall_cons in Hms as [Hm Hms].
    cbn [assign_scoped_orders] in H.
    erewrite bind_ok in H by (by apply getobj_ok).
    assert (Hkey : get_lookup_value i <$> scope_fields m = instance_key i).
    { unfold instance_key. by rewrite Hm. }
    rewrite Hkey in H.
    set (order := match mp !! instance_key i with
                  | Some n => n + 1
                  | None => next_order i d
                  end).
    assert (Horder : next_order i d ≤ order).
    { unfold order. destruct (mp !! instance_key i) as [n|] eqn:Hn; [|lia].
      by apply Hmp. }
    erewrite (bind_ok _ _ _ order) in H.
    2:{ unfold order. destruct (mp !! instance_key i) as [n|]; [done|].
        erewrite bind_ok by reflexivity.
        rewrite <- Hm.
        erewrite bind_ok by (apply filter_by_scope_run; by rewrite Hm).
        unfold with_qs. by rewrite get_next_order_run, Hd. }
    erewrite bind_ok in H by reflexivity.
    apply IH with (insts := insts') in H as (js & Hdb & Hat' & Hfr & Hall & Hpairs);
      [|done|by apply at_refs_insert|done|done|].
    2:{ intros i' n' Hm' Hl. rewrite lookup_insert in Hl.
        destruct (decide (instance_key i = instance_key i')) as [Heq|Hne].
        - simplify_eq. rewrite (next_order_scope i i') by done. lia.
        - by apply Hmp. }
    exists (set_order (Some order) i :: js). split_and!.
    + done.
    + constructor; [|done]. rewrite Hfr by done. simpl.
      apply list_lookup_insert_eq. by eapply lookup_lt_Some.
    + intros ref [Hne Href]%not_elem_of_cons. rewrite Hfr by done. simpl.
      by rewrite list_lookup_insert_ne.
    + constructor.
      { split; [done|]. exists order. split; [done|]. unfold order.
        destruct (mp !! instance_key i); lia. }
      eapply Forall2_impl; [done|]. intros i' j' (Hm' & o & -> & Ho).
      split; [done|]. exists o. split; [done|].
      rewrite lookup_insert in Ho.
      destruct (decide (instance_key i = instance_key i')) as [Heq|Hne]; [|done].
      rewrite <- Heq, (next_order_scope i i') by congruence. unfold order in *.
      destruct (mp !! instance_key i) as [n|]; lia.
    + constructor; [|done].
      eapply Forall2_Forall_r; [exact Hall|].
      apply Forall_forall. intros i' _ j' (Hm' & o & -> & Ho).
      rewrite !instance_key_set_order by (simpl; congruence).
      intros Heq. rewrite Heq, lookup_insert_eq in Ho. simpl. intros [= ->]. lia.
Qed.

(** The loop of the branch without it. *)
Lemma assign_orders_run (objs : list nat) :
  ∀ (insts : list Instance) (n : Z) (w w' : World),
  NoDup objs →
  at_refs (heap w) objs insts →
  assign_orders objs n w = (Ok tt, w') →
  ∃ js, db w' = db w
        ∧ at_refs (heap w') objs js
        ∧ (∀ ref, ref ∉ objs → heap w' !! ref = heap w !! ref)
        ∧ Forall2 (λ i j, ∃ o, j = set_order (Some o) i ∧ n ≤ o) insts js
        ∧ ForallOrdPairs (λ j1 j2, i_order j1 ≠ i_order j2) js.
Proof.
  induction objs as [|obj objs IH]; intros insts n w w' Hnd Hat H.
  - apply Forall2_nil_inv_l in Hat as ->. cbn in H. unfold mret, M_ret in H. simplify_eq.
    exists []. split_and!; [done|constructor|done|constructor|constructor].
  - apply Forall2_cons_inv_l in Hat as (i & insts' & Hi & Hat & ->).
    apply NoDup_cons in Hnd as [Hobj Hnd].
    cbn [assign_orders] in H.
    erewrite bind_ok in H by (by apply getobj_ok).
    erewrite bind_ok in H by reflexivity.
    apply IH with (insts := insts') in H as (js & Hdb & Hat' & Hfr & Hall & Hpairs);
      [|done|by apply at_refs_insert].
    exists (set_order (Some n) i :: js). split_and!.
    + done.
    + constructor; [|done]. rewrite Hfr by done. simpl.
      apply list_lookup_insert_eq. by eapply lookup_lt_Some.
    + intros ref [Hne Href]%not_elem_of_cons. rewrite Hfr by done. simpl.
      by rewrite list_lookup_insert_ne.
    + constructor; [exists n; split; [done|lia]|].
      eapply Forall2_impl; [done|]. intros i' j' (o & -> & Ho).
      exists o. split; [done|lia].
    + constructor; [|done].
      eapply Forall2_Forall_r; [exact Hall|].
      apply Forall_forall. intros i' _ j' (o & -> & Ho). simpl. intros [= ->]. lia.
Qed.

(** The orders [bulk_create] sets before it hands the objects to Django. *)
Lemma bulk_assign_run (m : Model) (w w1 : World) (objs : list nat) (insts : list Instance)
    (k : QuerySet → M World QuerySet) (qs' : QuerySet) :
  ordered_table m →
  NoDup objs →
  at_refs (heap w) objs insts →
  Forall (λ i, i_model i = m) insts →
  let self := get_queryset m OrderedSafeDeleteManager in
  (if truthy_respect_to (order_with_respect_to m) then
     order_with_respect_to ← _get_order_with_respect_to m;
     assign_scoped_orders self order_with_respect_to objs ∅;;
     mret self
   else
     d ← gets db;
     '(start, self) ← run_qs self (get_next_order d);
     assign_orders objs start;;
     mret self) w = (Ok qs', w1) →
  ∃ js, db w1 = db w ∧ at_refs (heap w1) objs js ∧ assigned m (db w) insts js.
Proof.
  intros Hot Hnd Hat Hms self H.
  pose proof Hot as [Hom Hfield].
  destruct (truthy_respect_to (order_with_respect_to m)) eqn:Ht.
  - assert (Hfields : _get_order_with_respect_to m w = (Ok (scope_fields m), w)).
    { unfold _get_order_with_respect_to, scope_fields, respect_to_fields. rewrite Ht.
      by destruct (order_with_respect_to m). }
    erewrite bind_ok in H by exact Hfields.
    apply bind_ok_inv in H as ([] & w2 & Hloop & H).
    unfold mret, M_ret in H. simplify_eq.
    apply (assign_scoped_orders_run m (db w) objs Hot insts) in Hloop
      as (js & Hdb & Hat' & _ & Hall & Hpairs); [|done..].
    exists js. split_and!; [done..|]. split; [|done].
    eapply Forall2_impl; [exact Hall|]. intros i j (Hm & o & -> & Ho).
    rewrite lookup_empty in Ho. split; [done|]. by exists o.
  - erewrite bind_ok in H by reflexivity.
    set (n := match max_of (omap r_order
                       (List.filter (λ r, selects self r && live r) (db w))) with
              | Some order => order + 1
              | None => 0
              end).
    assert (Hn : ∀ i, i_model i = m → next_order i (db w) = n).
    { intros i Hm. unfold next_order, n.
      erewrite List.filter_ext; [reflexivity|].
      intros r. simpl. f_equal. unfold same_scope, scope_fields, selects.
      rewrite Hm, Ht. done. }
    erewrite (bind_ok _ _ _ (n, _)) in H.
    2:{ unfold run_qs, get_next_order, get_max_order.
        erewrite bind_ok.
        2:{ erewrite bind_ok by (by apply fetch_run). reflexivity. }
        reflexivity. }
    apply bind_ok_inv in H as ([] & w2 & Hloop & H).
    unfold mret, M_ret in H. simplify_eq.
    apply (assign_orders_run objs insts) in Hloop
      as (js & Hdb & Hat' & _ & Hall & Hpairs); [|done..].
    exists js. split_and!; [done..|]. split.
    + clear Hat Hat' Hpairs.
      induction Hall as [|i j insts js (o & -> & Ho) Hall IH]; [constructor|].
      apply Forall_cons in Hms as [Hm Hms]. constructor; [|by apply IH].
      split; [done|]. exists o. split; [done|]. by rewrite Hn.
    + clear -Hpairs. induction Hpairs as [|j js Hj Hpairs IH]; constructor; [|done].
      eapply List.Forall_impl; [|exact Hj]. naive_solver.
Qed.

(** Django's insertion appends one row per object, each under a key that
    was not in its table. *)
Lemma QuerySet_bulk_create_run (m : Model) (objs : list nat) :
  ∀ (js : list Instance) (w w' : World),
  NoDup objs →
  at_refs (heap w) objs js →
  Forall (λ j, i_model j = m) js →
  QuerySet_bulk_create objs w = (Ok tt, w') →
  ∃ ks, db w' = db w ++ zip_with to_row ks js
        ∧ length ks = length js
        ∧ Forall (λ k, fresh_key m k (db w)) ks
        ∧ NoDup ks.
Proof.
  unfold QuerySet_bulk_create.
  induction objs as [|obj objs IH]; intros js w w' Hnd Hat Hms H.
  - apply Forall2_nil_inv_l in Hat as ->. cbn in H. unfold mret, M_ret in H. simplify_eq.
    exists []. rewrite app_nil_r. split_and!; [done..|constructor|constructor].
  - apply Forall2_cons_inv_l in Hat as (j & js' & Hj & Hat & ->).
    apply NoDup_cons in Hnd as [Hobj Hnd].
    apply Forall_cons in Hms as [Hm Hms].
    cbn [for_each] in H.
    apply bind_ok_inv in H as ([] & w1 & Hbody & H).
    erewrite bind_ok in Hbody by (by apply getobj_ok).
    erewrite bind_ok in Hbody by reflexivity.
    destruct (existsb _ (db w)) eqn:Hex in Hbody; [done|].
    rewrite Hm in Hex. apply fresh_key_exists in Hex.
    unfold put_db, setobj, modify, mbind, M_bind in Hbody. simpl in Hbody. simplify_eq.
    apply IH with (js := js') in H as (ks & Hdb & Hlen & Hfresh & Hks);
      [|done|by apply at_refs_insert|done].
    simpl in Hdb. rewrite <- app_assoc in Hdb.
    exists (key_of j (db w) :: ks). split_and!.
    + done.
    + simpl. by rewrite Hlen.
    + constructor; [done|].
      eapply Forall_impl; [done|]. intros k Hk r Hr. apply Hk.
      apply elem_of_app. by left.
    + constructor; [|done]. intros Hin.
      apply (proj1 (Forall_forall _ _) Hfresh _ Hin (to_row (key_of j (db w)) j)).
      * apply elem_of_app. right. by left.
      * done.
      * done.
Qed.

(** Two rows written under different keys are in one scope only when the
    instances written are. *)
Lemma scope_key_new_rows (m : Model) (k1 k2 : Z) (j1 j2 : Instance) :
  i_model j1 = m → i_model j2 = m → k1 ≠ k2 →
  scope_key m (to_row k1 j1) = scope_key m (to_row k2 j2) →
  instance_key j1 = instance_key j2.
Proof.
  intros H1 H2 Hne Heq.
  pose proof (scope_key_new_row m k2 j2 (to_row k1 j1) H2 H1 Hne Heq) as Ha.
  pose proof (scope_key_new_row m k1 j1 (to_row k2 j2) H1 H2 (not_eq_sym Hne)
                (eq_sym Heq)) as Hb.
  congruence.
Qed.

Lemma new_rows_apart (m : Model) (ks : list Z) :
  ∀ js : list Instance,
  Forall (λ j, i_model j = m) js →
  NoDup ks →
  ForallOrdPairs (λ j1 j2, instance_key j1 = instance_key j2 → i_order j1 ≠ i_order j2) js →
  orders_unique_live m (zip_with to_row ks js).
Proof.
  induction ks as [|k ks IH]; intros js Hms Hks Hjs; [constructor|].
  destruct js as [|j js]; [constructor|].
  apply Forall_cons in Hms as [Hm Hms]. apply NoDup_cons in Hks as [Hk Hks].
  apply pairs_cons_inv in Hjs as [Hj Hjs].
  simpl. constructor; [|by apply IH].
  apply List.Forall_forall. intros b Hb%list_elem_of_In.
  apply elem_of_zip_with in Hb as (k' & j' & -> & Hk' & Hj').
  intros ((_ & _ & Hsc & Hord) & _ & _).
  assert (Hm' : i_model j' = m) by by apply (proj1 (Forall_forall _ _) Hms).
  apply (proj1 (List.Forall_forall _ _) Hj j'); [by apply list_elem_of_In| |done].
  apply (scope_key_new_rows m k k'); [done..| |done].
  intros ->. done.
Qed.

Lemma bulk_create_preserves (m : Model) (w w' : World) (objs : list nat)
    (insts : list Instance) (qs' : QuerySet) :
  ordered_table m →
  table_typed m (db w) →
  orders_unique_live m (db w) →
  NoDup objs →
  at_refs (heap w) objs insts →
  Forall (λ i, i_model i = m) insts →
  bulk_create (get_queryset m OrderedSafeDeleteManager) objs w = (Ok qs', w') →
  orders_unique_live m (db w').
Proof.
  intros Hot Hty Hinv Hnd Hat Hms H. pose proof Hot as [Hom Hfield].
  unfold bulk_create in H.
  apply bind_ok_inv in H as (self' & w1 & Hassign & H).
  apply bind_ok_inv in H as ([] & w2 & Hinsert & H).
  unfold mret, M_ret in H. simplify_eq.
  apply (bulk_assign_run m w w1 objs insts (λ qs, mret qs)) in Hassign
    as (js & Hdb1 & Hat1 & Hall & Hpairs); [|done..].
  assert (Hmj : Forall (λ j, i_model j = m) js).
  { eapply Forall2_Forall_r; [exact Hall|].
    apply Forall_forall. by intros i _ j (Hm & o & -> & _). }
  apply (QuerySet_bulk_create_run m objs js) in Hinsert
    as (ks & Hdb & Hlen & Hfresh & Hks); [|done..].
  rewrite Hdb, Hdb1.
  apply pairs_app; [done|by apply new_rows_apart|].
  intros a b Ha Hb (Hclash & Hla & _).
  apply elem_of_zip_with in Hb as (k & j & -> & Hk & Hj).
  apply list_elem_of_lookup in Hj as [n Hj].
  destruct (Forall2_lookup_r _ _ _ _ _ Hall Hj) as (i & Hi & Hm & o & -> & Ho).
  apply (new_row_no_clash m (db w) i (set_order (Some o) i) k o a); try done.
  - apply instance_key_set_order. by rewrite Hm.
  - intros x Hx Hs Hl. pose proof (next_order_above i (db w) a x Ha Hs Hl Hx). lia.
  - rewrite <- Hdb1. by apply (proj1 (Forall_forall _ _) Hfresh).
Qed.

(** *** The invariant *)

(** C2, as the code has it. After each completed operation ([save] of a new
    record with the order assigned, [to], [swap], [above], [below], [top],
    [bottom], [delete] under SOFT_DELETE or HARD_DELETE, [bulk_create]) on a
    table whose rows that are not soft-deleted hold distinct orders within
    each scope, the rows that are not soft-deleted still do. *)
Theorem orders_stay_unique_among_live references can_hard_delete (m : Model)
    (w w' : World) (op : Op) :
  ordered_table m →
  table_typed m (db w) →
  NoDup (row_id <$> db w) →
  orders_unique_live m (db w) →
  admissible m w op →
  run_op references can_hard_delete m op w = (Ok tt, w') →
  orders_unique_live m (db w').
Proof.
  intros Hot Hty Hids Hinv Hadm Hrun.
  destruct op as [self kd|self t|self r|self ref|self ref|self|self|self|objs];
    simpl in Hadm, Hrun.
  - destruct Hadm as (i & Hi & Hm & Hk & Ho).
    by apply (save_new_preserves m w w' self i kd).
  - destruct Hadm as (i & Hi). by apply (to_preserves m w w' self i t).
  - destruct Hadm as (s & r' & Hs & Hr & Hos & Hor).
    by apply (swap_preserves m w w' self r s r').
  - destruct Hadm as (i & Hi).
    destruct (above_ends_in_to self ref w w' Hrun) as [->|[t Ht]]; [done|].
    by apply (to_preserves m w w' self i t).
  - destruct Hadm as (i & Hi).
    destruct (below_ends_in_to self ref w w' Hrun) as [->|[t Ht]]; [done|].
    by apply (to_preserves m w w' self i t).
  - destruct Hadm as (i & Hi).
    destruct (top_ends_in_to self w w' Hrun) as [->|[t Ht]]; [done|].
    by apply (to_preserves m w w' self i t).
  - destruct Hadm as (i & Hi).
    destruct (bottom_ends_in_to self w w' Hrun) as [->|[t Ht]]; [done|].
    by apply (to_preserves m w w' self i t).
  - destruct Hadm as ((i & Hi) & Hpol).
    by apply (delete_preserves references can_hard_delete m w w' self i 1%nat).
  - destruct Hadm as (Hnd & insts & Hat & Hms).
    apply bind_ok_inv in Hrun as (qs' & w1 & Hrun & Hret).
    unfold mret, M_ret in Hret. simplify_eq.
    by apply (bulk_create_preserves m w w' objs insts qs').
Qed.


(** The sample board is a table as the invariant expects it. *)
Lemma board_world_ordered (policy : Policy) :
  ordered_table (Samples.Task policy)
  ∧ table_typed (Samples.Task policy) (db (Samples.board_world policy))
  ∧ NoDup (row_id <$> db (Samples.board_world policy))
  ∧ orders_unique_live (Samples.Task policy) (db (Samples.board_world policy)).
Proof.
  split_and!.
  - split; [by repeat split|]. by apply (bool_decide_unpack _).
  - intros r Hr _. simpl in Hr. unfold Samples.board_rows in Hr.
    repeat (apply elem_of_cons in Hr as [->|Hr]; [reflexivity|]).
    by apply not_elem_of_nil in Hr.
  - by apply (bool_decide_unpack _).
  - repeat constructor; intros ((_ & _ & Hk & Ho) & _); vm_compute in Hk, Ho; congruence.
Qed.

Lemma orders_stay_unique_among_live_witness :
  (∃ w', run_op Samples.no_references Samples.always_can (Samples.Task SOFT_DELETE)
           (OpDelete 1) (Samples.board_world SOFT_DELETE) = (Ok tt, w')
         ∧ db w' = [Samples.task SOFT_DELETE 10 1 0 None;
                    Samples.task SOFT_DELETE 11 1 1 (Some 100);
                    Samples.task SOFT_DELETE 12 1 1 None;
                    Samples.task SOFT_DELETE 13 1 2 None;
                    Samples.task SOFT_DELETE 20 2 0 None]
         ∧ orders_unique_live (Samples.Task SOFT_DELETE) (db w'))
  ∧ (∃ w', run_op Samples.no_references Samples.always_can (Samples.Task SOFT_DELETE)
             (OpBulkCreate [3; 4; 5]%nat) (Samples.intake_world SOFT_DELETE) = (Ok tt, w')
           ∧ db w' = Samples.board_rows SOFT_DELETE
                     ++ [Samples.task SOFT_DELETE 21 1 4 None;
                         Samples.task SOFT_DELETE 22 2 1 None;
                         Samples.task SOFT_DELETE 23 1 5 None]
           ∧ orders_unique_live (Samples.Task SOFT_DELETE) (db w')).
Proof.
  destruct (board_world_ordered SOFT_DELETE) as (Hot & Hty & Hids & Hinv).
  split.
  - eexists. split; [vm_compute; reflexivity|]. split; [reflexivity|].
    apply (orders_stay_unique_among_live Samples.no_references Samples.always_can
             (Samples.Task SOFT_DELETE) (Samples.board_world SOFT_DELETE) _ (OpDelete 1));
      [exact Hot | exact Hty | exact Hids | exact Hinv | | reflexivity].
    split; [|by left].
    exists (of_row (Samples.task SOFT_DELETE 11 1 1 None)).
    split_and!; [reflexivity..|].
    exists 11. split; [reflexivity|]. right. left.
  - eexists. split; [vm_compute; reflexivity|]. split; [reflexivity|].
    apply (orders_stay_unique_among_live Samples.no_references Samples.always_can
             (Samples.Task SOFT_DELETE) (Samples.intake_world SOFT_DELETE) _
             (OpBulkCreate [3; 4; 5]%nat));
      [exact Hot | exact Hty | exact Hids | exact Hinv | | reflexivity].
    split; [by apply (bool_decide_unpack _)|].
    exists [Samples.new_task SOFT_DELETE 1; Samples.new_task SOFT_DELETE 2;
            Samples.new_task SOFT_DELETE 1].
    split; by repeat constructor.
Defined.

(** The same call leaves two stored rows of board 1 with the order 1: the
    soft-deleted task 11 and the task 12 that moved down to its place. *)
Lemma soft_delete_keeps_order_counterexample :
  orders_unique_stored (Samples.Task SOFT_DELETE) (db (Samples.board_world SOFT_DELETE))
  ∧ admissible (Samples.Task SOFT_DELETE) (Samples.board_world SOFT_DELETE) (OpDelete 1)
  ∧ ∃ w', run_op Samples.no_references Samples.always_can (Samples.Task SOFT_DELETE)
            (OpDelete 1) (Samples.board_world SOFT_DELETE) = (Ok tt, w')
          ∧ ¬ orders_unique_stored (Samples.Task SOFT_DELETE) (db w').
Proof.
  split_and!.
  - repeat constructor; intros (_ & _ & Hk & Ho); vm_compute in Hk, Ho; congruence.
  - split; [|by left].
    exists (of_row (Samples.task SOFT_DELETE 11 1 1 None)).
    split_and!; [reflexivity..|].
    exists 11. split; [reflexivity|]. right. left.
  - eexists. split; [vm_compute; reflexivity|]. simpl. intros H.
    apply pairs_cons_inv in H as [_ H]. apply pairs_cons_inv in H as [H _].
    apply Forall_cons in H as [H _]. apply H. by repeat split.
Qed.

(** The policies the invariant is not stated for. Under NO_DELETE the
    siblings move down although the record stays, and under
    SOFT_DELETE_CASCADE the nested [self.delete(force_policy=SOFT_DELETE)]
    runs the ordered override again, so the siblings move down twice: in both
    cases two tasks of board 1 that are not soft-deleted end at order 1. *)
Example no_delete_shifts_siblings :
  ∃ w', run_op Samples.no_references Samples.always_can (Samples.Task NO_DELETE)
          (OpDelete 1) (Samples.board_world NO_DELETE) = (Ok tt, w')
        ∧ db w' = [Samples.task NO_DELETE 10 1 0 None;
                   Samples.task NO_DELETE 11 1 1 None;
                   Samples.task NO_DELETE 12 1 1 None;
                   Samples.task NO_DELETE 13 1 2 None;
                   Samples.task NO_DELETE 20 2 0 None]
        ∧ ¬ orders_unique_live (Samples.Task NO_DELETE) (db w').
Proof.
  eexists. split; [vm_compute; reflexivity|]. split; [reflexivity|]. simpl. intros H.
  apply pairs_cons_inv in H as [_ H]. apply pairs_cons_inv in H as [H _].
  apply Forall_cons in H as [H _]. apply H. by repeat split.
Qed.

Example cascade_shifts_siblings_twice :
  ∃ w', run_op Samples.no_references Samples.always_can (Samples.Task SOFT_DELETE_CASCADE)
          (OpDelete 1) (Samples.board_world SOFT_DELETE_CASCADE) = (Ok tt, w')
        ∧ db w' = [Samples.task SOFT_DELETE_CASCADE 10 1 0 None;
                   Samples.task SOFT_DELETE_CASCADE 11 1 1 (Some 100);
                   Samples.task SOFT_DELETE_CASCADE 12 1 1 None;
                   Samples.task SOFT_DELETE_CASCADE 13 1 1 None;
                   Samples.task SOFT_DELETE_CASCADE 20 2 0 None]
        ∧ ¬ orders_unique_live (Samples.Task SOFT_DELETE_CASCADE) (db w').
Proof.
  eexists. split; [vm_compute; reflexivity|]. split; [reflexivity|]. simpl. intros H.
  do 2 apply pairs_cons_inv in H as [_ H]. apply pairs_cons_inv in H as [H _].
  apply Forall_cons in H as [H _]. apply H. by repeat split.
Qed.

End InvariantFacts.

(** ** Looking rows up through a manager *)

Module LookupFacts.
Import Queryset Managers Models Readings.

Lemma filter_unevaluated (m : Model) (vis : Visibility) (field : string)
    (force : option Visibility) (cs kwargs : list Cond) :
  filter kwargs (unevaluated m vis field force cs)
  = (Ok (unevaluated m vis field (forced_by vis field (kwarg_name m <$> kwargs) force)
           (cs ++ kwargs)),
     unevaluated m vis field force cs).
Proof.
  unfold filter. erewrite bind_ok by reflexivity.
  rewrite CloneFacts.clone_carries_state.
  unfold _check_field_filter, QuerySet_filter, forced_by, mbind, M_bind, get_state.
  simpl.
  destruct (bool_decide (vis = DELETED_VISIBLE_BY_FIELD)
            && bool_decide (field ∈ kwarg_name m <$> kwargs)); simpl.
  all: rewrite OrderingFacts.foldl_add_q, CloneFacts.clone_carries_state; reflexivity.
Qed.

Lemma forced_by_app (vis : Visibility) (field : string) (n1 n2 : list string)
    (force : option Visibility) :
  forced_by vis field n2 (forced_by vis field n1 force)
  = forced_by vis field (n1 ++ n2) force.
Proof.
  unfold forced_by. destruct (bool_decide (vis = DELETED_VISIBLE_BY_FIELD)); [|done].
  simpl. rewrite (bool_decide_ext (field ∈ n1 ++ n2) (field ∈ n1 ∨ field ∈ n2))
    by apply elem_of_app.
  destruct (decide (field ∈ n1)) as [H1|H1], (decide (field ∈ n2)) as [H2|H2].
  - by rewrite !bool_decide_eq_true_2 by tauto.
  - rewrite (bool_decide_eq_true_2 (field ∈ n1)), (bool_decide_eq_true_2 (_ ∨ _)) by tauto.
    by destruct (bool_decide (field ∈ n2)).
  - by rewrite (bool_decide_eq_true_2 (field ∈ n2)), (bool_decide_eq_true_2 (_ ∨ _)) by tauto.
  - by rewrite !bool_decide_eq_false_2 by tauto.
Qed.

Lemma filters_unevaluated (m : Model) (vis : Visibility) (field : string)
    (chain : list (list Cond)) :
  ∀ (force : option Visibility) (cs : list Cond),
  outcome_of (filters chain) (unevaluated m vis field force cs)
  = Ok (unevaluated m vis field
          (forced_by vis field (kwarg_name m <$> concat chain) force)
          (cs ++ concat chain)).
Proof.
  induction chain as [|kwargs chain IH]; intros force cs.
  - simpl. rewrite app_nil_r. unfold outcome_of, forced_by. simpl.
    by rewrite andb_false_r.
  - unfold outcome_of. cbn [filters concat].
    erewrite bind_ok by apply filter_unevaluated.
    unfold with_qs. simpl. rewrite IH.
    by rewrite forced_by_app, <- fmap_app, <- app_assoc.
Qed.

Lemma fetch_unevaluated (m : Model) (mgr : Manager) (cs : list Cond) (d : list Row) :
  outcome_of (fetch d)
    (unevaluated m (manager_visibility mgr).1 (manager_visibility mgr).2
       (forced_by (manager_visibility mgr).1 (manager_visibility mgr).2
          (kwarg_name m <$> cs) None) cs)
  = Ok (List.filter (found m mgr cs) d).
Proof.
  assert (Hsel : ∀ (q : QuerySet) (b : option bool),
            model q = m →
            where_ (query q)
            = cs ++ match b with Some b => [DeletedIsNull b] | None => [] end →
            rows_of q d
            = List.filter (λ r, bool_decide (model_name (r_model r) = model_name m)
                                && forallb (λ c, cond_holds c r) cs
                                && match b with
                                   | Some true => live r
                                   | Some false => negb (live r)
                                   | None => true
                                   end) d).
  { intros q b Hq Hw. unfold rows_of. apply List.filter_ext. intros r.
    unfold selects. rewrite Hq, Hw, forallb_app, andb_assoc. f_equal.
    unfold live. destruct b as [[|]|]; simpl; rewrite ?andb_true_r; try done;
      by destruct (bool_decide (r_deleted r = None)). }
  unfold found, forced_by.
  destruct mgr as [|vis field]; simpl.
  - unfold outcome_of, fetch. simpl. by rewrite (Hsel _ None) by (by rewrite ?app_nil_r).
  - destruct vis; simpl.
    + unfold outcome_of, fetch. simpl. by rewrite (Hsel _ (Some true)).
    + destruct (bool_decide (field ∈ kwarg_name m <$> cs)) eqn:Hin; simpl.
      * unfold outcome_of, fetch. simpl.
        by rewrite (Hsel _ None) by (by rewrite ?app_nil_r).
      * unfold outcome_of, fetch. simpl. by rewrite (Hsel _ (Some true)).
    + unfold outcome_of, fetch. simpl. by rewrite (Hsel _ (Some false)).
    + unfold outcome_of, fetch. simpl.
      by rewrite (Hsel _ None) by (by rewrite ?app_nil_r).
Qed.

Lemma manager_queryset (m : Model) (mgr : Manager) :
  get_queryset m mgr
  = unevaluated m (manager_visibility mgr).1 (manager_visibility mgr).2 None [].
Proof. by destruct mgr. Qed.

(** X1. A chain of [filter] calls on the query set of a manager, then
    evaluated, yields the rows of the table that satisfy every condition of
    the chain and that the manager shows: the live ones for [objects], the
    soft-deleted ones for [deleted_objects], all for [all_objects], and for
    a manager in the mode DELETED_VISIBLE_BY_FIELD the live ones unless
    some call of the chain names the visibility field, in which case the
    soft-deleted ones are found too. *)
Theorem filter_chain_finds (m : Model) (mgr : Manager) (chain : list (list Cond))
    (d : list Row) :
  ∃ q, outcome_of (filters chain) (get_queryset m mgr) = Ok q
       ∧ outcome_of (fetch d) q = Ok (List.filter (found m mgr (concat chain)) d).
Proof.
  rewrite manager_queryset, filters_unevaluated.
  eexists. split; [reflexivity|]. apply fetch_unevaluated.
Qed.

(** X2. [get] on the query set of a manager returns the row when exactly
    one row that the manager shows satisfies the conditions, raises
    [DoesNotExist] when none does and [MultipleObjectsReturned] when several
    do; the query set it is called on is left as it was. *)
Theorem get_finds_one (m : Model) (mgr : Manager) (kwargs : list Cond) (d : list Row) :
  get kwargs d (get_queryset m mgr)
  = (match List.filter (found m mgr kwargs) d with
     | [r] => Ok r
     | [] => Raise DoesNotExist
     | _ => Raise MultipleObjectsReturned
     end, get_queryset m mgr).
Proof.
  assert (Hsel : ∀ (q : QuerySet) (b : option bool),
            model q = m →
            where_ (query q)
            = match b with Some b => [DeletedIsNull b] | None => [] end ++ kwargs →
            rows_of q d
            = List.filter (λ r, bool_decide (model_name (r_model r) = model_name m)
                                && forallb (λ c, cond_holds c r) kwargs
                                && match b with
                                   | Some true => live r
                                   | Some false => negb (live r)
                                   | None => true
                                   end) d).
  { intros q b Hq Hw. unfold rows_of. apply List.filter_ext. intros r.
    unfold selects. rewrite Hq, Hw, forallb_app.
    rewrite <- !andb_assoc. f_equal. rewrite andb_comm. f_equal.
    unfold live. destruct b as [[|]|]; simpl; rewrite ?andb_true_r; try done;
      by destruct (bool_decide (r_deleted r = None)). }
  assert (Hout : ∀ rows : list Row,
            (match rows with
             | [r] => mret r
             | [] => raise DoesNotExist
             | _ => raise MultipleObjectsReturned
             end : M QuerySet Row)
            = λ s, (match rows with
                    | [r] => Ok r
                    | [] => Raise DoesNotExist
                    | _ => Raise MultipleObjectsReturned
                    end, s)).
  { by intros [|? [|? ?]]. }
  assert (Hfilter : ∀ q, is_sliced (query q) = false →
            _safedelete_visibility q ≠ DELETED_VISIBLE_BY_FIELD
            ∨ _safedelete_force_visibility q = Some DELETED_VISIBLE
            ∨ _safedelete_visibility_field q ∉ kwarg_name (model q) <$> kwargs →
            filter kwargs q = (Ok (add_conds kwargs q), q)).
  { intros q Hs Hq. unfold filter. erewrite bind_ok by reflexivity.
    rewrite CloneFacts.clone_carries_state.
    unfold _check_field_filter, QuerySet_filter, mbind, M_bind, get_state, can_filter.
    simpl.
    destruct (bool_decide (_safedelete_visibility q = DELETED_VISIBLE_BY_FIELD)
              && bool_decide (_safedelete_visibility_field q ∈ kwarg_name (model q) <$> kwargs))
      eqn:Hb; simpl; rewrite ?Hs; simpl.
    - apply andb_true_iff in Hb as [Hv%bool_decide_eq_true_1 Hf%bool_decide_eq_true_1].
      destruct Hq as [?|[Hq|?]]; [done| |done].
      rewrite OrderingFacts.foldl_add_q, CloneFacts.clone_carries_state.
      destruct q as [? ? ? ? ? ?]. simpl in *. by rewrite Hq.
    - by rewrite OrderingFacts.foldl_add_q, CloneFacts.clone_carries_state. }
  unfold get. erewrite bind_ok by reflexivity.
  rewrite CloneFacts.clone_carries_state.
  unfold with_qs. f_equal. unfold outcome_of, found.
  destruct mgr as [|vis field]; [|destruct vis;
    [|destruct (bool_decide (field ∈ kwarg_name m <$> kwargs)) eqn:Hin|..]].
  all: unfold _check_field_filter, _filter_visibility, mbind, M_bind, get_state; simpl;
       rewrite ?Hin; simpl.
  all: unfold QuerySet_get; erewrite bind_ok;
       [|apply Hfilter; [done|]; simpl].
  all: try (first [by left | by (right; left)
                  | right; right; intros ?; by rewrite bool_decide_eq_true_2 in Hin]).
  all: unfold with_qs, outcome_of, fetch, _filter_visibility, mbind, M_bind, get_state;
       simpl.
  - rewrite (Hsel _ None) by done. rewrite Hout. reflexivity.
  - rewrite (Hsel _ (Some true)) by done. rewrite Hout. reflexivity.
  - rewrite (Hsel _ None) by done. rewrite Hout. reflexivity.
  - rewrite (Hsel _ (Some true)) by done. rewrite Hout. reflexivity.
  - rewrite (Hsel _ (Some false)) by done. rewrite Hout. reflexivity.
  - rewrite (Hsel _ None) by done. rewrite Hout. reflexivity.
Qed.

End LookupFacts.

(** ** Soft delete and undelete, one after the other *)

Module RoundTripFacts.
Import Queryset Managers Models Readings WorldFacts DeletionFacts OrderingFacts
  TerminationFacts InvariantFacts.

(** Writing a stored row over whatever was written under its identity puts
    the table back. *)
Lemma write_row_back (row other : Row) (d : list Row) :
  NoDup (row_id <$> d) → row ∈ d → row_id other = row_id row →
  write_row row (write_row other d) = d.
Proof.
  intros Hids Hrow Hid.
  rewrite (write_row_stored other d row) by done.
  assert (Hsame : ∀ x, same_row (r_model other) (r_pk other) x
                       = same_row (r_model row) (r_pk row) x).
  { intros x. rewrite !same_row_id. unfold row_id in Hid. by rewrite Hid. }
  rewrite (write_row_stored row _ other).
  - rewrite <- list_fmap_compose. rewrite <- (list_fmap_id d) at 2.
    apply list_fmap_ext. intros n x Hx%list_elem_of_lookup_2. simpl.
    rewrite Hsame. destruct (same_row (r_model row) (r_pk row) x) eqn:Hs.
    + rewrite <- Hsame, same_row_id, bool_decide_eq_true_2 by done.
      symmetry. apply (unique_ids d); [done..|].
      rewrite same_row_id in Hs. by apply bool_decide_eq_true_1 in Hs.
    + by rewrite Hs.
  - apply list_elem_of_fmap. exists row. split; [|done].
    by rewrite Hsame, same_row_id, bool_decide_eq_true_2.
  - done.
Qed.

Section RoundTrip.
Variable policy_truthy : Policy → bool.
Variable references : string * Z → string * Z → bool.
Variable can_hard_delete : list Row → Instance → bool.

(** [SafeDeleteModel.delete] on a stored record, then [undelete] on the
    same object: the table is as before the two calls. *)
Lemma soft_delete_undelete_run self_delete (w : World) (self : nat) (i : Instance)
    (k : Z) (fuel : nat) :
  heap w !! self = Some i →
  _safedelete_policy (i_model i) = SOFT_DELETE →
  (ordered (i_model i) = true → is_Some (i_order i)) →
  i_deleted i = None →
  i_pk i = Some k →
  to_row k i ∈ db w →
  NoDup (row_id <$> db w) →
  ∃ w1 w2,
    SafeDeleteModel_delete references can_hard_delete self_delete self None w = (Ok tt, w1)
    ∧ to_row k (set_deleted (Some (clock w)) i) ∈ db w1
    ∧ undelete policy_truthy references (S fuel) self None w1 = (Ok tt, w2)
    ∧ db w2 = db w
    ∧ heap w2 !! self = Some (set_saved (Some k) i).
Proof.
  intros Hi Hp Ho Hd Hk Hrow Hids.
  assert (Hlen : (self < length (heap w))%nat) by (by eapply lookup_lt_Some).
  set (marked := set_deleted (Some (clock w)) i).
  rewrite (soft_delete_run references can_hard_delete self_delete w self None i Hi)
    by done.
  unfold key_of. rewrite Hk. fold marked.
  eexists. eexists. split; [reflexivity|]. simpl. split.
  { rewrite (write_row_stored (to_row k marked) (db w) (to_row k i)) by done.
    apply list_elem_of_fmap. exists (to_row k i). split; [|done].
    by rewrite same_row_id, bool_decide_eq_true_2. }
  set (w1 := {| db := write_row (to_row k marked) (db w) |}).
  assert (H1 : heap w1 !! self = Some (set_saved (Some k) marked)).
  { simpl. by apply list_lookup_insert_eq. }
  erewrite bind_ok by (by apply getobj_ok).
  erewrite bind_ok by reflexivity.
  erewrite bind_ok.
  2:{ rewrite (save_dispatch w1 self _ false H1) by done.
      apply (save_undeleting_run w1 self _ H1). }
  simpl. rewrite Hp. rewrite bool_decide_eq_false_2 by done.
  unfold mret, M_ret. split; [reflexivity|]. simpl. split.
  - change (key_of (set_saved (Some k) marked) _) with k.
    replace (to_row k (set_deleted None (set_saved (Some k) marked))) with (to_row k i)
      by (unfold to_row; simpl; by rewrite Hd).
    by apply write_row_back.
  - rewrite list_insert_insert_eq, list_lookup_insert_eq by done.
    f_equal. unfold set_saved. simpl. by rewrite Hd.
Qed.

(** X3. For a stored record of a class that is not ordered, under the
    policy SOFT_DELETE: [delete] marks its row with the current time, and
    [undelete] on the same object then puts the table back as it was before
    the two calls, the object being the record as stored. *)
Theorem soft_delete_then_undelete_restores (w : World) (self : nat) (i : Instance)
    (k : Z) (fuel fuel' : nat) :
  heap w !! self = Some i →
  ordered (i_model i) = false →
  _safedelete_policy (i_model i) = SOFT_DELETE →
  i_deleted i = None →
  i_pk i = Some k →
  to_row k i ∈ db w →
  NoDup (row_id <$> db w) →
  ∃ w1 w2,
    delete references can_hard_delete (S fuel) self None None w = (Ok tt, w1)
    ∧ to_row k (set_deleted (Some (clock w)) i) ∈ db w1
    ∧ undelete policy_truthy references (S fuel') self None w1 = (Ok tt, w2)
    ∧ db w2 = db w
    ∧ heap w2 !! self = Some (set_saved (Some k) i).
Proof.
  intros Hi Hord Hp Hd Hk Hrow Hids.
  cbn [delete]. erewrite bind_ok by (by apply getobj_ok). rewrite Hord.
  apply soft_delete_undelete_run; try done. by rewrite Hord.
Qed.

(** X4. For a stored record of an ordered class, under SOFT_DELETE:
    [delete] moves the live siblings above the record down by one, and
    [undelete] brings the record back at the order it had without moving
    them up again. After the two calls the table is the one before them
    with those siblings one lower, so the sibling that was next to the
    record now holds the record's order. *)
Theorem undelete_keeps_the_gap_closed (w : World) (self : nat) (i : Instance)
    (k o : Z) (fuel fuel' : nat) :
  heap w !! self = Some i →
  ordered_model (i_model i) →
  _safedelete_policy (i_model i) = SOFT_DELETE →
  i_deleted i = None →
  i_pk i = Some k →
  i_order i = Some o →
  to_row k i ∈ db w →
  NoDup (row_id <$> db w) →
  ∃ w1 w2,
    delete references can_hard_delete (S fuel) self None None w = (Ok tt, w1)
    ∧ undelete policy_truthy references (S fuel') self None w1 = (Ok tt, w2)
    ∧ db w2 = shift_rows i (λ x, o <? x) (-1) (db w)
    ∧ to_row k i ∈ db w2
    ∧ ∀ r, r ∈ db w → same_scope i r = true → live r = true →
           r_order r = Some (o + 1) → with_order (Some o) r ∈ db w2.
Proof.
  intros Hi Hom Hp Hd Hk Ho Hrow Hids.
  rewrite (ordered_delete_dispatch references can_hard_delete w self None fuel i o)
    by done.
  set (shifted := shift_rows i (λ x, o <? x) (-1) (db w)).
  assert (Hin : to_row k i ∈ shifted).
  { apply list_elem_of_fmap. exists (to_row k i). split; [|done].
    unfold shift_row. simpl. rewrite Ho, Z.ltb_irrefl. by rewrite andb_false_r. }
  assert (Hids' : NoDup (row_id <$> shifted)).
  { replace (row_id <$> shifted) with (row_id <$> db w); [done|].
    unfold shifted, shift_rows. rewrite <- list_fmap_compose.
    apply list_fmap_ext. intros n r _. simpl. unfold shift_row.
    destruct (r_order r) as [x|]; [|done].
    by destruct (same_scope i r && live r && (o <? x)). }
  destruct (soft_delete_undelete_run
              (λ obj p, delete references can_hard_delete fuel obj p None)
              (set_db shifted w) self i k fuel') as (w1 & w2 & H1 & _ & H2 & Hdb & _);
    [done|done|by eexists|done|done|done|done|].
  exists w1, w2. split_and!; [done..| |].
  - by rewrite Hdb.
  - intros r Hr Hs Hl Hor. rewrite Hdb. simpl.
    apply list_elem_of_fmap. exists r. split; [|done].
    unfold shift_row. rewrite Hor, Hs, Hl.
    replace (o <? o + 1) with true by (symmetry; apply Z.ltb_lt; lia).
    simpl. do 2 f_equal. lia.
Qed.

(** X5. [undelete], whatever the policy and the relationship graph, only
    ever clears marks: when it completes, every row that was stored is
    still stored under its identity, every row that was live is live, and
    the number of rows marked deleted has not grown. *)
Theorem undelete_only_clears_marks (w w' : World) (self : nat)
    (force_policy : option Policy) (fuel : nat) :
  undelete policy_truthy references fuel self force_policy w = (Ok tt, w') →
  (∀ r, r ∈ db w → ∃ r', r' ∈ db w' ∧ row_id r' = row_id r
                         ∧ (live r = true → live r' = true))
  ∧ (count_deleted (db w') ≤ count_deleted (db w))%nat.
Proof.
  intros H. apply undelete_effect in H as [Hf _]. split.
  - clear -Hf. induction Hf as [new Hnew|r r' d d' Hid Hl Hf IH].
    + by intros r Hr%not_elem_of_nil.
    + intros x [->|Hx]%elem_of_cons.
      * exists r'. split; [by left|done].
      * destruct (IH x Hx) as (x' & Hx' & H'). exists x'. split; [by right|done].
  - by apply fades_count_deleted.
Qed.

End RoundTrip.

Lemma soft_delete_then_undelete_restores_witness :
  ∃ w1 w2,
    delete Samples.no_references Samples.always_can 1 0%nat None None Samples.blog_world
    = (Ok tt, w1)
    ∧ Samples.article 1 7 (Some 100) ∈ db w1
    ∧ undelete Samples.all_truthy Samples.no_references 1 0%nat None w1 = (Ok tt, w2)
    ∧ db w2 = db Samples.blog_world
    ∧ heap w2 !! 0%nat = Some (of_row (Samples.article 1 7 None)).
Proof.
  apply (soft_delete_then_undelete_restores Samples.all_truthy Samples.no_references
           Samples.always_can Samples.blog_world 0%nat
           (of_row (Samples.article 1 7 None)) 1 0 0);
    [reflexivity..| by left | by apply (bool_decide_unpack _)].
Defined.

Lemma undelete_keeps_the_gap_closed_witness :
  ∃ w1 w2,
    delete Samples.no_references Samples.always_can 1 1%nat None None
      (Samples.board_world SOFT_DELETE) = (Ok tt, w1)
    ∧ undelete Samples.all_truthy Samples.no_references 1 1%nat None w1 = (Ok tt, w2)
    ∧ db w2 = [Samples.task SOFT_DELETE 10 1 0 None; Samples.task SOFT_DELETE 11 1 1 None;
               Samples.task SOFT_DELETE 12 1 1 None; Samples.task SOFT_DELETE 13 1 2 None;
               Samples.task SOFT_DELETE 20 2 0 None].
Proof.
  destruct (undelete_keeps_the_gap_closed Samples.all_truthy Samples.no_references
              Samples.always_can (Samples.board_world SOFT_DELETE) 1%nat
              (of_row (Samples.task SOFT_DELETE 11 1 1 None)) 11 1 0 0)
    as (w1 & w2 & H1 & H2 & Hdb & _);
    [reflexivity | by repeat split | reflexivity.. | by (right; left)
    | by apply (bool_decide_unpack _) |].
  exists w1, w2. split_and!; [done..|]. by rewrite Hdb.
Defined.

Lemma undelete_only_clears_marks_witness :
  (∀ r, r ∈ db Samples.deleted_thread →
        ∃ r', r' ∈ [Samples.comment 1 None; Samples.comment 2 None]
              ∧ row_id r' = row_id r ∧ (live r = true → live r' = true))
  ∧ (count_deleted [Samples.comment 1 None; Samples.comment 2 None]
     ≤ count_deleted (db Samples.deleted_thread))%nat.
Proof.
  apply (undelete_only_clears_marks Samples.all_truthy Samples.all_related
           Samples.deleted_thread
           (undelete Samples.all_truthy Samples.all_related 3 0%nat None
              Samples.deleted_thread).2 0%nat None 3).
  vm_compute. reflexivity.
Defined.

End RoundTripFacts.

(** ** What a soft delete never does *)

Module SafetyFacts.
Import Queryset Managers Models Readings WorldFacts DeletionFacts OrderingFacts
  TerminationFacts InvariantFacts.

Lemma kept_refl (w : World) : kept w w.
Proof. split; [done|]. exists []. by rewrite app_nil_r. Qed.

Lemma kept_trans (w1 w2 w3 : World) : kept w1 w2 → kept w2 w3 → kept w1 w3.
Proof.
  intros [Hp (c & Hc & Hf)] [Hp' (c' & Hc' & Hf')]. split; [by etrans|].
  exists (c ++ c'). split; [by rewrite Hc', Hc, app_assoc|by apply Forall_app].
Qed.

Lemma kept_same (w w' : World) : db w' = db w → log w' = log w → kept w w'.
Proof. intros Hd Hl. split; [by rewrite Hd|]. exists []. by rewrite app_nil_r. Qed.

Lemma keeps_ret {A} (a : A) : keeps_rows (mret a).
Proof. intros w. apply kept_refl. Qed.

Lemma keeps_raise {A} (e : Exn) : keeps_rows (raise e : M World A).
Proof. intros w. apply kept_refl. Qed.

Lemma keeps_out_of_fuel {A} : keeps_rows (out_of_fuel : M World A).
Proof. intros w. apply kept_refl. Qed.

Lemma keeps_bind {A B} (m : M World A) (k : A → M World B) :
  keeps_rows m → (∀ a, keeps_rows (k a)) → keeps_rows (m ≫= k).
Proof.
  intros Hm Hk w. unfold mbind, M_bind. specialize (Hm w).
  destruct (m w) as [[a|e|] w']; [|done..].
  eapply kept_trans; [exact Hm|apply Hk].
Qed.

Lemma keeps_stateless {A} (m : M World A) : stateless m → keeps_rows m.
Proof. intros H w. rewrite H. apply kept_refl. Qed.

Lemma keeps_for_each {A} (xs : list A) (body : A → M World unit) :
  (∀ x, keeps_rows (body x)) → keeps_rows (for_each xs body).
Proof.
  intros H. induction xs as [|x xs IH]; [apply keeps_ret|].
  simpl. apply keeps_bind; [apply H|done].
Qed.

Lemma keeps_setobj (ref : nat) (i : Instance) : keeps_rows (setobj ref i).
Proof. intros w. by apply kept_same. Qed.

Lemma keeps_new_objs (objs : list Instance) : keeps_rows (new_objs objs).
Proof. intros w. by apply kept_same. Qed.

Lemma keeps_now : keeps_rows now.
Proof. intros w. by apply kept_same. Qed.

Lemma keeps_send (signal : Signal) (self : nat) : keeps_rows (send signal self).
Proof.
  intros w. unfold send, getobj, mbind, M_bind.
  destruct (heap w !! self) as [i|]; [|apply kept_refl].
  split; [done|]. exists [Sent signal i]. split; [done|]. by repeat constructor.
Qed.

Create HintDb keeps discriminated.
Global Hint Resolve keeps_ret keeps_raise keeps_out_of_fuel keeps_setobj keeps_new_objs
  keeps_now keeps_send : keeps.

Ltac keeps_step :=
  lazymatch goal with
  | |- keeps_rows (_ ≫= _) => apply keeps_bind; [|intros ?]
  | |- keeps_rows (for_each _ _) => apply keeps_for_each; intros ?
  | |- keeps_rows (if ?b then _ else _) => destruct b
  | |- keeps_rows (match ?x with _ => _ end) => destruct x
  | |- keeps_rows _ =>
      first [solve [auto with keeps] | solve [apply keeps_stateless; stateless]]
  end.
Ltac keeps := repeat keeps_step.

(** Writing a row updates it in place or adds it at the end. *)
Lemma write_row_ids (row : Row) (d : list Row) :
  (row_id <$> d) `prefix_of` (row_id <$> write_row row d).
Proof.
  unfold write_row. destruct (existsb _ d).
  - replace (row_id <$> ((λ r, if same_row (r_model row) (r_pk row) r then row else r) <$> d))
      with (row_id <$> d); [done|].
    rewrite <- list_fmap_compose. apply list_fmap_ext. intros n r _. simpl.
    destruct (same_row _ _ r) eqn:Hs; [|done].
    rewrite same_row_id in Hs. by apply bool_decide_eq_true_1 in Hs.
  - rewrite fmap_app. by apply prefix_app_r.
Qed.

Lemma keeps_Model_save (self : nat) : keeps_rows (Model_save self).
Proof.
  intros w. destruct (heap w !! self) as [i|] eqn:Hi.
  - rewrite (Model_save_run w self i Hi). split; [apply write_row_ids|].
    simpl. eexists. split; [done|]. by repeat constructor.
  - unfold Model_save, getobj, mbind, M_bind. rewrite Hi. apply kept_refl.
Qed.
Global Hint Resolve keeps_Model_save : keeps.

Lemma keeps_save (self : nat) (keep_deleted : bool) : keeps_rows (save self keep_deleted).
Proof.
  unfold save, BaseOrderedSafeDeleteModel_save, SafeDeleteModel_save. keeps.
Qed.
Global Hint Resolve keeps_save : keeps.

(** An [update] returns the table with some rows changed in place. *)
Lemma update_ids (delta : Z) (extra : gmap string Z) (d d' : list Row) (q : QuerySet) :
  outcome_of (update delta extra d) q = Ok d' → row_id <$> d' = row_id <$> d.
Proof.
  unfold outcome_of, update. intros H.
  destruct (_filter_visibility q) as [[[]|e|] q1] eqn:Hv;
    unfold mbind, M_bind in H; rewrite Hv in H; [|done..].
  unfold get_state, assert_ in H. simpl in H.
  destruct (can_filter (query q1)); simpl in H; [|done]. simplify_eq.
  rewrite <- list_fmap_compose. apply list_fmap_ext. intros n r _. simpl.
  by destruct (selects q1 r).
Qed.

Lemma keeps_ordered_delete (super_delete : M World unit) (self : nat)
    (extra_update : option (gmap string Z)) :
  keeps_rows super_delete →
  keeps_rows (BaseOrderedSafeDeleteModel_delete super_delete self extra_update).
Proof.
  intros Hs. unfold BaseOrderedSafeDeleteModel_delete.
  keeps_step; [keeps|]. keeps_step; [keeps|]. keeps_step; [keeps|].
  intros w. unfold mbind at 1, M_bind at 1, gets. simpl.
  unfold mbind at 1, M_bind at 1, with_qs at 1.
  destruct (outcome_of (decrease_order (default ∅ extra_update) (db w)) a1)
    as [d'| |] eqn:Hd; simpl; [|apply kept_refl..].
  unfold mbind, M_bind, put_db, modify. simpl.
  eapply kept_trans; [|apply Hs].
  split; [|exists []; by rewrite app_nil_r]. simpl.
  by rewrite (update_ids _ _ _ _ _ Hd).
Qed.

Section SoftDelete.
Variable references : string * Z → string * Z → bool.
Variable can_hard_delete : list Row → Instance → bool.

Lemma keeps_related_objects (self : nat) : keeps_rows (related_objects references self).
Proof. unfold related_objects. keeps. Qed.

(** [SafeDeleteModel.delete] under a soft policy, the nested calls being
    calls that keep the rows when they force a soft policy. *)
Lemma keeps_SafeDeleteModel_delete self_delete (self : nat) (p : Policy) :
  soft p →
  (∀ obj, keeps_rows (self_delete obj (Some SOFT_DELETE))) →
  keeps_rows (SafeDeleteModel_delete references can_hard_delete self_delete self (Some p)).
Proof.
  intros Hp Hself. unfold SafeDeleteModel_delete.
  keeps_step; [keeps|].
  destruct Hp as [->|[->| ->]]; [keeps| |keeps].
  keeps_step; [apply keeps_related_objects|].
  keeps_step; [|apply Hself].
  apply keeps_for_each. intros related. unfold delete_related. keeps.
Qed.

Lemma keeps_delete_forced (fuel : nat) :
  ∀ (self : nat) (p : Policy) (extra_update : option (gmap string Z)),
    soft p →
    keeps_rows (delete references can_hard_delete fuel self (Some p) extra_update).
Proof.
  induction fuel as [|fuel IH]; intros self p extra_update Hp; [apply keeps_out_of_fuel|].
  cbn [delete]. keeps_step; [keeps|].
  assert (Hbase : keeps_rows
            (SafeDeleteModel_delete references can_hard_delete
               (λ obj p, delete references can_hard_delete fuel obj p None) self (Some p))).
  { apply keeps_SafeDeleteModel_delete; [done|]. intros obj. apply IH. by left. }
  destruct (ordered (i_model a)); [by apply keeps_ordered_delete|done].
Qed.

(** Without a forced policy the class of the object decides. *)
Lemma delete_policy_read self_delete (w : World) (self : nat) (i : Instance) :
  heap w !! self = Some i →
  SafeDeleteModel_delete references can_hard_delete self_delete self None w
  = SafeDeleteModel_delete references can_hard_delete self_delete self
      (Some (_safedelete_policy (i_model i))) w.
Proof.
  intros Hi. unfold SafeDeleteModel_delete.
  by rewrite !(bind_ok _ _ _ _ _ (getobj_ok _ _ _ Hi)).
Qed.


End SoftDelete.


End SafetyFacts.

(** ** The bulk operations of the query set *)

Module BulkFacts.
Import Queryset Managers Models Readings WorldFacts DeletionFacts OrderingFacts TerminationFacts
  InvariantFacts.

Lemma filter_none {A} (p : A → bool) (l : list A) :
  (∀ x, x ∈ l → p x = false) → List.filter p l = [].
Proof.
  induction l as [|x l IH]; [done|]. intros H. simpl.
  rewrite (H x) by left. apply IH. intros y Hy. apply H. by right.
Qed.

Lemma filter_ids_NoDup (p : Row → bool) (d : list Row) :
  NoDup (row_id <$> d) → NoDup (row_id <$> List.filter p d).
Proof.
  induction d as [|r d IH]; [done|]. rewrite fmap_cons, NoDup_cons. intros [Hr Hd].
  simpl. destruct (p r); [|by apply IH].
  rewrite fmap_cons. apply NoDup_cons. split; [|by apply IH].
  intros (x & Hid & Hx%list_elem_of_In%filter_In)%list_elem_of_fmap. apply Hr.
  apply list_elem_of_fmap. exists x. split; [done|]. by apply list_elem_of_In, Hx.
Qed.

Lemma rewrite_rows_spec (g : Z → Row → Row) (rs : list Row) :
  (∀ t r, row_id (g t r) = row_id r) →
  ∀ (t0 : Z) (d : list Row),
    NoDup (row_id <$> d) → NoDup (row_id <$> rs) → (∀ r, r ∈ rs → r ∈ d) →
    Forall2 (λ r r', if bool_decide (row_id r ∈ row_id <$> rs)
                     then ∃ t, t0 ≤ t ∧ r' = g t r else r' = r)
      d (rewrite_rows g t0 rs d).
Proof.
  intros Hg. induction rs as [|r rs IH]; intros t0 d Hd Hrs Hin.
  - simpl. apply Forall_Forall2_diag, Forall_forall. by intros x _.
  - cbn [rewrite_rows]. rewrite fmap_cons in Hrs. apply NoDup_cons in Hrs as [Hr Hrs].
    assert (Hrd : r ∈ d) by (apply Hin; left).
    rewrite (write_row_stored (g t0 r) d r) by done.
    set (f := λ x, if same_row (r_model (g t0 r)) (r_pk (g t0 r)) x then g t0 r else x).
    assert (Hids : row_id <$> (f <$> d) = row_id <$> d).
    { rewrite <- list_fmap_compose. apply list_fmap_ext. intros n x _. simpl.
      unfold f. destruct (same_row _ _ x) eqn:Hs; [|done].
      rewrite same_row_id in Hs. by apply bool_decide_eq_true_1 in Hs. }
    specialize (IH (t0 + 1) (f <$> d)).
    rewrite Hids in IH. specialize (IH Hd Hrs).
    assert (Hin' : ∀ x, x ∈ rs → x ∈ f <$> d).
    { intros x Hx. apply list_elem_of_fmap. exists x. split; [|apply Hin; by right].
      unfold f. rewrite same_row_id. rewrite bool_decide_eq_false_2; [done|].
      intros Hid. apply Hr. apply list_elem_of_fmap. exists x. split; [|done].
      rewrite Hid. symmetry. apply Hg. }
    specialize (IH Hin').
    apply Forall2_fmap_l in IH. apply Forall2_same_length_lookup in IH as [Hlen IH].
    apply Forall2_same_length_lookup. split; [done|].
    intros n x y Hx Hy. specialize (IH n x y Hx Hy). simpl in IH.
    apply list_elem_of_lookup_2 in Hx.
    unfold f in IH. rewrite same_row_id in IH. rewrite fmap_cons.
    change (model_name (r_model (g t0 r)), r_pk (g t0 r)) with (row_id (g t0 r)) in IH.
    rewrite Hg in IH.
    destruct (decide (row_id x = row_id r)) as [Hid|Hid].
    + assert (x = r) as -> by (by apply (unique_ids d)).
      rewrite (bool_decide_eq_true_2 (row_id r = row_id r)) in IH by done.
      rewrite Hg in IH.
      rewrite bool_decide_eq_false_2 in IH by done.
      rewrite bool_decide_eq_true_2 by left. exists t0. split; [lia|done].
    + rewrite (bool_decide_eq_false_2 (row_id x = row_id r)) in IH by done.
      destruct (decide (row_id x ∈ row_id <$> rs)) as [Hx'|Hx'].
      * rewrite bool_decide_eq_true_2 in IH by done.
        rewrite bool_decide_eq_true_2 by (by right).
        destruct IH as (t & Ht & ->). exists t. split; [lia|done].
      * rewrite bool_decide_eq_false_2 in IH by done.
        rewrite bool_decide_eq_false_2; [done|].
        by intros [?|?]%elem_of_cons.
Qed.

(** The rows found, each rewritten: the rows that [hit] selects are the
    ones changed. *)
Lemma rewrite_found_rows (g : Z → Row → Row) (hit : Row → bool) (t0 : Z) (d : list Row) :
  (∀ t r, row_id (g t r) = row_id r) →
  NoDup (row_id <$> d) →
  Forall2 (λ r r', if hit r then ∃ t, t0 ≤ t ∧ r' = g t r else r' = r)
    d (rewrite_rows g t0 (List.filter hit d) d).
Proof.
  intros Hg Hids.
  assert (Hrows : ∀ r, r ∈ List.filter hit d ↔ r ∈ d ∧ hit r = true).
  { intros r. by rewrite list_elem_of_In, filter_In, <- list_elem_of_In. }
  pose proof (rewrite_rows_spec g (List.filter hit d) Hg t0 d Hids
                (filter_ids_NoDup hit d Hids)) as Hspec.
  apply Forall2_same_length_lookup.
  apply Forall2_same_length_lookup in Hspec as [Hlen Hspec];
    [|intros r Hr; by apply Hrows].
  split; [done|]. intros n x y Hx Hy. specialize (Hspec n x y Hx Hy).
  apply list_elem_of_lookup_2 in Hx. cbv beta in Hspec.
  destruct (hit x) eqn:Hhit.
  - rewrite bool_decide_eq_true_2 in Hspec; [done|].
    apply list_elem_of_fmap. exists x. split; [done|]. by apply Hrows.
  - rewrite bool_decide_eq_false_2 in Hspec; [done|].
    intros (r & Hid & [Hr Hh]%Hrows)%list_elem_of_fmap.
    assert (x = r) by (by apply (unique_ids d)). congruence.
Qed.

Lemma evaluated_run (b : bool) (qs : QuerySet) (d : list Row) :
  lazy_showing b qs →
  _filter_visibility qs = (Ok tt, evaluated b qs)
  ∧ can_filter (query (evaluated b qs)) = true
  ∧ all None (evaluated b qs) = (Ok (_clone (evaluated b qs)), evaluated b qs)
  ∧ outcome_of (fetch d) (_clone (evaluated b qs))
    = Ok (List.filter (λ r, selects qs r && shows b r) d)
  ∧ outcome_of (fetch d) (evaluated b qs)
    = Ok (List.filter (λ r, selects qs r && shows b r) d)
  ∧ outcome_of (fetch d) qs = Ok (List.filter (λ r, selects qs r && shows b r) d).
Proof.
  intros H.
  assert (H' : _safedelete_visibility qs
               = (if b then DELETED_INVISIBLE else DELETED_ONLY_VISIBLE)
               ∧ _safedelete_force_visibility qs = None
               ∧ _safedelete_filter_applied qs = false
               ∧ is_sliced (query qs) = false) by (by destruct b).
  clear H. destruct H' as (Hv & Hf & Ha & Hs).
  assert (Hrun : _filter_visibility qs = (Ok tt, evaluated b qs)).
  { rewrite VisibilityFacts.filter_visibility_injects; try done.
    - unfold effective_visibility. rewrite Hf, Hv. by destruct b.
    - unfold effective_visibility. rewrite Hf, Hv. by destruct b. }
  assert (Hsel : ∀ q, model q = model qs → query q = query (evaluated b qs) →
            rows_of q d = List.filter (λ r, selects qs r && shows b r) d).
  { intros q Hm Hq. unfold rows_of. apply List.filter_ext. intros r.
    unfold selects. rewrite Hm, Hq. simpl. rewrite forallb_app, andb_assoc. f_equal.
    simpl. unfold shows, live.
    by destruct b, (bool_decide (r_deleted r = None)). }
  split_and!.
  - done.
  - unfold can_filter. simpl. by rewrite Hs.
  - reflexivity.
  - unfold outcome_of, fetch, _filter_visibility, _clone, mbind, M_bind, get_state, gets.
    simpl. rewrite Hf. simpl. f_equal. by apply Hsel.
  - unfold outcome_of, fetch, _filter_visibility, mbind, M_bind, get_state, gets.
    simpl. f_equal. by apply Hsel.
  - unfold outcome_of, fetch. erewrite bind_ok by exact Hrun.
    unfold gets. simpl. f_equal. by apply Hsel.
Qed.

Section Bulk.
Variable policy_truthy : Policy → bool.
Variable references : string * Z → string * Z → bool.
Variable can_hard_delete : list Row → Instance → bool.

(** Both methods, up to the loop: the query set is evaluated and one object
    for each row found enters the heap. *)
Lemma bulk_run (b : bool) (qs : QuerySet) (body : nat → M World unit) (w : World) :
  lazy_showing b qs →
  let rows := List.filter (λ r, selects qs r && shows b r) (db w) in
  ('(_, self) ← run_qs qs _filter_visibility;
   assert_ (can_filter (query self));;
   '(objs, self) ← run_qs self (all None);
   d ← gets db;
   rows ← with_qs objs (fetch d);
   objs ← new_objs (of_row <$> rows);
   for_each objs body;;
   mret self) w
  = (for_each (seq (length (heap w)) (length rows)) body;; mret (evaluated b qs))
      (set_heap (heap w ++ (of_row <$> rows)) w).
Proof.
  intros H rows. destruct (evaluated_run b qs (db w) H) as (Hv & Hc & Hall & Hfetch & _).
  erewrite bind_ok by (unfold run_qs; by rewrite Hv). cbv beta iota.
  rewrite Hc. erewrite bind_ok by reflexivity.
  erewrite bind_ok by (unfold run_qs; by rewrite Hall). cbv beta iota.
  erewrite bind_ok by reflexivity.
  erewrite bind_ok by (unfold with_qs; by rewrite Hfetch).
  erewrite bind_ok by reflexivity.
  by rewrite length_fmap.
Qed.

Lemma bulk_delete_loop (fuel : nat) (force_policy : option Policy) (m : Model)
    (rs : list Row) :
  ordered m = false →
  default (_safedelete_policy m) force_policy = SOFT_DELETE →
  ∀ (base : nat) (w : World),
    Forall (λ r, r_model r = m) rs →
    (∀ j r, rs !! j = Some r → heap w !! (base + j)%nat = Some (of_row r)) →
    ∃ w', for_each (seq base (length rs))
            (λ obj, delete references can_hard_delete (S fuel) obj force_policy None) w
          = (Ok tt, w')
          ∧ db w' = rewrite_rows marked_at (clock w) rs (db w).
Proof.
  intros Hord Hpol. induction rs as [|r rs IH]; intros base w Hm Hheap.
  - eexists. by split.
  - apply Forall_cons in Hm as [Hm Hms].
    assert (Hr : heap w !! base = Some (of_row r)).
    { specialize (Hheap 0%nat r eq_refl). by rewrite Nat.add_0_r in Hheap. }
    cbn [length seq for_each delete].
    erewrite bind_ok.
    2:{ erewrite bind_ok by (by apply getobj_ok). simpl. rewrite Hm, Hord.
        apply (soft_delete_run references can_hard_delete _ w base force_policy (of_row r));
          [done|by simpl; rewrite Hm|]. simpl. rewrite Hm, Hord. done. }
    set (w1 := Build_World _ _ _ _).
    destruct (IH (S base) w1 Hms) as (w' & Hrun & Hdb).
    { intros j x Hx. simpl. rewrite list_lookup_insert_ne by lia.
      specialize (Hheap (S j) x Hx). by rewrite Nat.add_succ_r in Hheap. }
    exists w'. split; [done|]. by rewrite Hdb.
Qed.

(** X7. [delete] and [undelete] of a sliced query set raise AssertionError
    and touch neither the stored rows nor any object, under every mode of
    visibility, whether or not the query set was evaluated before. *)
Theorem bulk_calls_refuse_a_slice (w : World) (qs : QuerySet) (fuel : nat)
    (force_policy : option Policy) :
  is_sliced (query qs) = true →
  SafeDeleteQueryset_delete references can_hard_delete fuel qs force_policy w
  = (Raise AssertionError, w)
  ∧ SafeDeleteQueryset_undelete policy_truthy references fuel qs force_policy w
    = (Raise AssertionError, w).
Proof.
  intros Hs.
  assert (H : (run_qs qs _filter_visibility : M World _) w = (Raise AssertionError, w)
              ∨ (run_qs qs _filter_visibility : M World _) w = (Ok (tt, qs), w)).
  { unfold run_qs, _filter_visibility, mbind, M_bind, get_state, can_filter.
    rewrite Hs. simpl.
    destruct (negb _ && _); [by left|by right]. }
  unfold SafeDeleteQueryset_delete, SafeDeleteQueryset_undelete.
  destruct H as [H|H].
  - by rewrite !(bind_raise _ _ _ _ _ H).
  - rewrite !(bind_ok _ _ _ _ _ H). simpl. unfold can_filter. rewrite Hs. done.
Qed.

Lemma rewrite_rows_const (g : Row → Row) (t t' : Z) (rs : list Row) :
  ∀ d, rewrite_rows (λ _, g) t rs d = rewrite_rows (λ _, g) t' rs d.
Proof.
  revert t t'. induction rs as [|x rs IH]; intros t t' d; [done|]. simpl. apply IH.
Qed.

Lemma bulk_undelete_loop (fuel : nat) (force_policy : option Policy) (m : Model)
    (rs : list Row) :
  match force_policy with
  | Some p => if policy_truthy p then p else _safedelete_policy m
  | None => _safedelete_policy m
  end ≠ SOFT_DELETE_CASCADE →
  ∀ (base : nat) (w : World),
    Forall (λ r, r_model r = m ∧ r_deleted r ≠ None
                 ∧ (ordered m = true → is_Some (r_order r))) rs →
    (∀ j r, rs !! j = Some r → heap w !! (base + j)%nat = Some (of_row r)) →
    ∃ w', for_each (seq base (length rs))
            (λ obj, undelete policy_truthy references (S fuel) obj force_policy) w
          = (Ok tt, w')
          ∧ db w' = rewrite_rows (λ _, restored) (clock w) rs (db w)
          ∧ clock w' = clock w.
Proof.
  intros Hpol. induction rs as [|r rs IH]; intros base w Hm Hheap.
  - eexists. by split.
  - apply Forall_cons in Hm as [(Hm & Hdel & Hord) Hms].
    assert (Hr : heap w !! base = Some (of_row r)).
    { specialize (Hheap 0%nat r eq_refl). by rewrite Nat.add_0_r in Hheap. }
    cbn [length seq for_each undelete].
    erewrite bind_ok.
    2:{ erewrite bind_ok by (by apply getobj_ok). simpl.
        destruct (r_deleted r) as [t|] eqn:Ht; [|done]. simpl.
        erewrite bind_ok by reflexivity.
        erewrite bind_ok.
        2:{ rewrite (save_dispatch w base (of_row r) false Hr) by (by simpl; rewrite Hm).
            apply (save_undeleting_run w base (of_row r) Hr). }
        rewrite Hm. by rewrite bool_decide_eq_false_2. }
    set (w1 := Build_World _ _ _ _).
    destruct (IH (S base) w1 Hms) as (w' & Hrun & Hdb & Hclock).
    { intros j x Hx. simpl. rewrite list_lookup_insert_ne by lia.
      specialize (Hheap (S j) x Hx). by rewrite Nat.add_succ_r in Hheap. }
    exists w'. split; [done|]. split; [|done]. rewrite Hdb. simpl.
    by rewrite (rewrite_rows_const restored (clock w + 1) (clock w)).
Qed.

(** X8. [undelete] of a query set that hides the soft-deleted rows, as the
    default manager and its filters give it, restores nothing: it returns
    when the query set finds no row, and raises AssertionError at the first
    row otherwise; the stored rows and the log stay as they were. *)
Theorem bulk_undelete_of_live_rows_refused (w : World) (qs : QuerySet) (fuel : nat)
    (force_policy : option Policy) :
  lazy_invisible qs →
  ∃ w', SafeDeleteQueryset_undelete policy_truthy references (S fuel) qs force_policy w
        = (match List.filter (λ r, selects qs r && live r) (db w) with
           | [] => Ok (evaluated true qs)
           | _ => Raise AssertionError
           end, w')
        ∧ db w' = db w ∧ log w' = log w.
Proof.
  intros H. unfold SafeDeleteQueryset_undelete. rewrite (bulk_run true _ _ _ H).
  unfold shows.
  destruct (List.filter _ (db w)) as [|r rows] eqn:Hrows.
  - eexists. by split.
  - assert (Hl : r_deleted r = None).
    { assert (Hr : In r (r :: rows)) by (by left). rewrite <- Hrows in Hr.
      apply filter_In in Hr as [_ Hr]. apply andb_true_iff in Hr as [_ Hr].
      by apply bool_decide_eq_true_1 in Hr. }
    cbn [length seq for_each undelete].
    eexists. split.
    + erewrite bind_raise; [done|]. erewrite bind_raise; [done|].
      erewrite bind_ok.
      2:{ apply getobj_ok. simpl. rewrite lookup_app_r by done.
          by rewrite Nat.sub_diag. }
      simpl. rewrite Hl. reflexivity.
    + done.
Qed.

(** The heap after the objects of the rows found were added. *)
Lemma found_objects (w : World) (rows : list Row) :
  ∀ j r, rows !! j = Some r →
         heap (set_heap (heap w ++ (of_row <$> rows)) w) !! (length (heap w) + j)%nat
         = Some (of_row r).
Proof.
  intros j r Hj. simpl. rewrite lookup_app_r by lia.
  replace (length (heap w) + j - length (heap w))%nat with j by lia.
  by rewrite list_lookup_fmap, Hj.
Qed.

(** X9. [delete] of such a query set over a table that is not ordered,
    under SOFT_DELETE: every row that the query set finds is soft-deleted,
    at the time of the call or later, every other row stays as it is and
    none is added or removed; afterwards the query set finds nothing, be it
    the object the call was made on or one built anew. *)
Theorem bulk_soft_delete_marks_the_rows_found (w : World) (qs : QuerySet) (fuel : nat)
    (force_policy : option Policy) :
  lazy_invisible qs →
  ordered (model qs) = false →
  default (_safedelete_policy (model qs)) force_policy = SOFT_DELETE →
  table_typed (model qs) (db w) →
  NoDup (row_id <$> db w) →
  ∃ qs' w',
    SafeDeleteQueryset_delete references can_hard_delete (S fuel) qs force_policy w
    = (Ok qs', w')
    ∧ Forall2 (soft_deleted_since (clock w) (λ r, selects qs r && live r)) (db w) (db w')
    ∧ outcome_of (fetch (db w')) qs' = Ok []
    ∧ outcome_of (fetch (db w')) qs = Ok [].
Proof.
  intros H Hord Hpol Hty Hids. unfold SafeDeleteQueryset_delete.
  rewrite (bulk_run true _ _ _ H). unfold shows.
  set (hit := λ r, selects qs r && live r).
  set (rows := List.filter hit (db w)).
  destruct (bulk_delete_loop fuel force_policy (model qs) rows Hord Hpol
              (length (heap w)) (set_heap (heap w ++ (of_row <$> rows)) w))
    as (w' & Hrun & Hdb); [|apply found_objects|].
  { apply Forall_forall. intros r [Hr Hhit]%list_elem_of_In%filter_In.
    apply Hty; [by apply list_elem_of_In|].
    apply andb_true_iff in Hhit as [Hsel _]. apply andb_true_iff in Hsel as [Hn _].
    by apply bool_decide_eq_true_1 in Hn. }
  erewrite bind_ok by exact Hrun.
  exists (evaluated true qs), w'. split; [done|]. simpl in Hdb.
  assert (Hmarked : Forall2 (soft_deleted_since (clock w) hit) (db w) (db w')).
  { rewrite Hdb. by apply (rewrite_found_rows marked_at hit). }
  split; [done|].
  assert (Hnone : List.filter hit (db w') = []).
  { apply filter_none. intros y Hy.
    apply list_elem_of_lookup_1 in Hy as [n Hy].
    destruct (Forall2_lookup_r _ _ _ _ _ Hmarked Hy) as (x & Hx & Hxy).
    unfold soft_deleted_since in Hxy. destruct (hit x) eqn:Hhit.
    - destruct Hxy as (t & _ & ->). unfold hit, live. simpl. apply andb_false_r.
    - by subst y. }
  destruct (evaluated_run true qs (db w') H) as (_ & _ & _ & _ & Hev & Hnew).
  split; [rewrite Hev|rewrite Hnew]; by f_equal.
Qed.

(** X10. [undelete] of a query set that shows only the soft-deleted rows,
    as the manager [deleted_objects] and its filters give it, under a
    policy other than SOFT_DELETE_CASCADE: every row that the query set
    finds is restored, every other row stays as it is, none is added or
    removed and the clock is not read; afterwards the query set finds
    nothing. In an ordered table the rows found hold an order. *)
Theorem bulk_undelete_restores_the_rows_found (w : World) (qs : QuerySet) (fuel : nat)
    (force_policy : option Policy) :
  lazy_only_deleted qs →
  match force_policy with
  | Some p => if policy_truthy p then p else _safedelete_policy (model qs)
  | None => _safedelete_policy (model qs)
  end ≠ SOFT_DELETE_CASCADE →
  (ordered (model qs) = true → ∀ r, r ∈ db w → is_Some (r_order r)) →
  table_typed (model qs) (db w) →
  NoDup (row_id <$> db w) →
  ∃ qs' w',
    SafeDeleteQueryset_undelete policy_truthy references (S fuel) qs force_policy w
    = (Ok qs', w')
    ∧ Forall2 (restored_where (λ r, selects qs r && negb (live r))) (db w) (db w')
    ∧ clock w' = clock w
    ∧ outcome_of (fetch (db w')) qs' = Ok []
    ∧ outcome_of (fetch (db w')) qs = Ok [].
Proof.
  intros H Hpol Hord Hty Hids. unfold SafeDeleteQueryset_undelete.
  rewrite (bulk_run false _ _ _ H). unfold shows.
  set (hit := λ r, selects qs r && negb (live r)).
  set (rows := List.filter hit (db w)).
  destruct (bulk_undelete_loop fuel force_policy (model qs) rows Hpol
              (length (heap w)) (set_heap (heap w ++ (of_row <$> rows)) w))
    as (w' & Hrun & Hdb & Hclock); [|apply found_objects|].
  { apply Forall_forall. intros r [Hr Hhit]%list_elem_of_In%filter_In.
    apply list_elem_of_In in Hr.
    apply andb_true_iff in Hhit as [Hsel Hl]. apply andb_true_iff in Hsel as [Hn _].
    apply bool_decide_eq_true_1 in Hn. split_and!.
    - by apply Hty.
    - apply negb_true_iff in Hl. by apply bool_decide_eq_false_1 in Hl.
    - intros Ho. by apply Hord. }
  erewrite bind_ok by exact Hrun.
  exists (evaluated false qs), w'. split; [done|]. simpl in Hdb.
  assert (Hrestored : Forall2 (restored_where hit) (db w) (db w')).
  { rewrite Hdb.
    pose proof (rewrite_found_rows (λ _, restored) hit (clock w) (db w)
                  (λ _ _, eq_refl) Hids) as Hspec.
    eapply Forall2_impl; [exact Hspec|]. intros x y Hxy. unfold restored_where.
    cbv beta in Hxy. destruct (hit x); [by destruct Hxy as (t & _ & ->)|done]. }
  split; [done|]. split; [done|].
  assert (Hnone : List.filter hit (db w') = []).
  { apply filter_none. intros y Hy.
    apply list_elem_of_lookup_1 in Hy as [n Hy].
    destruct (Forall2_lookup_r _ _ _ _ _ Hrestored Hy) as (x & Hx & Hxy).
    unfold restored_where in Hxy. destruct (hit x) eqn:Hhit.
    - subst y. unfold hit, live. simpl. apply andb_false_r.
    - by subst y. }
  destruct (evaluated_run false qs (db w') H) as (_ & _ & _ & _ & Hev & Hnew).
  split; [rewrite Hev|rewrite Hnew]; by f_equal.
Qed.

End Bulk.

Lemma objects_lazy_invisible : lazy_invisible (Samples.objects_of Samples.Article).
Proof. by repeat split. Qed.

Lemma bulk_calls_refuse_a_slice_witness :
  SafeDeleteQueryset_delete Samples.no_references Samples.always_can 1
    (Samples.sliced (Samples.objects_of Samples.Article)) None Samples.blog_world
  = (Raise AssertionError, Samples.blog_world)
  ∧ SafeDeleteQueryset_undelete Samples.all_truthy Samples.no_references 1
      (Samples.sliced (Samples.objects_of Samples.Article)) None Samples.blog_world
    = (Raise AssertionError, Samples.blog_world).
Proof. apply bulk_calls_refuse_a_slice. reflexivity. Defined.

Lemma bulk_undelete_of_live_rows_refused_witness :
  ∃ w', SafeDeleteQueryset_undelete Samples.all_truthy Samples.no_references 1
          (Samples.objects_of Samples.Article) None Samples.blog_world
        = (Raise AssertionError, w')
        ∧ db w' = db Samples.blog_world ∧ log w' = log Samples.blog_world.
Proof.
  apply (bulk_undelete_of_live_rows_refused Samples.all_truthy Samples.no_references
           Samples.blog_world (Samples.objects_of Samples.Article) 0 None).
  exact objects_lazy_invisible.
Defined.

Lemma bulk_undelete_restores_the_rows_found_witness :
  ∃ qs' w',
    SafeDeleteQueryset_undelete Samples.all_truthy Samples.no_references 1
      (get_queryset Samples.Article SafeDeleteDeletedManager) None Samples.trash_world
    = (Ok qs', w')
    ∧ Forall2 (restored_where
                 (λ r, selects (get_queryset Samples.Article SafeDeleteDeletedManager) r
                       && negb (live r)))
        [Samples.article 1 7 (Some 50)] (db w')
    ∧ clock w' = 100
    ∧ outcome_of (fetch (db w')) qs' = Ok []
    ∧ outcome_of (fetch (db w')) (get_queryset Samples.Article SafeDeleteDeletedManager)
      = Ok [].
Proof.
  apply (bulk_undelete_restores_the_rows_found Samples.all_truthy Samples.no_references
           Samples.trash_world (get_queryset Samples.Article SafeDeleteDeletedManager)
           0 None).
  - by repeat split.
  - discriminate.
  - discriminate.
  - intros r Hr _. simpl in Hr. apply elem_of_cons in Hr as [->|Hr]; [reflexivity|].
    by apply not_elem_of_nil in Hr.
  - by apply (bool_decide_unpack _).
Defined.

Lemma bulk_soft_delete_marks_the_rows_found_witness :
  ∃ qs' w',
    SafeDeleteQueryset_delete Samples.no_references Samples.always_can 1
      (Samples.objects_of Samples.Article) None Samples.blog_world = (Ok qs', w')
    ∧ Forall2 (soft_deleted_since 100
                 (λ r, selects (Samples.objects_of Samples.Article) r && live r))
        [Samples.article 1 7 None] (db w')
    ∧ outcome_of (fetch (db w')) qs' = Ok []
    ∧ outcome_of (fetch (db w')) (Samples.objects_of Samples.Article) = Ok [].
Proof.
  apply (bulk_soft_delete_marks_the_rows_found Samples.no_references Samples.always_can
           Samples.blog_world (Samples.objects_of Samples.Article) 0 None).
  - exact objects_lazy_invisible.
  - reflexivity.
  - reflexivity.
  - intros r Hr _. simpl in Hr. apply elem_of_cons in Hr as [->|Hr]; [reflexivity|].
    by apply not_elem_of_nil in Hr.
  - by apply (bool_decide_unpack _).
Defined.

End BulkFacts.

(** ** Unique checks: what is skipped, and the record's own row *)

Module UniqueUpdateFacts.
Import Queryset Managers Models Readings WorldFacts UniquenessFacts LookupFacts.

Lemma filter_length_lt {A} (p : A → bool) (l : list A) (x : A) :
  x ∈ l → p x = false → (length (List.filter p l) < length l)%nat.
Proof.
  induction l as [|y l IH]; [by intros ?%not_elem_of_nil|].
  intros Hx Hp. simpl. pose proof (List.filter_length_le p l).
  apply elem_of_cons in Hx as [<-|Hx].
  - rewrite Hp. lia.
  - specialize (IH Hx Hp). destruct (p y); simpl; lia.
Qed.

(** The lookup dictionary holds at most one entry for each field that has a
    value and is not the primary key of a stored record. *)
Lemma lookup_kwargs_size (i : Instance) (unique_check : list string) :
  (size (lookup_kwargs_of i unique_check)
   ≤ length (List.filter
               (λ f, bool_decide (is_Some (inst_get i f))
                     && negb (bool_decide (f = pk_name (i_model i)) && negb (i_adding i)))
               unique_check))%nat.
Proof.
  unfold lookup_kwargs_of.
  assert (H : ∀ acc : gmap string Z,
            (size (foldl (λ lookup_kwargs field_name,
                            match inst_get i field_name with
                            | None => lookup_kwargs
                            | Some lookup_value =>
                                if bool_decide (field_name = pk_name (i_model i))
                                   && negb (i_adding i)
                                then lookup_kwargs
                                else <[field_name := lookup_value]> lookup_kwargs
                            end) acc unique_check)
             ≤ size acc
               + length (List.filter
                           (λ f, bool_decide (is_Some (inst_get i f))
                                 && negb (bool_decide (f = pk_name (i_model i))
                                          && negb (i_adding i)))
                           unique_check))%nat).
  { induction unique_check as [|f fs IH]; intros acc; [simpl; lia|].
    cbn [foldl List.filter]. destruct (inst_get i f) as [v|] eqn:Hv.
    - rewrite (bool_decide_eq_true_2 (is_Some (Some v))) by (by eexists).
      destruct (bool_decide (f = pk_name (i_model i)) && negb (i_adding i)); simpl.
      + apply IH.
      + etrans; [apply IH|]. pose proof (map_size_insert f v acc) as Hs.
        destruct (acc !! f); unfold id in Hs; simpl; lia.
    - rewrite (bool_decide_eq_false_2 (is_Some None)) by (by intros [? ?]).
      simpl. apply IH. }
  specialize (H ∅). by rewrite map_size_empty in H.
Qed.

Lemma incomplete_check_skipped (i : Instance) (d : list Row)
    (errors : gmap string (list UniqueError)) (mc : Model) (unique_check : list string)
    (w : World) :
  incomplete_check i unique_check →
  unique_check_step i d errors (mc, unique_check) w = (Ok errors, w).
Proof.
  intros (f & Hf & Hskip). unfold unique_check_step.
  rewrite bool_decide_eq_true_2; [done|].
  pose proof (lookup_kwargs_size i unique_check) as Hsize.
  pose proof (filter_length_lt
                (λ f, bool_decide (is_Some (inst_get i f))
                      && negb (bool_decide (f = pk_name (i_model i)) && negb (i_adding i)))
                unique_check f Hf) as Hlt.
  cbv beta in Hlt.
  assert ((length (List.filter
                     (λ f, bool_decide (is_Some (inst_get i f))
                           && negb (bool_decide (f = pk_name (i_model i))
                                    && negb (i_adding i)))
                     unique_check) < length unique_check)%nat); [|lia].
  apply Hlt. destruct Hskip as [Hn|[Hpk Ha]].
  - rewrite Hn. rewrite bool_decide_eq_false_2; [done|]. by intros [? ?].
  - rewrite Ha, (bool_decide_eq_true_2 (f = _)) by done. apply andb_false_r.
Qed.

Lemma unique_checks_loop_skip (i : Instance) (d : list Row) (mc : Model)
    (unique_check : list string) (before after : list (Model * list string)) :
  incomplete_check i unique_check →
  ∀ errors w,
    unique_checks_loop i d (before ++ (mc, unique_check) :: after) errors w
    = unique_checks_loop i d (before ++ after) errors w.
Proof.
  intros Hskip. induction before as [|c before IH]; intros errors w.
  - cbn [app unique_checks_loop].
    by erewrite bind_ok by (by apply incomplete_check_skipped).
  - cbn [app unique_checks_loop]. unfold mbind, M_bind.
    destruct (unique_check_step i d errors c w) as [[e| |] w']; [apply IH|done..].
Qed.

(** X11. A unique check is left out when one of its fields is [None] on
    the instance, or is the primary key of an instance that is not being
    added: the call returns what it returns without that check, wherever
    the check stands among the others and whatever the stored rows. *)
Theorem incomplete_unique_check_is_skipped (w : World) (self : nat) (i : Instance)
    (mc : Model) (unique_check : list string) (before after : list (Model * list string)) :
  heap w !! self = Some i →
  incomplete_check i unique_check →
  _perform_unique_checks self (before ++ (mc, unique_check) :: after) w
  = _perform_unique_checks self (before ++ after) w.
Proof.
  intros Hi Hskip. unfold _perform_unique_checks.
  rewrite !(bind_ok _ _ _ _ _ (getobj_ok _ _ _ Hi)).
  unfold mbind, M_bind, gets. by apply unique_checks_loop_skip.
Qed.

Lemma exclude_pk_unevaluated (m : Model) (vis : Visibility) (field : string)
    (force : option Visibility) (cs : list Cond) (k : Z) :
  outcome_of (exclude_pk k) (unevaluated m vis field force cs)
  = Ok (unevaluated m vis field force (cs ++ [ExcludePk k])).
Proof.
  unfold outcome_of, exclude_pk. erewrite bind_ok by reflexivity.
  erewrite bind_ok by reflexivity. by rewrite CloneFacts.clone_carries_state.
Qed.

(** What a query set of a manager fetches after filters on the keywords
    [names] and other steps that added conditions. *)
Lemma fetch_forced (m : Model) (mgr : Manager) (names : list string) (cs : list Cond)
    (d : list Row) :
  outcome_of (fetch d)
    (unevaluated m (manager_visibility mgr).1 (manager_visibility mgr).2
       (forced_by (manager_visibility mgr).1 (manager_visibility mgr).2 names None) cs)
  = Ok (List.filter (λ r, bool_decide (model_name (r_model r) = model_name m)
                          && forallb (λ c, cond_holds c r) cs
                          && shown_by mgr names r) d).
Proof.
  assert (Hsel : ∀ (q : QuerySet) (b : option bool),
            model q = m →
            where_ (query q)
            = cs ++ match b with Some b => [DeletedIsNull b] | None => [] end →
            rows_of q d
            = List.filter (λ r, bool_decide (model_name (r_model r) = model_name m)
                                && forallb (λ c, cond_holds c r) cs
                                && match b with
                                   | Some true => live r
                                   | Some false => negb (live r)
                                   | None => true
                                   end) d).
  { intros q b Hq Hw. unfold rows_of. apply List.filter_ext. intros r.
    unfold selects. rewrite Hq, Hw, forallb_app, andb_assoc. f_equal.
    unfold live. destruct b as [[|]|]; simpl; rewrite ?andb_true_r; try done;
      by destruct (bool_decide (r_deleted r = None)). }
  unfold forced_by.
  destruct mgr as [|vis field]; simpl.
  - unfold outcome_of, fetch. simpl. by rewrite (Hsel _ None) by (by rewrite ?app_nil_r).
  - destruct vis; simpl.
    + unfold outcome_of, fetch. simpl. by rewrite (Hsel _ (Some true)).
    + destruct (bool_decide (field ∈ names)) eqn:Hin; simpl.
      * unfold outcome_of, fetch. simpl.
        by rewrite (Hsel _ None) by (by rewrite ?app_nil_r).
      * unfold outcome_of, fetch. simpl. by rewrite (Hsel _ (Some true)).
    + unfold outcome_of, fetch. simpl. by rewrite (Hsel _ (Some false)).
    + unfold outcome_of, fetch. simpl.
      by rewrite (Hsel _ None) by (by rewrite ?app_nil_r).
Qed.

(** X12. The check of a unique field on a stored record (not being added,
    with its primary key) leaves the record's own row out: it collides
    exactly with the other rows of the class that hold the value and that
    the manager of the check shows, [all_objects] when the class has one,
    soft-deleted rows included. *)
Theorem stored_record_skips_own_row (w : World) (self : nat) (i : Instance)
    (mc : Model) (f : string) (v k : Z) :
  heap w !! self = Some i →
  i_adding i = false →
  i_pk i = Some k →
  f ≠ pk_name (i_model i) →
  inst_get i f = Some v →
  _perform_unique_checks self [(mc, [f])] w
  = (Ok (if existsb (λ r, takes mc f v r
                          && shown_by (default (_default_manager mc) (all_objects mc)) [f] r
                          && negb (r_pk r =? k))
              (db w)
         then unique_error mc f else ∅), w).
Proof.
  intros Hi Ha Hk Hf Hv. unfold _perform_unique_checks.
  erewrite bind_ok by (by apply getobj_ok).
  erewrite bind_ok by reflexivity.
  cbn [unique_checks_loop].
  set (mgr := default (_default_manager mc) (all_objects mc)).
  erewrite bind_ok; [reflexivity|].
  unfold unique_check_step.
  assert (Hkw : lookup_kwargs_of i [f] = {[ f := v ]}).
  { unfold lookup_kwargs_of. simpl. rewrite Hv.
    rewrite (bool_decide_eq_false_2 _ Hf). simpl. apply insert_empty. }
  rewrite Hkw, single_kwargs_conds.
  rewrite map_size_singleton. rewrite bool_decide_eq_false_2 by (simpl; lia).
  erewrite bind_ok.
  2:{ instantiate (1 := w).
      instantiate (1 := unevaluated mc (manager_visibility mgr).1 (manager_visibility mgr).2
                          (forced_by (manager_visibility mgr).1 (manager_visibility mgr).2
                             [f] None) [Exact f (Some v)]).
      unfold mgr.
      destruct (all_objects mc); unfold with_qs, outcome_of; simpl;
        by rewrite manager_queryset, filter_unevaluated. }
  rewrite Hk, Ha. cbn [negb].
  erewrite bind_ok by (unfold with_qs; by rewrite exclude_pk_unevaluated).
  erewrite bind_ok by (unfold with_qs; by rewrite fetch_forced).
  rewrite filter_nonempty.
  erewrite (existsb_pointwise _ (λ r, takes mc f v r && shown_by mgr [f] r
                                      && negb (r_pk r =? k))).
  - destruct (existsb _ (db w)); [|done].
    unfold mret, M_ret. do 2 f_equal.
  - intros r. unfold takes. simpl. rewrite !andb_true_r.
    destruct (bool_decide (model_name (r_model r) = model_name mc)),
      (bool_decide (row_get r f = Some v)), (negb (r_pk r =? k)),
      (shown_by mgr [f] r); done.
Qed.

Lemma incomplete_unique_check_is_skipped_witness :
  _perform_unique_checks 0 [(Samples.Article, ["slug"; "subtitle"])]
    Samples.slug_taken_world
  = _perform_unique_checks 0 [] Samples.slug_taken_world.
Proof.
  apply (incomplete_unique_check_is_skipped Samples.slug_taken_world 0 Samples.new_article
           Samples.Article ["slug"; "subtitle"] [] []); [reflexivity|].
  exists "subtitle". split; [by apply (bool_decide_unpack _)|]. left. reflexivity.
Defined.

Lemma stored_record_skips_own_row_witness :
  _perform_unique_checks 0 [(Samples.Article, ["slug"])] Samples.trash_world
  = (Ok ∅, Samples.trash_world).
Proof.
  apply (stored_record_skips_own_row Samples.trash_world 0
           (of_row (Samples.article 1 7 (Some 50))) Samples.Article "slug" 7 1);
    [reflexivity|reflexivity|reflexivity|discriminate|reflexivity].
Defined.

End UniqueUpdateFacts.

(** ** [top] and [bottom] *)

Module ExtremeFacts.
Import Queryset Managers Models Readings WorldFacts OrderingFacts TerminationFacts
  InvariantFacts.

Lemma min_of_spec (l : list Z) (x : Z) :
  x ∈ l → ∃ m, min_of l = Some m ∧ m ∈ l ∧ ∀ y, y ∈ l → m ≤ y.
Proof.
  revert x. induction l as [|a l IH]; intros x Hx; [by apply not_elem_of_nil in Hx|].
  simpl. destruct l as [|b l].
  - exists a. split; [done|]. split; [left|]. intros y Hy.
    apply elem_of_cons in Hy as [->|Hy]; [lia|by apply not_elem_of_nil in Hy].
  - destruct (IH b) as (m & Hm & Hin & Hle); [left|]. rewrite Hm.
    exists (Z.min a m). split; [done|]. split.
    + destruct (Z.min_spec a m) as [[_ ->]|[_ ->]]; [left|by right].
    + intros y Hy. apply elem_of_cons in Hy as [->|Hy]; [lia|].
      specialize (Hle y Hy). lia.
Qed.

Lemma max_of_spec (l : list Z) (x : Z) :
  x ∈ l → ∃ m, max_of l = Some m ∧ m ∈ l ∧ ∀ y, y ∈ l → y ≤ m.
Proof.
  revert x. induction l as [|a l IH]; intros x Hx; [by apply not_elem_of_nil in Hx|].
  simpl. destruct l as [|b l].
  - exists a. split; [done|]. split; [left|]. intros y Hy.
    apply elem_of_cons in Hy as [->|Hy]; [lia|by apply not_elem_of_nil in Hy].
  - destruct (IH b) as (m & Hm & Hin & Hle); [left|]. rewrite Hm.
    exists (Z.max a m). split; [done|]. split.
    + destruct (Z.max_spec a m) as [[_ ->]|[_ ->]]; [by right|left].
    + intros y Hy. apply elem_of_cons in Hy as [->|Hy]; [lia|].
      specialize (Hle y Hy). lia.
Qed.

Lemma elem_of_live_orders (i : Instance) (d : list Row) (x : Z) :
  x ∈ live_orders i d
  ↔ ∃ r, r ∈ d ∧ same_scope i r = true ∧ live r = true ∧ r_order r = Some x.
Proof.
  unfold live_orders. rewrite list_elem_of_omap. split.
  - intros (r & [Hr Hs]%list_elem_of_In%filter_In & Ho).
    apply andb_true_iff in Hs as [Hs Hl]. exists r. by rewrite list_elem_of_In.
  - intros (r & Hr & Hs & Hl & Ho). exists r. split; [|done].
    apply list_elem_of_In, filter_In. split; [by apply list_elem_of_In|].
    by rewrite Hs, Hl.
Qed.

Lemma get_min_order_run (i : Instance) (d : list Row) :
  outcome_of (get_min_order d) (ordering_qs i) = Ok (min_of (live_orders i d)).
Proof.
  unfold outcome_of, get_min_order.
  erewrite bind_ok by apply fetch_run, lazy_invisible_ordering_qs.
  simpl. unfold live_orders. do 3 f_equal.
  apply List.filter_ext. intros r. by rewrite selects_ordering_qs.
Qed.

Lemma get_max_order_run (i : Instance) (d : list Row) :
  outcome_of (get_max_order d) (ordering_qs i) = Ok (max_of (live_orders i d)).
Proof.
  unfold outcome_of, get_max_order.
  erewrite bind_ok by apply fetch_run, lazy_invisible_ordering_qs.
  simpl. unfold live_orders. do 3 f_equal.
  apply List.filter_ext. intros r. by rewrite selects_ordering_qs.
Qed.

Lemma top_run (w : World) (self : nat) (i : Instance) :
  heap w !! self = Some i →
  ordered_model (i_model i) →
  top self None w = to self (py_of_order (min_of (live_orders i (db w)))) None w.
Proof.
  intros Hi Hm. unfold top.
  erewrite bind_ok by (by apply getobj_ok).
  erewrite bind_ok by (by apply get_ordering_queryset_run).
  erewrite bind_ok by reflexivity.
  by erewrite bind_ok by (unfold with_qs; by rewrite get_min_order_run).
Qed.

Lemma bottom_run (w : World) (self : nat) (i : Instance) :
  heap w !! self = Some i →
  ordered_model (i_model i) →
  bottom self None w = to self (py_of_order (max_of (live_orders i (db w)))) None w.
Proof.
  intros Hi Hm. unfold bottom.
  erewrite bind_ok by (by apply getobj_ok).
  erewrite bind_ok by (by apply get_ordering_queryset_run).
  erewrite bind_ok by reflexivity.
  by erewrite bind_ok by (unfold with_qs; by rewrite get_max_order_run).
Qed.

Lemma elem_of_write_row (row r : Row) (d : list Row) :
  r ∈ write_row row d → r = row ∨ r ∈ d.
Proof.
  unfold write_row. destruct (existsb _ d).
  - intros (x & -> & Hx)%list_elem_of_fmap.
    destruct (same_row _ _ x); [by left|by right].
  - intros [?|Hr%list_elem_of_singleton]%elem_of_app; [by right|by left].
Qed.

Lemma write_row_elem (row : Row) (d : list Row) : row ∈ write_row row d.
Proof.
  unfold write_row. destruct (existsb _ d) eqn:He.
  - apply existsb_exists in He as (x & Hx%list_elem_of_In & Hs).
    apply list_elem_of_fmap. exists x. by rewrite Hs.
  - apply elem_of_app. right. by apply list_elem_of_singleton.
Qed.

(** A live sibling found after a shift was one before it. *)
Lemma sibling_before_shift (i : Instance) (range : Z → bool) (delta : Z) (d : list Row)
    (r : Row) (x : Z) :
  ordered_table (i_model i) →
  table_typed (i_model i) d →
  r ∈ d →
  same_scope i (shift_row i range delta r) = true →
  live (shift_row i range delta r) = true →
  r_order (shift_row i range delta r) = Some x →
  ∃ x0, x0 ∈ live_orders i d ∧ x = if range x0 then x0 + delta else x0.
Proof.
  intros [_ Hfield] Hty Hr Hs Hl Ho.
  destruct (shift_row_moves (i_model i) i range delta r Hfield) as (Hid & Hlive & Hkey & Hord).
  apply same_scope_key in Hs as [Hname Hsk].
  assert (Hn : model_name (r_model r) = model_name (i_model i)).
  { unfold row_id in Hid. congruence. }
  assert (Hsame : same_scope i r = true).
  { apply same_scope_key. split; [done|]. rewrite <- Hkey; [done|]. by apply Hty. }
  rewrite Hlive in Hl. rewrite Hord, Hsame, Hl in Ho. simpl in Ho.
  destruct (r_order r) as [x0|] eqn:Hx0; [|done]. simpl in Ho.
  exists x0. split; [|congruence].
  apply elem_of_live_orders. by exists r.
Qed.

(** The row of the record after [to] has saved it at [t]. *)
Lemma moved_row (i : Instance) (k t : Z) :
  i_deleted i = None →
  to_row k (set_deleted None (set_order (Some t) i)) = with_order (Some t) (to_row k i).
Proof. intros Hl. unfold to_row, with_order. simpl. by rewrite Hl. Qed.



(** X15. [top] and [bottom] on a record none of whose live siblings holds
    an order (for one, a record not stored yet in a scope that is empty)
    raise TypeError, and the world stays as it is: the aggregate is [None]
    and [to] refuses it. *)
Theorem top_and_bottom_need_an_order (w : World) (self : nat) (i : Instance) :
  heap w !! self = Some i →
  ordered_model (i_model i) →
  live_orders i (db w) = [] →
  top self None w = (Raise TypeError, w)
  ∧ bottom self None w = (Raise TypeError, w).
Proof.
  intros Hi Hom Hnone.
  by rewrite (top_run w self i Hi Hom), (bottom_run w self i Hi Hom), Hnone.
Qed.

Lemma board_task_13 :
  heap (Samples.board_world SOFT_DELETE) !! 0%nat
  = Some (of_row (Samples.task SOFT_DELETE 13 1 3 None))
  ∧ ordered_table (Samples.Task SOFT_DELETE)
  ∧ table_typed (Samples.Task SOFT_DELETE) (db (Samples.board_world SOFT_DELETE)).
Proof.
  destruct (board_world_ordered SOFT_DELETE) as (Hot & Hty & _). by split_and!.
Qed.



Lemma top_and_bottom_need_an_order_witness :
  let w := set_heap [Samples.new_task SOFT_DELETE 3] (Samples.board_world SOFT_DELETE) in
  top 0 None w = (Raise TypeError, w) ∧ bottom 0 None w = (Raise TypeError, w).
Proof.
  apply (top_and_bottom_need_an_order
           (set_heap [Samples.new_task SOFT_DELETE 3] (Samples.board_world SOFT_DELETE)) 0
           (Samples.new_task SOFT_DELETE 3)); [reflexivity|by repeat split|].
  vm_compute. reflexivity.
Defined.

End ExtremeFacts.

(** ** [previous], [next], [up] and [down] *)

Module StepFacts.
Import Queryset Managers Models Readings WorldFacts OrderingFacts TerminationFacts
  InvariantFacts ExtremeFacts.

Lemma greatest_spec (rows : list Row) :
  match greatest rows with
  | Some r => r ∈ rows ∧ ∀ r', r' ∈ rows → order_before (r_order r') (r_order r) = true
  | None => rows = []
  end.
Proof.
  induction rows as [|a rows IH]; [done|]. simpl.
  assert (Hrefl : ∀ o, order_before o o = true).
  { intros [x|]; [|done]. simpl. lia. }
  assert (Htrans : ∀ o1 o2 o3, order_before o1 o2 = true → order_before o2 o3 = true →
                               order_before o1 o3 = true).
  { intros [x|] [y|] [z|]; simpl; try done; lia. }
  assert (Htotal : ∀ o1 o2, order_before o1 o2 = false → order_before o2 o1 = true).
  { intros [x|] [y|]; simpl; try done; lia. }
  destruct (greatest rows) as [r|].
  - destruct IH as [Hr Hle]. destruct (order_before (r_order r) (r_order a)) eqn:Hb.
    + split; [left|]. intros r' [->|Hr']%elem_of_cons; [apply Hrefl|].
      eapply Htrans; [by apply Hle|done].
    + split; [by right|]. intros r' [->|Hr']%elem_of_cons; [by apply Htotal|by apply Hle].
  - subst rows. split; [left|]. intros r' [->|Hr']%elem_of_cons; [apply Hrefl|].
    by apply not_elem_of_nil in Hr'.
Qed.

Lemma least_spec (rows : list Row) :
  match least rows with
  | Some r => r ∈ rows ∧ ∀ r', r' ∈ rows → order_before (r_order r) (r_order r') = true
  | None => rows = []
  end.
Proof.
  induction rows as [|a rows IH]; [done|]. simpl.
  assert (Hrefl : ∀ o, order_before o o = true).
  { intros [x|]; [|done]. simpl. lia. }
  assert (Htrans : ∀ o1 o2 o3, order_before o1 o2 = true → order_before o2 o3 = true →
                               order_before o1 o3 = true).
  { intros [x|] [y|] [z|]; simpl; try done; lia. }
  assert (Htotal : ∀ o1 o2, order_before o1 o2 = false → order_before o2 o1 = true).
  { intros [x|] [y|]; simpl; try done; lia. }
  destruct (least rows) as [r|].
  - destruct IH as [Hr Hle]. destruct (order_before (r_order a) (r_order r)) eqn:Hb.
    + split; [left|]. intros r' [->|Hr']%elem_of_cons; [apply Hrefl|].
      eapply Htrans; [done|by apply Hle].
    + split; [by right|]. intros r' [->|Hr']%elem_of_cons; [by apply Htotal|by apply Hle].
  - subst rows. split; [left|]. intros r' [->|Hr']%elem_of_cons; [apply Hrefl|].
    by apply not_elem_of_nil in Hr'.
Qed.

Lemma elem_of_siblings_in (i : Instance) (range : Z → bool) (d : list Row) (r : Row) :
  r ∈ siblings_in i range d
  ↔ r ∈ d ∧ ∃ x, r_order r = Some x ∧ same_scope i r = true ∧ live r = true
                 ∧ range x = true.
Proof.
  unfold siblings_in. rewrite list_elem_of_In, filter_In, <- list_elem_of_In.
  apply and_iff_compat_l. destruct (r_order r) as [x|]; split.
  - intros [[Hs Hl]%andb_true_iff Hx]%andb_true_iff. by exists x.
  - intros (? & [= <-] & Hs & Hl & Hx). by rewrite Hs, Hl, Hx.
  - done.
  - by intros (? & ? & _).
Qed.

(** What the query set of [previous] or [next] fetches. *)
Lemma fetch_siblings (i : Instance) (op : CmpOp) (s : Z) (d : list Row) :
  outcome_of (fetch d) (add_conds [OrderCmp op s] (ordering_qs i))
  = Ok (siblings_in i (λ x, cmp_holds op x s) d).
Proof.
  unfold outcome_of.
  rewrite fetch_run by apply lazy_invisible_add_conds, lazy_invisible_ordering_qs.
  simpl. f_equal. unfold siblings_in. apply List.filter_ext. intros r.
  etrans; [exact (selects_order_range i (op, s) [] r)|].
  destruct (r_order r); [|done]. simpl. by rewrite andb_true_r.
Qed.

Lemma previous_run (w : World) (self : nat) (i : Instance) (s : Z) :
  heap w !! self = Some i →
  ordered_model (i_model i) →
  i_order i = Some s →
  previous self w = load (neighbour true i s (db w)) w.
Proof.
  intros Hi Hm Ho. unfold previous.
  erewrite bind_ok by (by apply getobj_ok).
  erewrite bind_ok by (by apply get_ordering_queryset_run).
  erewrite bind_ok.
  2:{ unfold with_qs, outcome_of, below_instance. rewrite Ho.
      rewrite below_run by apply lazy_invisible_ordering_qs. reflexivity. }
  erewrite bind_ok by reflexivity.
  erewrite bind_ok; [reflexivity|].
  unfold with_qs, outcome_of, QuerySet_last.
  pose proof (fetch_siblings i Lt s (db w)) as Hf. unfold outcome_of in Hf.
  destruct (fetch (db w) _) as [o q] eqn:Hq. simpl in Hf. subst o.
  unfold mbind, M_bind. by rewrite Hq.
Qed.

Lemma next_run (w : World) (self : nat) (i : Instance) (s : Z) :
  heap w !! self = Some i →
  ordered_model (i_model i) →
  i_order i = Some s →
  next self w = load (neighbour false i s (db w)) w.
Proof.
  intros Hi Hm Ho. unfold next.
  erewrite bind_ok by (by apply getobj_ok).
  erewrite bind_ok by (by apply get_ordering_queryset_run).
  erewrite bind_ok.
  2:{ unfold with_qs, outcome_of, above_instance. rewrite Ho.
      rewrite above_run by apply lazy_invisible_ordering_qs. reflexivity. }
  erewrite bind_ok by reflexivity.
  erewrite bind_ok; [reflexivity|].
  unfold with_qs, outcome_of, QuerySet_first.
  pose proof (fetch_siblings i Gt s (db w)) as Hf. unfold outcome_of in Hf.
  destruct (fetch (db w) _) as [o q] eqn:Hq. simpl in Hf. subst o.
  unfold mbind, M_bind. by rewrite Hq.
Qed.

(** [up] and [down] are one [swap] with the neighbour, loaded into a new
    object, or nothing. *)
Lemma step_run (towards_top : bool) (w : World) (self : nat) (i : Instance) (s : Z) :
  heap w !! self = Some i →
  ordered_model (i_model i) →
  i_order i = Some s →
  (if towards_top then up self else down self) w
  = match neighbour towards_top i s (db w) with
    | Some r => swap self (length (heap w)) (set_heap (heap w ++ [of_row r]) w)
    | None => (Ok tt, w)
    end.
Proof.
  intros Hi Hm Ho. destruct towards_top.
  - unfold up. unfold mbind at 1, M_bind at 1. rewrite (previous_run w self i s) by done.
    by destruct (neighbour true i s (db w)).
  - unfold down. unfold mbind at 1, M_bind at 1. rewrite (next_run w self i s) by done.
    by destruct (neighbour false i s (db w)).
Qed.

Lemma neighbour_spec (towards_top : bool) (i : Instance) (s : Z) (d : list Row) :
  match neighbour towards_top i s d with
  | Some r =>
      r ∈ d ∧ same_scope i r = true ∧ live r = true
      ∧ ∃ q, r_order r = Some q
             ∧ (if towards_top then q < s else s < q)
             ∧ ∀ x, x ∈ live_orders i d →
                    if towards_top then x < s → x ≤ q else s < x → q ≤ x
  | None =>
      ∀ x, x ∈ live_orders i d → if towards_top then s ≤ x else x ≤ s
  end.
Proof.
  unfold neighbour. destruct towards_top.
  - pose proof (greatest_spec (siblings_in i (λ x, x <? s) d)) as H.
    destruct (greatest _) as [r|].
    + destruct H as [(Hr & q & Hq & Hs & Hl & Hlt)%elem_of_siblings_in Hmax].
      split_and!; [done..|]. exists q. split_and!; [done|lia|].
      intros x (r' & Hr' & Hs' & Hl' & Hx)%elem_of_live_orders Hxs.
      specialize (Hmax r'). rewrite Hx, Hq in Hmax. simpl in Hmax.
      assert ((x <=? q) = true); [|lia]. apply Hmax.
      apply elem_of_siblings_in. split; [done|]. exists x. split_and!; [done..|lia].
    + intros x (r' & Hr' & Hs' & Hl' & Hx)%elem_of_live_orders.
      destruct (decide (s ≤ x)) as [|Hn]; [done|]. exfalso.
      assert (Hin : r' ∈ siblings_in i (λ x, x <? s) d).
      { apply elem_of_siblings_in. split; [done|]. exists x. split_and!; [done..|lia]. }
      rewrite H in Hin. by apply not_elem_of_nil in Hin.
  - pose proof (least_spec (siblings_in i (λ x, s <? x) d)) as H.
    destruct (least _) as [r|].
    + destruct H as [(Hr & q & Hq & Hs & Hl & Hlt)%elem_of_siblings_in Hmin].
      split_and!; [done..|]. exists q. split_and!; [done|lia|].
      intros x (r' & Hr' & Hs' & Hl' & Hx)%elem_of_live_orders Hxs.
      specialize (Hmin r'). rewrite Hx, Hq in Hmin. simpl in Hmin.
      assert ((q <=? x) = true); [|lia]. apply Hmin.
      apply elem_of_siblings_in. split; [done|]. exists x. split_and!; [done..|lia].
    + intros x (r' & Hr' & Hs' & Hl' & Hx)%elem_of_live_orders.
      destruct (decide (x ≤ s)) as [|Hn]; [done|]. exfalso.
      assert (Hin : r' ∈ siblings_in i (λ x, s <? x) d).
      { apply elem_of_siblings_in. split; [done|]. exists x. split_and!; [done..|lia]. }
      rewrite H in Hin. by apply not_elem_of_nil in Hin.
Qed.

Lemma neighbour_none (towards_top : bool) (i : Instance) (s : Z) (d : list Row) :
  (∀ x, x ∈ live_orders i d → if towards_top then s ≤ x else x ≤ s) →
  neighbour towards_top i s d = None.
Proof.
  intros H. pose proof (neighbour_spec towards_top i s d) as Hn.
  destruct (neighbour towards_top i s d) as [r|]; [|done]. exfalso.
  destruct Hn as (Hr & Hs & Hl & q & Hq & Hlt & _).
  assert (Hin : q ∈ live_orders i d) by (apply elem_of_live_orders; by exists r).
  specialize (H q Hin). destruct towards_top; lia.
Qed.

(** X16. [up] on a record with no live sibling of smaller order, and
    [down] on one with no live sibling of greater order, return and leave
    the world as it is: no object is loaded and nothing is saved. *)
Theorem step_at_the_end_changes_nothing (w : World) (self : nat) (i : Instance) (s : Z) :
  heap w !! self = Some i →
  ordered_model (i_model i) →
  i_order i = Some s →
  ((∀ x, x ∈ live_orders i (db w) → s ≤ x) → up self w = (Ok tt, w))
  ∧ ((∀ x, x ∈ live_orders i (db w) → x ≤ s) → down self w = (Ok tt, w)).
Proof.
  intros Hi Hm Ho. split; intros H.
  - rewrite (step_run true w self i s Hi Hm Ho).
    by rewrite (neighbour_none true i s (db w)).
  - rewrite (step_run false w self i s Hi Hm Ho).
    by rewrite (neighbour_none false i s (db w)).
Qed.

(** *** The exchange *)

Lemma validate_passes (w : World) (self ref : nat) (s r : Instance) :
  heap w !! self = Some s →
  heap w !! ref = Some r →
  i_model r = i_model s →
  (∀ f, f ∈ respect_to_fields (i_model s) → inst_get r f = inst_get s f) →
  _validate_ordering_reference self ref w = (Ok tt, w).
Proof.
  intros Hs Hr Hm Hf. unfold _validate_ordering_reference.
  erewrite bind_ok by (by apply getobj_ok).
  erewrite bind_ok by (by apply getobj_ok).
  destruct (is_none_respect_to (order_with_respect_to (i_model s))) eqn:Hn; [done|].
  simpl.
  assert (Hne : order_with_respect_to (i_model s) ≠ WrtNone).
  { intros E. by rewrite E in Hn. }
  erewrite bind_ok by (by apply RefusalFacts.respect_to_kwargs_run).
  erewrite bind_ok by (apply RefusalFacts.respect_to_kwargs_run; by rewrite Hm).
  rewrite bool_decide_eq_false_2; [done|]. intros Hd. apply Hd.
  unfold respect_to_values. rewrite Hm. f_equal.
  apply list_fmap_ext. intros n f Hin%list_elem_of_lookup_2. by rewrite Hf.
Qed.

Lemma swap_run (w : World) (self replacement : nat) (s r : Instance) (ks kr a b : Z) :
  heap w !! self = Some s →
  heap w !! replacement = Some r →
  self ≠ replacement →
  _validate_ordering_reference self replacement w = (Ok tt, w) →
  i_pk s = Some ks → i_pk r = Some kr →
  i_order s = Some a → i_order r = Some b →
  ∃ w', swap self replacement w = (Ok tt, w')
        ∧ db w' = write_row (to_row kr (set_deleted None (set_order (Some a) r)))
                    (write_row (to_row ks (set_deleted None (set_order (Some b) s))) (db w))
        ∧ heap w' !! self
          = Some (set_saved (Some ks) (set_deleted None (set_order (Some b) s)))
        ∧ heap w' !! replacement
          = Some (set_saved (Some kr) (set_deleted None (set_order (Some a) r))).
Proof.
  intros Hs Hr Hne Hv Hks Hkr Ha Hb. unfold swap.
  erewrite bind_ok by exact Hv.
  erewrite bind_ok by (by apply getobj_ok).
  erewrite bind_ok by (by apply getobj_ok).
  rewrite Ha, Hb.
  erewrite bind_ok by reflexivity.
  set (w1 := set_heap _ w).
  assert (Hlen : (self < length (heap w))%nat) by (by eapply lookup_lt_Some).
  assert (Hlen' : (replacement < length (heap w))%nat) by (by eapply lookup_lt_Some).
  erewrite bind_ok.
  2:{ apply getobj_ok. simpl. by rewrite list_lookup_insert_ne. }
  erewrite bind_ok by reflexivity.
  set (w2 := set_heap _ w1).
  destruct (save_stored_run w2 self (set_order (Some b) s) ks b)
    as (w3 & Hrun & Hdb & Hheap); [|done..|].
  { simpl. rewrite list_lookup_insert_ne by done. by apply list_lookup_insert_eq. }
  erewrite bind_ok by exact Hrun.
  destruct (save_stored_run w3 replacement (set_order (Some a) r) kr a)
    as (w4 & Hrun' & Hdb' & Hheap'); [|done..|].
  { rewrite Hheap. rewrite list_lookup_insert_ne by done. simpl.
    apply list_lookup_insert_eq. by rewrite length_insert. }
  exists w4. split; [done|]. split; [by rewrite Hdb', Hdb|].
  rewrite Hheap', Hheap. split.
  - rewrite list_lookup_insert_ne by done.
    apply list_lookup_insert_eq. simpl. by rewrite !length_insert.
  - apply list_lookup_insert_eq. simpl. by rewrite !length_insert.
Qed.

Lemma with_order_same (o : Z) (o' : option Z) (r : Row) :
  r_order r = Some o → with_order (Some o) (with_order o' r) = r.
Proof. intros Ho. destruct r. simpl in Ho. by subst. Qed.

Lemma exchange_ids (id1 id2 : string * Z) (o1 o2 : Z) (d : list Row) :
  row_id <$> exchange id1 o1 id2 o2 d = row_id <$> d.
Proof.
  unfold exchange. rewrite <- list_fmap_compose. apply list_fmap_ext. intros n r _.
  simpl. by repeat case_bool_decide.
Qed.

(** Writing two stored rows back, each with a new order, is the exchange. *)
Lemma written_exchange (d : list Row) (r1 r2 : Row) (o1 o2 : Z) :
  NoDup (row_id <$> d) → r1 ∈ d → r2 ∈ d → row_id r1 ≠ row_id r2 →
  write_row (with_order (Some o2) r2) (write_row (with_order (Some o1) r1) d)
  = exchange (row_id r1) o1 (row_id r2) o2 d.
Proof.
  intros Hids H1 H2 Hne.
  rewrite (write_row_stored _ d r1) by done.
  rewrite (write_row_stored (with_order (Some o2) r2) _ r2); [| |done].
  2:{ apply list_elem_of_fmap. exists r2. split; [|done].
      rewrite same_row_id. rewrite bool_decide_eq_false_2; [done|].
      intros Hid. by apply Hne. }
  unfold exchange. rewrite <- list_fmap_compose.
  apply list_fmap_ext. intros n x Hx%list_elem_of_lookup_2. simpl.
  rewrite !same_row_id.
  change (model_name (r_model (with_order (Some o1) r1)), r_pk (with_order (Some o1) r1))
    with (row_id r1).
  change (model_name (r_model (with_order (Some o2) r2)), r_pk (with_order (Some o2) r2))
    with (row_id r2).
  destruct (decide (row_id x = row_id r1)) as [Hid|Hid].
  - rewrite !(bool_decide_eq_true_2 _ Hid).
    assert (x = r1) as -> by (by apply (unique_ids d)).
    by rewrite bool_decide_eq_false_2.
  - rewrite !(bool_decide_eq_false_2 _ Hid).
    destruct (decide (row_id x = row_id r2)) as [Hid'|Hid'].
    + rewrite !(bool_decide_eq_true_2 _ Hid').
      by assert (x = r2) as -> by (by apply (unique_ids d)).
    + by rewrite !(bool_decide_eq_false_2 _ Hid').
Qed.

(** Exchanging twice gives every row its order back. *)
Lemma exchange_back (d : list Row) (r1 r2 : Row) (a b : Z) :
  NoDup (row_id <$> d) → r1 ∈ d → r2 ∈ d →
  r_order r1 = Some a → r_order r2 = Some b →
  exchange (row_id r1) a (row_id r2) b (exchange (row_id r1) b (row_id r2) a d) = d.
Proof.
  intros Hids H1 H2 Ha Hb. unfold exchange. rewrite <- list_fmap_compose.
  rewrite <- (list_fmap_id d) at 2.
  apply list_fmap_ext. intros n x Hx%list_elem_of_lookup_2. simpl.
  change (row_id (with_order (Some b) x)) with (row_id x).
  change (row_id (with_order (Some a) x)) with (row_id x).
  destruct (decide (row_id x = row_id r1)) as [Hid|Hid].
  - rewrite !(bool_decide_eq_true_2 _ Hid).
    assert (x = r1) as -> by (by apply (unique_ids d)).
    by apply with_order_same.
  - rewrite !(bool_decide_eq_false_2 _ Hid).
    destruct (decide (row_id x = row_id r2)) as [Hid'|Hid'].
    + rewrite !(bool_decide_eq_true_2 _ Hid'), ?(bool_decide_eq_false_2 _ Hid),
        ?(bool_decide_eq_true_2 _ Hid').
      assert (x = r2) as -> by (by apply (unique_ids d)).
      by apply with_order_same.
    + by rewrite !(bool_decide_eq_false_2 _ Hid'), ?(bool_decide_eq_false_2 _ Hid),
        ?(bool_decide_eq_false_2 _ Hid').
Qed.

Lemma same_scope_moved (i : Instance) (k : Z) (o : option Z) (r : Row) :
  order_field_name (i_model i) ∉ scope_fields (i_model i) →
  i_pk i = Some k →
  same_scope (set_saved (Some k) (set_deleted None (set_order o i))) r = same_scope i r.
Proof.
  intros Hfield Hk. unfold same_scope. simpl. f_equal.
  induction (scope_fields (i_model i)) as [|f fs IH]; [done|].
  simpl. apply not_elem_of_cons in Hfield as [Hf Hfs]. rewrite IH by done. f_equal.
  unfold inst_get. simpl. rewrite Hk.
  destruct (bool_decide (f = "pk" ∨ f = pk_name (i_model i))); [done|].
  rewrite (bool_decide_eq_false_2 (f = order_field_name (i_model i))) by done.
  by rewrite !andb_false_r.
Qed.

(** One step with a neighbour: both rows are written, each with the order
    of the other. *)
Lemma step_exchanges (towards_top : bool) (w : World) (self : nat) (i : Instance)
    (k s : Z) (rp : Row) :
  heap w !! self = Some i →
  ordered_table (i_model i) →
  plain_respect_to (i_model i) →
  table_typed (i_model i) (db w) →
  NoDup (row_id <$> db w) →
  i_deleted i = None →
  i_pk i = Some k →
  i_order i = Some s →
  to_row k i ∈ db w →
  neighbour towards_top i s (db w) = Some rp →
  ∃ w' q, (if towards_top then up self else down self) w = (Ok tt, w')
          ∧ r_order rp = Some q
          ∧ db w' = exchange (row_id (to_row k i)) q (row_id rp) s (db w)
          ∧ heap w' !! self
            = Some (set_saved (Some k) (set_deleted None (set_order (Some q) i))).
Proof.
  intros Hi Hot Hplain Hty Hids Hlive Hk Ho Hrow Hn. pose proof Hot as [Hom Hfield].
  pose proof (neighbour_spec towards_top i s (db w)) as Hspec. rewrite Hn in Hspec.
  destruct Hspec as (Hrp & Hsc & Hl & q & Hq & Hdir & _).
  rewrite (step_run towards_top w self i s Hi Hom Ho), Hn.
  assert (Hlen : (self < length (heap w))%nat) by (by eapply lookup_lt_Some).
  pose proof Hsc as [Hname Hkey]%same_scope_key.
  assert (Hmodel : r_model rp = i_model i) by (by apply Hty).
  assert (Hdel : r_deleted rp = None) by (by apply bool_decide_eq_true_1 in Hl).
  set (w2 := set_heap (heap w ++ [of_row rp]) w).
  assert (Hi2 : heap w2 !! self = Some i) by (simpl; by rewrite lookup_app_l).
  assert (Hr2 : heap w2 !! length (heap w) = Some (of_row rp)).
  { simpl. rewrite lookup_app_r by done. by rewrite Nat.sub_diag. }
  destruct (swap_run w2 self (length (heap w)) i (of_row rp) k (r_pk rp) s q)
    as (w' & Hrun & Hdb & Hheap & _); [done|done|lia| |done..|].
  { apply (validate_passes w2 self _ i (of_row rp)); [done..|].
    intros f Hf. rewrite Hplain in Hf.
    unfold same_scope in Hsc. apply andb_true_iff in Hsc as [_ Hall].
    rewrite forallb_forall in Hall. apply list_elem_of_In, Hall in Hf.
    apply bool_decide_eq_true_1 in Hf. rewrite <- Hf.
    unfold inst_get, row_get. by simpl. }
  exists w', q. split; [done|]. split; [done|]. split; [|done].
  rewrite Hdb. simpl.
  rewrite (moved_row i k q Hlive).
  assert (Hrow_r : to_row (r_pk rp) (set_deleted None (set_order (Some s) (of_row rp)))
                   = with_order (Some s) rp).
  { unfold to_row, with_order. simpl. by rewrite Hdel. }
  rewrite Hrow_r.
  assert (Hids_ne : row_id rp ≠ row_id (to_row k i)).
  { intros Hid. assert (rp = to_row k i) as -> by (by apply (unique_ids (db w))).
    simpl in Hq. rewrite Ho in Hq. injection Hq as <-. destruct towards_top; lia. }
  by rewrite (written_exchange (db w) (to_row k i) rp q s)
    by (first [done | intros Hid; by apply Hids_ne]).
Qed.

(** A neighbour exists as soon as a live sibling lies on that side. *)
Lemma neighbour_some (towards_top : bool) (i : Instance) (s p : Z) (d : list Row) :
  p ∈ live_orders i d →
  (if towards_top then p < s else s < p) →
  ∃ rp, neighbour towards_top i s d = Some rp.
Proof.
  intros Hp Hdir. pose proof (neighbour_spec towards_top i s d) as Hspec.
  destruct (neighbour towards_top i s d) as [rp|]; [by exists rp|].
  specialize (Hspec p Hp). destruct towards_top; lia.
Qed.

(** X17. [up] on a live, stored record that has a live sibling of smaller
    order completes and exchanges the orders of the record and of the live
    sibling with the greatest order under its own: the record takes that
    order, the sibling takes the record's, and every other stored row stays
    as it is. *)
Theorem up_exchanges_with_the_previous (w : World) (self : nat) (i : Instance)
    (k s p : Z) :
  heap w !! self = Some i →
  ordered_table (i_model i) →
  plain_respect_to (i_model i) →
  table_typed (i_model i) (db w) →
  NoDup (row_id <$> db w) →
  i_deleted i = None →
  i_pk i = Some k →
  i_order i = Some s →
  to_row k i ∈ db w →
  p ∈ live_orders i (db w) →
  p < s →
  ∃ w' rp q,
    up self w = (Ok tt, w')
    ∧ rp ∈ db w ∧ same_scope i rp = true ∧ live rp = true ∧ r_order rp = Some q
    ∧ q < s
    ∧ (∀ x, x ∈ live_orders i (db w) → x < s → x ≤ q)
    ∧ db w' = exchange (row_id (to_row k i)) q (row_id rp) s (db w).
Proof.
  intros Hi Hot Hplain Hty Hids Hlive Hk Ho Hrow Hp Hlt.
  destruct (neighbour_some true i s p (db w) Hp Hlt) as [rp Hn].
  pose proof (neighbour_spec true i s (db w)) as Hspec. rewrite Hn in Hspec.
  destruct Hspec as (Hrp & Hsc & Hl & q & Hq & Hdir & Hbest).
  destruct (step_exchanges true w self i k s rp) as (w' & q' & Hrun & Hq' & Hdb & _);
    [done..|].
  assert (q' = q) as -> by congruence.
  by exists w', rp, q.
Qed.

(** X18. [down] on a live, stored record that has a live sibling of
    greater order completes and exchanges the orders of the record and of
    the live sibling with the least order over its own; every other stored
    row stays as it is. *)
Theorem down_exchanges_with_the_next (w : World) (self : nat) (i : Instance)
    (k s p : Z) :
  heap w !! self = Some i →
  ordered_table (i_model i) →
  plain_respect_to (i_model i) →
  table_typed (i_model i) (db w) →
  NoDup (row_id <$> db w) →
  i_deleted i = None →
  i_pk i = Some k →
  i_order i = Some s →
  to_row k i ∈ db w →
  p ∈ live_orders i (db w) →
  s < p →
  ∃ w' rn q,
    down self w = (Ok tt, w')
    ∧ rn ∈ db w ∧ same_scope i rn = true ∧ live rn = true ∧ r_order rn = Some q
    ∧ s < q
    ∧ (∀ x, x ∈ live_orders i (db w) → s < x → q ≤ x)
    ∧ db w' = exchange (row_id (to_row k i)) q (row_id rn) s (db w).
Proof.
  intros Hi Hot Hplain Hty Hids Hlive Hk Ho Hrow Hp Hlt.
  destruct (neighbour_some false i s p (db w) Hp Hlt) as [rn Hn].
  pose proof (neighbour_spec false i s (db w)) as Hspec. rewrite Hn in Hspec.
  destruct Hspec as (Hrn & Hsc & Hl & q & Hq & Hdir & Hbest).
  destruct (step_exchanges false w self i k s rn) as (w' & q' & Hrun & Hq' & Hdb & _);
    [done..|].
  assert (q' = q) as -> by congruence.
  by exists w', rn, q.
Qed.

(** *** [swap] on two stored records *)

Lemma inst_get_moved (i : Instance) (k : Z) (o : option Z) (f : string) :
  f ≠ order_field_name (i_model i) →
  i_pk i = Some k →
  inst_get (set_saved (Some k) (set_deleted None (set_order o i))) f = inst_get i f.
Proof.
  intros Hf Hk. unfold inst_get. simpl. rewrite Hk.
  destruct (bool_decide (f = "pk" ∨ f = pk_name (i_model i))); [done|].
  rewrite (bool_decide_eq_false_2 _ Hf). by rewrite !andb_false_r.
Qed.

Lemma swap_exchange (w : World) (self replacement : nat) (s r : Instance)
    (ks kr a b : Z) :
  heap w !! self = Some s →
  heap w !! replacement = Some r →
  i_model r = i_model s →
  (∀ f, f ∈ respect_to_fields (i_model s) → inst_get r f = inst_get s f) →
  NoDup (row_id <$> db w) →
  i_deleted s = None → i_deleted r = None →
  i_pk s = Some ks → i_pk r = Some kr → ks ≠ kr →
  i_order s = Some a → i_order r = Some b →
  to_row ks s ∈ db w → to_row kr r ∈ db w →
  ∃ w', swap self replacement w = (Ok tt, w')
        ∧ db w' = exchange (row_id (to_row ks s)) b (row_id (to_row kr r)) a (db w)
        ∧ heap w' !! self
          = Some (set_saved (Some ks) (set_deleted None (set_order (Some b) s)))
        ∧ heap w' !! replacement
          = Some (set_saved (Some kr) (set_deleted None (set_order (Some a) r))).
Proof.
  intros Hs Hr Hm Hagree Hids Hds Hdr Hks Hkr Hne Ha Hb Hrs Hrr.
  assert (Hrefs : self ≠ replacement).
  { intros ->. rewrite Hs in Hr. injection Hr as <-. congruence. }
  destruct (swap_run w self replacement s r ks kr a b)
    as (w' & Hrun & Hdb & Hhs & Hhr);
    [done|done|done|by apply (validate_passes w _ _ s r)|done|done|done|done|].
  exists w'. split; [done|]. split; [|done].
  rewrite Hdb, (moved_row s ks b Hds), (moved_row r kr a Hdr).
  apply written_exchange; [done..|].
  unfold row_id. simpl. congruence.
Qed.

(** X19. [swap] on two live, stored records of one scope that hold
    different rows completes and exchanges their orders, every other row
    staying as it is; a second [swap] on the same two objects puts the table
    back as it was. *)
Theorem swap_exchanges_and_undoes (w : World) (self replacement : nat) (s r : Instance)
    (ks kr a b : Z) :
  heap w !! self = Some s →
  heap w !! replacement = Some r →
  i_model r = i_model s →
  order_field_name (i_model s) ∉ respect_to_fields (i_model s) →
  (∀ f, f ∈ respect_to_fields (i_model s) → inst_get r f = inst_get s f) →
  NoDup (row_id <$> db w) →
  i_deleted s = None → i_deleted r = None →
  i_pk s = Some ks → i_pk r = Some kr → ks ≠ kr →
  i_order s = Some a → i_order r = Some b →
  to_row ks s ∈ db w → to_row kr r ∈ db w →
  ∃ w1 w2,
    swap self replacement w = (Ok tt, w1)
    ∧ db w1 = exchange (row_id (to_row ks s)) b (row_id (to_row kr r)) a (db w)
    ∧ swap self replacement w1 = (Ok tt, w2)
    ∧ db w2 = db w.
Proof.
  intros Hs Hr Hm Hfield Hagree Hids Hds Hdr Hks Hkr Hne Ha Hb Hrs Hrr.
  destruct (swap_exchange w self replacement s r ks kr a b)
    as (w1 & Hrun1 & Hdb1 & Hhs & Hhr); [done..|].
  set (s1 := set_saved (Some ks) (set_deleted None (set_order (Some b) s))) in *.
  set (r1 := set_saved (Some kr) (set_deleted None (set_order (Some a) r))) in *.
  assert (Hne_id : row_id (to_row ks s) ≠ row_id (to_row kr r)).
  { unfold row_id. simpl. congruence. }
  destruct (swap_exchange w1 self replacement s1 r1 ks kr b a)
    as (w2 & Hrun2 & Hdb2 & _); try done.
  - intros f Hf. unfold s1, r1.
    assert (f ≠ order_field_name (i_model s)) by (intros ->; by apply Hfield).
    rewrite !inst_get_moved by (first [done | by rewrite Hm]). by apply Hagree.
  - by rewrite Hdb1, exchange_ids.
  - rewrite Hdb1. apply list_elem_of_fmap. exists (to_row ks s). split; [|done].
    rewrite bool_decide_eq_true_2 by done.
    unfold s1, to_row, with_order. simpl. by rewrite Hds.
  - rewrite Hdb1. apply list_elem_of_fmap. exists (to_row kr r). split; [|done].
    rewrite bool_decide_eq_false_2 by (intros Hid; by apply Hne_id).
    rewrite bool_decide_eq_true_2 by done.
    unfold r1, to_row, with_order. simpl. by rewrite Hdr.
  - exists w1, w2. split; [done|]. split; [done|]. split; [done|].
    rewrite Hdb2, Hdb1.
    change (row_id (to_row ks s1)) with (row_id (to_row ks s)).
    change (row_id (to_row kr r1)) with (row_id (to_row kr r)).
    by apply exchange_back.
Qed.

(** *** There and back *)

Lemma same_scope_with_order (i : Instance) (o : option Z) (r : Row) :
  order_field_name (i_model i) ∉ scope_fields (i_model i) →
  r_model r = i_model i →
  same_scope i (with_order o r) = same_scope i r.
Proof.
  intros Hfield Hm. unfold same_scope. simpl. f_equal.
  induction (scope_fields (i_model i)) as [|f fs IH]; [done|].
  simpl. apply not_elem_of_cons in Hfield as [Hf Hfs]. rewrite IH by done. f_equal.
  rewrite row_get_with_order; [done|]. by rewrite Hm.
Qed.

Lemma step_there_and_back (towards_top : bool) (w : World) (self : nat) (i : Instance)
    (k s p : Z) :
  heap w !! self = Some i →
  ordered_table (i_model i) →
  plain_respect_to (i_model i) →
  table_typed (i_model i) (db w) →
  NoDup (row_id <$> db w) →
  orders_unique_live (i_model i) (db w) →
  i_deleted i = None →
  i_pk i = Some k →
  i_order i = Some s →
  to_row k i ∈ db w →
  p ∈ live_orders i (db w) →
  (if towards_top then p < s else s < p) →
  ∃ w1 w2, (if towards_top then up self else down self) w = (Ok tt, w1)
           ∧ (if towards_top then down self else up self) w1 = (Ok tt, w2)
           ∧ db w2 = db w.
Proof.
  intros Hi Hot Hplain Hty Hids Hinv Hlive Hk Ho Hrow Hp Hpdir.
  pose proof Hot as [Hom Hfield].
  destruct (neighbour_some towards_top i s p (db w) Hp Hpdir) as [rp Hn].
  pose proof (neighbour_spec towards_top i s (db w)) as Hspec. rewrite Hn in Hspec.
  destruct Hspec as (Hrp & Hsc & Hl & q & Hq & Hdir & Hbest).
  destruct (step_exchanges towards_top w self i k s rp)
    as (w1 & q0 & Hrun1 & Hq0 & Hdb1 & Hheap1); [done..|].
  assert (q0 = q) as -> by congruence.
  set (i1 := set_saved (Some k) (set_deleted None (set_order (Some q) i))) in *.
  set (g := λ r, if bool_decide (row_id r = row_id (to_row k i))
                 then with_order (Some q) r
                 else if bool_decide (row_id r = row_id rp)
                      then with_order (Some s) r else r).
  assert (Hdb1' : db w1 = g <$> db w) by done.
  pose proof Hsc as [Hname Hkey]%same_scope_key.
  assert (Hmodel : r_model rp = i_model i) by (by apply Hty).
  assert (Hids_ne : row_id rp ≠ row_id (to_row k i)).
  { intros Hid. assert (rp = to_row k i) as -> by (by apply (unique_ids (db w))).
    simpl in Hq. rewrite Ho in Hq. injection Hq as <-. destruct towards_top; lia. }
  assert (Hg_model : ∀ x, r_model (g x) = r_model x).
  { intros x. unfold g. by repeat case_bool_decide. }
  assert (Hty1 : table_typed (i_model i) (db w1)).
  { intros r. rewrite Hdb1'. intros (x & -> & Hx)%list_elem_of_fmap.
    rewrite Hg_model. by apply Hty. }
  assert (Hids1 : NoDup (row_id <$> db w1)) by (by rewrite Hdb1, exchange_ids).
  assert (Hrow1 : to_row k i1 ∈ db w1).
  { rewrite Hdb1'. apply list_elem_of_fmap. exists (to_row k i). split; [|done].
    unfold g. rewrite bool_decide_eq_true_2 by done.
    unfold i1, to_row, with_order. simpl. by rewrite Hlive. }
  assert (Hrp1 : with_order (Some s) rp ∈ db w1).
  { rewrite Hdb1'. apply list_elem_of_fmap. exists rp. split; [|done].
    unfold g. rewrite bool_decide_eq_false_2 by done.
    by rewrite bool_decide_eq_true_2. }
  assert (Hscope1 : ∀ r, same_scope i1 r = same_scope i r).
  { intros r. by apply same_scope_moved. }
  assert (Hs1 : s ∈ live_orders i1 (db w1)).
  { apply elem_of_live_orders. exists (with_order (Some s) rp). split_and!; [done| |done..].
    rewrite Hscope1. by rewrite same_scope_with_order. }
  destruct (neighbour_some (negb towards_top) i1 q s (db w1) Hs1) as [rn Hn1].
  { destruct towards_top; simpl; lia. }
  pose proof (neighbour_spec (negb towards_top) i1 q (db w1)) as Hspec1.
  rewrite Hn1 in Hspec1.
  destruct Hspec1 as (Hrn & Hsc1 & Hl1 & q' & Hq' & Hdir' & Hbest').
  specialize (Hbest' s Hs1).
  assert (rn = with_order (Some s) rp) as ->.
  { rewrite Hdb1' in Hrn. apply list_elem_of_fmap in Hrn as (x & -> & Hx).
    unfold g in *. case_bool_decide as Hxs.
    - exfalso. simpl in Hq'. injection Hq' as <-. destruct towards_top; simpl in *; lia.
    - case_bool_decide as Hxr.
      + by assert (x = rp) as -> by (by apply (unique_ids (db w))).
      + exfalso. rewrite Hscope1 in Hsc1.
        assert (Hq'in : q' ∈ live_orders i (db w)).
        { apply elem_of_live_orders. by exists x. }
        assert (q' = s) as ->.
        { specialize (Hbest q' Hq'in). destruct towards_top; simpl in *; lia. }
        pose proof Hsc1 as [Hnx Hkx]%same_scope_key.
        destruct (pairs_distinct _ (db w) x (to_row k i) Hinv Hx Hrow) as [H|H].
        * intros ->. by apply Hxs.
        * apply H. split; [|split; [done|unfold live; simpl; by rewrite Hlive]].
          split_and!; [done|done| |by rewrite Hq'].
          rewrite Hkx. symmetry. by apply scope_key_to_row.
        * apply H. split; [|split; [unfold live; simpl; by rewrite Hlive|done]].
          split_and!; [done|done| |by rewrite Hq'].
          rewrite Hkx. by apply scope_key_to_row. }
  destruct (step_exchanges (negb towards_top) w1 self i1 k q (with_order (Some s) rp))
    as (w2 & q2 & Hrun2 & Hq2 & Hdb2 & _); [done..|].
  simpl in Hq2. injection Hq2 as <-.
  exists w1, w2. split; [done|]. split; [by destruct towards_top|].
  rewrite Hdb2, Hdb1.
  change (row_id (to_row k i1)) with (row_id (to_row k i)).
  change (row_id (with_order (Some s) rp)) with (row_id rp).
  by apply exchange_back.
Qed.

(** X20. On a table whose live rows hold distinct orders within each
    scope, [up] followed by [down] on the same object puts every stored row
    back as it was, and so does [down] followed by [up], whenever the first
    of the two has a live sibling to exchange with. *)
Theorem up_and_down_undo_each_other (w : World) (self : nat) (i : Instance) (k s : Z) :
  heap w !! self = Some i →
  ordered_table (i_model i) →
  plain_respect_to (i_model i) →
  table_typed (i_model i) (db w) →
  NoDup (row_id <$> db w) →
  orders_unique_live (i_model i) (db w) →
  i_deleted i = None →
  i_pk i = Some k →
  i_order i = Some s →
  to_row k i ∈ db w →
  (∀ p, p ∈ live_orders i (db w) → p < s →
        ∃ w1 w2, up self w = (Ok tt, w1) ∧ down self w1 = (Ok tt, w2) ∧ db w2 = db w)
  ∧ (∀ p, p ∈ live_orders i (db w) → s < p →
          ∃ w1 w2, down self w = (Ok tt, w1) ∧ up self w1 = (Ok tt, w2) ∧ db w2 = db w).
Proof.
  intros Hi Hot Hplain Hty Hids Hinv Hlive Hk Ho Hrow. split; intros p Hp Hlt.
  - by apply (step_there_and_back true w self i k s p).
  - by apply (step_there_and_back false w self i k s p).
Qed.

(** X21. [up] and [down] keep the orders of the live rows distinct within
    each scope: after either has completed on a live record as loaded from
    storage, a table that had the property still has it. *)
Theorem steps_keep_live_orders_distinct (m : Model) (w w' : World) (self : nat)
    (i : Instance) :
  ordered_table m →
  table_typed m (db w) →
  NoDup (row_id <$> db w) →
  orders_unique_live m (db w) →
  synced m w self i →
  is_Some (i_order i) →
  up self w = (Ok tt, w') ∨ down self w = (Ok tt, w') →
  orders_unique_live m (db w').
Proof.
  intros Hot Hty Hids Hinv Hsy [s Ho] Hrun.
  pose proof Hsy as (Hi & Hm & Hd & k & Hk & Hrow). subst m.
  pose proof Hot as [Hom Hfield].
  assert (Hstep : ∃ towards_top,
            match neighbour towards_top i s (db w) with
            | Some r => swap self (length (heap w)) (set_heap (heap w ++ [of_row r]) w)
            | None => (Ok tt, w)
            end = (Ok tt, w')).
  { destruct Hrun as [H|H]; [exists true|exists false];
      by rewrite <- (step_run _ w self i s Hi Hom Ho). }
  destruct Hstep as [towards_top Hstep].
  pose proof (neighbour_spec towards_top i s (db w)) as Hspec.
  destruct (neighbour towards_top i s (db w)) as [rp|]; [|by simplify_eq].
  destruct Hspec as (Hrp & Hsc & Hl & q & Hq & _).
  pose proof Hsc as [Hname Hkey]%same_scope_key.
  assert (Hlen : (self < length (heap w))%nat) by (by eapply lookup_lt_Some).
  apply (swap_preserves (i_model i) (set_heap (heap w ++ [of_row rp]) w) w' self
           (length (heap w)) i (of_row rp)); try done.
  - split_and!; [simpl; by rewrite lookup_app_l|done..|]. by exists k.
  - split_and!.
    + simpl. rewrite lookup_app_r by done. by rewrite Nat.sub_diag.
    + by apply Hty.
    + by apply bool_decide_eq_true_1 in Hl.
    + exists (r_pk rp). split; [done|]. simpl. by destruct rp.
Qed.

Lemma board_task_11 :
  heap (Samples.board_world SOFT_DELETE) !! 1%nat
  = Some (of_row (Samples.task SOFT_DELETE 11 1 1 None))
  ∧ ordered_table (Samples.Task SOFT_DELETE)
  ∧ plain_respect_to (Samples.Task SOFT_DELETE)
  ∧ table_typed (Samples.Task SOFT_DELETE) (db (Samples.board_world SOFT_DELETE))
  ∧ NoDup (row_id <$> db (Samples.board_world SOFT_DELETE))
  ∧ orders_unique_live (Samples.Task SOFT_DELETE) (db (Samples.board_world SOFT_DELETE))
  ∧ to_row 11 (of_row (Samples.task SOFT_DELETE 11 1 1 None))
    ∈ db (Samples.board_world SOFT_DELETE)
  ∧ live_orders (of_row (Samples.task SOFT_DELETE 11 1 1 None))
      (db (Samples.board_world SOFT_DELETE)) = [0; 1; 2; 3].
Proof.
  destruct (board_world_ordered SOFT_DELETE) as (Hot & Hty & Hids & Hinv).
  split_and!; try done.
  simpl. unfold Samples.board_rows. right. left.
Qed.

Lemma step_at_the_end_changes_nothing_witness :
  up 2 (Samples.board_world SOFT_DELETE) = (Ok tt, Samples.board_world SOFT_DELETE)
  ∧ down 2 (Samples.board_world SOFT_DELETE) = (Ok tt, Samples.board_world SOFT_DELETE).
Proof.
  assert (Hl : live_orders (of_row (Samples.task SOFT_DELETE 20 2 0 None))
                 (db (Samples.board_world SOFT_DELETE)) = [0]) by reflexivity.
  destruct (step_at_the_end_changes_nothing (Samples.board_world SOFT_DELETE) 2
              (of_row (Samples.task SOFT_DELETE 20 2 0 None)) 0)
    as [Hup Hdown]; [reflexivity|by repeat split|reflexivity|].
  split; [apply Hup|apply Hdown]; intros x Hx; rewrite Hl in Hx;
    apply list_elem_of_singleton in Hx; lia.
Defined.

Lemma up_exchanges_with_the_previous_witness :
  ∃ w' rp q,
    up 1 (Samples.board_world SOFT_DELETE) = (Ok tt, w')
    ∧ rp ∈ db (Samples.board_world SOFT_DELETE)
    ∧ same_scope (of_row (Samples.task SOFT_DELETE 11 1 1 None)) rp = true
    ∧ live rp = true ∧ r_order rp = Some q
    ∧ q < 1
    ∧ (∀ x, x ∈ live_orders (of_row (Samples.task SOFT_DELETE 11 1 1 None))
                  (db (Samples.board_world SOFT_DELETE)) → x < 1 → x ≤ q)
    ∧ db w' = exchange (row_id (Samples.task SOFT_DELETE 11 1 1 None)) q (row_id rp) 1
                (db (Samples.board_world SOFT_DELETE)).
Proof.
  destruct board_task_11 as (Hi & Hot & Hplain & Hty & Hids & _ & Hrow & Hl).
  apply (up_exchanges_with_the_previous (Samples.board_world SOFT_DELETE) 1
           (of_row (Samples.task SOFT_DELETE 11 1 1 None)) 11 1 0);
    [exact Hi|exact Hot|exact Hplain|exact Hty|exact Hids|reflexivity|reflexivity
    |reflexivity|exact Hrow| |lia].
  rewrite Hl. left.
Defined.

Lemma down_exchanges_with_the_next_witness :
  ∃ w' rn q,
    down 1 (Samples.board_world SOFT_DELETE) = (Ok tt, w')
    ∧ rn ∈ db (Samples.board_world SOFT_DELETE)
    ∧ same_scope (of_row (Samples.task SOFT_DELETE 11 1 1 None)) rn = true
    ∧ live rn = true ∧ r_order rn = Some q
    ∧ 1 < q
    ∧ (∀ x, x ∈ live_orders (of_row (Samples.task SOFT_DELETE 11 1 1 None))
                  (db (Samples.board_world SOFT_DELETE)) → 1 < x → q ≤ x)
    ∧ db w' = exchange (row_id (Samples.task SOFT_DELETE 11 1 1 None)) q (row_id rn) 1
                (db (Samples.board_world SOFT_DELETE)).
Proof.
  destruct board_task_11 as (Hi & Hot & Hplain & Hty & Hids & _ & Hrow & Hl).
  apply (down_exchanges_with_the_next (Samples.board_world SOFT_DELETE) 1
           (of_row (Samples.task SOFT_DELETE 11 1 1 None)) 11 1 2);
    [exact Hi|exact Hot|exact Hplain|exact Hty|exact Hids|reflexivity|reflexivity
    |reflexivity|exact Hrow| |lia].
  rewrite Hl. do 2 right. left.
Defined.

Lemma up_and_down_undo_each_other_witness :
  (∃ w1 w2, up 1 (Samples.board_world SOFT_DELETE) = (Ok tt, w1)
            ∧ down 1 w1 = (Ok tt, w2)
            ∧ db w2 = db (Samples.board_world SOFT_DELETE))
  ∧ (∃ w1 w2, down 1 (Samples.board_world SOFT_DELETE) = (Ok tt, w1)
              ∧ up 1 w1 = (Ok tt, w2)
              ∧ db w2 = db (Samples.board_world SOFT_DELETE)).
Proof.
  destruct board_task_11 as (Hi & Hot & Hplain & Hty & Hids & Hinv & Hrow & Hl).
  destruct (up_and_down_undo_each_other (Samples.board_world SOFT_DELETE) 1
              (of_row (Samples.task SOFT_DELETE 11 1 1 None)) 11 1)
    as [Hup Hdown];
    [exact Hi|exact Hot|exact Hplain|exact Hty|exact Hids|exact Hinv|reflexivity
    |reflexivity|reflexivity|exact Hrow|].
  split.
  - apply (Hup 0); [rewrite Hl; left|lia].
  - apply (Hdown 2); [rewrite Hl; do 2 right; left|lia].
Defined.

Lemma swap_exchanges_and_undoes_witness :
  ∃ w1 w2,
    swap 0 1 (Samples.board_world SOFT_DELETE) = (Ok tt, w1)
    ∧ db w1 = exchange (row_id (Samples.task SOFT_DELETE 13 1 3 None)) 1
                (row_id (Samples.task SOFT_DELETE 11 1 1 None)) 3
                (db (Samples.board_world SOFT_DELETE))
    ∧ swap 0 1 w1 = (Ok tt, w2)
    ∧ db w2 = db (Samples.board_world SOFT_DELETE).
Proof.
  destruct board_task_11 as (Hi & _ & _ & _ & Hids & _ & Hrow & _).
  apply (swap_exchanges_and_undoes (Samples.board_world SOFT_DELETE) 0 1
           (of_row (Samples.task SOFT_DELETE 13 1 3 None))
           (of_row (Samples.task SOFT_DELETE 11 1 1 None)) 13 11 3 1);
    [reflexivity|exact Hi|reflexivity| |by intros f ->%list_elem_of_singleton
    |exact Hids|reflexivity|reflexivity|reflexivity|reflexivity|lia|reflexivity
    |reflexivity| |exact Hrow].
  - by intros ?%list_elem_of_singleton.
  - simpl. unfold Samples.board_rows. do 3 right. left.
Defined.

Lemma steps_keep_live_orders_distinct_witness :
  ∃ w', up 1 (Samples.board_world SOFT_DELETE) = (Ok tt, w')
        ∧ orders_unique_live (Samples.Task SOFT_DELETE) (db w').
Proof.
  destruct board_task_11 as (Hi & Hot & Hplain & Hty & Hids & Hinv & Hrow & Hl).
  eexists. split; [vm_compute; reflexivity|].
  apply (steps_keep_live_orders_distinct (Samples.Task SOFT_DELETE)
           (Samples.board_world SOFT_DELETE) _ 1
           (of_row (Samples.task SOFT_DELETE 11 1 1 None)));
    [exact Hot|exact Hty|exact Hids|exact Hinv| |by exists 1|left; reflexivity].
  split_and!; [exact Hi|reflexivity|reflexivity|]. exists 11. split; [reflexivity|exact Hrow].
Defined.

End StepFacts.

(** ** [above] and [below] *)

Module PlaceFacts.
Import Queryset Managers Models Readings WorldFacts OrderingFacts TerminationFacts
  InvariantFacts ExtremeFacts StepFacts.

Lemma elem_of_orders_in (i : Instance) (range : Z → bool) (d : list Row) (x : Z) :
  x ∈ orders_in i range d ↔ x ∈ live_orders i d ∧ range x = true.
Proof.
  unfold orders_in. rewrite list_elem_of_omap, elem_of_live_orders. split.
  - intros (r & (Hr & y & Hy & Hs & Hl & Hx)%elem_of_siblings_in & Ho).
    assert (y = x) as -> by congruence. split; [by exists r|done].
  - intros [(r & Hr & Hs & Hl & Ho) Hx]. exists r. split; [|done].
    apply elem_of_siblings_in. split; [done|]. by exists x.
Qed.

Lemma bounded_max_run (i : Instance) (b : Z) (d : list Row) :
  outcome_of (get_max_order d) (add_conds [OrderCmp Lt b] (ordering_qs i))
  = Ok (max_of (orders_in i (λ x, x <? b) d)).
Proof.
  pose proof (fetch_siblings i Lt b d) as Hf. unfold outcome_of in *.
  unfold get_max_order, mbind, M_bind.
  destruct (fetch d _) as [o q]. simpl in Hf. by subst o.
Qed.

Lemma bounded_min_run (i : Instance) (b : Z) (d : list Row) :
  outcome_of (get_min_order d) (add_conds [OrderCmp Gt b] (ordering_qs i))
  = Ok (min_of (orders_in i (λ x, b <? x) d)).
Proof.
  pose proof (fetch_siblings i Gt b d) as Hf. unfold outcome_of in *.
  unfold get_min_order, mbind, M_bind.
  destruct (fetch d _) as [o q]. simpl in Hf. by subst o.
Qed.

Lemma write_row_keeps (row r : Row) (d : list Row) :
  r ∈ d → row_id r ≠ row_id row → r ∈ write_row row d.
Proof.
  intros Hr Hid. unfold write_row. destruct (existsb _ d).
  - apply list_elem_of_fmap. exists r. split; [|done].
    rewrite same_row_id. by rewrite bool_decide_eq_false_2.
  - apply elem_of_app. by left.
Qed.

(** Comparisons that arithmetic settles. *)
Ltac settle H :=
  repeat first
    [ match type of H with
      | context [?x <? ?y] =>
          first [rewrite (proj2 (Z.ltb_lt x y)) in H by lia
                |rewrite (proj2 (Z.ltb_ge x y)) in H by lia]
      end
    | match type of H with
      | context [?x <=? ?y] =>
          first [rewrite (proj2 (Z.leb_le x y)) in H by lia
                |rewrite (proj2 (Z.leb_gt x y)) in H by lia]
      end ];
  cbn [andb] in H.

Section Place.
Variables (w : World) (self ref : nat) (s r : Instance) (ks kr a b : Z).
Hypothesis Hplace : placeable w self ref s r ks kr a b.
Hypothesis Hot : ordered_table (i_model s).
Hypothesis Hty : table_typed (i_model s) (db w).
Hypothesis Hids : NoDup (row_id <$> db w).
Hypothesis Hab : a ≠ b.

Lemma above_steps :
  above self ref None w
  = to self (PyInt (if b <? a then b
                    else or_zero (max_of (orders_in s (λ x, x <? b) (db w))))) None w.
Proof.
  destruct Hplace as (Hs & Hr & Hm & Hagree & _ & _ & _ & _ & _ & Ha & Hb & _).
  destruct Hot as [Hom _]. unfold above.
  erewrite bind_ok by (by apply (validate_passes w self ref s r)).
  erewrite bind_ok by (by apply getobj_ok).
  erewrite bind_ok by (by apply getobj_ok).
  rewrite Ha, Hb. rewrite bool_decide_eq_false_2 by congruence.
  erewrite bind_ok by reflexivity.
  destruct (b <? a); [by erewrite bind_ok by reflexivity|].
  erewrite bind_ok; [reflexivity|].
  erewrite bind_ok by (by apply get_ordering_queryset_run).
  erewrite bind_ok.
  2:{ unfold with_qs, outcome_of, below_instance. rewrite Hb.
      rewrite below_run by apply lazy_invisible_ordering_qs. reflexivity. }
  erewrite bind_ok by reflexivity.
  by erewrite bind_ok by (unfold with_qs; by rewrite bounded_max_run).
Qed.

Lemma below_steps :
  below self ref None w
  = to self (PyInt (if b <? a then or_zero (min_of (orders_in s (λ x, b <? x) (db w)))
                    else b)) None w.
Proof.
  destruct Hplace as (Hs & Hr & Hm & Hagree & _ & _ & _ & _ & _ & Ha & Hb & _).
  destruct Hot as [Hom _]. unfold below.
  erewrite bind_ok by (by apply (validate_passes w self ref s r)).
  erewrite bind_ok by (by apply getobj_ok).
  erewrite bind_ok by (by apply getobj_ok).
  rewrite Ha, Hb. rewrite bool_decide_eq_false_2 by congruence.
  erewrite bind_ok by reflexivity.
  destruct (b <? a); [|by erewrite bind_ok by reflexivity].
  erewrite bind_ok; [reflexivity|].
  erewrite bind_ok by (by apply get_ordering_queryset_run).
  erewrite bind_ok.
  2:{ unfold with_qs, outcome_of, above_instance. rewrite Hb.
      rewrite above_run by apply lazy_invisible_ordering_qs. reflexivity. }
  erewrite bind_ok by reflexivity.
  by erewrite bind_ok by (unfold with_qs; by rewrite bounded_min_run).
Qed.

Lemma self_order_live : a ∈ live_orders s (db w).
Proof.
  destruct Hplace as (_ & _ & _ & _ & Hds & _ & Hks & _ & _ & Ha & _ & Hrow & _).
  apply elem_of_live_orders. exists (to_row ks s). split_and!; [done| | |done].
  - apply same_scope_key. split; [done|]. by apply scope_key_to_row.
  - unfold live. simpl. by rewrite Hds.
Qed.

Lemma ref_row_sibling :
  same_scope s (to_row kr r) = true ∧ live (to_row kr r) = true
  ∧ r_order (to_row kr r) = Some b
  ∧ row_id (to_row kr r) ≠ row_id (to_row ks s).
Proof.
  destruct Hplace as (_ & _ & Hm & Hagree & _ & Hdr & _ & Hkr & Hne & _ & Hb & _).
  split_and!.
  - unfold same_scope. simpl. rewrite Hm, bool_decide_eq_true_2 by done. simpl.
    apply forallb_forall. intros f Hf%list_elem_of_In. apply bool_decide_eq_true_2.
    rewrite row_get_to_row by done. apply Hagree.
    unfold scope_fields in Hf. destruct (truthy_respect_to _); [done|].
    by apply not_elem_of_nil in Hf.
  - unfold live. simpl. by rewrite Hdr.
  - done.
  - unfold row_id. simpl. congruence.
Qed.

(** [to] with a target other than the record's order: the table after it. *)
Lemma to_places (t : Z) :
  t ≠ a →
  ∃ w', to self (PyInt t) None w = (Ok tt, w')
        ∧ with_order (Some t) (to_row ks s) ∈ db w'
        ∧ (if to_range a t b then with_order (Some (b + to_delta a t)) (to_row kr r)
           else to_row kr r) ∈ db w'
        ∧ ∀ x, x ∈ live_orders s (db w') →
               x = t ∨ ∃ x0, x0 ∈ live_orders s (db w)
                             ∧ x = if to_range a t x0 then x0 + to_delta a t else x0.
Proof.
  intros Hne.
  destruct Hplace as (Hs & _ & _ & _ & Hds & _ & Hks & _ & _ & Ha & _ & Hrow & Hrow_r).
  destruct Hot as [Hom Hfield].
  destruct (to_record_run w self s a Hs Hom Ha) as [_ Hmove].
  destruct (Hmove t Hne) as (w' & Hrun & Hdb & _).
  unfold key_of in Hdb. rewrite Hks, (moved_row s ks t Hds) in Hdb.
  destruct ref_row_sibling as (Hsc & Hl & Hb & Hid).
  exists w'. split; [done|]. rewrite Hdb. split_and!.
  - apply write_row_elem.
  - set (r' := if to_range a t b then _ else _).
    assert (Hr' : r' = shift_row s (to_range a t) (to_delta a t) (to_row kr r)).
    { unfold r', shift_row. rewrite Hb, Hsc, Hl. simpl.
      by destruct (to_range a t b). }
    assert (Hin : r' ∈ shift_rows s (to_range a t) (to_delta a t) (db w)).
    { rewrite Hr'. apply list_elem_of_fmap. by exists (to_row kr r). }
    apply write_row_keeps; [done|].
    intros Hid'. apply Hid.
    transitivity (row_id r'); [unfold r'; by destruct (to_range a t b)|exact Hid'].
  - intros x (r0 & Hr0 & Hsc0 & Hl0 & Hx0)%elem_of_live_orders.
    apply elem_of_write_row in Hr0 as [->|Hr0].
    + left. simpl in Hx0. congruence.
    + right. apply list_elem_of_fmap in Hr0 as (r1 & -> & Hr1).
      by apply (sibling_before_shift s _ _ (db w) r1 x).
Qed.

End Place.

(** X22. [self.above(ref)] on two live, stored records of one scope with
    different orders completes and leaves the record immediately before the
    reference: in the table after the call its order is smaller than the
    order of the reference, and no live sibling holds an order between the
    two. *)
Theorem above_places_just_before (w : World) (self ref : nat) (s r : Instance)
    (ks kr a b : Z) :
  placeable w self ref s r ks kr a b →
  ordered_table (i_model s) →
  table_typed (i_model s) (db w) →
  NoDup (row_id <$> db w) →
  a ≠ b →
  ∃ w' t u,
    above self ref None w = (Ok tt, w')
    ∧ with_order (Some t) (to_row ks s) ∈ db w'
    ∧ with_order (Some u) (to_row kr r) ∈ db w'
    ∧ t < u
    ∧ ∀ x, x ∈ live_orders s (db w') → ¬ (t < x < u).
Proof.
  intros Hplace Hot Hty Hids Hab.
  rewrite (above_steps w self ref s r ks kr a b Hplace Hot Hab).
  pose proof (self_order_live w self ref s r ks kr a b Hplace) as Ha_live.
  pose proof Hplace as (_ & _ & _ & _ & _ & _ & _ & _ & _ & Ha & Hb & Hrow & Hrow_r).
  destruct (b <? a) eqn:Hlt.
  - apply Z.ltb_lt in Hlt.
    destruct (to_places w self ref s r ks kr a b Hplace Hot Hty b)
      as (w' & Hrun & Hself & Href & Hall); [lia|].
    unfold to_range, to_delta in Href. settle Href.
    exists w', b, (b + 1). split_and!; [done..|lia|]. intros x _. lia.
  - apply Z.ltb_ge in Hlt.
    assert (Ha_in : a ∈ orders_in s (λ x, x <? b) (db w)).
    { apply elem_of_orders_in. split; [done|]. apply Z.ltb_lt. lia. }
    destruct (max_of_spec _ a Ha_in) as (t & Hmax & [Ht_live Ht]%elem_of_orders_in & Hle).
    rewrite Hmax. simpl. apply Z.ltb_lt in Ht.
    assert (Hbest : ∀ x, x ∈ live_orders s (db w) → x < b → x ≤ t).
    { intros x Hx Hxb. apply Hle, elem_of_orders_in. split; [done|]. by apply Z.ltb_lt. }
    pose proof (Hbest a Ha_live) as Hat.
    destruct (decide (t = a)) as [->|Hne].
    + destruct Hplace as (Hs & _). destruct Hot as [Hom _].
      destruct (to_record_run w self s a Hs Hom Ha) as [Hsame _].
      exists w, a, b. split_and!; [done| | |lia|].
      * replace (with_order (Some a) (to_row ks s)) with (to_row ks s); [done|].
        unfold with_order, to_row. simpl. by rewrite Ha.
      * replace (with_order (Some b) (to_row kr r)) with (to_row kr r); [done|].
        unfold with_order, to_row. simpl. by rewrite Hb.
      * intros x Hx [H1 H2]. specialize (Hbest x Hx H2). lia.
    + destruct (to_places w self ref s r ks kr a b Hplace Hot Hty t Hne)
        as (w' & Hrun & Hself & Href & Hall).
      unfold to_range, to_delta in Href, Hall. settle Href.
      rewrite (proj2 (Z.ltb_ge t a)) in Hall by lia.
      exists w', t, b. split_and!; [done..| |lia|].
      * replace (with_order (Some b) (to_row kr r)) with (to_row kr r); [done|].
        unfold with_order, to_row. simpl. by rewrite Hb.
      * intros x Hx [H1 H2]. destruct (Hall x Hx) as [->|(x0 & Hx0 & ->)]; [lia|].
        destruct ((a <? x0) && (x0 <=? t)) eqn:Hr0.
        -- apply andb_true_iff in Hr0 as [_ Hr0%Z.leb_le]. lia.
        -- specialize (Hbest x0 Hx0 H2). lia.
Qed.

(** X23. [self.below(ref)] on two such records completes and leaves the
    record immediately after the reference: in the table after the call its
    order is greater than the order of the reference, and no live sibling
    holds an order between the two. *)
Theorem below_places_just_after (w : World) (self ref : nat) (s r : Instance)
    (ks kr a b : Z) :
  placeable w self ref s r ks kr a b →
  ordered_table (i_model s) →
  table_typed (i_model s) (db w) →
  NoDup (row_id <$> db w) →
  a ≠ b →
  ∃ w' t u,
    below self ref None w = (Ok tt, w')
    ∧ with_order (Some t) (to_row ks s) ∈ db w'
    ∧ with_order (Some u) (to_row kr r) ∈ db w'
    ∧ u < t
    ∧ ∀ x, x ∈ live_orders s (db w') → ¬ (u < x < t).
Proof.
  intros Hplace Hot Hty Hids Hab.
  rewrite (below_steps w self ref s r ks kr a b Hplace Hot Hab).
  pose proof (self_order_live w self ref s r ks kr a b Hplace) as Ha_live.
  pose proof Hplace as (_ & _ & _ & _ & _ & _ & _ & _ & _ & Ha & Hb & Hrow & Hrow_r).
  destruct (b <? a) eqn:Hlt.
  - apply Z.ltb_lt in Hlt.
    assert (Ha_in : a ∈ orders_in s (λ x, b <? x) (db w)).
    { apply elem_of_orders_in. split; [done|]. apply Z.ltb_lt. lia. }
    destruct (min_of_spec _ a Ha_in) as (t & Hmin & [Ht_live Ht]%elem_of_orders_in & Hle).
    rewrite Hmin. simpl. apply Z.ltb_lt in Ht.
    assert (Hbest : ∀ x, x ∈ live_orders s (db w) → b < x → t ≤ x).
    { intros x Hx Hxb. apply Hle, elem_of_orders_in. split; [done|]. by apply Z.ltb_lt. }
    pose proof (Hbest a Ha_live) as Hat.
    destruct (decide (t = a)) as [->|Hne].
    + destruct Hplace as (Hs & _). destruct Hot as [Hom _].
      destruct (to_record_run w self s a Hs Hom Ha) as [Hsame _].
      exists w, a, b. split_and!; [done| | |lia|].
      * replace (with_order (Some a) (to_row ks s)) with (to_row ks s); [done|].
        unfold with_order, to_row. simpl. by rewrite Ha.
      * replace (with_order (Some b) (to_row kr r)) with (to_row kr r); [done|].
        unfold with_order, to_row. simpl. by rewrite Hb.
      * intros x Hx [H1 H2]. specialize (Hbest x Hx H1). lia.
    + destruct (to_places w self ref s r ks kr a b Hplace Hot Hty t Hne)
        as (w' & Hrun & Hself & Href & Hall).
      unfold to_range, to_delta in Href, Hall. settle Href.
      rewrite (proj2 (Z.ltb_lt t a)) in Hall by lia.
      exists w', t, b. split_and!; [done..| |lia|].
      * replace (with_order (Some b) (to_row kr r)) with (to_row kr r); [done|].
        unfold with_order, to_row. simpl. by rewrite Hb.
      * intros x Hx [H1 H2]. destruct (Hall x Hx) as [->|(x0 & Hx0 & ->)]; [lia|].
        destruct ((t <=? x0) && (x0 <? a)) eqn:Hr0.
        -- apply andb_true_iff in Hr0 as [Hr0%Z.leb_le _]. lia.
        -- specialize (Hbest x0 Hx0). lia.
  - apply Z.ltb_ge in Hlt.
    destruct (to_places w self ref s r ks kr a b Hplace Hot Hty b)
      as (w' & Hrun & Hself & Href & Hall); [lia|].
    unfold to_range, to_delta in Href. settle Href.
    exists w', b, (b + -1). split_and!; [done..|lia|]. intros x _. lia.
Qed.

Lemma board_tasks_placeable :
  placeable (Samples.board_world SOFT_DELETE) 0 1
    (of_row (Samples.task SOFT_DELETE 13 1 3 None))
    (of_row (Samples.task SOFT_DELETE 11 1 1 None)) 13 11 3 1
  ∧ placeable (Samples.board_world SOFT_DELETE) 1 0
      (of_row (Samples.task SOFT_DELETE 11 1 1 None))
      (of_row (Samples.task SOFT_DELETE 13 1 3 None)) 11 13 1 3.
Proof.
  split; (split_and!; [reflexivity|reflexivity|reflexivity
                      |by intros f ->%list_elem_of_singleton
                      |reflexivity|reflexivity|reflexivity|reflexivity|lia
                      |reflexivity|reflexivity| | ]);
    simpl; unfold Samples.board_rows; set_solver.
Qed.

Lemma above_places_just_before_witness :
  ∃ w' t u,
    above 0 1 None (Samples.board_world SOFT_DELETE) = (Ok tt, w')
    ∧ with_order (Some t) (Samples.task SOFT_DELETE 13 1 3 None) ∈ db w'
    ∧ with_order (Some u) (Samples.task SOFT_DELETE 11 1 1 None) ∈ db w'
    ∧ t < u
    ∧ ∀ x, x ∈ live_orders (of_row (Samples.task SOFT_DELETE 13 1 3 None)) (db w')
           → ¬ (t < x < u).
Proof.
  destruct board_tasks_placeable as [Hp _].
  destruct board_task_11 as (_ & Hot & _ & Hty & Hids & _).
  apply (above_places_just_before (Samples.board_world SOFT_DELETE) 0 1
           (of_row (Samples.task SOFT_DELETE 13 1 3 None))
           (of_row (Samples.task SOFT_DELETE 11 1 1 None)) 13 11 3 1);
    [exact Hp|exact Hot|exact Hty|exact Hids|lia].
Defined.

Lemma below_places_just_after_witness :
  ∃ w' t u,
    below 1 0 None (Samples.board_world SOFT_DELETE) = (Ok tt, w')
    ∧ with_order (Some t) (Samples.task SOFT_DELETE 11 1 1 None) ∈ db w'
    ∧ with_order (Some u) (Samples.task SOFT_DELETE 13 1 3 None) ∈ db w'
    ∧ u < t
    ∧ ∀ x, x ∈ live_orders (of_row (Samples.task SOFT_DELETE 11 1 1 None)) (db w')
           → ¬ (u < x < t).
Proof.
  destruct board_tasks_placeable as [_ Hp].
  destruct board_task_11 as (_ & Hot & _ & Hty & Hids & _).
  apply (below_places_just_after (Samples.board_world SOFT_DELETE) 1 0
           (of_row (Samples.task SOFT_DELETE 11 1 1 None))
           (of_row (Samples.task SOFT_DELETE 13 1 3 None)) 11 13 1 3);
    [exact Hp|exact Hot|exact Hty|exact Hids|lia].
Defined.

End PlaceFacts.

(** ** [bulk_create]: the orders it hands out *)

Module BulkCreateFacts.
Import Queryset Managers Models Readings WorldFacts OrderingFacts TerminationFacts
  InvariantFacts.

Lemma assign_orders_fwd (objs : list nat) :
  ∀ (insts : list Instance) (n : Z) (w : World),
  NoDup objs →
  at_refs (heap w) objs insts →
  ∃ w', assign_orders objs n w = (Ok tt, w')
        ∧ db w' = db w
        ∧ at_refs (heap w') objs (numbered n insts)
        ∧ ∀ ref, ref ∉ objs → heap w' !! ref = heap w !! ref.
Proof.
  induction objs as [|obj objs IH]; intros insts n w Hnd Hat.
  - apply Forall2_nil_inv_l in Hat as ->. exists w. split_and!; [done..|constructor|done].
  - apply Forall2_cons_inv_l in Hat as (i & insts' & Hi & Hat & ->).
    apply NoDup_cons in Hnd as [Hobj Hnd].
    cbn [assign_orders].
    erewrite bind_ok by (by apply getobj_ok).
    erewrite bind_ok by reflexivity.
    destruct (IH insts' (n + 1) (set_heap (<[obj := set_order (Some n) i]> (heap w)) w))
      as (w' & Hrun & Hdb & Hat' & Hfr); [done|by apply at_refs_insert|].
    exists w'. split_and!; [done|done| |].
    + simpl. constructor; [|done]. rewrite Hfr by done. simpl.
      apply list_lookup_insert_eq. by eapply lookup_lt_Some.
    + intros ref [Hne Hin]%not_elem_of_cons. rewrite Hfr by done. simpl.
      by rewrite list_lookup_insert_ne.
Qed.

Lemma count_scope_snoc (seen : list Instance) (o i : Instance) :
  count_scope (seen ++ [o]) i
  = count_scope seen i + (if bool_decide (instance_key o = instance_key i) then 1 else 0).
Proof.
  unfold count_scope. rewrite List.filter_app, length_app. simpl.
  destruct (bool_decide (instance_key o = instance_key i)); simpl; lia.
Qed.

Lemma count_scope_key (seen : list Instance) (o i : Instance) :
  instance_key o = instance_key i → count_scope seen o = count_scope seen i.
Proof. intros Hk. unfold count_scope. by rewrite Hk. Qed.

Lemma count_scope_nonneg (seen : list Instance) (i : Instance) : 0 ≤ count_scope seen i.
Proof. unfold count_scope. lia. Qed.

Lemma assign_scoped_orders_fwd (m : Model) (d : list Row) (objs : list nat) :
  ordered_model m →
  ∀ (insts seen : list Instance) (mp : gmap (list (option Z)) Z) (w : World),
  NoDup objs →
  at_refs (heap w) objs insts →
  Forall (λ i, i_model i = m) insts →
  db w = d →
  (∀ i, i_model i = m →
        mp !! instance_key i
        = if decide (count_scope seen i = 0) then None
          else Some (next_order i d + count_scope seen i - 1)) →
  ∃ w', assign_scoped_orders (get_queryset m OrderedSafeDeleteManager) (scope_fields m)
          objs mp w = (Ok tt, w')
        ∧ db w' = d
        ∧ at_refs (heap w') objs (scoped_orders d seen insts)
        ∧ ∀ ref, ref ∉ objs → heap w' !! ref = heap w !! ref.
Proof.
  intros Hom. induction objs as [|obj objs IH]; intros insts seen mp w Hnd Hat Hms Hdb Hmp.
  - apply Forall2_nil_inv_l in Hat as ->. exists w. split_and!; [done..|constructor|done].
  - apply Forall2_cons_inv_l in Hat as (o & insts' & Ho & Hat & ->).
    apply NoDup_cons in Hnd as [Hobj Hnd].
    apply Forall_cons in Hms as [Hm Hms].
    cbn [assign_scoped_orders].
    erewrite bind_ok by (by apply getobj_ok).
    change (get_lookup_value o <$> scope_fields m) with (inst_get o <$> scope_fields m).
    assert (Hkey : inst_get o <$> scope_fields m = instance_key o).
    { unfold instance_key. by rewrite Hm. }
    rewrite Hkey.
    set (order := next_order o d + count_scope seen o).
    assert (Horder : match mp !! instance_key o with
                     | Some n => mret (n + 1)
                     | None =>
                         d0 ← gets db;
                         q ← with_qs (get_queryset m OrderedSafeDeleteManager)
                               (filter_by_order_with_respect_to o);
                         with_qs q (get_next_order d0)
                     end w = (Ok order, w)).
    { rewrite (Hmp o Hm). destruct (decide (count_scope seen o = 0)) as [Hc|Hc].
      - erewrite bind_ok by reflexivity.
        erewrite bind_ok by (rewrite <- Hm; apply filter_by_scope_run; by rewrite Hm).
        unfold with_qs. rewrite get_next_order_run, Hdb. unfold order. rewrite Hc.
        by rewrite Z.add_0_r.
      - unfold mret, M_ret, order. do 2 f_equal. lia. }
    erewrite bind_ok by exact Horder.
    erewrite bind_ok by reflexivity.
    destruct (IH insts' (seen ++ [o]) (<[instance_key o := order]> mp)
                (set_heap (<[obj := set_order (Some order) o]> (heap w)) w))
      as (w' & Hrun & Hdb' & Hat' & Hfr); [done|by apply at_refs_insert|done|done| |].
    { intros i Hi. rewrite count_scope_snoc.
      pose proof (count_scope_nonneg seen i) as Hnn.
      destruct (decide (instance_key o = instance_key i)) as [Hk|Hk].
      - rewrite Hk, lookup_insert_eq. rewrite bool_decide_eq_true_2 by done.
        rewrite decide_False by lia. unfold order.
        rewrite (next_order_scope i o d) by (first [congruence | done]).
        rewrite (count_scope_key seen o i Hk). f_equal. lia.
      - rewrite lookup_insert_ne by done. rewrite bool_decide_eq_false_2 by done.
        rewrite Z.add_0_r. by apply Hmp. }
    exists w'. split_and!; [done|done| |].
    + simpl. constructor; [|done]. rewrite Hfr by done. simpl.
      apply list_lookup_insert_eq. by eapply lookup_lt_Some.
    + intros ref [Hne Hin]%not_elem_of_cons. rewrite Hfr by done. simpl.
      by rewrite list_lookup_insert_ne.
Qed.

(** Without scope fields every instance of the table is in one scope. *)
Lemma scoped_orders_unscoped (m : Model) (d : list Row) (n : Z) (insts : list Instance) :
  scope_fields m = [] →
  (∀ i, i_model i = m → next_order i d = n) →
  ∀ seen, Forall (λ i, i_model i = m) seen → Forall (λ i, i_model i = m) insts →
          scoped_orders d seen insts = numbered (n + Z.of_nat (length seen)) insts.
Proof.
  intros Hsf Hn. induction insts as [|i insts IH]; intros seen Hseen Hms; [done|].
  apply Forall_cons in Hms as [Hm Hms]. simpl.
  assert (Hc : count_scope seen i = Z.of_nat (length seen)).
  { unfold count_scope. do 2 f_equal.
    clear -Hseen Hm Hsf. induction Hseen as [|j seen Hj Hseen IH]; [done|].
    simpl. rewrite bool_decide_eq_true_2; [by rewrite IH|].
    unfold instance_key. by rewrite Hj, Hm, Hsf. }
  rewrite Hc, (Hn i Hm). f_equal.
  rewrite IH; [|by apply Forall_app; split; [|constructor]|done].
  rewrite length_app. simpl. f_equal. lia.
Qed.

Lemma scoped_orders_new (m : Model) (d : list Row) (insts : list Instance) :
  ∀ seen, Forall (λ i, i_model i = m ∧ i_pk i = None) insts →
          Forall (λ j, i_model j = m ∧ i_pk j = None) (scoped_orders d seen insts).
Proof.
  induction insts as [|i insts IH]; intros seen H; [constructor|].
  apply Forall_cons in H as [Hi H]. simpl. constructor; [done|by apply IH].
Qed.

Lemma foldr_max_nonneg (l : list Z) : 0 ≤ foldr Z.max 0 l.
Proof. induction l as [|x l IH]; simpl; lia. Qed.

Lemma foldr_max_from (b : Z) (l : list Z) :
  0 ≤ b → foldr Z.max b l = Z.max b (foldr Z.max 0 l).
Proof. intros Hb. induction l as [|x l IH]; simpl; lia. Qed.

Lemma next_pk_snoc (m : Model) (d : list Row) (row : Row) :
  model_name (r_model row) = model_name m →
  r_pk row = next_pk m d →
  next_pk m (d ++ [row]) = next_pk m d + 1.
Proof.
  intros Hm Hk. unfold next_pk in *. rewrite List.filter_app, fmap_app, foldr_app.
  simpl. rewrite bool_decide_eq_true_2 by done. simpl.
  pose proof (foldr_max_nonneg
                (r_pk <$> List.filter
                   (λ r, bool_decide (model_name (r_model r) = model_name m)) d)).
  rewrite foldr_max_from by lia. lia.
Qed.

Lemma QuerySet_bulk_create_fwd (m : Model) (objs : list nat) :
  ∀ (js : list Instance) (w : World),
  NoDup objs →
  at_refs (heap w) objs js →
  Forall (λ j, i_model j = m ∧ i_pk j = None) js →
  ∃ w', QuerySet_bulk_create objs w = (Ok tt, w')
        ∧ db w' = db w ++ new_rows (next_pk m (db w)) js.
Proof.
  unfold QuerySet_bulk_create.
  induction objs as [|obj objs IH]; intros js w Hnd Hat Hms.
  - apply Forall2_nil_inv_l in Hat as ->. exists w. by rewrite app_nil_r.
  - apply Forall2_cons_inv_l in Hat as (j & js' & Hj & Hat & ->).
    apply NoDup_cons in Hnd as [Hobj Hnd].
    apply Forall_cons in Hms as [[Hm Hk] Hms].
    cbn [for_each].
    assert (Hkey : key_of j (db w) = next_pk m (db w)).
    { unfold key_of. by rewrite Hk, Hm. }
    set (w1 := add_log (Saved (to_row (next_pk m (db w)) j))
                 (set_heap (<[obj := set_saved (Some (next_pk m (db w))) j]> (heap w))
                    (set_db (db w ++ [to_row (next_pk m (db w)) j]) w))).
    assert (Hbody : (i ← getobj obj;
                     d ← gets db;
                     let k := key_of i d in
                     if existsb (same_row (i_model i) k) d then raise IntegrityError
                     else
                       put_db (d ++ [to_row k i]);;
                       setobj obj (set_saved (Some k) i);;
                       modify (add_log (Saved (to_row k i)))) w = (Ok tt, w1)).
    { erewrite bind_ok by (by apply getobj_ok).
      erewrite bind_ok by reflexivity.
      cbv zeta. rewrite Hkey, Hm.
      by rewrite (proj1 (fresh_key_exists _ _ _) (next_pk_fresh m (db w))). }
    erewrite bind_ok by exact Hbody.
    destruct (IH js' w1) as (w' & Hrun & Hdb); [done|by apply at_refs_insert|done|].
    exists w'. split; [done|]. rewrite Hdb. simpl.
    rewrite next_pk_snoc by (simpl; first [by rewrite Hm | done]).
    by rewrite <- app_assoc.
Qed.

(** X24. [bulk_create] on the query set of the default manager, given
    distinct new objects of an ordered class, completes and appends one row
    for each object, in order and under consecutive new keys; the order of
    each row is the next order of its scope in the table before the call,
    plus the number of objects of that scope that come earlier in the list,
    whatever order the object held. With no [order_with_respect_to] the
    table is one scope. *)
Theorem bulk_create_numbers_each_scope (m : Model) (w : World) (objs : list nat)
    (insts : list Instance) :
  ordered_model m →
  NoDup objs →
  at_refs (heap w) objs insts →
  Forall (λ i, i_model i = m ∧ i_pk i = None) insts →
  ∃ qs' w',
    bulk_create (get_queryset m OrderedSafeDeleteManager) objs w = (Ok qs', w')
    ∧ db w' = db w ++ new_rows (next_pk m (db w)) (scoped_orders (db w) [] insts).
Proof.
  intros Hom Hnd Hat Hnew.
  assert (Hms : Forall (λ i, i_model i = m) insts).
  { eapply Forall_impl; [exact Hnew|]. by intros i [? _]. }
  unfold bulk_create. simpl.
  assert (Hassign : ∃ w1,
            (if truthy_respect_to (order_with_respect_to m) then
               order_with_respect_to ← _get_order_with_respect_to m;
               assign_scoped_orders (get_queryset m OrderedSafeDeleteManager)
                 order_with_respect_to objs ∅;;
               mret (get_queryset m OrderedSafeDeleteManager)
             else
               d ← gets db;
               '(start, self) ← run_qs (get_queryset m OrderedSafeDeleteManager)
                                  (get_next_order d);
               assign_orders objs start;;
               mret self) w
            = (Ok (set_filter_applied (negb (truthy_respect_to (order_with_respect_to m)))
                     (add_conds (if truthy_respect_to (order_with_respect_to m)
                                 then [] else [DeletedIsNull true])
                        (get_queryset m OrderedSafeDeleteManager))), w1)
            ∧ db w1 = db w
            ∧ at_refs (heap w1) objs (scoped_orders (db w) [] insts)).
  { destruct (truthy_respect_to (order_with_respect_to m)) eqn:Ht.
    - assert (Hfields : _get_order_with_respect_to m w = (Ok (scope_fields m), w)).
      { unfold _get_order_with_respect_to, scope_fields, respect_to_fields. rewrite Ht.
        by destruct (order_with_respect_to m). }
      erewrite bind_ok by exact Hfields.
      destruct (assign_scoped_orders_fwd m (db w) objs Hom insts [] ∅ w)
        as (w1 & Hrun & Hdb & Hat1 & _); [done..| |].
      { intros i Hi. by rewrite lookup_empty. }
      exists w1. erewrite bind_ok by exact Hrun. split_and!; [|done..].
      reflexivity.
    - erewrite bind_ok by reflexivity.
      set (self := get_queryset m OrderedSafeDeleteManager).
      set (n := match max_of (omap r_order
                         (List.filter (λ r, selects self r && live r) (db w))) with
                | Some order => order + 1
                | None => 0
                end).
      assert (Hn : ∀ i, i_model i = m → next_order i (db w) = n).
      { intros i Hm. unfold next_order, n.
        erewrite List.filter_ext; [reflexivity|].
        intros r. simpl. f_equal. unfold same_scope, scope_fields, selects.
        rewrite Hm, Ht. done. }
      erewrite (bind_ok _ _ _ (n, _)).
      2:{ unfold run_qs, get_next_order, get_max_order.
          erewrite bind_ok.
          2:{ erewrite bind_ok by (by apply fetch_run). reflexivity. }
          reflexivity. }
      destruct (assign_orders_fwd objs insts n w) as (w1 & Hrun & Hdb & Hat1 & _); [done..|].
      exists w1. erewrite bind_ok by exact Hrun. split_and!; [done|done|].
      rewrite (scoped_orders_unscoped m (db w) n insts); [| |done|constructor|done].
      + by rewrite Z.add_0_r.
      + unfold scope_fields. by rewrite Ht. }
  destruct Hassign as (w1 & Hrun1 & Hdb1 & Hat1).
  erewrite bind_ok by exact Hrun1.
  destruct (QuerySet_bulk_create_fwd m objs (scoped_orders (db w) [] insts) w1)
    as (w' & Hrun2 & Hdb2); [done|done|by apply scoped_orders_new|].
  erewrite bind_ok by exact Hrun2.
  eexists _, w'. split; [reflexivity|]. by rewrite Hdb2, Hdb1.
Qed.

Lemma bulk_create_numbers_each_scope_witness :
  ∃ qs' w',
    bulk_create (get_queryset (Samples.Task SOFT_DELETE) OrderedSafeDeleteManager)
      [3; 4; 5]%nat (Samples.intake_world SOFT_DELETE) = (Ok qs', w')
    ∧ db w' = db (Samples.intake_world SOFT_DELETE)
              ++ [Samples.task SOFT_DELETE 21 1 4 None;
                  Samples.task SOFT_DELETE 22 2 1 None;
                  Samples.task SOFT_DELETE 23 1 5 None].
Proof.
  apply (bulk_create_numbers_each_scope (Samples.Task SOFT_DELETE)
           (Samples.intake_world SOFT_DELETE) [3; 4; 5]%nat
           [Samples.new_task SOFT_DELETE 1; Samples.new_task SOFT_DELETE 2;
            Samples.new_task SOFT_DELETE 1]).
  - by repeat split.
  - by apply (bool_decide_unpack _).
  - by repeat constructor.
  - by repeat constructor.
Defined.

End BulkCreateFacts.

(** ** [is_safedelete_cls] *)

Module ClassFacts.
Import Queryset Managers Models Readings.

Lemma PyClass_bases_ind (P : PyClass → Prop) :
  (∀ name module_ bases, Forall P bases → P (PyCls name module_ bases)) →
  ∀ c, P c.
Proof.
  intros H.
  refine (fix IH (c : PyClass) : P c :=
            match c with
            | PyCls name module_ bases =>
                H name module_ bases
                  ((fix F (l : list PyClass) : Forall P l :=
                      match l with
                      | [] => @List.Forall_nil _ P
                      | x :: l' => @List.Forall_cons _ P x l' (IH x) (F l')
                      end) bases)
            end).
Qed.

Lemma is_safedelete_cls_bases (c : PyClass) :
  is_safedelete_cls c = true
  ↔ ∃ b, b ∈ cls_bases c ∧ (library_class b = true ∨ is_safedelete_cls b = true).
Proof.
  destruct c as [name module_ bases]. simpl. rewrite existsb_exists.
  split; intros (b & Hb & H); exists b.
  - split; [by apply list_elem_of_In|]. by apply orb_true_iff.
  - split; [by apply list_elem_of_In|]. by apply orb_true_iff.
Qed.

(** X25. [is_safedelete_cls] holds of a class exactly when one of its
    ancestors, a base at any depth, is declared in a module whose name
    starts with [safedelete.models]; the module of the class itself does
    not count. So it holds of every class that has a base of which it
    holds. *)
Theorem is_safedelete_cls_by_ancestors (c : PyClass) :
  (is_safedelete_cls c = true ↔ ∃ a, ancestor a c ∧ library_class a = true)
  ∧ (∀ b, b ∈ cls_bases c → is_safedelete_cls b = true → is_safedelete_cls c = true).
Proof.
  split.
  - split.
    + induction c as [name module_ bases IH] using PyClass_bases_ind.
      intros (b & Hb & [H|H])%is_safedelete_cls_bases.
      * exists b. split; [by constructor|done].
      * rewrite Forall_forall in IH. destruct (IH b Hb H) as (a & Ha & Hlib).
        exists a. split; [|done]. by eapply ancestor_step.
    + intros (a & Ha & Hlib). induction Ha as [b c Hb|a b c Ha IH Hb].
      * apply is_safedelete_cls_bases. exists b. split; [done|by left].
      * apply is_safedelete_cls_bases. exists b. split; [done|]. right. by apply IH.
  - intros b Hb H. apply is_safedelete_cls_bases. exists b. split; [done|by right].
Qed.

End ClassFacts.

(** ** The cascade of [delete] *)

Module CascadeFacts.
Import Queryset Managers Models Readings WorldFacts DeletionFacts OrderingFacts
  TerminationFacts InvariantFacts BulkFacts.

Lemma rewrite_rows_app (g : Z → Row → Row) (l1 l2 : list Row) :
  ∀ (t : Z) (d : list Row),
    rewrite_rows g t (l1 ++ l2) d
    = rewrite_rows g (t + Z.of_nat (length l1)) l2 (rewrite_rows g t l1 d).
Proof.
  induction l1 as [|r l1 IH]; intros t d; simpl.
  - by rewrite Z.add_0_r.
  - rewrite IH. f_equal. lia.
Qed.

Section Cascade.
Variable references : string * Z → string * Z → bool.
Variable can_hard_delete : list Row → Instance → bool.

(** The loop over the related objects, loaded at [base] on: those of a
    safedelete class that are live are soft-deleted, the others skipped. *)
Lemma cascade_loop (fuel : nat) (rs : list Row) :
  let wanted r := is_safedelete_cls (pycls (r_model r)) && live r in
  ∀ (base : nat) (w : World),
    Forall (λ r, ordered (r_model r) = false) rs →
    (∀ j r, rs !! j = Some r → heap w !! (base + j)%nat = Some (of_row r)) →
    ∃ w', for_each (seq base (length rs))
            (delete_related (λ obj p, delete references can_hard_delete (S fuel) obj p None))
            w = (Ok tt, w')
          ∧ db w' = rewrite_rows marked_at (clock w) (List.filter wanted rs) (db w)
          ∧ clock w' = clock w + Z.of_nat (length (List.filter wanted rs))
          ∧ ∀ ref, (ref < base)%nat → heap w' !! ref = heap w !! ref.
Proof.
  intros wanted. induction rs as [|r rs IH]; intros base w Hord Hheap.
  - exists w. split_and!; [done|done|simpl; lia|done].
  - apply Forall_cons in Hord as [Hor Hord].
    assert (Hr : heap w !! base = Some (of_row r)).
    { specialize (Hheap 0%nat r eq_refl). by rewrite Nat.add_0_r in Hheap. }
    cbn [length seq for_each List.filter].
    assert (Hstep : ∃ w1,
              delete_related
                (λ obj p, delete references can_hard_delete (S fuel) obj p None) base w
              = (Ok tt, w1)
              ∧ db w1 = (if wanted r then write_row (marked_at (clock w) r) (db w)
                         else db w)
              ∧ clock w1 = (if wanted r then clock w + 1 else clock w)
              ∧ (∀ ref, ref ≠ base → heap w1 !! ref = heap w !! ref)).
    { unfold delete_related. erewrite bind_ok by (by apply getobj_ok).
      unfold wanted, live. simpl.
      destruct (is_safedelete_cls (pycls (r_model r))); simpl; [|by exists w].
      destruct (r_deleted r) as [t|] eqn:Hd; simpl; [by exists w|].
      erewrite bind_ok by (by apply getobj_ok). simpl. rewrite Hor.
      rewrite (soft_delete_run references can_hard_delete _ w base (Some SOFT_DELETE)
                 (of_row r) Hr eq_refl) by (simpl; by rewrite Hor).
      eexists. split; [reflexivity|]. simpl. split_and!; [|done|].
      - reflexivity.
      - intros ref Hne. by rewrite list_lookup_insert_ne. }
    destruct Hstep as (w1 & Hrun1 & Hdb1 & Hclock1 & Hfr1).
    erewrite bind_ok by exact Hrun1.
    destruct (IH (S base) w1 Hord) as (w' & Hrun & Hdb & Hclock & Hfr).
    { intros j x Hx. rewrite Hfr1 by lia.
      specialize (Hheap (S j) x Hx). by rewrite Nat.add_succ_r in Hheap. }
    exists w'. split; [done|]. rewrite Hdb, Hclock, Hdb1, Hclock1.
    destruct (wanted r); simpl; (split_and!; [done|lia|]);
      intros ref Hlt; rewrite Hfr by lia; apply Hfr1; lia.
Qed.

(** X26. [delete] under SOFT_DELETE_CASCADE, in tables that are not
    ordered, on a live stored record that is not related to itself: the call
    completes; the row of the record and every related row that is live and
    of a safedelete class are soft-deleted, at the time of the call or
    later; every other row stays as it is, none is added or removed. *)
Theorem cascade_marks_the_related_rows (w : World) (self : nat) (i : Instance) (k : Z)
    (force_policy : option Policy) (fuel : nat) :
  heap w !! self = Some i →
  i_pk i = Some k →
  i_deleted i = None →
  to_row k i ∈ db w →
  NoDup (row_id <$> db w) →
  default (_safedelete_policy (i_model i)) force_policy = SOFT_DELETE_CASCADE →
  (∀ r, r ∈ db w → ordered (r_model r) = false) →
  references (model_name (i_model i), k) (model_name (i_model i), k) = false →
  ∃ w', delete references can_hard_delete (S (S fuel)) self force_policy None w = (Ok tt, w')
        ∧ Forall2 (soft_deleted_since (clock w) (cascaded references (i_model i) k))
            (db w) (db w').
Proof.
  intros Hi Hk Hlive Hrow Hids Hpol Hord Hself.
  assert (Hoi : ordered (i_model i) = false) by (by apply (Hord (to_row k i))).
  set (wanted := λ r, is_safedelete_cls (pycls (r_model r)) && live r).
  set (rel := related_rows references i (db w)).
  set (w2 := set_heap (heap w ++ (of_row <$> rel)) w).
  assert (Hrel : ∀ r, r ∈ rel ↔ r ∈ db w
                               ∧ references (row_id r) (model_name (i_model i), k) = true).
  { intros r. unfold rel, related_rows. rewrite Hk.
    by rewrite list_elem_of_In, filter_In, <- list_elem_of_In. }
  destruct (cascade_loop fuel rel (length (heap w)) w2) as (w3 & Hloop & Hdb3 & Hclock3 & Hfr3).
  { apply Forall_forall. intros r [Hr _]%Hrel. by apply Hord. }
  { apply found_objects. }
  assert (Hlen : (self < length (heap w))%nat) by (by eapply lookup_lt_Some).
  assert (Hi3 : heap w3 !! self = Some i).
  { rewrite Hfr3 by done. simpl. by rewrite lookup_app_l. }
  set (sd := λ obj p, delete references can_hard_delete (S fuel) obj p None).
  assert (Hlast : ∃ w', sd self (Some SOFT_DELETE) w3 = (Ok tt, w')
                        ∧ db w' = write_row (marked_at (clock w3) (to_row k i)) (db w3)).
  { unfold sd. cbn [delete]. erewrite bind_ok by (by apply getobj_ok). rewrite Hoi.
    rewrite (soft_delete_run references can_hard_delete _ w3 self (Some SOFT_DELETE) i
               Hi3 eq_refl) by (by rewrite Hoi).
    eexists. split; [reflexivity|]. simpl. unfold key_of. by rewrite Hk. }
  destruct Hlast as (w' & Hrun' & Hdb').
  exists w'. split.
  - cbn [delete]. erewrite bind_ok by (by apply getobj_ok). rewrite Hoi.
    unfold SafeDeleteModel_delete. erewrite bind_ok by (by apply getobj_ok).
    assert (Hp : match force_policy with
                 | Some p => p
                 | None => _safedelete_policy (i_model i)
                 end = SOFT_DELETE_CASCADE) by (by destruct force_policy).
    rewrite Hp.
    erewrite bind_ok.
    2:{ unfold related_objects. erewrite bind_ok by (by apply getobj_ok).
        erewrite bind_ok by reflexivity. reflexivity. }
    rewrite length_fmap. fold rel. fold w2. fold sd.
    erewrite bind_ok by exact Hloop. exact Hrun'.
  - rewrite Hdb', Hdb3. simpl.
    pose proof (rewrite_rows_app marked_at (List.filter wanted rel) [to_row k i]
                  (clock w) (db w)) as Happ.
    change (clock w2) with (clock w) in Hclock3. fold wanted in Hclock3. fold wanted.
    rewrite <- Hclock3 in Happ. cbn [rewrite_rows] in Happ. rewrite <- Happ.
    set (rs := List.filter wanted rel ++ [to_row k i]).
    assert (Hrs : ∀ r, r ∈ rs ↔ (r ∈ rel ∧ wanted r = true) ∨ r = to_row k i).
    { intros r. unfold rs. rewrite elem_of_app, list_elem_of_singleton.
      by rewrite list_elem_of_In, filter_In, <- list_elem_of_In. }
    assert (Hnd : NoDup (row_id <$> rs)).
    { unfold rs. rewrite fmap_app. apply NoDup_app. split_and!.
      - apply filter_ids_NoDup. unfold rel, related_rows. rewrite Hk.
        by apply filter_ids_NoDup.
      - intros x (r & -> & [Hr _]%list_elem_of_In%filter_In)%list_elem_of_fmap.
        apply list_elem_of_In, Hrel in Hr as [Hr Href].
        intros Hx%list_elem_of_singleton.
        assert (r = to_row k i) as -> by (by apply (unique_ids (db w))).
        unfold row_id in Href. simpl in Href. congruence.
      - simpl. apply NoDup_singleton. }
    pose proof (rewrite_rows_spec marked_at rs (λ _ _, eq_refl) (clock w) (db w) Hids Hnd)
      as Hspec.
    apply Forall2_same_length_lookup.
    apply Forall2_same_length_lookup in Hspec as [Hlen' Hspec].
    2:{ intros r [[[Hr _]%Hrel _]| ->]%Hrs; done. }
    split; [done|]. intros n x y Hx Hy. specialize (Hspec n x y Hx Hy).
    apply list_elem_of_lookup_2 in Hx. cbv beta in Hspec.
    unfold soft_deleted_since.
    assert (Hhit : cascaded references (i_model i) k x = true
                   ↔ row_id x ∈ row_id <$> rs).
    { unfold cascaded. rewrite orb_true_iff, !andb_true_iff, bool_decide_eq_true. split.
      - intros [[[Href Hsd] Hl]|Hid]; apply list_elem_of_fmap; exists x; (split; [done|]);
          apply Hrs.
        + left. split; [by apply Hrel|]. unfold wanted. by rewrite Hsd, Hl.
        + right. by apply (unique_ids (db w)).
      - intros (r & Hid & [[[Hr Href]%Hrel Hw]| ->]%Hrs)%list_elem_of_fmap.
        + assert (x = r) as -> by (by apply (unique_ids (db w))).
          apply andb_true_iff in Hw as [Hsd Hl]. by left.
        + by right. }
    destruct (cascaded references (i_model i) k x) eqn:Hc.
    + rewrite bool_decide_eq_true_2 in Hspec by (by apply Hhit). done.
    + rewrite bool_decide_eq_false_2 in Hspec; [done|].
      intros Hin%Hhit. done.
Qed.

End Cascade.

Lemma cascade_marks_the_related_rows_witness :
  ∃ w', delete Samples.comments_of_articles Samples.always_can 2 0
          (Some SOFT_DELETE_CASCADE) None Samples.commented_world = (Ok tt, w')
        ∧ Forall2 (soft_deleted_since 100
                     (cascaded Samples.comments_of_articles Samples.Article 1))
            [Samples.comment 2 None; Samples.article 1 7 None;
             Samples.comment 3 (Some 40)] (db w').
Proof.
  apply (cascade_marks_the_related_rows Samples.comments_of_articles Samples.always_can
           Samples.commented_world 0 (of_row (Samples.article 1 7 None)) 1
           (Some SOFT_DELETE_CASCADE) 0);
    [reflexivity|reflexivity|reflexivity| |by apply (bool_decide_unpack _)|reflexivity
    | |reflexivity].
  - simpl. right. left.
  - intros r Hr. simpl in Hr.
    repeat (apply elem_of_cons in Hr as [->|Hr]; [reflexivity|]).
    by apply not_elem_of_nil in Hr.
Defined.

Section CascadeBack.
Variable policy_truthy : Policy → bool.
Variable references : string * Z → string * Z → bool.

(** The loop over the related objects, loaded at [base] on: those of a
    safedelete class that are soft-deleted are restored, the others
    skipped. *)
Lemma cascade_undelete_loop (fuel : nat) (rs : list Row) :
  let wanted r := is_safedelete_cls (pycls (r_model r)) && negb (live r) in
  ∀ (base : nat) (w : World),
    Forall (λ r, (ordered (r_model r) = true → is_Some (r_order r))
                 ∧ (wanted r = true
                    → _safedelete_policy (r_model r) ≠ SOFT_DELETE_CASCADE)) rs →
    (∀ j r, rs !! j = Some r → heap w !! (base + j)%nat = Some (of_row r)) →
    ∃ w', for_each (seq base (length rs))
            (undelete_related policy_truthy references (S fuel)) w = (Ok tt, w')
          ∧ db w' = rewrite_rows (λ _, restored) (clock w) (List.filter wanted rs) (db w)
          ∧ clock w' = clock w
          ∧ ∀ ref, (ref < base)%nat → heap w' !! ref = heap w !! ref.
Proof.
  intros wanted. induction rs as [|r rs IH]; intros base w Hrs Hheap.
  - exists w. by split_and!.
  - apply Forall_cons in Hrs as [[Hor Hpol] Hrs].
    assert (Hr : heap w !! base = Some (of_row r)).
    { specialize (Hheap 0%nat r eq_refl). by rewrite Nat.add_0_r in Hheap. }
    cbn [length seq for_each List.filter].
    assert (Hstep : ∃ w1,
              undelete_related policy_truthy references (S fuel) base w = (Ok tt, w1)
              ∧ db w1 = (if wanted r then write_row (restored r) (db w) else db w)
              ∧ clock w1 = clock w
              ∧ (∀ ref, ref ≠ base → heap w1 !! ref = heap w !! ref)).
    { unfold undelete_related. erewrite bind_ok by (by apply getobj_ok).
      revert Hpol. unfold wanted, live. simpl.
      destruct (is_safedelete_cls (pycls (r_model r))); simpl; [|by exists w].
      destruct (r_deleted r) as [t|] eqn:Hd; simpl; [|by exists w].
      intros Hpol. specialize (Hpol eq_refl).
      erewrite bind_ok by (by apply getobj_ok). simpl. rewrite Hd. simpl.
      erewrite bind_ok by reflexivity.
      erewrite bind_ok.
      2:{ rewrite (save_dispatch w base (of_row r) false Hr) by done.
          apply (save_undeleting_run w base (of_row r) Hr). }
      rewrite bool_decide_eq_false_2 by done.
      eexists. split; [reflexivity|]. simpl. split_and!; [|done|].
      - reflexivity.
      - intros ref Hne. by rewrite list_lookup_insert_ne. }
    destruct Hstep as (w1 & Hrun1 & Hdb1 & Hclock1 & Hfr1).
    erewrite bind_ok by exact Hrun1.
    destruct (IH (S base) w1 Hrs) as (w' & Hrun & Hdb & Hclock & Hfr).
    { intros j x Hx. rewrite Hfr1 by lia.
      specialize (Hheap (S j) x Hx). by rewrite Nat.add_succ_r in Hheap. }
    exists w'. split; [done|]. rewrite Hdb, Hclock, Hdb1, Hclock1.
    destruct (wanted r); simpl; (split_and!; [|done|]);
      try (intros ref Hlt; rewrite Hfr by lia; apply Hfr1; lia); [|done].
    by rewrite (rewrite_rows_const restored (clock w + 1) (clock w)).
Qed.

(** X27. [undelete] under SOFT_DELETE_CASCADE on a stored soft-deleted
    record, when the related soft-deleted rows of safedelete classes are of
    classes that do not cascade themselves: the call completes; the row of
    the record and every such related row are restored, whenever they were
    soft-deleted; every other row stays as it is, none is added or removed
    and the clock is not read. In ordered tables the rows hold an order. *)
Theorem cascade_restores_the_related_rows (w : World) (self : nat) (i : Instance)
    (k t : Z) (force_policy : option Policy) (fuel : nat) :
  heap w !! self = Some i →
  i_pk i = Some k →
  i_deleted i = Some t →
  to_row k i ∈ db w →
  NoDup (row_id <$> db w) →
  match force_policy with
  | Some p => if policy_truthy p then p else _safedelete_policy (i_model i)
  | None => _safedelete_policy (i_model i)
  end = SOFT_DELETE_CASCADE →
  (∀ r, r ∈ db w → ordered (r_model r) = true → is_Some (r_order r)) →
  (∀ r, r ∈ db w → row_id r ≠ (model_name (i_model i), k) →
        references (row_id r) (model_name (i_model i), k) = true →
        is_safedelete_cls (pycls (r_model r)) = true → live r = false →
        _safedelete_policy (r_model r) ≠ SOFT_DELETE_CASCADE) →
  ∃ w', undelete policy_truthy references (S (S fuel)) self force_policy w = (Ok tt, w')
        ∧ Forall2 (restored_where (uncascaded references (i_model i) k)) (db w) (db w')
        ∧ clock w' = clock w.
Proof.
  intros Hi Hk Hdel Hrow Hids Hpol Hord Hrel.
  set (m := i_model i).
  set (row := restored (to_row k i)).
  set (f := λ x, if same_row (r_model row) (r_pk row) x then row else x).
  set (j := set_saved (Some k) (set_deleted None i)).
  set (w1 := {| db := f <$> db w; heap := <[self := j]> (heap w);
                log := log w ++ Saved row
                         :: (if negb (k =? 0) then [Sent post_undelete j] else []);
                clock := clock w |}).
  assert (Hsave : save self false w = (Ok tt, w1)).
  { rewrite (save_dispatch w self i false Hi).
    2:{ intros Ho. by apply (Hord (to_row k i)). }
    rewrite (save_undeleting_run w self i Hi). unfold key_of. rewrite Hk, Hdel. simpl.
    unfold w1. do 2 f_equal. by apply (write_row_stored row _ (to_row k i)). }
  assert (Hj : heap w1 !! self = Some j).
  { simpl. apply list_lookup_insert_eq. by eapply lookup_lt_Some. }
  set (wanted := λ r, is_safedelete_cls (pycls (r_model r)) && negb (live r)).
  set (rel := related_rows references j (db w1)).
  assert (Hf : ∀ y, y ∈ db w1 →
             (y = row ∨ (y ∈ db w ∧ row_id y ≠ (model_name m, k)))).
  { intros y (x & -> & Hx)%list_elem_of_fmap. unfold f.
    rewrite same_row_id. case_bool_decide as Hid; [by left|right]. done. }
  assert (Hrel1 : ∀ r, r ∈ rel ↔ r ∈ db w1
                               ∧ references (row_id r) (model_name m, k) = true).
  { intros r. unfold rel, related_rows. simpl.
    by rewrite list_elem_of_In, filter_In, <- list_elem_of_In. }
  destruct (cascade_undelete_loop fuel rel (length (heap w1))
              (set_heap (heap w1 ++ (of_row <$> rel)) w1))
    as (w' & Hloop & Hdb' & Hclock' & _).
  { apply Forall_forall. intros r [Hr Href]%Hrel1.
    destruct (Hf r Hr) as [->|[Hr' Hne]].
    - split; [intros Ho; by apply (Hord (to_row k i))|].
      unfold row, live. simpl. by rewrite andb_false_r.
    - split; [by apply Hord|]. intros [Hsd Hl%negb_true_iff]%andb_true_iff.
      by apply Hrel. }
  { apply found_objects. }
  exists w'. split_and!.
  - cbn [undelete]. erewrite bind_ok by (by apply getobj_ok). rewrite Hdel. simpl.
    erewrite bind_ok by reflexivity.
    erewrite bind_ok by exact Hsave.
    fold m in Hpol. fold m. rewrite Hpol. rewrite bool_decide_eq_true_2 by done.
    erewrite bind_ok.
    2:{ unfold related_objects. erewrite bind_ok by (by apply getobj_ok).
        erewrite bind_ok by reflexivity. reflexivity. }
    rewrite length_fmap. exact Hloop.
  - rewrite Hdb'. simpl.
    assert (Hids1 : NoDup (row_id <$> (f <$> db w))).
    { replace (row_id <$> (f <$> db w)) with (row_id <$> db w); [done|].
      rewrite <- list_fmap_compose. apply list_fmap_ext. intros n x _. simpl.
      unfold f. rewrite same_row_id. by case_bool_decide. }
    assert (H1 : Forall2 (restored_where (λ x, bool_decide (row_id x = (model_name m, k))))
                   (db w) (f <$> db w)).
    { apply Forall2_fmap_r, Forall_Forall2_diag, Forall_forall. intros x Hx.
      unfold compose, restored_where, f. rewrite same_row_id. cbv beta.
      change (model_name (r_model row), r_pk row) with (model_name m, k).
      case_bool_decide as Hid; [|done].
      by rewrite (unique_ids (db w) x (to_row k i) Hids Hx Hrow Hid). }
    set (rs := List.filter wanted rel).
    assert (Hrs : ∀ r, r ∈ rs ↔ r ∈ rel ∧ wanted r = true).
    { intros r. unfold rs. by rewrite list_elem_of_In, filter_In, <- list_elem_of_In. }
    assert (Hnd : NoDup (row_id <$> rs)).
    { apply filter_ids_NoDup. unfold rel, related_rows. simpl.
      by apply filter_ids_NoDup. }
    pose proof (rewrite_rows_spec (λ _, restored) rs (λ _ _, eq_refl) (clock w)
                  (f <$> db w) Hids1 Hnd) as H2.
    specialize (H2 (λ r Hr, proj1 (proj1 (Hrel1 r) (proj1 (proj1 (Hrs r) Hr))))).
    apply Forall2_same_length_lookup. split.
    { etrans; [exact (Forall2_length _ _ _ H1)|exact (Forall2_length _ _ _ H2)]. }
    intros n x z Hx Hz.
    destruct (Forall2_lookup_l _ _ _ _ _ H1 Hx) as (y & Hy & Hxy).
    pose proof (Forall2_lookup_lr _ _ _ _ _ _ H2 Hy Hz) as Hyz.
    apply list_elem_of_lookup_2 in Hx, Hy. cbv beta in Hyz.
    unfold restored_where in *. unfold uncascaded. fold m. cbv beta in Hxy.
    assert (Hin : row_id y ∈ row_id <$> rs
                  ↔ references (row_id y) (model_name m, k) && wanted y = true).
    { rewrite andb_true_iff. split.
      - intros (r & Hidr & Hr)%list_elem_of_fmap.
        pose proof Hr as [[Hr1 Href]%Hrel1 Hw]%Hrs.
        by rewrite (unique_ids _ y r Hids1 Hy Hr1 Hidr).
      - intros [Href Hw]. apply list_elem_of_fmap. exists y. split; [done|].
        apply Hrs. split; [|done]. by apply Hrel1. }
    destruct (decide (row_id x = (model_name m, k))) as [Hid|Hid].
    + rewrite (bool_decide_eq_true_2 (row_id x = _)) in Hxy |- * by done.
      subst y. rewrite orb_true_r.
      rewrite bool_decide_eq_false_2 in Hyz; [done|].
      intros [_ Hw]%Hin%andb_true_iff. unfold wanted, live in Hw. simpl in Hw.
      by rewrite andb_false_r in Hw.
    + rewrite (bool_decide_eq_false_2 (row_id x = _)) in Hxy |- * by done.
      subst y. rewrite orb_false_r. rewrite <- andb_assoc. fold (wanted x).
      destruct (references (row_id x) (model_name m, k) && wanted x) eqn:Hhit.
      * rewrite bool_decide_eq_true_2 in Hyz by (by apply Hin).
        by destruct Hyz as (? & _ & ->).
      * rewrite bool_decide_eq_false_2 in Hyz; [done|].
        intros ?%Hin. congruence.
  - by rewrite Hclock'.
Qed.

End CascadeBack.

Lemma cascade_restores_the_related_rows_witness :
  ∃ w', undelete Samples.all_truthy Samples.sequel_of_first 2 0
          (Some SOFT_DELETE_CASCADE) Samples.series_world = (Ok tt, w')
        ∧ Forall2 (restored_where (uncascaded Samples.sequel_of_first Samples.Article 1))
            [Samples.article 1 7 (Some 50); Samples.article 2 8 (Some 40);
             Samples.article 3 9 (Some 40)] (db w')
        ∧ clock w' = 100.
Proof.
  apply (cascade_restores_the_related_rows Samples.all_truthy Samples.sequel_of_first
           Samples.series_world 0 (of_row (Samples.article 1 7 (Some 50))) 1 50
           (Some SOFT_DELETE_CASCADE) 0);
    [reflexivity|reflexivity|reflexivity|by left|by apply (bool_decide_unpack _)
    |reflexivity| | ].
  - intros r Hr. simpl in Hr.
    repeat (apply elem_of_cons in Hr as [->|Hr]; [by intros [=]|]).
    by apply not_elem_of_nil in Hr.
  - intros r Hr. simpl in Hr.
    repeat (apply elem_of_cons in Hr as [->|Hr]; [by intros _ _ _ _ [=]|]).
    by apply not_elem_of_nil in Hr.
Defined.

End CascadeFacts.

(** ** Which siblings [to] and [delete] shift *)

Module ShiftFacts.
Import Queryset Managers Models Readings WorldFacts DeletionFacts OrderingFacts
  TerminationFacts InvariantFacts ExtremeFacts PlaceFacts.

(** What [shift_rows] does to each row. *)
Lemma shift_rows_moves (i : Instance) (range : Z → bool) (delta : Z) (d : list Row)
    (r : Row) (x : Z) :
  r ∈ d → r_order r = Some x → same_scope i r = true → live r = true → range x = true →
  with_order (Some (x + delta)) r ∈ shift_rows i range delta d.
Proof.
  intros Hr Hx Hs Hl Hx'. apply list_elem_of_fmap. exists r. split; [|done].
  unfold shift_row. by rewrite Hx, Hs, Hl, Hx'.
Qed.

Lemma shift_rows_leaves (i : Instance) (range : Z → bool) (delta : Z) (d : list Row)
    (r : Row) :
  r ∈ d →
  live r = false ∨ same_scope i r = false ∨ (∀ x, r_order r = Some x → range x = false) →
  r ∈ shift_rows i range delta d.
Proof.
  intros Hr H. apply list_elem_of_fmap. exists r. split; [|done].
  unfold shift_row. destruct (r_order r) as [x|]; [|done].
  destruct H as [->|[->|H]].
  - by rewrite andb_false_r.
  - done.
  - rewrite (H x) by done. by rewrite andb_false_r.
Qed.

Lemma shift_rows_from (i : Instance) (range : Z → bool) (delta : Z) (d : list Row)
    (r' : Row) :
  r' ∈ shift_rows i range delta d →
  r' ∈ d ∨ ∃ r x, r ∈ d ∧ r_order r = Some x ∧ range x = true
                  ∧ r' = with_order (Some (x + delta)) r.
Proof.
  intros (r & -> & Hr)%list_elem_of_fmap. unfold shift_row.
  destruct (r_order r) as [x|] eqn:Hx; [|by left].
  destruct (same_scope i r && live r) eqn:Hs; [|by left]. simpl.
  destruct (range x) eqn:Hx'; [|by left].
  right. by exists r, x.
Qed.

(** C9. [to(target)] on a record of an ordered class without
    [order_class_path], holding an order: nothing changes when the record is
    already at the target. Otherwise, for orders that the column holds,
    every sibling that is not soft-deleted and whose order lies between the
    record's position (excluded) and the target (included) moves by one
    towards the position the record leaves, every other row keeps its order,
    and the record is saved with the target as its order. The soft-deleted
    rows stay as they are, and every order written is one the column
    holds. *)
Theorem to_moves_live_siblings (w : World) (self : nat) (i : Instance) (s : Z) :
  heap w !! self = Some i →
  ordered_model (i_model i) →
  i_order i = Some s →
  storable_order s →
  to self (PyInt s) None w = (Ok tt, w)
  ∧ (∀ t, t ≠ s → storable_order t →
       let moved := set_deleted None (set_order (Some t) i) in
       let k := key_of i (db w) in
       ∃ w', to self (PyInt t) None w = (Ok tt, w')
             ∧ db w' = write_row (to_row k moved)
                         (shift_rows i (to_range s t) (to_delta s t) (db w))
             ∧ heap w' !! self = Some (set_saved (Some k) moved)
             ∧ (∀ r, r ∈ db w → live r = false →
                     row_id r ≠ (model_name (i_model i), k) → r ∈ db w')
             ∧ (∀ r', r' ∈ db w' →
                      r' ∈ db w ∨ ∃ x, r_order r' = Some x ∧ storable_order x)).
Proof.
  intros Hi Hm Ho Hs.
  destruct (to_record_run w self i s Hi Hm Ho) as [Hsame Hmove].
  split; [done|]. intros t Hne Ht moved k.
  destruct (Hmove t Hne) as (w' & Hrun & Hdb & Hheap).
  exists w'. split_and!; [done..| |].
  - intros r Hr Hl Hid. rewrite Hdb. apply write_row_keeps; [|done].
    apply shift_rows_leaves; [done|by left].
  - intros r' Hr'. rewrite Hdb in Hr'.
    apply elem_of_write_row in Hr' as [->|Hr'].
    { right. exists t. by split. }
    apply shift_rows_from in Hr' as [?|(r & x & Hr & Hx & Hin & ->)]; [by left|].
    right. exists (x + to_delta s t). split; [done|].
    unfold to_range, to_delta, storable_order in *.
    destruct (t <? s) eqn:Hts; lia.
Qed.

Lemma to_moves_live_siblings_witness :
  to 0%nat (PyInt 3) None (Samples.board_world SOFT_DELETE)
  = (Ok tt, Samples.board_world SOFT_DELETE)
  ∧ ∃ w', to 0%nat (PyInt 1) None (Samples.board_world SOFT_DELETE) = (Ok tt, w')
          ∧ db w' = [Samples.task SOFT_DELETE 10 1 0 None;
                     Samples.task SOFT_DELETE 11 1 2 None;
                     Samples.task SOFT_DELETE 12 1 3 None;
                     Samples.task SOFT_DELETE 13 1 1 None;
                     Samples.task SOFT_DELETE 20 2 0 None]
          ∧ heap w' !! 0%nat = Some (of_row (Samples.task SOFT_DELETE 13 1 1 None)).
Proof.
  destruct (to_moves_live_siblings (Samples.board_world SOFT_DELETE) 0%nat
              (of_row (Samples.task SOFT_DELETE 13 1 3 None)) 3) as [H0 H1];
    [reflexivity | by repeat split | reflexivity | by (unfold storable_order; lia) |].
  split; [exact H0|].
  destruct (H1 1) as (w' & Hrun & Hdb & Hheap & _);
    [discriminate | by (unfold storable_order; lia) |].
  exists w'. by split_and!.
Defined.

(** On a board where the task at order 2 is soft-deleted, [to(1)] on the
    task at order 3 moves the live task from 1 to 2 and leaves the
    soft-deleted one at 2: not every row of the scope from the target up to
    the record has moved. *)
Lemma to_shifts_every_sibling_counterexample :
  ∃ w', to 0%nat (PyInt 1) None (Samples.archived_world SOFT_DELETE) = (Ok tt, w')
        ∧ db w' = [Samples.task SOFT_DELETE 10 1 0 None;
                   Samples.task SOFT_DELETE 11 1 2 None;
                   Samples.task SOFT_DELETE 12 1 2 (Some 50);
                   Samples.task SOFT_DELETE 13 1 1 None;
                   Samples.task SOFT_DELETE 20 2 0 None]
        ∧ db w' ≠ write_row (Samples.task SOFT_DELETE 13 1 1 None)
                    (shift_every (of_row (Samples.task SOFT_DELETE 13 1 3 None))
                       (to_range 3 1) (to_delta 3 1)
                       (db (Samples.archived_world SOFT_DELETE))).
Proof.
  eexists. split; [vm_compute; reflexivity|]. split; [reflexivity|].
  vm_compute. intros H. discriminate H.
Qed.

(** C10. [delete] on a record of an ordered class without
    [order_class_path], holding an order that the column holds: the call
    first decrements the order of every sibling of strictly greater order
    that is not soft-deleted, and only then runs [SafeDeleteModel.delete],
    whatever the policy. The soft-deleted rows, the rows of other scopes and
    the rows that are not above the record are not touched by that step, and
    a decremented order is one the column holds when the order it replaces
    is. Under NO_DELETE nothing else happens: the instance, its row, the log
    and the clock are as before, and the live siblings above have moved
    down. *)
Theorem delete_shifts_live_siblings references can_hard_delete
    (w : World) (self : nat) (force_policy : option Policy) (fuel : nat)
    (i : Instance) (o : Z) :
  heap w !! self = Some i →
  ordered_model (i_model i) →
  i_order i = Some o →
  storable_order o →
  let shifted := shift_rows i (λ x, o <? x) (-1) (db w) in
  delete references can_hard_delete (S fuel) self force_policy None w
  = SafeDeleteModel_delete references can_hard_delete
      (λ obj p, delete references can_hard_delete fuel obj p None)
      self force_policy (set_db shifted w)
  ∧ (∀ r x, r ∈ db w → r_order r = Some x → same_scope i r = true → live r = true →
            o < x →
            with_order (Some (x - 1)) r ∈ shifted
            ∧ (storable_order x → storable_order (x - 1)))
  ∧ (∀ r, r ∈ db w →
          live r = false ∨ same_scope i r = false ∨ (∀ x, r_order r = Some x → x ≤ o) →
          r ∈ shifted)
  ∧ (default (_safedelete_policy (i_model i)) force_policy = NO_DELETE →
     delete references can_hard_delete (S fuel) self force_policy None w
     = (Ok tt, set_db shifted w)).
Proof.
  intros Hi Hm Ho Hso shifted.
  pose proof (ordered_delete_dispatch references can_hard_delete w self force_policy
                fuel i o Hi Hm Ho) as Hrun.
  fold shifted in Hrun.
  split_and!; [done| | |].
  - intros r x Hr Hx Hs Hl Hlt. split.
    + apply (shift_rows_moves i (λ x, o <? x) (-1) (db w) r x); try done.
      by apply Z.ltb_lt.
    + unfold storable_order in *. lia.
  - intros r Hr H. apply shift_rows_leaves; [done|].
    destruct H as [H|[H|H]]; [by left|by right; left|right; right].
    intros x Hx. apply Z.ltb_ge. by apply H.
  - intros Hp. rewrite Hrun. unfold SafeDeleteModel_delete.
    erewrite bind_ok by (by apply getobj_ok).
    destruct force_policy as [p|]; simpl in Hp; by rewrite Hp.
Qed.

Lemma delete_shifts_live_siblings_witness :
  delete Samples.no_references Samples.always_can 1 1%nat None None
    (Samples.archived_world NO_DELETE)
  = (Ok tt,
     set_db [Samples.task NO_DELETE 10 1 0 None; Samples.task NO_DELETE 11 1 1 None;
             Samples.task NO_DELETE 12 1 2 (Some 50); Samples.task NO_DELETE 13 1 2 None;
             Samples.task NO_DELETE 20 2 0 None]
       (Samples.archived_world NO_DELETE)).
Proof.
  apply (delete_shifts_live_siblings Samples.no_references Samples.always_can
           (Samples.archived_world NO_DELETE) 1%nat None 0%nat
           (of_row (Samples.task NO_DELETE 11 1 1 None)) 1);
    [reflexivity | by repeat split | reflexivity | by (unfold storable_order; lia)
    | reflexivity].
Defined.

(** On the same board, [delete] under NO_DELETE on the task at order 1
    moves the live task from 3 to 2 and leaves the soft-deleted one at 2: not
    every row of the scope above the record has moved down. *)
Lemma delete_shifts_every_sibling_counterexample :
  ∃ w', delete Samples.no_references Samples.always_can 1 1%nat None None
          (Samples.archived_world NO_DELETE) = (Ok tt, w')
        ∧ Samples.task NO_DELETE 12 1 2 (Some 50) ∈ db w'
        ∧ db w' ≠ shift_every (of_row (Samples.task NO_DELETE 11 1 1 None))
                    (λ x, 1 <? x) (-1) (db (Samples.archived_world NO_DELETE)).
Proof.
  eexists. split; [vm_compute; reflexivity|]. split.
  - simpl. do 2 right. left.
  - vm_compute. intros H. discriminate H.
Qed.

(** With [order_class_path] set, [get_ordering_queryset] calls
    [import_string], a name that [models.py] never imports: [to] and
    [delete] stop there, before any row is touched. *)
Example class_path_stops_to_and_delete :
  to 0%nat (PyInt 1) None Samples.path_world = (Raise NameError, Samples.path_world)
  ∧ delete Samples.no_references Samples.always_can 2 0%nat None None Samples.path_world
    = (Raise NameError, Samples.path_world).
Proof. split; vm_compute; reflexivity. Qed.

End ShiftFacts.
